(** * FileBackupTool: the plain (phase 1), incremental (phase 2) and
    deduplicating (phase 3) backup engines, embedded from
    [src/phase1.cpp], [src/phase2.cpp] and [src/phase3.cpp].

    Layout:
    - machine integers, C++ [std::string] primitives, stream formatting;
    - a model of the Win32 file-system calls the engines use;
    - [Module Phase1]: [FileBackup];
    - [Module Phase2]: [ManifestManager] and [IncrementalBackup];
    - [Module Phase3]: [DeduplicationStore], [DeduplicationIndex] and
      [DeduplicationBackup];
    - the mirror of a source tree, what a run may change, [main];
    - the properties, grouped by engine. *)

From Stdlib Require Import ZArith NArith Ascii DecimalString DecimalZ DecimalPos.
From stdpp Require Import gmap strings list sorting.

Local Open Scope Z_scope.

(* ===================================================================== *)
(** ** Machine integers *)
(* ===================================================================== *)

(** Two's-complement wrap-around of a [bits]-wide signed integer.  The C++
    standard leaves signed overflow undefined; this is what the target
    (MSVC, x86) does. *)
Definition wrap_signed (bits z : Z) : Z :=
  (z + 2 ^ (bits - 1)) mod 2 ^ bits - 2 ^ (bits - 1).

(** [int] and [long long] / [time_t]. *)
Definition int32 : Z → Z := wrap_signed 32.
Definition int64 : Z → Z := wrap_signed 64.

Definition INT_MAX : Z := 2147483647.
Definition LLONG_MIN : Z := - 9223372036854775808.
Definition LLONG_MAX : Z := 9223372036854775807.

(** [size_t] is unsigned 64-bit; [string::npos] is its largest value. *)
Definition npos : N := 18446744073709551615%N.
Definition size_t (n : Z) : N := Z.to_N (n mod 2 ^ 64).

(* ===================================================================== *)
(** ** [std::string] primitives *)
(* ===================================================================== *)

Module Str.

Definition pipe : ascii := "|"%char.
Definition newline : ascii := "010"%char.
Definition backslash : ascii := "\"%char.
Definition slash : ascii := "/"%char.

Definition size (s : string) : N := N.of_nat (String.length s).

(** [size_t] addition and subtraction. *)
Definition plus (a b : N) : N := size_t (Z.of_N a + Z.of_N b).
Definition minus (a b : N) : N := size_t (Z.of_N a - Z.of_N b).

(** [s.empty()] *)
Definition empty (s : string) : bool :=
  match s with EmptyString => true | String _ _ => false end.

(** [s.back()], for a non-empty [s]. *)
Fixpoint back (s : string) : option ascii :=
  match s with
  | EmptyString => None
  | String a EmptyString => Some a
  | String _ s' => back s'
  end.

Fixpoint find_go (c : ascii) (s : string) (i from : N) : N :=
  match s with
  | EmptyString => npos
  | String a s' =>
      if (from <=? i)%N && Ascii.eqb a c then i
      else find_go c s' (i + 1)%N from
  end.

(** [s.find(c, from)]: index of the first [c] at or after [from]. *)
Definition find (s : string) (c : ascii) (from : N) : N := find_go c s 0 from.

Fixpoint drop (k : N) (s : string) : string :=
  match s with
  | EmptyString => EmptyString
  | String a s' => if (k =? 0)%N then s else drop (k - 1) s'
  end.

Fixpoint take (k : N) (s : string) : string :=
  match s with
  | EmptyString => EmptyString
  | String a s' => if (k =? 0)%N then EmptyString else String a (take (k - 1) s')
  end.

(** [s.substr(pos, n)], for [pos <= s.size()] (beyond that the C++
    call throws [std::out_of_range]; no call site of the engines can
    reach that case, see the guards around each use). *)
Definition substr (s : string) (pos n : N) : string := take n (drop pos s).

(** [full.find(base) == 0]: [base] occurs in [full] at index 0. *)
Definition starts_with (full base : string) : bool := String.prefix base full.

Definition is_sep (a : ascii) : bool := Ascii.eqb a backslash || Ascii.eqb a slash.

Fixpoint find_last_sep_go (s : string) (i pos best : N) : N :=
  match s with
  | EmptyString => best
  | String a s' =>
      find_last_sep_go s' (i + 1)%N pos
        (if (i <=? pos)%N && is_sep a then i else best)
  end.

(** [s.find_last_of("\\/", pos)]: the last separator at index [<= pos]. *)
Definition find_last_of_sep (s : string) (pos : N) : N :=
  find_last_sep_go s 0 pos npos.

(** What successive [getline(file, line)] calls deliver: the text cut at
    each newline; a final piece without newline is a line when it is
    not empty. *)
Fixpoint getlines (s : string) : list string :=
  match s with
  | EmptyString => []
  | String a s' =>
      if Ascii.eqb a newline then EmptyString :: getlines s'
      else match getlines s' with
           | [] => [String a EmptyString]
           | l :: ls => String a l :: ls
           end
  end.

Fixpoint mem (c : ascii) (s : string) : bool :=
  match s with
  | EmptyString => false
  | String a s' => Ascii.eqb a c || mem c s'
  end.

Fixpoint concat (ls : list string) : string :=
  match ls with
  | [] => EmptyString
  | l :: ls' => l +:+ concat ls'
  end.

(** No path separator occurs in [s]. *)
Fixpoint no_sep (s : string) : bool :=
  match s with
  | EmptyString => true
  | String a s' => negb (is_sep a) && no_sep s'
  end.

End Str.

(* ===================================================================== *)
(** ** Stream formatting of integers: [operator<<] and [std::stoll] *)
(* ===================================================================== *)

(** [os << v] for a [long long] or [time_t] in the default locale. *)
Definition show_ll (z : Z) : string := NilZero.string_of_int (Z.to_int z).

Definition is_digit (a : ascii) : bool :=
  match Ascii.is_nat a with Some _ => true | None => false end.

Fixpoint skip_spaces (s : string) : string :=
  match s with
  | String a s' => if Ascii.is_space a then skip_spaces s' else s
  | EmptyString => EmptyString
  end.

Fixpoint digit_prefix (s : string) : string :=
  match s with
  | String a s' => if is_digit a then String a (digit_prefix s') else EmptyString
  | EmptyString => EmptyString
  end.

Fixpoint all_digits (s : string) : bool :=
  match s with
  | EmptyString => true
  | String a s' => is_digit a && all_digits s'
  end.

(** [std::stoll(s)]: leading white space, an optional sign, then the
    longest run of decimal digits; what follows is ignored.  [None] is a
    thrown exception: [std::invalid_argument] when there is no digit,
    [std::out_of_range] when the value does not fit a [long long]. *)
Definition stoll (s : string) : option Z :=
  let s1 := skip_spaces s in
  let '(neg, s2) :=
    match s1 with
    | String "-" r => (true, r)
    | String "+" r => (false, r)
    | _ => (false, s1)
    end in
  match digit_prefix s2 with
  | EmptyString => None
  | ds =>
      match NilEmpty.uint_of_string ds with
      | Some u =>
          let v := if neg : bool then - Z.of_uint u else Z.of_uint u in
          if (LLONG_MIN <=? v) && (v <=? LLONG_MAX) then Some v else None
      | None => None
      end
  end.

(* ===================================================================== *)
(** ** The file system behind the Win32 calls *)
(* ===================================================================== *)

(** The destination volume: the directories that exist and the regular
    files with their bytes.  Paths are keyed without trailing separators,
    as Win32 resolves ["D:\Backup\"] and ["D:\Backup"] to one object.
    Apart from that a path is keyed as it is written: Win32 also reads a
    run of separators inside a path as one separator, the keys do not, so
    a path with such a run is the key of its object only as long as
    nothing spells the object differently ([Win32.single_separators]). *)
Record FileSys := mkFS {
  fs_dirs : gset string;
  fs_files : gmap string string;
}.

(** What the engines cannot decide from the file system alone: the
    digest primitive and the calls that fail for external reasons (access
    rights, sharing violations, a full disk), and the depth of the call
    stack. *)
Record Platform := mkPlatform {
  sha256 : string → list Byte.byte;
  sha256_length : ∀ bytes, length (sha256 bytes) = 32%nat;
  mkdir_denied : string → bool;
  copy_denied : string → string → bool;
  open_denied : string → bool;
  stack_limit : nat;
}.

Module Win32.

Fixpoint canon (p : string) : string :=
  match p with
  | EmptyString => EmptyString
  | String a p' =>
      match canon p' with
      | EmptyString => if Str.is_sep a then EmptyString else String a EmptyString
      | r => String a r
      end
  end.

(** No separator of [p] is followed by another one. *)
Fixpoint single_separators (p : string) : bool :=
  match p with
  | EmptyString => true
  | String a p' =>
      match p' with
      | EmptyString => true
      | String b _ => negb (Str.is_sep a && Str.is_sep b) && single_separators p'
      end
  end.

(** The directory holding [p]; [None] when [p] has a single component. *)
Definition parent (p : string) : option string :=
  let q := canon p in
  let i := Str.find_last_of_sep q npos in
  if (i =? npos)%N then None else Some (canon (Str.substr q 0 i)).

Definition parent_exists (p : string) (fs : FileSys) : bool :=
  match parent p with
  | None => true
  | Some EmptyString => true
  | Some q => bool_decide (q ∈ fs_dirs fs)
  end.

Inductive attributes := INVALID_FILE_ATTRIBUTES | FILE_ATTRIBUTE_NORMAL | FILE_ATTRIBUTE_DIRECTORY.

Definition GetFileAttributesA (p : string) (fs : FileSys) : attributes :=
  if bool_decide (canon p ∈ fs_dirs fs) then FILE_ATTRIBUTE_DIRECTORY
  else if bool_decide (is_Some (fs_files fs !! canon p)) then FILE_ATTRIBUTE_NORMAL
  else INVALID_FILE_ATTRIBUTES.

(** [attribs != INVALID_FILE_ATTRIBUTES && (attribs & FILE_ATTRIBUTE_DIRECTORY)] *)
Definition is_directory (a : attributes) : bool :=
  match a with FILE_ATTRIBUTE_DIRECTORY => true | _ => false end.

(** [attribs != INVALID_FILE_ATTRIBUTES && !(attribs & FILE_ATTRIBUTE_DIRECTORY)] *)
Definition is_regular_file (a : attributes) : bool :=
  match a with FILE_ATTRIBUTE_NORMAL => true | _ => false end.

Inductive error := ERROR_SUCCESS | ERROR_ALREADY_EXISTS | ERROR_PATH_NOT_FOUND | ERROR_ACCESS_DENIED.

Section Calls.
Context (P : Platform).

(** [CreateDirectoryA(p, NULL)] with the [GetLastError()] it leaves. *)
Definition CreateDirectoryA (p : string) (fs : FileSys) : error * FileSys :=
  match GetFileAttributesA p fs with
  | INVALID_FILE_ATTRIBUTES =>
      if negb (parent_exists p fs) then (ERROR_PATH_NOT_FOUND, fs)
      else if mkdir_denied P (canon p) then (ERROR_ACCESS_DENIED, fs)
      else (ERROR_SUCCESS, mkFS ({[canon p]} ∪ fs_dirs fs) (fs_files fs))
  | _ => (ERROR_ALREADY_EXISTS, fs)
  end.

(** Can a regular file be created or overwritten at [p]? *)
Definition writable (p : string) (fs : FileSys) : bool :=
  parent_exists p fs && negb (is_directory (GetFileAttributesA p fs)).

(** [CopyFileA(src, dst, FALSE)]; [bytes] is what [src] holds, [None]
    when it cannot be opened for reading. *)
Definition CopyFileA (bytes : option string) (src dst : string) (fs : FileSys)
  : bool * FileSys :=
  match bytes with
  | Some b =>
      if writable dst fs && negb (copy_denied P src dst)
      then (true, mkFS (fs_dirs fs) (<[canon dst := b]> (fs_files fs)))
      else (false, fs)
  | None => (false, fs)
  end.

(** [ofstream file(p); ...; file.close()] writing [text]; [false] when
    [file.is_open()] fails. *)
Definition write_file (p text : string) (fs : FileSys) : bool * FileSys :=
  if writable p fs && negb (open_denied P (canon p))
  then (true, mkFS (fs_dirs fs) (<[canon p := text]> (fs_files fs)))
  else (false, fs).

End Calls.

(** [ifstream file(p)]: the text read, [None] when [file.is_open()] fails. *)
Definition read_file (p : string) (fs : FileSys) : option string :=
  fs_files fs !! canon p.

End Win32.

(* ===================================================================== *)
(** ** The source tree, as [FindFirstFileA]/[FindNextFileA] deliver it *)
(* ===================================================================== *)

(** The fields of [WIN32_FIND_DATAA] the engines read. *)
Record FindData := mkFindData {
  cFileName : string;
  nFileSizeHigh : Z;
  nFileSizeLow : Z;
  dwLowDateTime : Z;
  dwHighDateTime : Z;
}.

(** An entry of a directory listing.  A directory carries the listing that
    [FindFirstFileA(dir + "*")] walks; the empty listing stands for
    [INVALID_HANDLE_VALUE] (the search found nothing or was refused). The
    entries ["."] and [".."] are part of a listing, as on Win32.  A file
    carries the bytes [ReadFile] delivers, [None] when [CreateFileA] or
    the crypto provider refuses. *)
#[warnings="-register-all"] Inductive node :=
| FileNode (fd : FindData) (bytes : option string)
| DirNode (name : string) (listing : list node).

(** What [GetFileAttributesA(sourcePath)] finds at the source root. *)
Inductive source_root :=
| RootMissing
| RootNotADirectory
| RootDirectory (listing : list node).

Definition dot_entry (fileName : string) : bool :=
  bool_decide (fileName = ".") || bool_decide (fileName = "..").

(* ===================================================================== *)
(** ** Helpers the two engines share verbatim *)
(* ===================================================================== *)

(** A call either returns or takes the process down: unbounded recursion
    exhausts the stack, an exception nobody catches ends in
    [std::terminate]. *)
Inductive crash := StackOverflow | UncaughtException.

Inductive outcome (A : Type) :=
| Done (a : A)
| Crash (c : crash).
Arguments Done {A} a.
Arguments Crash {A} c.

Global Instance outcome_ret : MRet outcome := λ A a, Done a.
Global Instance outcome_bind : MBind outcome := λ A B k m,
  match m with
  | Done a => k a
  | Crash c => Crash c
  end.

Section Shared.
Context (P : Platform).

Definition hex_digit (n : N) : ascii :=
  match n with
  | 0 => "0" | 1 => "1" | 2 => "2" | 3 => "3" | 4 => "4" | 5 => "5"
  | 6 => "6" | 7 => "7" | 8 => "8" | 9 => "9" | 10 => "a" | 11 => "b"
  | 12 => "c" | 13 => "d" | 14 => "e" | _ => "f"
  end%N%char.

(** [ss << hex << setw(2) << setfill('0') << (int)hashResult[i]] *)
Definition hex_byte (b : Byte.byte) : string :=
  let n := Byte.to_N b in
  String (hex_digit (n / 16)) (String (hex_digit (n mod 16)) EmptyString).

(** [FileHasher::CalculateHash]: the empty string on any failure. *)
Definition CalculateHash (bytes : option string) : string :=
  match bytes with
  | None => EmptyString
  | Some b => Str.concat (hex_byte <$> sha256 P b)
  end.

Definition NormalizePath (path : string) : string :=
  if negb (Str.empty path) && negb (bool_decide (Str.back path = Some Str.backslash))
  then path +:+ "\" else path.

Definition GetRelativePath (fullPath basePath : string) : string :=
  if Str.starts_with fullPath basePath
  then Str.substr fullPath (Str.size basePath) npos
  else fullPath.

(** [LARGE_INTEGER size; size.LowPart = ...; size.HighPart = ...; size.QuadPart] *)
Definition GetFileSize (fd : FindData) : Z :=
  int64 (nFileSizeHigh fd * 2 ^ 32 + nFileSizeLow fd).

(** [ull.QuadPart / 10000000ULL - 11644473600ULL], converted to [time_t]. *)
Definition GetFileTime (fd : FindData) : Z :=
  int64 ((dwHighDateTime fd * 2 ^ 32 + dwLowDateTime fd) / 10000000 - 11644473600).

(** [CreateDestDirectory], on the two things it touches: the file system
    and [stats.directoriesCreated].  [depth] is the stack left. *)
Fixpoint CreateDestDirectory (depth : nat) (path : string)
    (created : Z) (fs : FileSys) : outcome (bool * Z * FileSys) :=
  match depth with
  | O => Crash StackOverflow
  | S depth' =>
      if Win32.is_directory (Win32.GetFileAttributesA path fs)
      then Done (true, created, fs)
      else
        match Win32.CreateDirectoryA P path fs with
        | (Win32.ERROR_SUCCESS, fs') => Done (true, int32 (created + 1), fs')
        | (Win32.ERROR_ALREADY_EXISTS, _) => Done (true, created, fs)
        | (Win32.ERROR_PATH_NOT_FOUND, _) =>
            let pos := Str.find_last_of_sep path
                         (size_t (Z.of_N (Str.size path) - 2)) in
            if negb (pos =? npos)%N then
              let parentPath := Str.substr path 0 pos in
              '(ok, created1, fs1) ←
                 CreateDestDirectory depth' parentPath created fs;
              if ok : bool then CreateDestDirectory depth' path created1 fs1
              else Done (false, created1, fs1)
            else Done (false, created, fs)
        | _ => Done (false, created, fs)
        end
  end.

End Shared.

Global Arguments CalculateHash : simpl never.
Global Arguments NormalizePath : simpl never.
Global Arguments GetRelativePath : simpl never.
Global Arguments GetFileSize : simpl never.
Global Arguments GetFileTime : simpl never.

(** [std::map] iterates in ascending key order. *)
Definition key_le {V} (a b : string * V) : Prop := String.le a.1 b.1.

Global Instance key_le_dec {V} : RelDecision (@key_le V).
Proof. intros a b. unfold key_le. apply _. Defined.

Definition in_key_order {V} (m : gmap string V) : list (string * V) :=
  merge_sort key_le (map_to_list m).

(* ===================================================================== *)
(** ** Phase 1: [FileBackup] *)
(* ===================================================================== *)

Module Phase1.

Record BackupStats := mkStats {
  filesProcessed : Z;
  filesCopied : Z;
  directoriesCreated : Z;
  errors : Z;
  totalBytes : Z;
}.

Definition no_stats : BackupStats := mkStats 0 0 0 0 0.

Section Engine.
Context (P : Platform).

(** The members the run mutates and the destination volume. *)
Record St := mkSt {
  stats : BackupStats;
  fs : FileSys;
}.

Definition with_stats (f : BackupStats → BackupStats) (st : St) : St :=
  mkSt (f (stats st)) (fs st).
Definition with_fs (f : FileSys) (st : St) : St := mkSt (stats st) f.

Definition inc_filesProcessed (s : BackupStats) : BackupStats :=
  mkStats (int32 (filesProcessed s + 1)) (filesCopied s) (directoriesCreated s)
    (errors s) (totalBytes s).
Definition inc_filesCopied (s : BackupStats) : BackupStats :=
  mkStats (filesProcessed s) (int32 (filesCopied s + 1)) (directoriesCreated s)
    (errors s) (totalBytes s).
Definition set_directoriesCreated (n : Z) (s : BackupStats) : BackupStats :=
  mkStats (filesProcessed s) (filesCopied s) n (errors s) (totalBytes s).
Definition inc_errors (s : BackupStats) : BackupStats :=
  mkStats (filesProcessed s) (filesCopied s) (directoriesCreated s)
    (int32 (errors s + 1)) (totalBytes s).
Definition add_totalBytes (n : Z) (s : BackupStats) : BackupStats :=
  mkStats (filesProcessed s) (filesCopied s) (directoriesCreated s)
    (errors s) (int64 (totalBytes s + n)).

Definition CreateDestDirectory (path : string) (st : St) : outcome (bool * St) :=
  '(ok, created, fs') ←
     CreateDestDirectory P (stack_limit P) path (directoriesCreated (stats st)) (fs st);
  Done (ok, with_fs fs' (with_stats (set_directoriesCreated created) st)).

(** [CopyFileWithProgress]; [bytes] is what [source] holds. *)
Definition CopyFileWithProgress (bytes : option string) (source dest : string)
    (st : St) : bool * St :=
  match Win32.CopyFileA P bytes source dest (fs st) with
  | (true, fs') => (true, with_stats inc_filesCopied (with_fs fs' st))
  | (false, _) => (false, with_stats inc_errors st)
  end.

(** The body of the [do … while (FindNextFileA(…))] loop of
    [BackupDirectory] for a regular file. *)
Definition backup_file (sourceDir destDir : string)
    (fd : FindData) (bytes : option string) (st : St) : St :=
  let fileName := cFileName fd in
  let sourceFullPath := sourceDir +:+ fileName in
  let destFullPath := destDir +:+ fileName in
  let st := with_stats inc_filesProcessed st in
  let fileSize := GetFileSize fd in
  let st := with_stats (add_totalBytes fileSize) st in
  (CopyFileWithProgress bytes sourceFullPath destFullPath st).2.

Definition walk (entry : node → St → outcome St) : list node → St → outcome St :=
  fix go listing st :=
    match listing with
    | [] => Done st
    | n :: rest => st' ← entry n st; go rest st'
    end.

(** [BackupDirectory], given the loop body for the entries of [listing]. *)
Definition BackupDirectory_with (entry : node → St → outcome St)
    (listing : list node) (destDir : string) (st : St) : outcome (bool * St) :=
  match listing with
  | [] => Done (false, with_stats inc_errors st)
  | _ =>
      '(ok, st) ← CreateDestDirectory destDir st;
      if ok : bool then st ← walk entry listing st; Done (true, st)
      else Done (false, with_stats inc_errors st)
  end.

Fixpoint backup_entry (sourceDir destDir : string) (n : node) (st : St)
  {struct n} : outcome St :=
  match n with
  | FileNode fd bytes =>
      if dot_entry (cFileName fd) then Done st
      else Done (backup_file sourceDir destDir fd bytes st)
  | DirNode fileName listing =>
      if dot_entry fileName then Done st
      else
        let sourceFullPath := sourceDir +:+ fileName in
        let destFullPath := destDir +:+ fileName in
        let st := with_stats inc_filesProcessed st in
        '(_, st) ← BackupDirectory_with
                     (backup_entry (sourceFullPath +:+ "\") (destFullPath +:+ "\"))
                     listing (destFullPath +:+ "\") st;
        Done st
  end.

Definition BackupDirectory (sourceDir destDir : string)
    (listing : list node) (st : St) : outcome (bool * St) :=
  BackupDirectory_with (backup_entry sourceDir destDir) listing destDir st.

(** [FileBackup(src, dst).StartBackup()] on a destination volume [fs0],
    with [root] at the source path. *)
Definition StartBackup (src dst : string) (root : source_root) (fs0 : FileSys)
  : outcome (bool * St) :=
  let sourcePath := NormalizePath src in
  let destPath := NormalizePath dst in
  let st := mkSt no_stats fs0 in
  match root with
  | RootMissing => Done (false, st)
  | RootNotADirectory => Done (false, st)
  | RootDirectory listing =>
      BackupDirectory sourcePath destPath listing st
  end.

End Engine.

Global Arguments walk : simpl never.
Global Arguments backup_file : simpl never.

End Phase1.

(* ===================================================================== *)
(** ** Phase 2: [ManifestManager] and [IncrementalBackup] *)
(* ===================================================================== *)

Module Phase2.

Record BackupStats := mkStats {
  filesProcessed : Z;
  filesSkipped : Z;
  filesCopied : Z;
  filesNew : Z;
  filesModified : Z;
  directoriesCreated : Z;
  errors : Z;
  totalBytes : Z;
  bytesCopied : Z;
}.

Definition no_stats : BackupStats := mkStats 0 0 0 0 0 0 0 0 0.

Record FileMetadata := mkMeta {
  hash : string;
  size : Z;
  lastModified : Z;
}.

(** The value [std::map::operator[]] inserts for a missing key. *)
Definition value_initialized : FileMetadata := mkMeta "" 0 0.

(** *** [ManifestManager] *)

Definition manifestPath (backupRoot : string) : string :=
  backupRoot +:+ "\.backup_manifest.txt".

(** One iteration of the [while (getline(file, line))] loop of [Load]. *)
Inductive parsed :=
| Skipped
| Parsed (filepath : string) (meta : FileMetadata)
| Thrown.

Definition parse_line (line : string) : parsed :=
  if Str.empty line then Skipped
  else
    let pos1 := Str.find line Str.pipe 0 in
    let pos2 := Str.find line Str.pipe (Str.plus pos1 1) in
    let pos3 := Str.find line Str.pipe (Str.plus pos2 1) in
    if negb (pos1 =? npos)%N && negb (pos2 =? npos)%N && negb (pos3 =? npos)%N
    then
      let filepath := Str.substr line 0 pos1 in
      let hash := Str.substr line (Str.plus pos1 1)
                    (Str.minus (Str.minus pos2 pos1) 1) in
      match stoll (Str.substr line (Str.plus pos2 1)
                     (Str.minus (Str.minus pos3 pos2) 1)) with
      | None => Thrown
      | Some size =>
          match stoll (Str.substr line (Str.plus pos3 1) npos) with
          | None => Thrown
          | Some timestamp => Parsed filepath (mkMeta hash size timestamp)
          end
      end
    else Skipped.

Fixpoint load_lines (lines : list string) (manifest : gmap string FileMetadata)
  : outcome (gmap string FileMetadata) :=
  match lines with
  | [] => Done manifest
  | line :: rest =>
      match parse_line line with
      | Skipped => load_lines rest manifest
      | Parsed filepath meta => load_lines rest (<[filepath := meta]> manifest)
      | Thrown => Crash UncaughtException
      end
  end.

(** [ManifestManager::Load]: the return value and the map afterwards. *)
Definition Load (path : string) (manifest : gmap string FileMetadata)
    (fs : FileSys) : outcome (bool * gmap string FileMetadata) :=
  match Win32.read_file path fs with
  | None => Done (false, manifest)
  | Some text => m ← load_lines (Str.getlines text) ∅; Done (true, m)
  end.

Definition save_line (entry : string * FileMetadata) : string :=
  entry.1 +:+ "|" +:+ hash entry.2 +:+ "|" +:+ show_ll (size entry.2) +:+ "|"
    +:+ show_ll (lastModified entry.2) +:+ String Str.newline "".

Definition save_text (manifest : gmap string FileMetadata) : string :=
  Str.concat (save_line <$> in_key_order manifest).

Definition HasFile (filepath : string) (manifest : gmap string FileMetadata) : bool :=
  bool_decide (is_Some (manifest !! filepath)).

(** [return manifest[filepath];] *)
Definition GetFileMetadata (filepath : string) (manifest : gmap string FileMetadata)
  : FileMetadata * gmap string FileMetadata :=
  match manifest !! filepath with
  | Some meta => (meta, manifest)
  | None => (value_initialized, <[filepath := value_initialized]> manifest)
  end.

Definition UpdateFile (filepath : string) (meta : FileMetadata)
    (manifest : gmap string FileMetadata) : gmap string FileMetadata :=
  <[filepath := meta]> manifest.

Definition GetFileCount (manifest : gmap string FileMetadata) : Z :=
  int32 (Z.of_nat (base.size manifest)).

(** The text of a saved entry without its newline. *)
Definition line_of (entry : string * FileMetadata) : string :=
  entry.1 +:+ "|" +:+ hash entry.2 +:+ "|" +:+ show_ll (size entry.2) +:+ "|"
    +:+ show_ll (lastModified entry.2).

(** What an entry must satisfy to survive the pipe-delimited,
    line-oriented format: no delimiter inside the path or the
    fingerprint, [long long] numbers, a line that is a [std::string]. *)
Definition storable (entry : string * FileMetadata) : Prop :=
  Str.mem Str.pipe entry.1 = false
  ∧ Str.mem Str.newline entry.1 = false
  ∧ Str.mem Str.pipe (hash entry.2) = false
  ∧ Str.mem Str.newline (hash entry.2) = false
  ∧ LLONG_MIN ≤ size entry.2 ≤ LLONG_MAX
  ∧ LLONG_MIN ≤ lastModified entry.2 ≤ LLONG_MAX
  ∧ (Str.size (save_line entry) < npos)%N.

Section Engine.
Context (P : Platform).

(** [ManifestManager::Save] *)
Definition Save (path : string) (manifest : gmap string FileMetadata)
    (fs : FileSys) : bool * FileSys :=
  Win32.write_file P path (save_text manifest) fs.

(** *** [IncrementalBackup] *)

(** The members the run mutates, the destination volume, and the list of
    files [FileHasher::CalculateHash] was called on (in call order, most
    recent first). *)
Record St := mkSt {
  stats : BackupStats;
  manifest : gmap string FileMetadata;
  incrementalMode : bool;
  fs : FileSys;
  hashed : list string;
}.

Definition with_stats (f : BackupStats → BackupStats) (st : St) : St :=
  mkSt (f (stats st)) (manifest st) (incrementalMode st) (fs st) (hashed st).

Definition inc_filesProcessed (s : BackupStats) : BackupStats :=
  mkStats (int32 (filesProcessed s + 1)) (filesSkipped s) (filesCopied s) (filesNew s)
    (filesModified s) (directoriesCreated s) (errors s) (totalBytes s) (bytesCopied s).
Definition inc_filesSkipped (s : BackupStats) : BackupStats :=
  mkStats (filesProcessed s) (int32 (filesSkipped s + 1)) (filesCopied s) (filesNew s)
    (filesModified s) (directoriesCreated s) (errors s) (totalBytes s) (bytesCopied s).
Definition inc_filesCopied (s : BackupStats) : BackupStats :=
  mkStats (filesProcessed s) (filesSkipped s) (int32 (filesCopied s + 1)) (filesNew s)
    (filesModified s) (directoriesCreated s) (errors s) (totalBytes s) (bytesCopied s).
Definition inc_filesNew (s : BackupStats) : BackupStats :=
  mkStats (filesProcessed s) (filesSkipped s) (filesCopied s) (int32 (filesNew s + 1))
    (filesModified s) (directoriesCreated s) (errors s) (totalBytes s) (bytesCopied s).
Definition inc_filesModified (s : BackupStats) : BackupStats :=
  mkStats (filesProcessed s) (filesSkipped s) (filesCopied s) (filesNew s)
    (int32 (filesModified s + 1)) (directoriesCreated s) (errors s) (totalBytes s)
    (bytesCopied s).
Definition set_directoriesCreated (n : Z) (s : BackupStats) : BackupStats :=
  mkStats (filesProcessed s) (filesSkipped s) (filesCopied s) (filesNew s)
    (filesModified s) n (errors s) (totalBytes s) (bytesCopied s).
Definition inc_errors (s : BackupStats) : BackupStats :=
  mkStats (filesProcessed s) (filesSkipped s) (filesCopied s) (filesNew s)
    (filesModified s) (directoriesCreated s) (int32 (errors s + 1)) (totalBytes s)
    (bytesCopied s).
Definition add_totalBytes (n : Z) (s : BackupStats) : BackupStats :=
  mkStats (filesProcessed s) (filesSkipped s) (filesCopied s) (filesNew s)
    (filesModified s) (directoriesCreated s) (errors s) (int64 (totalBytes s + n))
    (bytesCopied s).
Definition add_bytesCopied (n : Z) (s : BackupStats) : BackupStats :=
  mkStats (filesProcessed s) (filesSkipped s) (filesCopied s) (filesNew s)
    (filesModified s) (directoriesCreated s) (errors s) (totalBytes s)
    (int64 (bytesCopied s + n)).

Definition with_manifest (m : gmap string FileMetadata) (st : St) : St :=
  mkSt (stats st) m (incrementalMode st) (fs st) (hashed st).
Definition with_mode (b : bool) (st : St) : St :=
  mkSt (stats st) (manifest st) b (fs st) (hashed st).
Definition with_fs (f : FileSys) (st : St) : St :=
  mkSt (stats st) (manifest st) (incrementalMode st) f (hashed st).

(** [FileHasher::CalculateHash(sourceFile)] as the engine calls it. *)
Definition hash_file (sourceFile : string) (bytes : option string) (st : St)
  : string * St :=
  (CalculateHash P bytes,
   mkSt (stats st) (manifest st) (incrementalMode st) (fs st) (sourceFile :: hashed st)).

(** [ShouldCopyFile]: the return value, [currentHash] and the state. *)
Definition ShouldCopyFile (sourceFile : string) (bytes : option string)
    (relativePath : string) (fileSize fileTime : Z) (st : St)
  : bool * string * St :=
  if negb (incrementalMode st) then
    let '(currentHash, st) := hash_file sourceFile bytes st in
    (true, currentHash, st)
  else if negb (HasFile relativePath (manifest st)) then
    let '(currentHash, st) := hash_file sourceFile bytes st in
    (true, currentHash, with_stats inc_filesNew st)
  else
    let '(oldMeta, m) := GetFileMetadata relativePath (manifest st) in
    let st := with_manifest m st in
    if negb (bool_decide (size oldMeta = fileSize))
       || negb (bool_decide (lastModified oldMeta = fileTime))
    then
      let '(currentHash, st) := hash_file sourceFile bytes st in
      if negb (bool_decide (currentHash = hash oldMeta))
      then (true, currentHash, with_stats inc_filesModified st)
      else (false, currentHash, with_stats inc_filesSkipped st)
    else
      (false, hash oldMeta, with_stats inc_filesSkipped st).

Definition CreateDestDirectory (path : string) (st : St) : outcome (bool * St) :=
  '(ok, created, fs') ←
     CreateDestDirectory P (stack_limit P) path (directoriesCreated (stats st)) (fs st);
  Done (ok, with_fs fs' (with_stats (set_directoriesCreated created) st)).

(** The body of the [do … while (FindNextFileA(…))] loop of
    [BackupDirectory] for a regular file. *)
Definition backup_file (sourcePath sourceDir destDir : string)
    (fd : FindData) (bytes : option string) (st : St) : St :=
  let fileName := cFileName fd in
  let sourceFullPath := sourceDir +:+ fileName in
  let destFullPath := destDir +:+ fileName in
  let relativePath := GetRelativePath sourceFullPath sourcePath in
  let st := with_stats inc_filesProcessed st in
  let fileSize := GetFileSize fd in
  let fileTime := GetFileTime fd in
  let st := with_stats (add_totalBytes fileSize) st in
  let '(copy, fileHash, st) :=
    ShouldCopyFile sourceFullPath bytes relativePath fileSize fileTime st in
  if copy then
    match Win32.CopyFileA P bytes sourceFullPath destFullPath (fs st) with
    | (true, fs') =>
        let st := with_fs fs' st in
        let st := with_stats inc_filesCopied st in
        let st := with_stats (add_bytesCopied fileSize) st in
        with_manifest
          (UpdateFile relativePath (mkMeta fileHash fileSize fileTime) (manifest st)) st
    | (false, _) => with_stats inc_errors st
    end
  else
    with_manifest
      (UpdateFile relativePath (mkMeta fileHash fileSize fileTime) (manifest st)) st.

(** The loop itself, over the entries [FindFirstFileA]/[FindNextFileA]
    deliver; [entry] is the loop body. *)
Definition walk (entry : node → St → outcome St) : list node → St → outcome St :=
  fix go listing st :=
    match listing with
    | [] => Done st
    | n :: rest => st' ← entry n st; go rest st'
    end.

(** [BackupDirectory], given the loop body for the entries of [listing]. *)
Definition BackupDirectory_with (entry : node → St → outcome St)
    (listing : list node) (destDir : string) (st : St) : outcome (bool * St) :=
  match listing with
  | [] => Done (false, with_stats inc_errors st)
  | _ =>
      '(ok, st) ← CreateDestDirectory destDir st;
      if ok : bool then st ← walk entry listing st; Done (true, st)
      else Done (false, with_stats inc_errors st)
  end.

Fixpoint backup_entry (sourcePath sourceDir destDir : string) (n : node) (st : St)
  {struct n} : outcome St :=
  match n with
  | FileNode fd bytes =>
      if dot_entry (cFileName fd) then Done st
      else Done (backup_file sourcePath sourceDir destDir fd bytes st)
  | DirNode fileName listing =>
      if dot_entry fileName then Done st
      else
        let sourceFullPath := sourceDir +:+ fileName in
        let destFullPath := destDir +:+ fileName in
        let st := with_stats inc_filesProcessed st in
        '(_, st) ← BackupDirectory_with
                     (backup_entry sourcePath (sourceFullPath +:+ "\") (destFullPath +:+ "\"))
                     listing (destFullPath +:+ "\") st;
        Done st
  end.

Definition BackupDirectory (sourcePath sourceDir destDir : string)
    (listing : list node) (st : St) : outcome (bool * St) :=
  BackupDirectory_with (backup_entry sourcePath sourceDir destDir) listing destDir st.

(** The state [backup_file] calls [ShouldCopyFile] in, and that call. *)
Definition counted (fd : FindData) (st : St) : St :=
  with_stats (add_totalBytes (GetFileSize fd)) (with_stats inc_filesProcessed st).

Definition decision (sourcePath sourceDir : string) (fd : FindData)
    (bytes : option string) (st : St) : bool * string * St :=
  ShouldCopyFile (sourceDir +:+ cFileName fd) bytes
    (GetRelativePath (sourceDir +:+ cFileName fd) sourcePath)
    (GetFileSize fd) (GetFileTime fd) (counted fd st).

(** [IncrementalBackup(src, dst, incremental).StartBackup()] on a
    destination volume [fs0], with [root] at the source path. *)
Definition StartBackup (src dst : string) (incremental : bool)
    (root : source_root) (fs0 : FileSys) : outcome (bool * St) :=
  let sourcePath := NormalizePath src in
  let destPath := NormalizePath dst in
  let st := mkSt no_stats ∅ incremental fs0 [] in
  '(hasManifest, m) ← Load (manifestPath dst) (manifest st) (fs st);
  let st := with_manifest m st in
  let st := if hasManifest && incrementalMode st then st else with_mode false st in
  match root with
  | RootMissing => Done (false, st)
  | RootNotADirectory => Done (false, st)
  | RootDirectory listing =>
      '(result, st) ← BackupDirectory sourcePath sourcePath destPath listing st;
      let '(_, fs') := Save (manifestPath dst) (manifest st) (fs st) in
      Done (result, with_fs fs' st)
  end.

End Engine.

Global Arguments walk : simpl never.
Global Arguments backup_file : simpl never.

End Phase2.

(* ===================================================================== *)
(** ** Phase 3: [DeduplicationStore], [DeduplicationIndex],
       [DeduplicationBackup] *)
(* ===================================================================== *)

Module Phase3.

Record BackupStats := mkStats {
  filesProcessed : Z;
  filesSkipped : Z;
  filesCopied : Z;
  filesNew : Z;
  filesModified : Z;
  filesDeduped : Z;
  directoriesCreated : Z;
  errors : Z;
  totalBytes : Z;
  bytesCopied : Z;
  bytesDeduplicated : Z;
}.

Definition no_stats : BackupStats := mkStats 0 0 0 0 0 0 0 0 0 0 0.

(** Both constructors start with: "ensure backupRoot ends with backslash". *)
Definition rooted (backupRoot : string) : string :=
  if negb (Str.empty backupRoot)
     && negb (bool_decide (Str.back backupRoot = Some Str.backslash))
  then backupRoot +:+ "\" else backupRoot.

(** *** [DeduplicationStore] *)

Definition storePath (backupRoot : string) : string :=
  rooted backupRoot +:+ ".dedup_store\".

Definition GetContentPath (backupRoot hash : string) : string :=
  storePath backupRoot +:+ hash +:+ ".bin".

Definition ContentExists (backupRoot hash : string) (fs : FileSys) : bool :=
  Win32.is_regular_file (Win32.GetFileAttributesA (GetContentPath backupRoot hash) fs).

(** [referenceCount[hash]++] *)
Definition IncrementReference (hash : string) (referenceCount : gmap string Z)
  : gmap string Z :=
  <[hash := int32 (default 0 (referenceCount !! hash) + 1)]> referenceCount.

Definition GetReferenceCount (hash : string) (referenceCount : gmap string Z) : Z :=
  match referenceCount !! hash with
  | Some n => n
  | None => 0
  end.

(** [referenceCount.clear(); for (entry : fileHashMap) referenceCount[entry.second]++;] *)
Definition LoadReferenceCountsFromIndex (fileHashMap : gmap string string)
  : gmap string Z :=
  foldl (λ referenceCount entry, IncrementReference entry.2 referenceCount)
        ∅ (in_key_order fileHashMap).

(** *** [DeduplicationIndex] *)

Definition indexPath (backupRoot : string) : string :=
  rooted backupRoot +:+ ".dedup_index.txt".

(** One iteration of the [while (getline(file, line))] loop of [Load]. *)
Definition parse_line (line : string) : option (string * string) :=
  if Str.empty line then None
  else
    let pos := Str.find line Str.pipe 0 in
    if negb (pos =? npos)%N
    then Some (Str.substr line 0 pos, Str.substr line (Str.plus pos 1) npos)
    else None.

Fixpoint load_lines (lines : list string) (fileHashMap : gmap string string)
  : gmap string string :=
  match lines with
  | [] => fileHashMap
  | line :: rest =>
      match parse_line line with
      | Some (filepath, hash) => load_lines rest (<[filepath := hash]> fileHashMap)
      | None => load_lines rest fileHashMap
      end
  end.

(** [DeduplicationIndex::Load]: the return value and the map afterwards. *)
Definition Load (path : string) (fileHashMap : gmap string string) (fs : FileSys)
  : bool * gmap string string :=
  match Win32.read_file path fs with
  | None => (false, fileHashMap)
  | Some text => (true, load_lines (Str.getlines text) ∅)
  end.

Definition save_line (entry : string * string) : string :=
  entry.1 +:+ "|" +:+ entry.2 +:+ String Str.newline "".

Definition save_text (fileHashMap : gmap string string) : string :=
  Str.concat (save_line <$> in_key_order fileHashMap).

Definition AddFile (filepath hash : string) (fileHashMap : gmap string string)
  : gmap string string :=
  <[filepath := hash]> fileHashMap.

Definition GetHash (filepath : string) (fileHashMap : gmap string string) : string :=
  match fileHashMap !! filepath with
  | Some h => h
  | None => ""
  end.

Definition HasFile (filepath : string) (fileHashMap : gmap string string) : bool :=
  bool_decide (is_Some (fileHashMap !! filepath)).

Definition GetFileCount (fileHashMap : gmap string string) : Z :=
  int32 (Z.of_nat (size fileHashMap)).

(** Number of entries of a listing that carry the fingerprint [h]. *)
Definition occurrences (h : string) (entries : list (string * string)) : nat :=
  length (filter (λ e, e.2 = h) entries).

(** Every tracked count lies in [lo .. INT_MAX]. *)
Definition counts_from (lo : Z) (referenceCount : gmap string Z) : Prop :=
  ∀ h n, referenceCount !! h = Some n → lo ≤ n ≤ INT_MAX.

(** The text of a saved entry without its newline. *)
Definition line_of (entry : string * string) : string := entry.1 +:+ "|" +:+ entry.2.

(** What a path and a fingerprint must satisfy to survive the
    pipe-delimited, line-oriented format. *)
Definition storable (entry : string * string) : Prop :=
  Str.mem Str.pipe entry.1 = false
  ∧ Str.mem Str.newline entry.1 = false
  ∧ Str.mem Str.newline entry.2 = false
  ∧ (Str.size (save_line entry) < npos)%N.

(** The two directories [Initialize] looks after. *)
Definition parentPath (backupRoot : string) : string :=
  Str.substr (storePath backupRoot) 0 (Str.minus (Str.size (storePath backupRoot)) 14).

Definition storeDir (base : string) : string := base +:+ "\.dedup_store".

Section Engine.
Context (P : Platform).

(** [DeduplicationStore::Initialize] *)
Definition Initialize (backupRoot : string) (fs : FileSys) : bool * FileSys :=
  let store := storePath backupRoot in
  let parentPath := Str.substr store 0 (Str.minus (Str.size store) 14) in
  let '(parent_ok, fs) :=
    match Win32.GetFileAttributesA parentPath fs with
    | Win32.INVALID_FILE_ATTRIBUTES =>
        match Win32.CreateDirectoryA P parentPath fs with
        | (Win32.ERROR_SUCCESS, fs') => (true, fs')
        | (Win32.ERROR_ALREADY_EXISTS, _) => (true, fs)
        | _ => (false, fs)
        end
    | _ => (true, fs)
    end in
  if negb parent_ok then (false, fs)
  else if Win32.is_directory (Win32.GetFileAttributesA store fs) then (true, fs)
  else
    match Win32.CreateDirectoryA P store fs with
    | (Win32.ERROR_SUCCESS, fs') => (true, fs')
    | (Win32.ERROR_ALREADY_EXISTS, _) => (true, fs)
    | _ => (false, fs)
    end.

(** [DeduplicationStore::StoreContent] *)
Definition StoreContent (backupRoot : string) (bytes : option string)
    (sourceFile hash : string) (referenceCount : gmap string Z) (fs : FileSys)
  : bool * gmap string Z * FileSys :=
  match Win32.CopyFileA P bytes sourceFile (GetContentPath backupRoot hash) fs with
  | (true, fs') => (true, <[hash := 1]> referenceCount, fs')
  | (false, _) => (false, referenceCount, fs)
  end.

(** [DeduplicationIndex::Save] *)
Definition Save (path : string) (fileHashMap : gmap string string) (fs : FileSys)
  : bool * FileSys :=
  Win32.write_file P path (save_text fileHashMap) fs.

(** *** [DeduplicationBackup] *)

Record St := mkSt {
  stats : BackupStats;
  referenceCount : gmap string Z;
  fileHashMap : gmap string string;
  fs : FileSys;
}.

Definition with_stats (f : BackupStats → BackupStats) (st : St) : St :=
  mkSt (f (stats st)) (referenceCount st) (fileHashMap st) (fs st).
Definition with_store (r : gmap string Z) (f : FileSys) (st : St) : St :=
  mkSt (stats st) r (fileHashMap st) f.
Definition with_index (m : gmap string string) (st : St) : St :=
  mkSt (stats st) (referenceCount st) m (fs st).
Definition with_fs (f : FileSys) (st : St) : St :=
  mkSt (stats st) (referenceCount st) (fileHashMap st) f.

Definition inc_filesProcessed (s : BackupStats) : BackupStats :=
  mkStats (int32 (filesProcessed s + 1)) (filesSkipped s) (filesCopied s) (filesNew s)
    (filesModified s) (filesDeduped s) (directoriesCreated s) (errors s)
    (totalBytes s) (bytesCopied s) (bytesDeduplicated s).
Definition inc_filesCopied (s : BackupStats) : BackupStats :=
  mkStats (filesProcessed s) (filesSkipped s) (int32 (filesCopied s + 1)) (filesNew s)
    (filesModified s) (filesDeduped s) (directoriesCreated s) (errors s)
    (totalBytes s) (bytesCopied s) (bytesDeduplicated s).
Definition inc_filesDeduped (s : BackupStats) : BackupStats :=
  mkStats (filesProcessed s) (filesSkipped s) (filesCopied s) (filesNew s)
    (filesModified s) (int32 (filesDeduped s + 1)) (directoriesCreated s) (errors s)
    (totalBytes s) (bytesCopied s) (bytesDeduplicated s).
Definition set_directoriesCreated (n : Z) (s : BackupStats) : BackupStats :=
  mkStats (filesProcessed s) (filesSkipped s) (filesCopied s) (filesNew s)
    (filesModified s) (filesDeduped s) n (errors s)
    (totalBytes s) (bytesCopied s) (bytesDeduplicated s).
Definition inc_errors (s : BackupStats) : BackupStats :=
  mkStats (filesProcessed s) (filesSkipped s) (filesCopied s) (filesNew s)
    (filesModified s) (filesDeduped s) (directoriesCreated s) (int32 (errors s + 1))
    (totalBytes s) (bytesCopied s) (bytesDeduplicated s).
Definition add_totalBytes (n : Z) (s : BackupStats) : BackupStats :=
  mkStats (filesProcessed s) (filesSkipped s) (filesCopied s) (filesNew s)
    (filesModified s) (filesDeduped s) (directoriesCreated s) (errors s)
    (int64 (totalBytes s + n)) (bytesCopied s) (bytesDeduplicated s).
Definition add_bytesCopied (n : Z) (s : BackupStats) : BackupStats :=
  mkStats (filesProcessed s) (filesSkipped s) (filesCopied s) (filesNew s)
    (filesModified s) (filesDeduped s) (directoriesCreated s) (errors s)
    (totalBytes s) (int64 (bytesCopied s + n)) (bytesDeduplicated s).
Definition add_bytesDeduplicated (n : Z) (s : BackupStats) : BackupStats :=
  mkStats (filesProcessed s) (filesSkipped s) (filesCopied s) (filesNew s)
    (filesModified s) (filesDeduped s) (directoriesCreated s) (errors s)
    (totalBytes s) (bytesCopied s) (int64 (bytesDeduplicated s + n)).

Definition CreateDestDirectory (path : string) (st : St) : outcome (bool * St) :=
  '(ok, created, fs') ←
     CreateDestDirectory P (stack_limit P) path (directoriesCreated (stats st)) (fs st);
  Done (ok, with_fs fs' (with_stats (set_directoriesCreated created) st)).

(** The body of the [do … while (FindNextFileA(…))] loop of
    [BackupDirectory] for a regular file; [dst] is the backup root the
    store and the index were constructed with. *)
Definition backup_file (dst sourcePath sourceDir destDir : string)
    (fd : FindData) (bytes : option string) (st : St) : St :=
  let fileName := cFileName fd in
  let sourceFullPath := sourceDir +:+ fileName in
  let relativePath := GetRelativePath sourceFullPath sourcePath in
  let st := with_stats inc_filesProcessed st in
  let fileSize := GetFileSize fd in
  let st := with_stats (add_totalBytes fileSize) st in
  let fileHash := CalculateHash P bytes in
  if Str.empty fileHash then with_stats inc_errors st
  else if ContentExists dst fileHash (fs st) then
    let st := with_stats inc_filesDeduped st in
    let st := with_stats (add_bytesDeduplicated fileSize) st in
    let st := with_store (IncrementReference fileHash (referenceCount st)) (fs st) st in
    with_index (AddFile relativePath fileHash (fileHashMap st)) st
  else
    match StoreContent dst bytes sourceFullPath fileHash (referenceCount st) (fs st) with
    | (true, refs, fs') =>
        let st := with_store refs fs' st in
        let st := with_stats inc_filesCopied st in
        let st := with_stats (add_bytesCopied fileSize) st in
        with_index (AddFile relativePath fileHash (fileHashMap st)) st
    | (false, _, _) => with_stats inc_errors st
    end.

Definition walk (entry : node → St → outcome St) : list node → St → outcome St :=
  fix go listing st :=
    match listing with
    | [] => Done st
    | n :: rest => st' ← entry n st; go rest st'
    end.

(** [BackupDirectory], given the loop body for the entries of [listing]. *)
Definition BackupDirectory_with (entry : node → St → outcome St)
    (listing : list node) (destDir : string) (st : St) : outcome (bool * St) :=
  match listing with
  | [] => Done (false, with_stats inc_errors st)
  | _ =>
      '(ok, st) ← CreateDestDirectory destDir st;
      if ok : bool then st ← walk entry listing st; Done (true, st)
      else Done (false, with_stats inc_errors st)
  end.

Fixpoint backup_entry (dst sourcePath sourceDir destDir : string) (n : node) (st : St)
  {struct n} : outcome St :=
  match n with
  | FileNode fd bytes =>
      if dot_entry (cFileName fd) then Done st
      else Done (backup_file dst sourcePath sourceDir destDir fd bytes st)
  | DirNode fileName listing =>
      if dot_entry fileName then Done st
      else
        let sourceFullPath := sourceDir +:+ fileName in
        let destFullPath := destDir +:+ fileName in
        let st := with_stats inc_filesProcessed st in
        '(_, st) ← BackupDirectory_with
                     (backup_entry dst sourcePath (sourceFullPath +:+ "\")
                        (destFullPath +:+ "\"))
                     listing (destFullPath +:+ "\") st;
        Done st
  end.

Definition BackupDirectory (dst sourcePath sourceDir destDir : string)
    (listing : list node) (st : St) : outcome (bool * St) :=
  BackupDirectory_with (backup_entry dst sourcePath sourceDir destDir) listing destDir st.

(** The state after an entry that failed: counted, its bytes added to the
    total when it is a file, one more error, nothing else touched. *)
Definition entry_failed (fileSize : Z) (st : St) : St :=
  with_stats inc_errors
    (with_stats (add_totalBytes fileSize) (with_stats inc_filesProcessed st)).
Definition subdirectory_failed (st : St) : St :=
  with_stats inc_errors (with_stats inc_filesProcessed st).

(** [DeduplicationBackup(src, dst).StartBackup()] on a destination volume
    [fs0], with [root] at the source path. *)
Definition StartBackup (src dst : string) (root : source_root) (fs0 : FileSys)
  : outcome (bool * St) :=
  let sourcePath := NormalizePath src in
  let destPath := NormalizePath dst in
  let st := mkSt no_stats ∅ ∅ fs0 in
  let '(ok, fs1) := Initialize dst (fs st) in
  let st := with_fs fs1 st in
  if negb ok then Done (false, st)
  else
    let '(hasIndex, m) := Load (indexPath dst) (fileHashMap st) (fs st) in
    let st := with_index m st in
    let st :=
      if hasIndex
      then with_store (LoadReferenceCountsFromIndex (fileHashMap st)) (fs st) st
      else st in
    match root with
    | RootMissing => Done (false, st)
    | RootNotADirectory => Done (false, st)
    | RootDirectory listing =>
        '(result, st) ← BackupDirectory dst sourcePath sourcePath destPath listing st;
        let '(_, fs') := Save (indexPath dst) (fileHashMap st) (fs st) in
        Done (result, with_fs fs' st)
    end.

End Engine.

Global Arguments walk : simpl never.
Global Arguments backup_file : simpl never.

End Phase3.

(** The state in which [StartBackup] starts the walk, [Initialize]
    having left the volume [fs1]: the index that is loaded and the
    reference counts rebuilt from it. *)
Definition walk_start (dst : string) (fs1 : FileSys) : Phase3.St :=
  let loaded := Phase3.Load (Phase3.indexPath dst) ∅ fs1 in
  Phase3.mkSt Phase3.no_stats
    (if loaded.1 then Phase3.LoadReferenceCountsFromIndex loaded.2 else ∅)
    loaded.2 fs1.

(* ===================================================================== *)
(** ** Nested directories *)
(* ===================================================================== *)

(** The entry [name] of the directory [d]. *)
Definition child (d name : string) : string := d +:+ "\" +:+ name.

(** The directory reached from [base] through [names], and the
    directories passed on the way, outermost first. *)
Fixpoint descend (base : string) (names : list string) : string :=
  match names with
  | [] => base
  | name :: rest => descend (child base name) rest
  end.

Fixpoint levels (base : string) (names : list string) : list string :=
  match names with
  | [] => []
  | name :: rest => child base name :: levels (child base name) rest
  end.

(** A name of one path component. *)
Definition component (name : string) : Prop := Str.no_sep name = true ∧ name ≠ "".

(* ===================================================================== *)
(** ** What a run may change on the destination volume *)
(* ===================================================================== *)

(** Every directory and every file of [fs] is still there in [fs'], the
    files with the bytes they had. *)
Definition keeps (fs fs' : FileSys) : Prop :=
  fs_dirs fs ⊆ fs_dirs fs'
  ∧ ∀ p b, fs_files fs !! p = Some b → fs_files fs' !! p = Some b.

(** Every path of [fs] is still a path of [fs']; a file may have been
    overwritten. *)
Definition loses_nothing (fs fs' : FileSys) : Prop :=
  fs_dirs fs ⊆ fs_dirs fs'
  ∧ ∀ p, is_Some (fs_files fs !! p) → is_Some (fs_files fs' !! p).

(** Every file of [fs'] that [fs] does not have is a blob of the store
    below [dst]. *)
Definition adds_blobs_only (dst : string) (fs fs' : FileSys) : Prop :=
  ∀ p, fs_files fs !! p = None → is_Some (fs_files fs' !! p) →
       ∃ h, p = Phase3.GetContentPath dst h.

(** Every fingerprint the index records has its blob in the store. *)
Definition index_has_blobs (dst : string) (fileHashMap : gmap string string)
    (fs : FileSys) : Prop :=
  ∀ filepath h, fileHashMap !! filepath = Some h → Phase3.ContentExists dst h fs = true.

(** Every blob of the store holds bytes with the fingerprint it is
    named after. *)
Definition blobs_match_their_names (P : Platform) (dst : string) (fs : FileSys) : Prop :=
  ∀ h b, fs_files fs !! Phase3.GetContentPath dst h = Some b → CalculateHash P (Some b) = h.

(* ===================================================================== *)
(** ** The mirror of a source tree *)
(* ===================================================================== *)

Definition entry_name (n : node) : string :=
  match n with
  | FileNode fd _ => cFileName fd
  | DirNode name _ => name
  end.

(** The files, with their bytes, and the directories that a copy of the
    entry [n] into the directory [D] consists of.  ["."] and [".."] are
    no entries, and a file that cannot be read has no copy. *)
Fixpoint mirrored_files (D : string) (n : node) : list (string * string) :=
  match n with
  | FileNode fd bytes =>
      if dot_entry (cFileName fd) then []
      else match bytes with
           | Some b => [(child D (cFileName fd), b)]
           | None => []
           end
  | DirNode name listing =>
      if dot_entry name then []
      else flat_map (mirrored_files (child D name)) listing
  end.

Fixpoint mirrored_dirs (D : string) (n : node) : list string :=
  match n with
  | FileNode _ _ => []
  | DirNode name listing =>
      if dot_entry name then []
      else child D name :: flat_map (mirrored_dirs (child D name)) listing
  end.

(** The entries below (and including) [n], and the bytes of its files. *)
Fixpoint entry_count (n : node) : nat :=
  match n with
  | FileNode fd _ => if dot_entry (cFileName fd) then 0 else 1
  | DirNode name listing =>
      if dot_entry name then 0 else S (list_sum (map entry_count listing))
  end.

Fixpoint byte_count (n : node) : Z :=
  match n with
  | FileNode fd _ => if dot_entry (cFileName fd) then 0 else GetFileSize fd
  | DirNode name listing =>
      if dot_entry name then 0 else foldr Z.add 0 (map byte_count listing)
  end.

(** The names of the entries of a listing that are walked. *)
Definition walked_names (listing : list node) : list string :=
  filter (λ name, dot_entry name = false) (entry_name <$> listing).

(** A tree a walk gets through without an error: every name is one path
    component, no name occurs twice in a directory, every file can be
    read and every directory can be listed. *)
Fixpoint readable (n : node) : Prop :=
  match n with
  | FileNode fd bytes =>
      dot_entry (cFileName fd) = true ∨ (component (cFileName fd) ∧ is_Some bytes)
  | DirNode name listing =>
      dot_entry name = true
      ∨ (component name ∧ listing ≠ [] ∧ NoDup (walked_names listing)
         ∧ foldr (λ n rest, readable n ∧ rest) True listing)
  end.

(** The same for the entries of a listing. *)
Definition listing_files (D : string) (listing : list node) : list (string * string) :=
  flat_map (mirrored_files D) listing.
Definition listing_dirs (D : string) (listing : list node) : list string :=
  flat_map (mirrored_dirs D) listing.
Definition listing_entries (listing : list node) : nat :=
  list_sum (map entry_count listing).
Definition listing_bytes (listing : list node) : Z :=
  foldr Z.add 0 (map byte_count listing).

(** [p] is the path [X] or lies below it. *)
Definition at_or_below (X p : string) : Prop :=
  p = X ∨ ∃ rest, p = X +:+ "\" +:+ rest.

(** The counters hold values of their types. *)
Definition tidy (s : Phase1.BackupStats) : Prop :=
  int32 (Phase1.filesProcessed s) = Phase1.filesProcessed s
  ∧ int32 (Phase1.filesCopied s) = Phase1.filesCopied s
  ∧ int32 (Phase1.directoriesCreated s) = Phase1.directoriesCreated s
  ∧ int64 (Phase1.totalBytes s) = Phase1.totalBytes s.

(** Nothing on the volume stands in the way of [files] and [dirs]: no
    directory where a file is to go, no file where a directory is to
    go, and no directory that is refused. *)
Definition ready_for (P : Platform) (files : list (string * string))
    (dirs : list string) (fs : FileSys) : Prop :=
  (∀ p, p ∈ files.*1 → p ∉ fs_dirs fs)
  ∧ (∀ d, d ∈ dirs → fs_files fs !! d = None ∧ mkdir_denied P d = false).

(** From [st] to [st'], [files] and [dirs] have been copied without an
    error and nothing else has changed; [entries] entries and [bytes]
    bytes have been counted. *)
Definition copied (files : list (string * string)) (dirs : list string)
    (entries : nat) (bytes : Z) (st st' : Phase1.St) : Prop :=
  Phase1.errors (Phase1.stats st') = Phase1.errors (Phase1.stats st)
  ∧ Phase1.filesProcessed (Phase1.stats st')
    = int32 (Phase1.filesProcessed (Phase1.stats st) + Z.of_nat entries)
  ∧ Phase1.filesCopied (Phase1.stats st')
    = int32 (Phase1.filesCopied (Phase1.stats st) + Z.of_nat (length files))
  ∧ Phase1.totalBytes (Phase1.stats st')
    = int64 (Phase1.totalBytes (Phase1.stats st) + bytes)
  ∧ Phase1.directoriesCreated (Phase1.stats st')
    = int32 (Phase1.directoriesCreated (Phase1.stats st)
             + Z.of_nat (size (fs_dirs (Phase1.fs st'))
                         - size (fs_dirs (Phase1.fs st))))
  ∧ fs_dirs (Phase1.fs st') = list_to_set dirs ∪ fs_dirs (Phase1.fs st)
  ∧ (∀ p b, (p, b) ∈ files → fs_files (Phase1.fs st') !! p = Some b)
  ∧ (∀ p, p ∉ files.*1 → fs_files (Phase1.fs st') !! p = fs_files (Phase1.fs st) !! p).

(* ===================================================================== *)
(** ** The files of a source tree by their relative paths *)
(* ===================================================================== *)

(** The files below the entry [n] that can be read, each with its path
    relative to the source root, its directory entry and its bytes.
    [prefix] is the relative path of the directory that lists [n]: empty
    for the root, else ending in a backslash. *)
Fixpoint relative_files (prefix : string) (n : node)
  : list (string * (FindData * string)) :=
  match n with
  | FileNode fd bytes =>
      if dot_entry (cFileName fd) then []
      else match bytes with
           | Some b => [(prefix +:+ cFileName fd, (fd, b))]
           | None => []
           end
  | DirNode name listing =>
      if dot_entry name then []
      else flat_map (relative_files (prefix +:+ name +:+ "\")) listing
  end.

Definition listing_relative (prefix : string) (listing : list node)
  : list (string * (FindData * string)) :=
  flat_map (relative_files prefix) listing.

(** [d] is a directory of [fs] or one call of [CreateDirectoryA] makes
    it one. *)
Definition directory_or_free (P : Platform) (d : string) (fs : FileSys) : Prop :=
  d ∈ fs_dirs fs
  ∨ Win32.GetFileAttributesA d fs = Win32.INVALID_FILE_ATTRIBUTES
    ∧ Win32.parent_exists d fs = true ∧ mkdir_denied P d = false.

(** Nothing on the volume stands in the way of the store below [dst] and
    of the directories [dirs]: no directory where a blob is to go, no
    file where a directory is to go, and no directory that is refused. *)
Definition store_ready (P : Platform) (dst : string) (dirs : list string)
    (fs : FileSys) : Prop :=
  (∀ h, (Phase3.GetContentPath dst h ∉ fs_dirs fs) ∧ (Phase3.GetContentPath dst h ∉ dirs))
  ∧ (∀ d, d ∈ dirs → fs_files fs !! d = None ∧ mkdir_denied P d = false).

(** From [st] to [st'], [files] have been indexed and [dirs] created
    without an error: every file has its fingerprint in the index and a
    blob in the store; [entries] entries have been counted; no file
    that existed has changed, every new file is a blob, and no other
    path of the index has changed. *)
Definition indexed (P : Platform) (dst : string)
    (files : list (string * (FindData * string))) (dirs : list string)
    (entries : nat) (st st' : Phase3.St) : Prop :=
  Phase3.errors (Phase3.stats st') = Phase3.errors (Phase3.stats st)
  ∧ Phase3.filesProcessed (Phase3.stats st')
    = int32 (Phase3.filesProcessed (Phase3.stats st) + Z.of_nat entries)
  ∧ int32 (Phase3.filesCopied (Phase3.stats st') + Phase3.filesDeduped (Phase3.stats st'))
    = int32 (Phase3.filesCopied (Phase3.stats st) + Phase3.filesDeduped (Phase3.stats st)
             + Z.of_nat (length files))
  ∧ fs_dirs (Phase3.fs st') = list_to_set dirs ∪ fs_dirs (Phase3.fs st)
  ∧ (∀ p b, fs_files (Phase3.fs st) !! p = Some b → fs_files (Phase3.fs st') !! p = Some b)
  ∧ (∀ p, fs_files (Phase3.fs st) !! p = None → is_Some (fs_files (Phase3.fs st') !! p) →
          ∃ h, p = Phase3.GetContentPath dst h)
  ∧ (∀ rel fd b, (rel, (fd, b)) ∈ files →
       Phase3.fileHashMap st' !! rel = Some (CalculateHash P (Some b))
       ∧ Phase3.ContentExists dst (CalculateHash P (Some b)) (Phase3.fs st') = true)
  ∧ (∀ rel, rel ∉ files.*1 →
       Phase3.fileHashMap st' !! rel = Phase3.fileHashMap st !! rel).

(** The files of [rels] whose bytes have the fingerprint [h]. *)
Definition with_hash (P : Platform) (h : string)
    (rels : list (string * (FindData * string))) : list (string * (FindData * string)) :=
  filter (λ e, CalculateHash P (Some e.2.2) = h) rels.

(** The counters of the store hold values of their type. *)
Definition counts_in_range (st : Phase3.St) : Prop :=
  int32 (Phase3.filesDeduped (Phase3.stats st)) = Phase3.filesDeduped (Phase3.stats st)
  ∧ ∀ h, int32 (Phase3.GetReferenceCount h (Phase3.referenceCount st))
         = Phase3.GetReferenceCount h (Phase3.referenceCount st).

(** From [st] to [st'], the files [rels] have all been found in the
    store and the directories [dirs] created, without an error: no file
    of the volume has changed and nothing was copied; every file is
    indexed with its fingerprint, and its fingerprint has been counted
    once more. *)
Definition found_in_store (P : Platform)
    (rels : list (string * (FindData * string))) (dirs : list string)
    (st st' : Phase3.St) : Prop :=
  Phase3.errors (Phase3.stats st') = Phase3.errors (Phase3.stats st)
  ∧ Phase3.filesCopied (Phase3.stats st') = Phase3.filesCopied (Phase3.stats st)
  ∧ Phase3.filesDeduped (Phase3.stats st')
    = int32 (Phase3.filesDeduped (Phase3.stats st) + Z.of_nat (length rels))
  ∧ fs_files (Phase3.fs st') = fs_files (Phase3.fs st)
  ∧ fs_dirs (Phase3.fs st') = list_to_set dirs ∪ fs_dirs (Phase3.fs st)
  ∧ (∀ rel fd b, (rel, (fd, b)) ∈ rels →
       Phase3.fileHashMap st' !! rel = Some (CalculateHash P (Some b)))
  ∧ (∀ rel, rel ∉ rels.*1 →
       Phase3.fileHashMap st' !! rel = Phase3.fileHashMap st !! rel)
  ∧ (∀ h, Phase3.GetReferenceCount h (Phase3.referenceCount st')
          = int32 (Phase3.GetReferenceCount h (Phase3.referenceCount st)
                   + Z.of_nat (length (with_hash P h rels)))).

(* ===================================================================== *)
(** ** What an incremental run does with the files of a tree *)
(* ===================================================================== *)

(** What [ShouldCopyFile] answers for the file at [rel] below the source
    root, with the entry [fd] and the bytes [b], when the run is in mode
    [mode] and the manifest is [m]: whether to copy, the fingerprint to
    record, and the files it has hashed for the answer. *)
Definition planned (P : Platform) (sourcePath : string) (mode : bool)
    (m : gmap string Phase2.FileMetadata) (rel : string) (fd : FindData) (b : string)
  : bool * string * list string :=
  let r := Phase2.ShouldCopyFile P (sourcePath +:+ rel) (Some b) rel
             (GetFileSize fd) (GetFileTime fd)
             (Phase2.mkSt Phase2.no_stats m mode (mkFS ∅ ∅) []) in
  (r.1, Phase2.hashed r.2).

Global Arguments planned : simpl never.

(** The files of [rels] that a plan copies. *)
Definition copies (plan : string → FindData → string → bool * string * list string)
    (rels : list (string * (FindData * string))) : list (string * (FindData * string)) :=
  filter (λ e, (plan e.1 e.2.1 e.2.2).1.1 = true) rels.

(** The files a plan hashes, the one hashed last first. *)
Definition reads (plan : string → FindData → string → bool * string * list string)
    (rels : list (string * (FindData * string))) : list string :=
  flat_map (λ e, (plan e.1 e.2.1 e.2.2).2) (reverse rels).

(** From [st] to [st'], the files [rels] below the backup root [D] have
    been treated as [plan] says and the directories [dirs] created,
    without an error: a file that is to be copied is at its place with
    the bytes of the source, every file is recorded with its size, its
    time and the planned fingerprint; the files hashed are those of
    the plan; nothing else has changed in the manifest or among the
    files of the volume. *)
Definition backed_up (D : string)
    (plan : string → FindData → string → bool * string * list string)
    (rels : list (string * (FindData * string))) (dirs : list string)
    (entries : nat) (st st' : Phase2.St) : Prop :=
  Phase2.errors (Phase2.stats st') = Phase2.errors (Phase2.stats st)
  ∧ Phase2.incrementalMode st' = Phase2.incrementalMode st
  ∧ Phase2.filesProcessed (Phase2.stats st')
    = int32 (Phase2.filesProcessed (Phase2.stats st) + Z.of_nat entries)
  ∧ Phase2.filesCopied (Phase2.stats st')
    = int32 (Phase2.filesCopied (Phase2.stats st) + Z.of_nat (length (copies plan rels)))
  ∧ Phase2.hashed st' = reads plan rels ++ Phase2.hashed st
  ∧ fs_dirs (Phase2.fs st') = list_to_set dirs ∪ fs_dirs (Phase2.fs st)
  ∧ (∀ rel fd b, (rel, (fd, b)) ∈ rels →
       Phase2.manifest st' !! rel
       = Some (Phase2.mkMeta (plan rel fd b).1.2 (GetFileSize fd) (GetFileTime fd))
       ∧ fs_files (Phase2.fs st') !! (D +:+ "\" +:+ rel)
         = if (plan rel fd b).1.1 then Some b
           else fs_files (Phase2.fs st) !! (D +:+ "\" +:+ rel))
  ∧ (∀ rel, rel ∉ rels.*1 → Phase2.manifest st' !! rel = Phase2.manifest st !! rel)
  ∧ (∀ p, (∀ rel, rel ∈ rels.*1 → p ≠ D +:+ "\" +:+ rel) →
          fs_files (Phase2.fs st') !! p = fs_files (Phase2.fs st) !! p).

(** The two counters hold values of their type. *)
Definition in_range (st : Phase2.St) : Prop :=
  int32 (Phase2.filesProcessed (Phase2.stats st)) = Phase2.filesProcessed (Phase2.stats st)
  ∧ int32 (Phase2.filesCopied (Phase2.stats st)) = Phase2.filesCopied (Phase2.stats st).

(* ===================================================================== *)
(** ** The command line: [main] of the three programs *)
(* ===================================================================== *)

(** [getline(cin, s)]: the next line of standard input; [s] is left empty
    when the input has ended. *)
Definition getline_cin (cin : list string) : string * list string :=
  match cin with
  | [] => ("", [])
  | line :: rest => (line, rest)
  end.

(** Source and destination: [argv[1]] and [argv[2]] when [argc >= 3],
    else two lines of standard input.  [argv] starts with the program
    name; the third component is the input that is left. *)
Definition read_paths (argv cin : list string) : string * string * list string :=
  match argv with
  | _ :: source :: dest :: _ => (source, dest, cin)
  | _ =>
      let '(source, cin) := getline_cin cin in
      let '(dest, cin) := getline_cin cin in
      (source, dest, cin)
  end.

(** [return 0] after "Backup completed successfully!", else [return 1]. *)
Definition exit_code (success : bool) : Z := if success then 0 else 1.

Module Phase1Main.

Definition main (P : Platform) (argv cin : list string) (root : source_root)
    (fs0 : FileSys) : outcome (Z * FileSys) :=
  let '(source, dest, _) := read_paths argv cin in
  if Str.empty source || Str.empty dest then Done (1, fs0)
  else
    '(success, st) ← Phase1.StartBackup P source dest root fs0;
    Done (exit_code success, Phase1.fs st).

End Phase1Main.

Module Phase2Main.

Definition full_flag (arg : string) : bool :=
  bool_decide (arg = "--full") || bool_decide (arg = "-f").

(** [for (int i = 3; i < argc; i++) { … incremental = false; … }] *)
Fixpoint scan_flags (args : list string) (incremental : bool) : bool :=
  match args with
  | [] => incremental
  | arg :: rest => scan_flags rest (if full_flag arg then false else incremental)
  end.

(** [incremental], as [main] has it when it constructs the engine. *)
Definition read_mode (argv cin : list string) : bool :=
  match argv with
  | _ :: _ :: _ :: flags => scan_flags flags true
  | _ =>
      let '(_, _, cin) := read_paths argv cin in
      let '(choice, _) := getline_cin cin in
      bool_decide (choice = "y") || bool_decide (choice = "Y")
      || bool_decide (choice = "yes")
  end.

Definition main (P : Platform) (argv cin : list string) (root : source_root)
    (fs0 : FileSys) : outcome (Z * FileSys) :=
  let '(source, dest, _) := read_paths argv cin in
  let incremental := read_mode argv cin in
  if Str.empty source || Str.empty dest then Done (1, fs0)
  else
    '(success, st) ← Phase2.StartBackup P source dest incremental root fs0;
    Done (exit_code success, Phase2.fs st).

End Phase2Main.

Module Phase3Main.

Definition main (P : Platform) (argv cin : list string) (root : source_root)
    (fs0 : FileSys) : outcome (Z * FileSys) :=
  let '(source, dest, _) := read_paths argv cin in
  if Str.empty source || Str.empty dest then Done (1, fs0)
  else
    '(success, st) ← Phase3.StartBackup P source dest root fs0;
    Done (exit_code success, Phase3.fs st).

End Phase3Main.

(* ===================================================================== *)
(** ** Sample platforms, volumes and trees *)
(* ===================================================================== *)

(** A stand-in digest: the first 32 bytes of the content, zero-padded. *)
Definition sample_sha256 (bytes : string) : list Byte.byte :=
  (λ i, nth i (String.list_byte_of_string bytes) Byte.x00) <$> seq 0 32.

(** Nothing is refused. *)
Definition quiet : Platform :=
  mkPlatform sample_sha256 (λ _, eq_refl) (λ _, false) (λ _ _, false) (λ _, false) 64.

(** No directory can be created. *)
Definition read_only_destination : Platform :=
  mkPlatform sample_sha256 (λ _, eq_refl) (λ _, true) (λ _ _, false) (λ _, false) 64.

(** No file can be copied. *)
Definition copies_refused : Platform :=
  mkPlatform sample_sha256 (λ _, eq_refl) (λ _, false) (λ _ _, true) (λ _, false) 64.

(** A volume [D:] with nothing on it. *)
Definition empty_volume : FileSys := mkFS {[ "D:" ]} ∅.

Definition a_txt : FindData := mkFindData "a.txt" 0 5 0 0.
Definition b_txt : FindData := mkFindData "b.txt" 0 5 0 0.

(** Two files with the same five bytes. *)
Definition two_hellos : list node :=
  [DirNode "." []; DirNode ".." [];
   FileNode a_txt (Some "hello"); FileNode b_txt (Some "hello")].

(** A file that cannot be read, a directory that cannot be listed and a
    file that can. *)
Definition partly_unreadable : list node :=
  [DirNode "." []; DirNode ".." [];
   FileNode a_txt None; DirNode "locked" []; FileNode b_txt (Some "hello")].

(** A manifest whose third field is not a number. *)
Definition damaged_manifest : FileSys :=
  mkFS {[ "D:"; "D:\Backup" ]}
       {[ "D:\Backup\.backup_manifest.txt" :=
            "notes.txt|5e884898da28047151d0e56f8dc62927|twelve|1700000000" ]}.

(** A source tree with a subdirectory. *)
Definition c_txt : FindData := mkFindData "c.txt" 0 7 0 0.

Definition nested_tree : list node :=
  [DirNode "." []; DirNode ".." [];
   FileNode a_txt (Some "hello");
   DirNode "docs" [DirNode "." []; DirNode ".." []; FileNode c_txt (Some "goodbye")]].

(** A manifest that records [a.txt] with the size and the time it has in
    [nested_tree], under a fingerprint that is not the one of its bytes,
    and a volume with a backup root that holds this manifest and
    nothing else. *)
Definition recorded_a : gmap string Phase2.FileMetadata :=
  {[ "a.txt" := Phase2.mkMeta "1234" 5 (GetFileTime a_txt) ]}.

Definition volume_with_manifest : FileSys :=
  mkFS {[ "D:"; "D:\Backup" ]}
       {[ "D:\Backup\.backup_manifest.txt" := Phase2.save_text recorded_a ]}.

(* ===================================================================== *)
(** * Properties *)
(* ===================================================================== *)

(** ** Machine integers *)

Lemma int32_small z : - 2147483648 ≤ z ≤ 2147483647 → int32 z = z.
Proof.
  intros Hz. unfold int32, wrap_signed.
  change (2 ^ (32 - 1)) with 2147483648 in *. change (2 ^ 32) with 4294967296.
  rewrite Z.mod_small; lia.
Qed.

Lemma int32_incr z : 0 ≤ z < INT_MAX → int32 (z + 1) = z + 1.
Proof. unfold INT_MAX. intros. apply int32_small. lia. Qed.

(** ** Strings *)

Module StrFacts.
Import Str.

Lemma app_nil_l (s : string) : "" +:+ s = s.
Proof. done. Qed.

Lemma app_cons (a : ascii) (s t : string) : String a s +:+ t = String a (s +:+ t).
Proof. done. Qed.

Lemma app_assoc (s t u : string) : (s +:+ t) +:+ u = s +:+ t +:+ u.
Proof. induction s as [|a s IH]; [done|]. rewrite !app_cons. by f_equal. Qed.

Ltac norm_app :=
  repeat (rewrite app_assoc || rewrite app_cons || rewrite app_nil_l).

Lemma length_app s t :
  String.length (s +:+ t) = (String.length s + String.length t)%nat.
Proof. induction s as [|a s IH]; [done|]. rewrite app_cons. simpl. by rewrite IH. Qed.

Lemma size_cons a s : size (String a s) = N.succ (size s).
Proof. unfold size. simpl. lia. Qed.

Lemma size_app s t : size (s +:+ t) = (size s + size t)%N.
Proof.
  induction s as [|a s IH]; [done|].
  rewrite app_cons, !size_cons, IH. lia.
Qed.

Ltac sizes :=
  repeat (rewrite size_app in * || rewrite size_cons in * );
  change (size "") with 0%N in *;
  unfold npos in *;
  change (2 ^ 64)%N with 18446744073709551616%N in *;
  lia.

Lemma mem_app c s t : mem c (s +:+ t) = mem c s || mem c t.
Proof.
  induction s as [|a s IH]; [done|].
  rewrite app_cons. simpl. rewrite IH. by rewrite orb_assoc.
Qed.

Lemma no_sep_app s t : no_sep (s +:+ t) = no_sep s && no_sep t.
Proof.
  induction s as [|a s IH]; [done|].
  rewrite app_cons. simpl. rewrite IH. by rewrite andb_assoc.
Qed.

Lemma back_snoc s c : back s = Some c → ∃ base, s = base +:+ String c "".
Proof.
  induction s as [|a s IH]; [done|]. simpl.
  destruct s as [|b s].
  - intros [= ->]. by exists "".
  - intros H. destruct (IH H) as [base ->]. by exists (String a base).
Qed.

Lemma prefix_app s t : String.prefix s (s +:+ t) = true.
Proof.
  induction s as [|a s IH]; [by destruct t|].
  rewrite app_cons. simpl. destruct (ascii_dec a a); [done|congruence].
Qed.

(** [substr] *)

Lemma drop_0 s : drop 0 s = s.
Proof. by destruct s. Qed.

Lemma drop_succ n a s : drop (N.succ n) (String a s) = drop n s.
Proof.
  simpl. destruct (N.eqb_spec (N.succ n) 0) as [H|_]; [lia|].
  by rewrite N.sub_1_r, N.pred_succ.
Qed.

Lemma take_0 s : take 0 s = "".
Proof. by destruct s. Qed.

Lemma take_succ n a s : take (N.succ n) (String a s) = String a (take n s).
Proof.
  simpl. destruct (N.eqb_spec (N.succ n) 0) as [H|_]; [lia|].
  by rewrite N.sub_1_r, N.pred_succ.
Qed.

Lemma drop_app s t : drop (size s) (s +:+ t) = t.
Proof.
  induction s as [|a s IH]; [apply drop_0|].
  by rewrite size_cons, app_cons, drop_succ.
Qed.

Lemma drop_app_plus s t n : drop (size s + n) (s +:+ t) = drop n t.
Proof.
  induction s as [|a s IH]; [done|].
  rewrite size_cons, app_cons.
  replace (N.succ (size s) + n)%N with (N.succ (size s + n)) by lia.
  by rewrite drop_succ.
Qed.

Lemma take_app s t : take (size s) (s +:+ t) = s.
Proof.
  induction s as [|a s IH]; [apply take_0|].
  rewrite size_cons, app_cons, take_succ. by f_equal.
Qed.

Lemma take_all s n : (size s ≤ n)%N → take n s = s.
Proof.
  revert n. induction s as [|a s IH]; intros n Hn; [done|].
  rewrite size_cons in Hn.
  replace n with (N.succ (N.pred n)) by lia. rewrite take_succ. f_equal.
  apply IH. lia.
Qed.

Lemma drop_app_eq n s t : n = size s → drop n (s +:+ t) = t.
Proof. intros ->. apply drop_app. Qed.

(** [find] *)

Lemma find_go_skip c s t i from :
  (i + size s ≤ from)%N → find_go c (s +:+ t) i from = find_go c t (i + size s) from.
Proof.
  revert i. induction s as [|a s IH]; intros i Hi.
  - simpl. by rewrite N.add_0_r.
  - rewrite size_cons in Hi. rewrite app_cons. simpl.
    destruct (N.leb_spec from i) as [Hle|_]; [lia|]. simpl.
    rewrite IH by lia. f_equal. rewrite size_cons. lia.
Qed.

Lemma find_go_hit c s t i from :
  mem c s = false → (from ≤ i)%N →
  find_go c (s +:+ String c t) i from = (i + size s)%N.
Proof.
  revert i. induction s as [|a s IH]; intros i Hmem Hi.
  - simpl. destruct (N.leb_spec from i); [|lia]. rewrite Ascii.eqb_refl. simpl.
    unfold size. simpl. lia.
  - simpl in Hmem. apply orb_false_iff in Hmem as [Ha Hs].
    rewrite app_cons. simpl. rewrite Ha, andb_false_r.
    rewrite IH by (done || lia). rewrite size_cons. lia.
Qed.

Lemma find_go_miss c s i from : mem c s = false → find_go c s i from = npos.
Proof.
  revert i. induction s as [|a s IH]; intros i Hmem; [done|].
  simpl in Hmem. apply orb_false_iff in Hmem as [Ha Hs].
  simpl. rewrite Ha, andb_false_r. by apply IH.
Qed.

Lemma find_hit c s t : mem c s = false → find (s +:+ String c t) c 0 = size s.
Proof. intros. unfold find. by rewrite find_go_hit. Qed.

Lemma find_hit_from c p s t n :
  n = size p → mem c s = false →
  find (p +:+ s +:+ String c t) c n = (size p + size s)%N.
Proof.
  intros -> Hs. unfold find. rewrite find_go_skip by lia.
  rewrite find_go_hit by (done || lia). lia.
Qed.

(** [find_last_of] *)

Lemma find_last_sep_go_no_sep s i pos best :
  no_sep s = true → find_last_sep_go s i pos best = best.
Proof.
  revert i best. induction s as [|a s IH]; intros i best Hs; [done|].
  simpl in Hs. apply andb_true_iff in Hs as [Ha Hs]. apply negb_true_iff in Ha.
  simpl. rewrite Ha, andb_false_r. by apply IH.
Qed.

Lemma find_last_sep_go_app s t i pos best :
  find_last_sep_go (s +:+ t) i pos best
  = find_last_sep_go t (i + size s) pos (find_last_sep_go s i pos best).
Proof.
  revert i best. induction s as [|a s IH]; intros i best.
  - simpl. by rewrite N.add_0_r.
  - rewrite app_cons. simpl. rewrite IH. f_equal. rewrite size_cons. lia.
Qed.

Lemma find_last_of_sep_last s c t :
  is_sep c = true → no_sep t = true → (size s < npos)%N →
  find_last_of_sep (s +:+ String c t) npos = size s.
Proof.
  intros Hc Ht Hs. unfold find_last_of_sep.
  rewrite find_last_sep_go_app. simpl. rewrite Hc.
  rewrite find_last_sep_go_no_sep by done. rewrite N.add_0_l.
  destruct (N.leb_spec (size s) npos) as [_|Hgt]; [done|lia].
Qed.

(** [getline] *)

Lemma getlines_line l rest :
  mem newline l = false →
  getlines (l +:+ String newline rest) = l :: getlines rest.
Proof.
  induction l as [|a l IH]; intros Hmem.
  - done.
  - simpl in Hmem. apply orb_false_iff in Hmem as [Ha Hl].
    rewrite app_cons. simpl. rewrite Ha. by rewrite IH.
Qed.

Lemma getlines_concat (ls : list string) :
  Forall (λ l, mem newline l = false) ls →
  getlines (concat ((λ l, l +:+ String newline "") <$> ls)) = ls.
Proof.
  induction 1 as [|l ls Hl _ IH]; [done|].
  rewrite fmap_cons. simpl concat.
  rewrite app_assoc, app_cons, app_nil_l, getlines_line by done. by rewrite IH.
Qed.

(** [size_t] arithmetic that does not wrap *)

Lemma plus_small (a b : N) : (a + b < 2 ^ 64)%N → plus a b = (a + b)%N.
Proof.
  intros H. unfold plus, size_t.
  change (2 ^ 64)%N with 18446744073709551616%N in H.
  change (2 ^ 64) with 18446744073709551616.
  rewrite Z.mod_small by lia. lia.
Qed.

Lemma minus_small (a b : N) : (b ≤ a < 2 ^ 64)%N → minus a b = (a - b)%N.
Proof.
  intros H. unfold minus, size_t.
  change (2 ^ 64)%N with 18446744073709551616%N in H.
  change (2 ^ 64) with 18446744073709551616.
  rewrite Z.mod_small by lia. lia.
Qed.

End StrFacts.

(** ** [operator<<] followed by [stoll] *)

Module NumFacts.

Lemma all_digits_string_of_uint d : all_digits (NilEmpty.string_of_uint d) = true.
Proof. induction d; simpl; auto. Qed.

Lemma digit_prefix_all_digits s : all_digits s = true → digit_prefix s = s.
Proof.
  induction s as [|a s IH]; [done|]. simpl.
  intros [Ha Hs]%andb_true_iff. rewrite Ha. f_equal. auto.
Qed.

Lemma all_digits_mem c s : is_digit c = false → all_digits s = true → Str.mem c s = false.
Proof.
  intros Hc. induction s as [|a s IH]; [done|]. simpl.
  intros [Ha Hs]%andb_true_iff. rewrite IH by done.
  destruct (Ascii.eqb_spec a c) as [->|]; [congruence|done].
Qed.

Lemma string_of_uint_nonempty d : d ≠ Decimal.Nil → NilEmpty.string_of_uint d ≠ "".
Proof. by destruct d. Qed.

Lemma stoll_digits (neg : bool) (s : string) (u : Decimal.uint) :
  s ≠ "" → all_digits s = true → NilEmpty.uint_of_string s = Some u →
  stoll (if neg then String "-" s else s)
  = let v := if neg then - Z.of_uint u else Z.of_uint u in
    if (LLONG_MIN <=? v) && (v <=? LLONG_MAX) then Some v else None.
Proof.
  intros Hne Hd Hu. destruct s as [|a s]; [done|].
  pose proof Hd as Hd'. simpl in Hd'. apply andb_true_iff in Hd' as [Ha _].
  assert (Hpre : digit_prefix (String a s) = String a s)
    by by apply digit_prefix_all_digits.
  unfold stoll. destruct neg.
  - cbn [skip_spaces]. change (Ascii.is_space "-") with false. cbv iota.
    rewrite Hpre, Hu. done.
  - assert (Hsp : skip_spaces (String a s) = String a s).
    { simpl. destruct a as [[] [] [] [] [] [] [] []]; try done. }
    rewrite Hsp.
    assert (Hsign : match String a s with
                    | String "-" r => (true, r)
                    | String "+" r => (false, r)
                    | _ => (false, String a s)
                    end = (false, String a s)).
    { destruct a as [[] [] [] [] [] [] [] []]; try done. }
    rewrite Hsign, Hpre, Hu. done.
Qed.

Lemma show_ll_shape z :
  ∃ (neg : bool) s u,
    show_ll z = (if neg then String "-" s else s)
    ∧ s ≠ "" ∧ all_digits s = true ∧ NilEmpty.uint_of_string s = Some u
    ∧ (if neg then - Z.of_uint u else Z.of_uint u) = z.
Proof.
  destruct z as [|p|p].
  - exists false, "0", (Decimal.D0 Decimal.Nil). done.
  - exists false, (NilEmpty.string_of_uint (Pos.to_uint p)), (Pos.to_uint p).
    pose proof (Unsigned.to_uint_nonnil p) as Hnn.
    split.
    { unfold show_ll. simpl. unfold NilZero.string_of_uint.
      by destruct (Pos.to_uint p). }
    split; [by apply string_of_uint_nonempty|].
    split; [apply all_digits_string_of_uint|].
    split; [apply NilEmpty.usu|].
    unfold Z.of_uint. by rewrite Unsigned.of_to.
  - exists true, (NilEmpty.string_of_uint (Pos.to_uint p)), (Pos.to_uint p).
    pose proof (Unsigned.to_uint_nonnil p) as Hnn.
    split.
    { unfold show_ll. simpl. unfold NilZero.string_of_uint.
      by destruct (Pos.to_uint p). }
    split; [by apply string_of_uint_nonempty|].
    split; [apply all_digits_string_of_uint|].
    split; [apply NilEmpty.usu|].
    unfold Z.of_uint. by rewrite Unsigned.of_to.
Qed.

(** Every [long long] is read back as written. *)
Lemma stoll_show_ll z : LLONG_MIN ≤ z ≤ LLONG_MAX → stoll (show_ll z) = Some z.
Proof.
  intros Hz. destruct (show_ll_shape z) as (neg & s & u & -> & Hne & Hd & Hu & Hv).
  rewrite (stoll_digits neg s u) by done. cbv zeta. rewrite Hv.
  destruct (Z.leb_spec LLONG_MIN z); [|lia].
  destruct (Z.leb_spec z LLONG_MAX); [done|lia].
Qed.

Lemma show_ll_mem c z :
  is_digit c = false → c ≠ "-"%char → Str.mem c (show_ll z) = false.
Proof.
  intros Hc Hm. destruct (show_ll_shape z) as (neg & s & u & -> & _ & Hd & _).
  pose proof (all_digits_mem c s Hc Hd) as Hs.
  destruct neg; [|done]. cbn [Str.mem]. rewrite Hs.
  destruct (Ascii.eqb_spec "-"%char c); [congruence|done].
Qed.

End NumFacts.

(** ** Iterating a [std::map] *)

Module MapFacts.

Lemma in_key_order_perm {V} (m : gmap string V) : in_key_order m ≡ₚ map_to_list m.
Proof. apply merge_sort_Permutation. Qed.

Lemma length_in_key_order {V} (m : gmap string V) : length (in_key_order m) = size m.
Proof. rewrite in_key_order_perm. by rewrite length_map_to_list. Qed.

Lemma foldl_insert_list_to_map {V} (l : list (string * V)) :
  foldl (λ (m : gmap string V) e, <[e.1 := e.2]> m) ∅ l = list_to_map (reverse l).
Proof.
  induction l as [|e l IH] using rev_ind; [done|].
  rewrite foldl_snoc, reverse_snoc, IH. by destruct e.
Qed.

Lemma list_to_map_in_key_order {V} (m : gmap string V) :
  list_to_map (reverse (in_key_order m)) = m.
Proof.
  rewrite <- (list_to_map_to_list m) at 2.
  apply list_to_map_proper.
  - unfold in_key_order. rewrite reverse_Permutation, merge_sort_Permutation.
    apply NoDup_fst_map_to_list.
  - rewrite reverse_Permutation. apply merge_sort_Permutation.
Qed.

Lemma Forall_in_key_order {V} (Q : string * V → Prop) (m : gmap string V) :
  map_Forall (λ k v, Q (k, v)) m → Forall Q (in_key_order m).
Proof.
  intros Hm. unfold in_key_order. rewrite merge_sort_Permutation.
  apply Forall_forall. intros [k v] Hin. apply (Hm k v).
  by apply elem_of_map_to_list.
Qed.

End MapFacts.

(** ** Paths and the Win32 calls *)

Module PathFacts.
Import Str Win32 StrFacts.

Lemma canon_snoc_sep s c : is_sep c = true → canon (s +:+ String c "") = canon s.
Proof.
  intros Hc. induction s as [|a s IH].
  - simpl. by rewrite Hc.
  - rewrite app_cons. simpl. by rewrite IH.
Qed.

Lemma canon_app s t : canon t ≠ "" → canon (s +:+ t) = s +:+ canon t.
Proof.
  intros Ht. induction s as [|a s IH]; [done|].
  rewrite !app_cons. simpl. rewrite IH.
  destruct (s +:+ canon t) eqn:E; [|done].
  destruct s; [|done]. simpl in E. done.
Qed.

Lemma length_canon p : (String.length (canon p) ≤ String.length p)%nat.
Proof.
  induction p as [|a p IH]; [done|]. simpl.
  destruct (canon p) eqn:E.
  - destruct (is_sep a); simpl; lia.
  - simpl in *. lia.
Qed.

Lemma no_sep_canon name : no_sep name = true → no_sep (canon name) = true.
Proof.
  induction name as [|a name IH]; [done|].
  simpl. intros [Ha Hn]%andb_true_iff.
  destruct (canon name) eqn:E.
  - apply negb_true_iff in Ha. rewrite Ha. simpl. by rewrite Ha.
  - simpl. rewrite Ha. simpl. by apply IH.
Qed.

Lemma parent_of_child d c name :
  is_sep c = true → no_sep name = true → canon name ≠ "" → canon d = d →
  (size d < npos)%N →
  parent (d +:+ String c name) = Some d.
Proof.
  intros Hc Hname Hcn Hd Hsz. unfold parent.
  change (String c name) with (String c "" +:+ name).
  rewrite <- app_assoc, canon_app by done. rewrite app_assoc.
  change (String c "" +:+ canon name) with (String c (canon name)).
  rewrite find_last_of_sep_last by (done || by apply no_sep_canon).
  destruct (N.eqb_spec (size d) npos) as [E|_]; [lia|].
  unfold substr. by rewrite drop_0, take_app, Hd.
Qed.

Lemma GetFileAttributesA_no_files p fs :
  fs_files fs = ∅ →
  GetFileAttributesA p fs
  = if bool_decide (canon p ∈ fs_dirs fs) then FILE_ATTRIBUTE_DIRECTORY
    else INVALID_FILE_ATTRIBUTES.
Proof.
  intros Hf. unfold GetFileAttributesA. rewrite Hf, lookup_empty.
  case_bool_decide; [done|].
  rewrite bool_decide_eq_false_2; [done|]. by intros [? [=]].
Qed.

Lemma CreateDirectoryA_effect (P : Platform) p fs :
  fs_files (CreateDirectoryA P p fs).2 = fs_files fs
  ∧ ((CreateDirectoryA P p fs).1 = ERROR_SUCCESS →
     fs_dirs (CreateDirectoryA P p fs).2 = {[canon p]} ∪ fs_dirs fs)
  ∧ ((CreateDirectoryA P p fs).1 ≠ ERROR_SUCCESS → (CreateDirectoryA P p fs).2 = fs)
  ∧ ((CreateDirectoryA P p fs).1 = ERROR_ALREADY_EXISTS →
     GetFileAttributesA p fs ≠ INVALID_FILE_ATTRIBUTES).
Proof.
  unfold CreateDirectoryA.
  destruct (GetFileAttributesA p fs); simpl; [|done..].
  destruct (negb (parent_exists p fs)); simpl; [done|].
  destruct (mkdir_denied P (canon p)); simpl; done.
Qed.

(** [CreateDirectoryA] touches no file and adds at most its directory. *)
Lemma CreateDirectoryA_frame (P : Platform) p fs :
  fs_files (CreateDirectoryA P p fs).2 = fs_files fs
  ∧ fs_dirs fs ⊆ fs_dirs (CreateDirectoryA P p fs).2
  ∧ fs_dirs (CreateDirectoryA P p fs).2 ⊆ fs_dirs fs ∪ {[ canon p ]}.
Proof.
  assert (Hsame : fs_files fs = fs_files fs ∧ fs_dirs fs ⊆ fs_dirs fs
                  ∧ fs_dirs fs ⊆ fs_dirs fs ∪ {[ canon p ]}).
  { split; [done|]. split; [done|]. apply union_subseteq_l. }
  unfold CreateDirectoryA.
  destruct (GetFileAttributesA p fs); simpl; [|done..].
  destruct (negb (parent_exists p fs)); simpl; [done|].
  destruct (mkdir_denied P (canon p)); simpl; [done|].
  split; [done|]. split; [apply union_subseteq_r|].
  by rewrite (comm_L (∪)).
Qed.

Lemma CopyFileA_failed (P : Platform) bytes src dst fs0 :
  (CopyFileA P bytes src dst fs0).1 = false → (CopyFileA P bytes src dst fs0).2 = fs0.
Proof.
  unfold CopyFileA. destruct bytes as [b|]; [|done].
  by destruct (writable dst fs0 && negb (copy_denied P src dst)).
Qed.

Lemma GetRelativePath_child base name :
  (size name ≤ npos)%N → GetRelativePath (base +:+ name) base = name.
Proof.
  intros Hn. unfold GetRelativePath, starts_with. rewrite prefix_app.
  unfold substr. by rewrite drop_app, take_all.
Qed.

(** The fingerprint is never empty and is a file name. *)

Lemma hex_byte_no_sep b : no_sep (hex_byte b) = true.
Proof. by destruct b. Qed.

Lemma CalculateHash_no_sep P bytes : no_sep (CalculateHash P bytes) = true.
Proof.
  unfold CalculateHash. destruct bytes as [b|]; [|done].
  induction (sha256 P b) as [|x l IH]; [done|].
  rewrite fmap_cons. simpl concat. by rewrite no_sep_app, hex_byte_no_sep, IH.
Qed.

Lemma CalculateHash_nonempty P b : CalculateHash P (Some b) ≠ "".
Proof.
  unfold CalculateHash. pose proof (sha256_length P b) as Hlen.
  destruct (sha256 P b) as [|x l]; [done|]. by rewrite fmap_cons.
Qed.

(** The one way [CreateDestDirectory] takes the process down. *)
Lemma CreateDestDirectory_only_overflows P depth : ∀ path created fs c,
  CreateDestDirectory P depth path created fs = Crash c → c = StackOverflow.
Proof.
  induction depth as [|depth IH]; intros path created fs c; simpl.
  { by intros [= <-]. }
  destruct (is_directory (GetFileAttributesA path fs)); [done|].
  destruct (CreateDirectoryA P path fs) as [[] fs']; try done.
  destruct (negb _); [|done].
  destruct (CreateDestDirectory P depth (substr path 0 _) created fs)
    as [[[[] created1] fs1]|c1] eqn:E; simpl.
  - apply IH.
  - done.
  - intros [= <-]. by apply IH in E.
Qed.

End PathFacts.

Module TreeFacts.

(** Induction over a source tree: a directory may assume the property
    of every entry of its listing. *)
Lemma node_induction (Q : node → Prop) :
  (∀ fd bytes, Q (FileNode fd bytes)) →
  (∀ name listing, Forall Q listing → Q (DirNode name listing)) →
  ∀ n, Q n.
Proof.
  intros Hfile Hdir. fix IH 1. intros [fd bytes|name listing]; [apply Hfile|].
  apply Hdir. induction listing as [|n listing IHl]; constructor; [apply IH|apply IHl].
Qed.

End TreeFacts.

(* ===================================================================== *)
(** ** The incremental engine (phase 2) *)
(* ===================================================================== *)

Module Phase2Facts.
Import Phase2 StrFacts NumFacts MapFacts PathFacts.

(** *** The manifest map *)

(** C9. [GetFileMetadata] on a path the manifest does not hold inserts a
    value-initialised entry (empty hash) under that path, so the map and
    the file count grow by one; on a path it holds, it returns the stored
    metadata and leaves the manifest as it was. *)
Theorem GetFileMetadata_inserts_when_absent
    (manifest : gmap string FileMetadata) (filepath : string) :
  (manifest !! filepath = None →
     (GetFileMetadata filepath manifest).1 = mkMeta "" 0 0
     ∧ (GetFileMetadata filepath manifest).2 = <[filepath := mkMeta "" 0 0]> manifest
     ∧ HasFile filepath (GetFileMetadata filepath manifest).2 = true
     ∧ base.size (GetFileMetadata filepath manifest).2 = S (base.size manifest)
     ∧ (Z.of_nat (base.size manifest) < INT_MAX →
        GetFileCount (GetFileMetadata filepath manifest).2 = GetFileCount manifest + 1))
  ∧ (∀ meta, manifest !! filepath = Some meta →
       GetFileMetadata filepath manifest = (meta, manifest)).
Proof.
  split.
  - intros Hnone. unfold GetFileMetadata. rewrite Hnone. simpl.
    split; [done|]. split; [done|]. split.
    { unfold HasFile. rewrite lookup_insert_eq. by rewrite bool_decide_eq_true_2. }
    rewrite map_size_insert_None by done. split; [done|].
    intros Hlt. unfold GetFileCount. unfold INT_MAX in Hlt.
    rewrite map_size_insert_None by done.
    rewrite !int32_small; lia.
  - intros meta Hsome. unfold GetFileMetadata. by rewrite Hsome.
Qed.

Lemma GetFileMetadata_inserts_when_absent_witness :
  (∅ : gmap string FileMetadata) !! "a.txt" = None
  ∧ Z.of_nat (base.size (∅ : gmap string FileMetadata)) < INT_MAX
  ∧ (GetFileMetadata "a.txt" ∅).1 = mkMeta "" 0 0
  ∧ HasFile "a.txt" (GetFileMetadata "a.txt" ∅).2 = true
  ∧ GetFileCount (GetFileMetadata "a.txt" ∅).2 = GetFileCount ∅ + 1
  ∧ GetFileMetadata "a.txt" {[ "a.txt" := mkMeta "ab" 5 7 ]}
    = (mkMeta "ab" 5 7, {[ "a.txt" := mkMeta "ab" 5 7 ]}).
Proof.
  assert (Hnone : (∅ : gmap string FileMetadata) !! "a.txt" = None) by reflexivity.
  assert (Hsmall : Z.of_nat (base.size (∅ : gmap string FileMetadata)) < INT_MAX)
    by reflexivity.
  destruct (GetFileMetadata_inserts_when_absent ∅ "a.txt") as [Habsent _].
  destruct (Habsent Hnone) as (H1 & _ & H3 & _ & H5).
  destruct (GetFileMetadata_inserts_when_absent {[ "a.txt" := mkMeta "ab" 5 7 ]} "a.txt")
    as [_ Hpresent].
  split; [exact Hnone|]. split; [exact Hsmall|]. split; [exact H1|].
  split; [exact H3|]. split; [exact (H5 Hsmall)|].
  apply Hpresent. reflexivity.
Defined.

(** *** Reading a saved manifest back *)

Lemma manifest_save_line entry :
  save_line entry = line_of entry +:+ String Str.newline "".
Proof. unfold save_line, line_of. by rewrite !app_assoc. Qed.

Lemma four_fields (a b c d : string) :
  Str.mem Str.pipe a = false → Str.mem Str.pipe b = false →
  Str.mem Str.pipe c = false →
  (Str.size (a +:+ "|" +:+ b +:+ "|" +:+ c +:+ "|" +:+ d) < npos - 1)%N →
  ∀ line, line = a +:+ "|" +:+ b +:+ "|" +:+ c +:+ "|" +:+ d →
  let pos1 := Str.find line Str.pipe 0 in
  let pos2 := Str.find line Str.pipe (Str.plus pos1 1) in
  let pos3 := Str.find line Str.pipe (Str.plus pos2 1) in
  pos1 ≠ npos ∧ pos2 ≠ npos ∧ pos3 ≠ npos
  ∧ Str.substr line 0 pos1 = a
  ∧ Str.substr line (Str.plus pos1 1) (Str.minus (Str.minus pos2 pos1) 1) = b
  ∧ Str.substr line (Str.plus pos2 1) (Str.minus (Str.minus pos3 pos2) 1) = c
  ∧ Str.substr line (Str.plus pos3 1) npos = d.
Proof.
  intros Ha Hb Hc Hsz line Hline.
  change ("|" +:+ ?x) with (String Str.pipe x) in *.
  assert (H1 : Str.find line Str.pipe 0 = Str.size a).
  { subst line. by apply find_hit. }
  assert (L2 : line = (a +:+ "|") +:+ b +:+ String Str.pipe (c +:+ String Str.pipe d)).
  { subst line. by norm_app. }
  assert (L3 : line = (a +:+ String Str.pipe (b +:+ "|")) +:+ c +:+ String Str.pipe d).
  { subst line. by norm_app. }
  assert (L4 : line = (a +:+ String Str.pipe (b +:+ String Str.pipe (c +:+ "|"))) +:+ d).
  { subst line. by norm_app. }
  assert (Hsz' : (Str.size a + Str.size b + Str.size c + Str.size d + 3 < npos - 1)%N).
  { clear -Hsz. sizes. }
  cbv zeta. rewrite H1.
  assert (E1 : Str.plus (Str.size a) 1 = (Str.size a + 1)%N).
  { apply plus_small. clear -Hsz'. sizes. }
  rewrite E1.
  assert (H2 : Str.find line Str.pipe (Str.size a + 1) = (Str.size a + 1 + Str.size b)%N).
  { rewrite L2 at 1. rewrite find_hit_from; [|clear; sizes|done]. clear; sizes. }
  rewrite H2.
  assert (E2 : Str.plus (Str.size a + 1 + Str.size b) 1 = (Str.size a + Str.size b + 2)%N).
  { rewrite plus_small; clear -Hsz'; sizes. }
  rewrite E2.
  assert (H3 : Str.find line Str.pipe (Str.size a + Str.size b + 2)
               = (Str.size a + Str.size b + 2 + Str.size c)%N).
  { rewrite L3 at 1. rewrite find_hit_from; [|clear; sizes|done]. clear; sizes. }
  rewrite H3.
  assert (E3 : Str.minus (Str.minus (Str.size a + 1 + Str.size b) (Str.size a)) 1
               = Str.size b).
  { rewrite (minus_small (Str.size a + 1 + Str.size b)) by (clear -Hsz'; sizes).
    rewrite minus_small; clear -Hsz'; sizes. }
  assert (E4 : Str.minus (Str.minus (Str.size a + Str.size b + 2 + Str.size c)
                            (Str.size a + 1 + Str.size b)) 1 = Str.size c).
  { rewrite (minus_small (Str.size a + Str.size b + 2 + Str.size c))
      by (clear -Hsz'; sizes).
    rewrite minus_small; clear -Hsz'; sizes. }
  assert (E5 : Str.plus (Str.size a + Str.size b + 2 + Str.size c) 1
               = (Str.size a + Str.size b + Str.size c + 3)%N).
  { rewrite plus_small; clear -Hsz'; sizes. }
  rewrite E3, E4, E5. unfold Str.substr.
  split; [clear -Hsz'; sizes|]. split; [clear -Hsz'; sizes|]. split; [clear -Hsz'; sizes|].
  split.
  { rewrite drop_0. subst line. apply take_app. }
  split.
  { rewrite L2 at 1. rewrite drop_app_eq by (clear; sizes). apply take_app. }
  split.
  { rewrite L3 at 1. rewrite drop_app_eq by (clear; sizes). apply take_app. }
  rewrite L4 at 1. rewrite drop_app_eq by (clear; sizes). apply take_all.
  clear -Hsz'. sizes.
Qed.

Lemma manifest_parse_line entry :
  storable entry → parse_line (line_of entry) = Parsed entry.1 entry.2.
Proof.
  intros (Hp1 & _ & Hp2 & _ & Hsize & Htime & Hsz).
  destruct entry as [k [h sz tm]]. simpl in *.
  assert (Hpipe_digit : is_digit Str.pipe = false) by done.
  assert (Hpipe_minus : Str.pipe ≠ "-"%char) by done.
  pose proof (show_ll_mem Str.pipe sz Hpipe_digit Hpipe_minus) as Hp3.
  rewrite manifest_save_line in Hsz. unfold line_of in Hsz. simpl in Hsz.
  assert (Hsz' : (Str.size (k +:+ "|" +:+ h +:+ "|" +:+ show_ll sz +:+ "|" +:+ show_ll tm)
                  < npos - 1)%N).
  { clear -Hsz. rewrite size_app in Hsz.
    change (Str.size (String Str.newline "")) with 1%N in Hsz. unfold npos in *. lia. }
  pose proof (four_fields k h (show_ll sz) (show_ll tm) Hp1 Hp2 Hp3 Hsz' _ eq_refl)
    as (N1 & N2 & N3 & F1 & F2 & F3 & F4).
  unfold parse_line, line_of. simpl fst. simpl snd. simpl hash. simpl size.
  simpl lastModified.
  assert (Str.empty (k +:+ "|" +:+ h +:+ "|" +:+ show_ll sz +:+ "|" +:+ show_ll tm) = false)
    as -> by by destruct k.
  cbv zeta in F1, F2, F3, F4, N1, N2, N3.
  apply N.eqb_neq in N1, N2, N3. rewrite N1, N2, N3. simpl negb. simpl andb. cbv iota.
  rewrite F1, F2, F3, F4.
  by rewrite !stoll_show_ll.
Qed.

Lemma manifest_line_no_newline entry :
  storable entry → Str.mem Str.newline (line_of entry) = false.
Proof.
  intros (_ & Hn1 & _ & Hn2 & _).
  assert (Hnl_digit : is_digit Str.newline = false) by done.
  assert (Hnl_minus : Str.newline ≠ "-"%char) by done.
  unfold line_of. rewrite !mem_app, Hn1, Hn2, !show_ll_mem by done. done.
Qed.

Lemma manifest_load_lines (entries : list (string * FileMetadata)) : ∀ acc,
  Forall storable entries →
  load_lines (line_of <$> entries) acc
  = Done (foldl (λ (m : gmap string FileMetadata) e, <[e.1 := e.2]> m) acc entries).
Proof.
  induction entries as [|e entries IH]; intros acc Hall; [done|].
  apply Forall_cons in Hall as [He Hall].
  rewrite fmap_cons. simpl. rewrite manifest_parse_line by done. by apply IH.
Qed.

Lemma manifest_text_round_trip (manifest : gmap string FileMetadata) :
  map_Forall (λ k v, storable (k, v)) manifest →
  load_lines (Str.getlines (save_text manifest)) ∅ = Done manifest.
Proof.
  intros Hm. apply Forall_in_key_order in Hm.
  unfold save_text.
  rewrite (list_fmap_ext save_line
             ((λ l, l +:+ String Str.newline "") ∘ line_of) (in_key_order manifest))
    by (intros; apply manifest_save_line).
  rewrite list_fmap_compose.
  rewrite getlines_concat.
  - rewrite manifest_load_lines by done.
    rewrite foldl_insert_list_to_map. by rewrite list_to_map_in_key_order.
  - apply Forall_fmap. eapply Forall_impl; [exact Hm|].
    intros e He. by apply manifest_line_no_newline.
Qed.

(** The only way [Load] takes the process down is an exception. *)
Lemma load_lines_crash lines : ∀ acc c,
  load_lines lines acc = Crash c → c = UncaughtException.
Proof.
  induction lines as [|l lines IH]; intros acc c; [done|].
  simpl. destruct (parse_line l); eauto. by intros [= <-].
Qed.

(** Blank lines and lines with fewer than three delimiters are skipped. *)
Lemma manifest_parse_blank : parse_line "" = Skipped.
Proof. done. Qed.

Lemma manifest_parse_no_delimiter line :
  Str.mem Str.pipe line = false → parse_line line = Skipped.
Proof.
  intros Hm. unfold parse_line. destruct (Str.empty line); [done|].
  unfold Str.find at 1. rewrite find_go_miss by done. by rewrite N.eqb_refl.
Qed.

(** C8. Loading tolerates blank lines and skips a line that misses a
    delimiter, but a line that has all three delimiters and a size or
    time field that is not a number makes [stoll] throw; nothing catches
    the exception and the load takes the process down. *)
Theorem manifest_load_aborts_on_non_numeric_field :
  parse_line "notes.txt|5e884898da28047151d0e56f8dc62927|twelve|1700000000" = Thrown
  ∧ Load (manifestPath "D:\Backup") ∅ damaged_manifest = Crash UncaughtException
  ∧ (∀ P src incremental root,
       StartBackup P src "D:\Backup" incremental root damaged_manifest
       = Crash UncaughtException).
Proof.
  split; [by vm_compute|]. split; [by vm_compute|].
  intros P src incremental root. unfold StartBackup. simpl.
  assert (Load (manifestPath "D:\Backup") ∅ damaged_manifest = Crash UncaughtException)
    as -> by by vm_compute.
  done.
Qed.

Section Engine.
Context (P : Platform).

(** *** The change decision *)

Lemma ShouldCopyFile_frame sourceFile bytes relativePath fileSize fileTime st :
  manifest (ShouldCopyFile P sourceFile bytes relativePath fileSize fileTime st).2
  = manifest st
  ∧ fs (ShouldCopyFile P sourceFile bytes relativePath fileSize fileTime st).2 = fs st
  ∧ incrementalMode (ShouldCopyFile P sourceFile bytes relativePath fileSize fileTime st).2
    = incrementalMode st
  ∧ errors (stats (ShouldCopyFile P sourceFile bytes relativePath fileSize fileTime st).2)
    = errors (stats st).
Proof.
  unfold ShouldCopyFile, HasFile, GetFileMetadata.
  destruct (incrementalMode st) eqn:Hmode; simpl; [|done].
  destruct (manifest st !! relativePath) as [old|] eqn:Hold.
  - rewrite bool_decide_eq_true_2 by eauto. simpl.
    destruct (negb _ || negb _); simpl; [|done].
    by destruct (negb (bool_decide (CalculateHash P bytes = hash old))).
  - rewrite bool_decide_eq_false_2 by (by intros [? [=]]). done.
Qed.

(** The decision reads the mode, the manifest and the file, nothing else. *)
Lemma ShouldCopyFile_same_decision sourceFile bytes relativePath fileSize fileTime st st2 :
  manifest st2 = manifest st → incrementalMode st2 = incrementalMode st →
  (ShouldCopyFile P sourceFile bytes relativePath fileSize fileTime st2).1
  = (ShouldCopyFile P sourceFile bytes relativePath fileSize fileTime st).1.
Proof.
  intros Hm Hi. unfold ShouldCopyFile, HasFile, GetFileMetadata. rewrite Hm, Hi.
  destruct (incrementalMode st); simpl; [|done].
  destruct (manifest st !! relativePath) as [old|] eqn:Hold.
  - rewrite bool_decide_eq_true_2 by eauto. simpl.
    destruct (negb _ || negb _); simpl; [|done].
    by destruct (negb (bool_decide (CalculateHash P bytes = hash old))).
  - rewrite bool_decide_eq_false_2 by (by intros [? [=]]). done.
Qed.

(** [CopyFileA] runs exactly when the decision is to copy. *)
Lemma backup_file_fs sourcePath sourceDir destDir fd bytes st :
  fs (backup_file P sourcePath sourceDir destDir fd bytes st)
  = if (decision P sourcePath sourceDir fd bytes st).1.1
    then (Win32.CopyFileA P bytes (sourceDir +:+ cFileName fd)
            (destDir +:+ cFileName fd) (fs st)).2
    else fs st.
Proof.
  unfold backup_file, decision, counted.
  pose proof (ShouldCopyFile_frame (sourceDir +:+ cFileName fd) bytes
    (GetRelativePath (sourceDir +:+ cFileName fd) sourcePath)
    (GetFileSize fd) (GetFileTime fd)
    (with_stats (add_totalBytes (GetFileSize fd)) (with_stats inc_filesProcessed st)))
    as (_ & Hfs & _).
  destruct (ShouldCopyFile _ _ _ _ _ _ _) as [[copy h] st1]. simpl in *.
  rewrite Hfs. destruct copy; [|done].
  pose proof (CopyFileA_failed P bytes (sourceDir +:+ cFileName fd)
                (destDir +:+ cFileName fd) (fs st)) as Hfail.
  destruct (Win32.CopyFileA _ _ _ _ _) as [[] fs']; simpl in *; [done|].
  by rewrite Hfail.
Qed.

(** C1. In incremental mode the change decision follows the three-way
    algorithm.  A path the manifest does not hold: the file is hashed,
    [filesNew] goes up by one and the decision is to copy.  A path whose
    recorded size and time both equal the current ones: [filesSkipped]
    goes up by one, the recorded fingerprint is returned, the file is not
    hashed and is not copied.  Otherwise the file is hashed; when the
    fingerprint equals the recorded one [filesSkipped] goes up by one and
    the file is not copied, when it differs [filesModified] goes up by
    one and the decision is to copy.  In each case the two other
    counters stay, and so do the manifest, the volume, the mode and the
    counters of copies and errors.  [backup_file] calls [CopyFileA]
    exactly when the decision is to copy. *)
Theorem ShouldCopyFile_three_way (sourceFile : string) (bytes : option string)
    (relativePath : string) (fileSize fileTime : Z) (st : St) :
  incrementalMode st = true →
  let r := ShouldCopyFile P sourceFile bytes relativePath fileSize fileTime st in
  let copy := r.1.1 in
  let currentHash := r.1.2 in
  let st' := r.2 in
  (manifest st !! relativePath = None →
     copy = true
     ∧ currentHash = CalculateHash P bytes
     ∧ hashed st' = sourceFile :: hashed st
     ∧ filesNew (stats st') = int32 (filesNew (stats st) + 1)
     ∧ filesModified (stats st') = filesModified (stats st)
     ∧ filesSkipped (stats st') = filesSkipped (stats st))
  ∧ (∀ old, manifest st !! relativePath = Some old →
       size old = fileSize ∧ lastModified old = fileTime →
       copy = false
       ∧ currentHash = hash old
       ∧ hashed st' = hashed st
       ∧ filesSkipped (stats st') = int32 (filesSkipped (stats st) + 1)
       ∧ filesNew (stats st') = filesNew (stats st)
       ∧ filesModified (stats st') = filesModified (stats st))
  ∧ (∀ old, manifest st !! relativePath = Some old →
       ¬ (size old = fileSize ∧ lastModified old = fileTime) →
       currentHash = CalculateHash P bytes
       ∧ hashed st' = sourceFile :: hashed st
       ∧ filesNew (stats st') = filesNew (stats st)
       ∧ (CalculateHash P bytes = hash old →
            copy = false
            ∧ filesSkipped (stats st') = int32 (filesSkipped (stats st) + 1)
            ∧ filesModified (stats st') = filesModified (stats st))
       ∧ (CalculateHash P bytes ≠ hash old →
            copy = true
            ∧ filesModified (stats st') = int32 (filesModified (stats st) + 1)
            ∧ filesSkipped (stats st') = filesSkipped (stats st)))
  ∧ (manifest st' = manifest st
     ∧ fs st' = fs st
     ∧ incrementalMode st' = true
     ∧ filesProcessed (stats st') = filesProcessed (stats st)
     ∧ filesCopied (stats st') = filesCopied (stats st)
     ∧ errors (stats st') = errors (stats st))
  ∧ (∀ sourcePath sourceDir destDir fd,
       sourceFile = sourceDir +:+ cFileName fd →
       relativePath = GetRelativePath sourceFile sourcePath →
       fileSize = GetFileSize fd → fileTime = GetFileTime fd →
       fs (backup_file P sourcePath sourceDir destDir fd bytes st)
       = if copy
         then (Win32.CopyFileA P bytes sourceFile (destDir +:+ cFileName fd) (fs st)).2
         else fs st).
Proof.
  intros Hmode. cbv zeta.
  split; [|split; [|split; [|split]]].
  - intros Hnone. unfold ShouldCopyFile, HasFile. rewrite Hmode. simpl. rewrite Hnone.
    by rewrite bool_decide_eq_false_2 by (by intros [? [=]]).
  - intros old Hold [Hsize Htime].
    unfold ShouldCopyFile, HasFile, GetFileMetadata. rewrite Hmode. simpl. rewrite Hold.
    rewrite bool_decide_eq_true_2 by eauto. simpl.
    by rewrite !bool_decide_eq_true_2 by done.
  - intros old Hold Hdiff.
    unfold ShouldCopyFile, HasFile, GetFileMetadata. rewrite Hmode. simpl. rewrite Hold.
    rewrite bool_decide_eq_true_2 by eauto. simpl.
    assert (negb (bool_decide (size old = fileSize))
            || negb (bool_decide (lastModified old = fileTime)) = true) as ->.
    { apply orb_true_iff. rewrite !negb_true_iff, !bool_decide_eq_false.
      destruct (decide (size old = fileSize)); [right|left]; naive_solver. }
    destruct (decide (CalculateHash P bytes = hash old)) as [Hh|Hh].
    + rewrite bool_decide_eq_true_2 by done. simpl. done.
    + rewrite bool_decide_eq_false_2 by done. simpl. done.
  - pose proof (ShouldCopyFile_frame sourceFile bytes relativePath fileSize fileTime st)
      as (Hm & Hfs & Hi & He).
    rewrite Hm, Hfs, Hi, He. do 3 (split; [done|]).
    unfold ShouldCopyFile, HasFile, GetFileMetadata. rewrite Hmode. simpl.
    destruct (manifest st !! relativePath) as [old|] eqn:Hold.
    + rewrite bool_decide_eq_true_2 by eauto. simpl.
      destruct (negb _ || negb _); simpl; [|done].
      by destruct (negb (bool_decide (CalculateHash P bytes = hash old))).
    + by rewrite bool_decide_eq_false_2 by (by intros [? [=]]).
  - intros sourcePath sourceDir destDir fd -> -> -> ->.
    rewrite backup_file_fs. unfold decision.
    by rewrite (ShouldCopyFile_same_decision (sourceDir +:+ cFileName fd) bytes
                  (GetRelativePath (sourceDir +:+ cFileName fd) sourcePath)
                  (GetFileSize fd) (GetFileTime fd) st (counted fd st)).
Qed.

(** *** A copy that fails *)

Lemma backup_file_copy_failed sourcePath sourceDir destDir fd bytes st :
  (decision P sourcePath sourceDir fd bytes st).1.1 = true →
  (Win32.CopyFileA P bytes (sourceDir +:+ cFileName fd)
     (destDir +:+ cFileName fd) (fs st)).1 = false →
  backup_file P sourcePath sourceDir destDir fd bytes st
  = with_stats inc_errors (decision P sourcePath sourceDir fd bytes st).2.
Proof.
  unfold backup_file, decision, counted. intros Hcopy Hfail.
  pose proof (ShouldCopyFile_frame (sourceDir +:+ cFileName fd) bytes
    (GetRelativePath (sourceDir +:+ cFileName fd) sourcePath)
    (GetFileSize fd) (GetFileTime fd)
    (with_stats (add_totalBytes (GetFileSize fd)) (with_stats inc_filesProcessed st)))
    as (_ & Hfs & _).
  destruct (ShouldCopyFile _ _ _ _ _ _ _) as [[copy h] st1]. simpl in *. subst copy.
  rewrite Hfs. by destruct (Win32.CopyFileA _ _ _ _ _) as [[] fs'].
Qed.

Lemma failed_copy_keeps_manifest sourcePath sourceDir destDir fd bytes st :
  (decision P sourcePath sourceDir fd bytes st).1.1 = true →
  (Win32.CopyFileA P bytes (sourceDir +:+ cFileName fd)
     (destDir +:+ cFileName fd) (fs st)).1 = false →
  let st' := backup_file P sourcePath sourceDir destDir fd bytes st in
  st' = with_stats inc_errors (decision P sourcePath sourceDir fd bytes st).2
  ∧ errors (stats st') = int32 (errors (stats st) + 1)
  ∧ manifest st' = manifest st
  ∧ fs st' = fs st
  ∧ ∀ later : St,
      manifest later = manifest st' →
      (incrementalMode later = true → incrementalMode st = true) →
      (decision P sourcePath sourceDir fd bytes later).1.1 = true.
Proof.
  intros Hcopy Hfail st'.
  assert (Hst' : st' = with_stats inc_errors (decision P sourcePath sourceDir fd bytes st).2)
    by by apply backup_file_copy_failed.
  pose proof (ShouldCopyFile_frame (sourceDir +:+ cFileName fd) bytes
    (GetRelativePath (sourceDir +:+ cFileName fd) sourcePath)
    (GetFileSize fd) (GetFileTime fd) (counted fd st)) as (Hm & Hfs & Hmode & Herr).
  fold (decision P sourcePath sourceDir fd bytes st) in Hm, Hfs, Hmode, Herr.
  split; [done|]. rewrite Hst'. simpl. rewrite Herr, Hm, Hfs.
  split; [done|]. split; [done|]. split; [done|].
  intros later Hlm Hli. destruct (incrementalMode later) eqn:Hl.
  - rewrite <- Hcopy. unfold decision.
    f_equal. apply ShouldCopyFile_same_decision; simpl; [by rewrite Hlm|].
    by rewrite Hl, Hli.
  - unfold decision, counted, ShouldCopyFile. simpl. by rewrite Hl.
Qed.

(** *** A source root that is not there *)

Lemma incremental_no_source_no_walk src dst incremental root fs0 :
  root = RootMissing ∨ root = RootNotADirectory →
  StartBackup P src dst incremental root fs0 = Crash UncaughtException
  ∨ ∃ st, StartBackup P src dst incremental root fs0 = Done (false, st)
          ∧ stats st = no_stats ∧ fs st = fs0.
Proof.
  intros Hroot. unfold StartBackup. simpl.
  unfold Load. destruct (Win32.read_file (manifestPath dst) fs0) as [text|]; simpl.
  - destruct (load_lines (Str.getlines text) ∅) as [m|c] eqn:Hload; simpl.
    + right. destruct incremental; simpl;
        destruct Hroot as [-> | ->]; eexists; (split; [reflexivity|done]).
    + left. by rewrite (load_lines_crash _ _ _ Hload).
  - right. destruct Hroot as [-> | ->]; eexists; (split; [reflexivity|done]).
Qed.

(** *** Saving and reloading *)

Lemma manifest_file_round_trip path manifest before fs0 fs' :
  map_Forall (λ k v, storable (k, v)) manifest →
  Save P path manifest fs0 = (true, fs') →
  Load path before fs' = Done (true, manifest).
Proof.
  intros Hm. unfold Save, Win32.write_file, Load, Win32.read_file.
  destruct (_ && _); [|done]. intros [= <-]. simpl.
  rewrite lookup_insert_eq. by rewrite manifest_text_round_trip.
Qed.

End Engine.

Lemma ShouldCopyFile_three_way_witness :
  let st := mkSt no_stats {[ "a.txt" := mkMeta "stale" 5 7 ]} true empty_volume [] in
  let new := ShouldCopyFile quiet "C:\src\b.txt" (Some "hello") "b.txt" 5 7 st in
  let same := ShouldCopyFile quiet "C:\src\a.txt" (Some "hello") "a.txt" 5 7 st in
  let other := ShouldCopyFile quiet "C:\src\a.txt" (Some "hello") "a.txt" 5 8 st in
  incrementalMode st = true
  ∧ (new.1.1 = true ∧ filesNew (stats new.2) = 1 ∧ hashed new.2 = ["C:\src\b.txt"])
  ∧ (same.1.1 = false ∧ same.1.2 = "stale" ∧ filesSkipped (stats same.2) = 1
     ∧ hashed same.2 = [])
  ∧ (other.1.1 = true ∧ filesModified (stats other.2) = 1
     ∧ hashed other.2 = ["C:\src\a.txt"]).
Proof.
  intros st new same other.
  assert (Hmode : incrementalMode st = true) by reflexivity.
  split; [exact Hmode|].
  split.
  { destruct (ShouldCopyFile_three_way quiet "C:\src\b.txt" (Some "hello") "b.txt" 5 7
                st Hmode) as (Hnew & _).
    destruct (Hnew eq_refl) as (Hc & _ & Hh & Hn & _).
    split; [exact Hc|]. split; [exact Hn|exact Hh]. }
  split.
  { destruct (ShouldCopyFile_three_way quiet "C:\src\a.txt" (Some "hello") "a.txt" 5 7
                st Hmode) as (_ & Hsame & _).
    destruct (Hsame (mkMeta "stale" 5 7) eq_refl (conj eq_refl eq_refl))
      as (Hc & Hh & Hr & Hs & _).
    split; [exact Hc|]. split; [exact Hh|]. split; [exact Hs|exact Hr]. }
  destruct (ShouldCopyFile_three_way quiet "C:\src\a.txt" (Some "hello") "a.txt" 5 8
              st Hmode) as (_ & _ & Hdiff & _).
  assert (Hnot : ¬ (size (mkMeta "stale" 5 7) = 5 ∧ lastModified (mkMeta "stale" 5 7) = 8))
    by (intros [_ H]; discriminate H).
  destruct (Hdiff (mkMeta "stale" 5 7) eq_refl Hnot) as (_ & Hr & _ & _ & Hmod).
  assert (Hne : CalculateHash quiet (Some "hello") ≠ hash (mkMeta "stale" 5 7))
    by (vm_compute; discriminate).
  destruct (Hmod Hne) as (Hc & Hm & _).
  split; [exact Hc|]. split; [exact Hm|exact Hr].
Defined.

End Phase2Facts.

(* ===================================================================== *)
(** ** The deduplicating engine (phase 3) *)
(* ===================================================================== *)

Module Phase3Facts.
Import Phase3 StrFacts NumFacts MapFacts PathFacts TreeFacts.

(** *** Reference counts *)

Lemma GetReferenceCount_default (h : string) (refs : gmap string Z) :
  GetReferenceCount h refs = default 0 (refs !! h).
Proof. unfold GetReferenceCount. by destruct (refs !! h). Qed.

Lemma GetReferenceCount_incr_same h refs :
  GetReferenceCount h (IncrementReference h refs) = int32 (GetReferenceCount h refs + 1).
Proof.
  rewrite !GetReferenceCount_default. unfold IncrementReference.
  by rewrite lookup_insert_eq.
Qed.

Lemma GetReferenceCount_incr_other h h' refs :
  h ≠ h' → GetReferenceCount h' (IncrementReference h refs) = GetReferenceCount h' refs.
Proof.
  intros Hne. rewrite !GetReferenceCount_default. unfold IncrementReference.
  by rewrite lookup_insert_ne.
Qed.

Lemma counts_from_get lo refs h :
  lo ≤ 0 → counts_from lo refs → lo ≤ GetReferenceCount h refs ≤ INT_MAX.
Proof.
  intros Hlo Hrefs. unfold GetReferenceCount.
  destruct (refs !! h) as [n|] eqn:Hh; [by eapply Hrefs|]. unfold INT_MAX. lia.
Qed.

Lemma counts_incr refs h :
  counts_from 0 refs → GetReferenceCount h refs < INT_MAX →
  counts_from 0 (IncrementReference h refs).
Proof.
  intros Hrefs Hlt k n. unfold IncrementReference.
  rewrite lookup_insert. case_decide as Hk.
  - intros [= <-]. rewrite <- GetReferenceCount_default.
    pose proof (counts_from_get 0 refs h ltac:(lia) Hrefs).
    rewrite int32_incr; lia.
  - apply Hrefs.
Qed.

Lemma counts_tally (entries : list (string * string)) : ∀ acc : gmap string Z,
  counts_from 0 acc →
  (∀ k, GetReferenceCount k acc + Z.of_nat (length entries) ≤ INT_MAX) →
  counts_from 0 (foldl (λ r e, IncrementReference e.2 r) acc entries).
Proof.
  induction entries as [|e l IH]; intros acc Hacc Hmax; simpl; [done|].
  apply IH.
  - apply counts_incr; [done|]. specialize (Hmax e.2). simpl in Hmax. lia.
  - intros k. destruct (decide (e.2 = k)) as [<-|Hne].
    + rewrite GetReferenceCount_incr_same.
      pose proof (counts_from_get 0 acc e.2 ltac:(lia) Hacc).
      specialize (Hmax e.2). simpl in Hmax. rewrite int32_incr; lia.
    + rewrite GetReferenceCount_incr_other by done.
      specialize (Hmax k). simpl in Hmax. lia.
Qed.

(** C10 (as the code has it). In a store whose counts are not negative,
    [IncrementReference] raises the count of a fingerprint that is below
    [INT_MAX] by exactly one, from the untracked state too, where it
    creates a count of 1 whether or not a blob was ever stored (it reads
    no file system); it leaves every other count alone, and the counts
    [IncrementReference], [StoreContent] and
    [LoadReferenceCountsFromIndex] (for an index of at most [INT_MAX]
    entries) then leave are not negative either. *)
Theorem IncrementReference_adds_one (P : Platform) (referenceCount : gmap string Z)
    (hash : string) :
  counts_from 0 referenceCount →
  GetReferenceCount hash referenceCount < INT_MAX →
  GetReferenceCount hash (IncrementReference hash referenceCount)
    = GetReferenceCount hash referenceCount + 1
  ∧ (referenceCount !! hash = None →
     GetReferenceCount hash (IncrementReference hash referenceCount) = 1)
  ∧ (∀ other, other ≠ hash →
     GetReferenceCount other (IncrementReference hash referenceCount)
       = GetReferenceCount other referenceCount)
  ∧ counts_from 0 (IncrementReference hash referenceCount)
  ∧ (∀ backupRoot bytes sourceFile h fs,
       counts_from 0 (StoreContent P backupRoot bytes sourceFile h referenceCount fs).1.2)
  ∧ (∀ fileHashMap : gmap string string,
       Z.of_nat (size fileHashMap) ≤ INT_MAX →
       counts_from 0 (LoadReferenceCountsFromIndex fileHashMap)).
Proof.
  intros Hrefs Hlt.
  pose proof (counts_from_get 0 referenceCount hash ltac:(lia) Hrefs) as Hrange.
  assert (Hone : GetReferenceCount hash (IncrementReference hash referenceCount)
                 = GetReferenceCount hash referenceCount + 1).
  { rewrite GetReferenceCount_incr_same. apply int32_incr. lia. }
  split; [done|]. split.
  { intros Hnone. rewrite Hone. unfold GetReferenceCount. by rewrite Hnone. }
  split.
  { intros other Hne. by apply GetReferenceCount_incr_other. }
  split; [by apply counts_incr|]. split.
  - intros backupRoot bytes sourceFile h fs. unfold StoreContent.
    destruct (Win32.CopyFileA _ _ _ _ _) as [[] fs']; simpl; [|done].
    intros k n. rewrite lookup_insert. case_decide.
    + intros [= <-]. unfold INT_MAX. lia.
    + apply Hrefs.
  - intros m Hm. unfold LoadReferenceCountsFromIndex. apply counts_tally.
    + intros k n. by rewrite lookup_empty.
    + intros k. rewrite GetReferenceCount_default, lookup_empty. simpl.
      rewrite length_in_key_order. lia.
Qed.

Lemma IncrementReference_adds_one_witness :
  let tracked : gmap string Z := {[ "ab12" := 41; "cd34" := 7 ]} in
  (counts_from 0 tracked ∧ GetReferenceCount "ab12" tracked < INT_MAX)
  ∧ GetReferenceCount "ab12" (IncrementReference "ab12" tracked) = 42
  ∧ GetReferenceCount "cd34" (IncrementReference "ab12" tracked) = 7
  ∧ GetReferenceCount "ef56" (IncrementReference "ef56" tracked) = 1
  ∧ counts_from 0 (IncrementReference "ab12" tracked).
Proof.
  intros tracked.
  assert (H0 : counts_from 0 tracked).
  { intros h n H. unfold tracked in H.
    apply lookup_insert_Some in H as [[_ <-]|[_ H]]; [unfold INT_MAX; lia|].
    apply lookup_singleton_Some in H as [_ <-]. unfold INT_MAX. lia. }
  assert (H1 : GetReferenceCount "ab12" tracked < INT_MAX) by reflexivity.
  assert (H2 : GetReferenceCount "ef56" tracked < INT_MAX) by reflexivity.
  destruct (IncrementReference_adds_one quiet tracked "ab12" H0 H1)
    as (Hone & _ & Hother & Hinv & _).
  destruct (IncrementReference_adds_one quiet tracked "ef56" H0 H2)
    as (_ & Hfresh & _).
  split; [by split|]. split; [exact Hone|].
  split; [rewrite Hother; [reflexivity|discriminate]|].
  split; [apply Hfresh; reflexivity|exact Hinv].
Defined.

(** C10, as stated for every store state, does not hold: a count that
    has reached [INT_MAX] wraps to [INT_MIN]. *)
Lemma IncrementReference_wraps_at_INT_MAX :
  ¬ (∀ (referenceCount : gmap string Z) (hash : string),
       counts_from 0 referenceCount →
       GetReferenceCount hash (IncrementReference hash referenceCount)
       = GetReferenceCount hash referenceCount + 1
       ∧ 0 ≤ GetReferenceCount hash (IncrementReference hash referenceCount)).
Proof.
  intros H.
  destruct (H {[ "ab12" := INT_MAX ]} "ab12") as [_ Hneg].
  - intros h n Hn. apply lookup_singleton_Some in Hn as [_ <-]. unfold INT_MAX. lia.
  - vm_compute in Hneg. by apply Hneg.
Qed.

Lemma occurrences_cons h e entries :
  occurrences h (e :: entries)
  = ((if decide (e.2 = h) then 1 else 0) + occurrences h entries)%nat.
Proof. unfold occurrences. rewrite filter_cons. by case_decide. Qed.

Lemma occurrences_perm h l1 l2 : l1 ≡ₚ l2 → occurrences h l1 = occurrences h l2.
Proof. intros Hp. unfold occurrences. by rewrite Hp. Qed.

Lemma tally_counts (entries : list (string * string)) : ∀ (acc : gmap string Z) h,
  (∀ k, 0 ≤ GetReferenceCount k acc) →
  (∀ k, GetReferenceCount k acc + Z.of_nat (length entries) ≤ INT_MAX) →
  GetReferenceCount h
    (foldl (λ referenceCount entry, IncrementReference entry.2 referenceCount) acc entries)
  = GetReferenceCount h acc + Z.of_nat (occurrences h entries).
Proof.
  induction entries as [|e entries IH]; intros acc h Hpos Hmax; simpl.
  - unfold occurrences. simpl. lia.
  - assert (Hstep : ∀ k, GetReferenceCount k (IncrementReference e.2 acc)
                     = GetReferenceCount k acc + (if decide (e.2 = k) then 1 else 0)).
    { intros k. case_decide as Hk.
      - subst k. rewrite GetReferenceCount_incr_same. apply int32_incr.
        specialize (Hpos e.2). specialize (Hmax e.2). simpl in Hmax. lia.
      - rewrite GetReferenceCount_incr_other by done. lia. }
    rewrite IH.
    + rewrite Hstep, occurrences_cons. case_decide; lia.
    + intros k. rewrite Hstep. specialize (Hpos k). case_decide; lia.
    + intros k. rewrite Hstep. specialize (Hmax k). simpl in Hmax. case_decide; lia.
Qed.

(** C6. After the counts are rebuilt from a loaded index, the count of
    every fingerprint is the number of index entries that carry it, and
    [GetReferenceCount] answers 0 for a fingerprint that is not tracked
    (the index holding at most [INT_MAX] entries, counts being [int]). *)
Theorem rebuilt_counts_tally_the_index (fileHashMap : gmap string string) (h : string) :
  Z.of_nat (size fileHashMap) ≤ INT_MAX →
  GetReferenceCount h (LoadReferenceCountsFromIndex fileHashMap)
  = Z.of_nat (occurrences h (map_to_list fileHashMap))
  ∧ (∀ (referenceCount : gmap string Z) k,
       referenceCount !! k = None → GetReferenceCount k referenceCount = 0).
Proof.
  intros Hsize. split.
  - unfold LoadReferenceCountsFromIndex. rewrite tally_counts.
    + rewrite (occurrences_perm _ _ _ (in_key_order_perm fileHashMap)).
      rewrite GetReferenceCount_default, lookup_empty. simpl. lia.
    + intros k. rewrite GetReferenceCount_default, lookup_empty. simpl. lia.
    + intros k. rewrite GetReferenceCount_default, lookup_empty, length_in_key_order.
      simpl. lia.
  - intros refs k Hk. unfold GetReferenceCount. by rewrite Hk.
Qed.

Lemma rebuilt_counts_tally_the_index_witness :
  let index : gmap string string :=
    {[ "a.txt" := "ab12"; "b.txt" := "ab12"; "c.txt" := "cd34" ]} in
  Z.of_nat (size index) ≤ INT_MAX
  ∧ GetReferenceCount "ab12" (LoadReferenceCountsFromIndex index) = 2
  ∧ GetReferenceCount "ffff" (LoadReferenceCountsFromIndex index) = 0.
Proof.
  intros index.
  assert (Hsize : Z.of_nat (size index) ≤ INT_MAX) by (vm_compute; discriminate).
  split; [exact Hsize|]. split.
  - destruct (rebuilt_counts_tally_the_index index "ab12" Hsize) as [-> _].
    vm_compute. reflexivity.
  - destruct (rebuilt_counts_tally_the_index index "ffff" Hsize) as [-> _].
    vm_compute. reflexivity.
Defined.

(** *** Reading a saved index back *)

Lemma index_save_line entry : save_line entry = line_of entry +:+ String Str.newline "".
Proof. unfold save_line, line_of. by rewrite !app_assoc. Qed.

Lemma index_line_fits entry :
  storable entry →
  Str.mem Str.newline (line_of entry) = false ∧ (Str.size (line_of entry) < npos - 1)%N.
Proof.
  intros (Hp & Hn1 & Hn2 & Hsz). split.
  - unfold line_of. rewrite !mem_app, Hn1, Hn2. done.
  - rewrite index_save_line, size_app in Hsz.
    change (Str.size (String Str.newline "")) with 1%N in Hsz. unfold npos in *. lia.
Qed.

Lemma index_parse_line entry : storable entry → parse_line (line_of entry) = Some entry.
Proof.
  intros Hst. pose proof (index_line_fits _ Hst) as [_ Hsz].
  destruct Hst as (Hp & _). destruct entry as [k v]. simpl in *.
  unfold line_of in *. simpl in *.
  change ("|" +:+ v) with (String Str.pipe v) in *.
  rewrite size_app, size_cons in Hsz. unfold npos in Hsz.
  unfold parse_line.
  assert (Str.empty (k +:+ String Str.pipe v) = false) as -> by by destruct k.
  rewrite find_hit by done.
  destruct (N.eqb_spec (Str.size k) npos) as [He|_]; [unfold npos in He; lia|]. simpl.
  unfold Str.substr. rewrite drop_0, take_app.
  rewrite plus_small by (change (2 ^ 64)%N with 18446744073709551616%N; lia).
  rewrite drop_app_plus.
  change (Str.drop 1 (String Str.pipe v)) with (Str.drop 0 v).
  rewrite drop_0, take_all; [done|]. unfold npos. lia.
Qed.

Lemma index_load_lines (entries : list (string * string)) : ∀ acc,
  Forall storable entries →
  load_lines (line_of <$> entries) acc
  = foldl (λ (m : gmap string string) e, <[e.1 := e.2]> m) acc entries.
Proof.
  induction entries as [|e entries IH]; intros acc Hall; [done|].
  apply Forall_cons in Hall as [He Hall].
  rewrite fmap_cons. simpl. rewrite index_parse_line by done.
  destruct e as [k v]. simpl. by apply IH.
Qed.

Lemma index_text_round_trip (fileHashMap : gmap string string) :
  map_Forall (λ k v, storable (k, v)) fileHashMap →
  load_lines (Str.getlines (save_text fileHashMap)) ∅ = fileHashMap.
Proof.
  intros Hm. apply Forall_in_key_order in Hm.
  unfold save_text.
  rewrite (list_fmap_ext save_line
             ((λ l, l +:+ String Str.newline "") ∘ line_of) (in_key_order fileHashMap))
    by (intros; apply index_save_line).
  rewrite list_fmap_compose.
  rewrite getlines_concat.
  - rewrite index_load_lines by done.
    rewrite foldl_insert_list_to_map. apply list_to_map_in_key_order.
  - apply Forall_fmap. eapply Forall_impl; [exact Hm|].
    intros e He. by apply index_line_fits.
Qed.

(** Blank lines and lines without a delimiter are skipped; every other
    line is kept, whatever it holds. *)
Lemma index_parse_blank : parse_line "" = None.
Proof. done. Qed.

Lemma index_parse_no_delimiter line :
  Str.mem Str.pipe line = false → parse_line line = None.
Proof.
  intros Hm. unfold parse_line. destruct (Str.empty line); [done|].
  unfold Str.find. rewrite find_go_miss by done. by rewrite N.eqb_refl.
Qed.

(** *** The store directory *)

Lemma rooted_shape dst : dst ≠ "" → ∃ base, rooted dst = base +:+ "\".
Proof.
  intros Hne. unfold rooted.
  assert (Str.empty dst = false) as -> by by destruct dst. simpl.
  case_bool_decide as Hb; simpl; [by apply back_snoc|by exists dst].
Qed.

Lemma storePath_eq dst base :
  rooted dst = base +:+ "\" → storePath dst = storeDir base +:+ "\".
Proof. intros Hbase. unfold storePath, storeDir. rewrite Hbase. by norm_app. Qed.

Lemma parentPath_eq dst base :
  rooted dst = base +:+ "\" → (Str.size base ≤ 300)%N → parentPath dst = base.
Proof.
  intros Hbase Hlen. unfold parentPath. rewrite (storePath_eq dst base Hbase).
  unfold storeDir.
  assert (Hsz : Str.size ((base +:+ "\.dedup_store") +:+ "\") = (Str.size base + 14)%N).
  { rewrite !size_app. change (Str.size "\.dedup_store") with 13%N.
    change (Str.size "\") with 1%N. lia. }
  rewrite Hsz, minus_small
    by (change (2 ^ 64)%N with 18446744073709551616%N; lia).
  unfold Str.substr. rewrite drop_0, app_assoc.
  replace (Str.size base + 14 - 14)%N with (Str.size base) by lia.
  apply take_app.
Qed.

Lemma canon_storeDir base : Win32.canon (storeDir base) = storeDir base.
Proof. unfold storeDir. by rewrite canon_app. Qed.

Lemma canon_storePath dst base :
  rooted dst = base +:+ "\" → Win32.canon (storePath dst) = storeDir base.
Proof.
  intros Hbase. rewrite (storePath_eq dst base Hbase), canon_snoc_sep by done.
  apply canon_storeDir.
Qed.

Lemma canon_destPath dst base :
  rooted dst = base +:+ "\" → Win32.canon (NormalizePath dst) = Win32.canon base.
Proof.
  intros Hbase. change (NormalizePath dst) with (rooted dst). rewrite Hbase.
  by apply canon_snoc_sep.
Qed.

Lemma GetContentPath_eq dst base h :
  rooted dst = base +:+ "\" →
  GetContentPath dst h = storeDir base +:+ String Str.backslash (h +:+ ".bin").
Proof.
  intros Hbase. unfold GetContentPath. rewrite (storePath_eq dst base Hbase).
  by norm_app.
Qed.

Lemma canon_GetContentPath dst base h :
  rooted dst = base +:+ "\" →
  Win32.canon (GetContentPath dst h) = GetContentPath dst h.
Proof.
  intros Hbase. rewrite (GetContentPath_eq dst base h Hbase).
  change (String Str.backslash (h +:+ ".bin")) with (("\" +:+ h) +:+ ".bin").
  rewrite <- app_assoc. by rewrite canon_app.
Qed.

Lemma parent_GetContentPath dst base h :
  rooted dst = base +:+ "\" → (Str.size base ≤ 300)%N → Str.no_sep h = true →
  Win32.parent (GetContentPath dst h) = Some (storeDir base).
Proof.
  intros Hbase Hlen Hh. rewrite (GetContentPath_eq dst base h Hbase).
  apply parent_of_child.
  - done.
  - by rewrite no_sep_app, Hh.
  - rewrite canon_app by done. by destruct h.
  - apply canon_storeDir.
  - unfold storeDir. rewrite size_app.
    change (Str.size "\.dedup_store") with 13%N. unfold npos. lia.
Qed.

Lemma GetContentPath_not_store dst base h :
  rooted dst = base +:+ "\" →
  GetContentPath dst h ≠ storeDir base ∧ GetContentPath dst h ≠ Win32.canon base.
Proof.
  intros Hbase. rewrite (GetContentPath_eq dst base h Hbase). split.
  - intros H. apply (f_equal String.length) in H.
    rewrite length_app in H. simpl in H. lia.
  - intros H. apply (f_equal String.length) in H.
    pose proof (length_canon base) as Hc. rewrite <- H in Hc.
    unfold storeDir in Hc. rewrite !length_app in Hc. simpl in Hc. lia.
Qed.

Lemma canon_indexPath dst base :
  rooted dst = base +:+ "\" →
  Win32.canon (indexPath dst) = base +:+ "\.dedup_index.txt".
Proof.
  intros Hbase. unfold indexPath. rewrite Hbase.
  replace ((base +:+ "\") +:+ ".dedup_index.txt") with (base +:+ "\.dedup_index.txt")
    by by norm_app.
  by rewrite canon_app.
Qed.

Lemma indexPath_not_blob dst base h :
  rooted dst = base +:+ "\" →
  Win32.canon (indexPath dst) ≠ Win32.canon (GetContentPath dst h).
Proof.
  intros Hbase.
  rewrite (canon_indexPath dst base Hbase), (canon_GetContentPath dst base h Hbase),
    (GetContentPath_eq dst base h Hbase).
  unfold storeDir. rewrite app_assoc. intros H. apply String.app_inj in H. discriminate.
Qed.

Section Engine.
Context (P : Platform).

(** [Initialize] touches no file and creates at most the two directories. *)
Lemma Initialize_effect dst fs0 :
  fs_files (Initialize P dst fs0).2 = fs_files fs0
  ∧ fs_dirs fs0 ⊆ fs_dirs (Initialize P dst fs0).2
  ∧ fs_dirs (Initialize P dst fs0).2
    ⊆ fs_dirs fs0 ∪ {[ Win32.canon (parentPath dst); Win32.canon (storePath dst) ]}.
Proof.
  unfold Initialize. fold (parentPath dst).
  pose proof (CreateDirectoryA_frame P (parentPath dst) fs0) as (Hf1 & Hd1 & Hd1').
  set (step1 := match Win32.GetFileAttributesA (parentPath dst) fs0 with
                | Win32.INVALID_FILE_ATTRIBUTES => _ | _ => _ end).
  assert (H1 : fs_files step1.2 = fs_files fs0
               ∧ fs_dirs fs0 ⊆ fs_dirs step1.2
               ∧ fs_dirs step1.2 ⊆ fs_dirs fs0 ∪ {[ Win32.canon (parentPath dst) ]}).
  { unfold step1. clearbody step1.
    destruct (Win32.GetFileAttributesA (parentPath dst) fs0);
      [|split; [done|split; [done|apply union_subseteq_l]]..].
    destruct (Win32.CreateDirectoryA P (parentPath dst) fs0) as [[] fs']; simpl in *;
      first [done | split; [done|split; [done|apply union_subseteq_l]]]. }
  destruct step1 as [ok fsa]. simpl in H1. destruct H1 as (Hfa & Hda1 & Hda2).
  clear Hf1 Hd1 Hd1'.
  assert (Hwide : fs_dirs fsa
                  ⊆ fs_dirs fs0 ∪ {[ Win32.canon (parentPath dst);
                                     Win32.canon (storePath dst) ]}).
  { etrans; [exact Hda2|]. apply union_mono_l. apply union_subseteq_l. }
  destruct ok; simpl; [|done].
  destruct (Win32.is_directory _); simpl; [done|].
  pose proof (CreateDirectoryA_frame P (storePath dst) fsa) as (Hf2 & Hd2 & Hd2').
  assert (Hfinal : fs_dirs fsa ∪ {[ Win32.canon (storePath dst) ]}
                   ⊆ fs_dirs fs0 ∪ {[ Win32.canon (parentPath dst);
                                      Win32.canon (storePath dst) ]}).
  { apply union_least; [exact Hwide|]. etrans; [|apply union_subseteq_r].
    apply union_subseteq_r. }
  destruct (Win32.CreateDirectoryA P (storePath dst) fsa) as [[] fs']; simpl in *;
    try done.
  split; [congruence|]. split; [by etrans|by etrans].
Qed.

Lemma ensure_directory p fsa :
  fs_files fsa = ∅ →
  let r := if Win32.is_directory (Win32.GetFileAttributesA p fsa) then (true, fsa)
           else match Win32.CreateDirectoryA P p fsa with
                | (Win32.ERROR_SUCCESS, fs') => (true, fs')
                | (Win32.ERROR_ALREADY_EXISTS, _) => (true, fsa)
                | _ => (false, fsa)
                end in
  r.1 = true → Win32.canon p ∈ fs_dirs r.2 ∧ fs_dirs fsa ⊆ fs_dirs r.2.
Proof.
  intros Hfiles.
  pose proof (CreateDirectoryA_effect P p fsa) as (Hf & Hd & Hn & He).
  rewrite (GetFileAttributesA_no_files p) in * by done.
  case_bool_decide as Hin; simpl; [done|].
  destruct (Win32.CreateDirectoryA P p fsa) as [[] fs'] eqn:E; simpl in *; try done.
  - intros _. rewrite Hd by done. split; [|apply union_subseteq_r].
    by apply elem_of_union_l, elem_of_singleton.
  - intros _. by specialize (He eq_refl).
Qed.

(** On a volume without files, a successful [Initialize] leaves both
    directories in place. *)
Lemma Initialize_ok dst fs0 :
  fs_files fs0 = ∅ → (Initialize P dst fs0).1 = true →
  Win32.canon (parentPath dst) ∈ fs_dirs (Initialize P dst fs0).2
  ∧ Win32.canon (storePath dst) ∈ fs_dirs (Initialize P dst fs0).2.
Proof.
  intros Hfiles. unfold Initialize. fold (parentPath dst).
  pose proof (CreateDirectoryA_effect P (parentPath dst) fs0) as (Hf1 & Hd1 & Hn1 & He1).
  rewrite (GetFileAttributesA_no_files (parentPath dst)) in * by done.
  assert (Hstore : ∀ fsa, fs_files fsa = ∅ → Win32.canon (parentPath dst) ∈ fs_dirs fsa →
    let r := if Win32.is_directory (Win32.GetFileAttributesA (storePath dst) fsa)
             then (true, fsa)
             else match Win32.CreateDirectoryA P (storePath dst) fsa with
                  | (Win32.ERROR_SUCCESS, fs') => (true, fs')
                  | (Win32.ERROR_ALREADY_EXISTS, _) => (true, fsa)
                  | _ => (false, fsa)
                  end in
    r.1 = true →
    Win32.canon (parentPath dst) ∈ fs_dirs r.2 ∧ Win32.canon (storePath dst) ∈ fs_dirs r.2).
  { intros fsa Hfa Hpa r Hr.
    destruct (ensure_directory (storePath dst) fsa Hfa Hr) as [Hs Hsub].
    split; [by apply Hsub|done]. }
  case_bool_decide as Hin; simpl.
  - by apply Hstore.
  - destruct (Win32.CreateDirectoryA P (parentPath dst) fs0) as [[] fs'] eqn:E;
      simpl in *; try done.
    + apply Hstore; [congruence|]. rewrite Hd1 by done.
      by apply elem_of_union_l, elem_of_singleton.
    + intros _. by specialize (He1 eq_refl).
Qed.

(** *** One entry of the walk *)

Lemma walk_cons entry n rest st :
  walk entry (n :: rest) st = (st' ← entry n st; walk entry rest st').
Proof. done. Qed.

Lemma backup_file_hash_failed dst sourcePath sourceDir destDir fd bytes st :
  CalculateHash P bytes = "" →
  backup_file P dst sourcePath sourceDir destDir fd bytes st
  = entry_failed (GetFileSize fd) st.
Proof. intros Hh. unfold backup_file. by rewrite Hh. Qed.

Lemma backup_file_store_failed dst sourcePath sourceDir destDir fd bytes st :
  CalculateHash P bytes ≠ "" →
  ContentExists dst (CalculateHash P bytes) (fs st) = false →
  (Win32.CopyFileA P bytes (sourceDir +:+ cFileName fd)
     (GetContentPath dst (CalculateHash P bytes)) (fs st)).1 = false →
  backup_file P dst sourcePath sourceDir destDir fd bytes st
  = entry_failed (GetFileSize fd) st.
Proof.
  intros Hh Hexists Hcopy. unfold backup_file.
  destruct (Str.empty (CalculateHash P bytes)) eqn:He.
  { by destruct (CalculateHash P bytes). }
  simpl. rewrite Hexists. unfold StoreContent. simpl.
  destruct (Win32.CopyFileA _ _ _ _ _) as [[] ?]; simpl in *; [done|done].
Qed.

Lemma backup_file_stored dst sourcePath sourceDir destDir fd bytes st fs' :
  CalculateHash P bytes ≠ "" →
  ContentExists dst (CalculateHash P bytes) (fs st) = false →
  Win32.CopyFileA P bytes (sourceDir +:+ cFileName fd)
    (GetContentPath dst (CalculateHash P bytes)) (fs st) = (true, fs') →
  backup_file P dst sourcePath sourceDir destDir fd bytes st
  = mkSt (add_bytesCopied (GetFileSize fd)
            (inc_filesCopied (add_totalBytes (GetFileSize fd)
               (inc_filesProcessed (stats st)))))
         (<[CalculateHash P bytes := 1]> (referenceCount st))
         (<[GetRelativePath (sourceDir +:+ cFileName fd) sourcePath
              := CalculateHash P bytes]> (fileHashMap st))
         fs'.
Proof.
  intros Hh He Hc. unfold backup_file.
  destruct (Str.empty (CalculateHash P bytes)) eqn:Hem.
  { by destruct (CalculateHash P bytes). }
  simpl. rewrite He. unfold StoreContent. simpl. by rewrite Hc.
Qed.

Lemma backup_file_deduped dst sourcePath sourceDir destDir fd bytes st :
  CalculateHash P bytes ≠ "" →
  ContentExists dst (CalculateHash P bytes) (fs st) = true →
  backup_file P dst sourcePath sourceDir destDir fd bytes st
  = mkSt (add_bytesDeduplicated (GetFileSize fd)
            (inc_filesDeduped (add_totalBytes (GetFileSize fd)
               (inc_filesProcessed (stats st)))))
         (IncrementReference (CalculateHash P bytes) (referenceCount st))
         (<[GetRelativePath (sourceDir +:+ cFileName fd) sourcePath
              := CalculateHash P bytes]> (fileHashMap st))
         (fs st).
Proof.
  intros Hh He. unfold backup_file.
  destruct (Str.empty (CalculateHash P bytes)) eqn:Hem.
  { by destruct (CalculateHash P bytes). }
  simpl. by rewrite He.
Qed.

(** A blob copy that fails leaves the index, the counts and the volume
    as they were, and the same file fails the same way when a later run
    starts from them. *)
Lemma failed_store_keeps_index dst sourcePath sourceDir destDir fd bytes st :
  CalculateHash P bytes ≠ "" →
  ContentExists dst (CalculateHash P bytes) (fs st) = false →
  (Win32.CopyFileA P bytes (sourceDir +:+ cFileName fd)
     (GetContentPath dst (CalculateHash P bytes)) (fs st)).1 = false →
  let st' := backup_file P dst sourcePath sourceDir destDir fd bytes st in
  st' = entry_failed (GetFileSize fd) st
  ∧ errors (stats st') = int32 (errors (stats st) + 1)
  ∧ fileHashMap st' = fileHashMap st
  ∧ referenceCount st' = referenceCount st
  ∧ fs st' = fs st
  ∧ ∀ later : St,
      fs later = fs st' →
      backup_file P dst sourcePath sourceDir destDir fd bytes later
      = entry_failed (GetFileSize fd) later.
Proof.
  intros Hh He Hc st'.
  assert (Hst' : st' = entry_failed (GetFileSize fd) st)
    by by apply backup_file_store_failed.
  split; [done|]. rewrite Hst'. simpl. do 4 (split; [done|]).
  intros later Hl. apply backup_file_store_failed; [done|by rewrite Hl..].
Qed.

(** The result of [BackupDirectory] is decided before the first entry. *)
Lemma BackupDirectory_result dst sourcePath sourceDir destDir listing st result st' :
  BackupDirectory P dst sourcePath sourceDir destDir listing st = Done (result, st') →
  result = true ↔
    listing ≠ [] ∧ ∃ st1, CreateDestDirectory P destDir st = Done (true, st1).
Proof.
  unfold BackupDirectory, BackupDirectory_with.
  destruct listing as [|n rest].
  { intros [= <- <-]. split; [done|]. by intros [? _]. }
  destruct (CreateDestDirectory P destDir st) as [[[] st1]|c] eqn:Hc; simpl.
  - match goal with |- context [walk ?e ?l ?s] => destruct (walk e l s) as [st2|c] end;
      simpl; [|done].
    intros [= <- <-]. split; [|done]. intros _. split; [done|]. by exists st1.
  - intros [= <- <-]. split; [done|]. by intros [_ [? [=]]].
  - done.
Qed.

(** *** The whole run *)

(** The walk starts in [walk_start]. *)
Lemma StartBackup_walks src dst listing fs0 :
  (Initialize P dst fs0).1 = true →
  StartBackup P src dst (RootDirectory listing) fs0
  = ('(result, st) ← BackupDirectory P dst (NormalizePath src) (NormalizePath src)
                       (NormalizePath dst) listing
                       (walk_start dst (Initialize P dst fs0).2);
     Done (result, with_fs (Save P (indexPath dst) (fileHashMap st) (fs st)).2 st)).
Proof.
  intros Hinit. unfold StartBackup, walk_start. simpl.
  destruct (Initialize P dst fs0) as [ok fs1]. simpl in *. subst ok. simpl.
  destruct (Load (indexPath dst) ∅ fs1) as [[] m]; simpl;
    (destruct (BackupDirectory _ _ _ _ _ _ _) as [[result st]|c]; simpl; [|done]);
    by destruct (Save _ _ _ _).
Qed.

Lemma failed_run_causes src dst root fs0 st' :
  StartBackup P src dst root fs0 = Done (false, st') →
  (Initialize P dst fs0).1 = false
  ∨ root = RootMissing ∨ root = RootNotADirectory ∨ root = RootDirectory []
  ∨ ∃ listing st1,
      root = RootDirectory listing
      ∧ CreateDestDirectory P (NormalizePath dst) (walk_start dst (Initialize P dst fs0).2)
        = Done (false, st1).
Proof.
  destruct (Initialize P dst fs0).1 eqn:Hinit; [|by left].
  destruct root as [| |listing]; [by right; left|by right; right; left|].
  rewrite StartBackup_walks by done.
  destruct listing as [|n l]; [by right; right; right; left|].
  intros H. right; right; right; right.
  unfold BackupDirectory, BackupDirectory_with in H.
  destruct (CreateDestDirectory P (NormalizePath dst) _) as [[[] st2]|c] eqn:Hc;
    simpl in H.
  - match type of H with context [walk ?e ?l ?s] => destruct (walk e l s) end;
      simpl in H; [by simplify_eq|done].
  - by exists (n :: l), st2.
  - done.
Qed.

(** *** What takes the process down *)

Lemma dedup_CreateDestDirectory_only_overflows path st c :
  CreateDestDirectory P path st = Crash c → c = StackOverflow.
Proof.
  unfold CreateDestDirectory.
  match goal with
  | |- context [mbind _ ?m] => destruct m as [[[ok created] fs']|c1] eqn:E
  end; simpl; [done|].
  intros [= <-]. by apply CreateDestDirectory_only_overflows in E.
Qed.

Lemma walk_only_overflows entry listing :
  Forall (λ n, ∀ st c, entry n st = Crash c → c = StackOverflow) listing →
  ∀ st c, walk entry listing st = Crash c → c = StackOverflow.
Proof.
  induction 1 as [|n listing Hn _ IH]; intros st c H; [done|].
  rewrite walk_cons in H. destruct (entry n st) as [st1|c1] eqn:E; simpl in H.
  - by apply IH in H.
  - injection H as <-. by apply Hn in E.
Qed.

Lemma BackupDirectory_with_only_overflows entry listing destDir st c :
  Forall (λ n, ∀ st c, entry n st = Crash c → c = StackOverflow) listing →
  BackupDirectory_with P entry listing destDir st = Crash c → c = StackOverflow.
Proof.
  intros Hall H. unfold BackupDirectory_with in H.
  destruct listing as [|n listing]; [done|].
  destruct (CreateDestDirectory P destDir st) as [[[] st1]|c1] eqn:E; simpl in H.
  - destruct (walk entry (n :: listing) st1) as [st2|c2] eqn:E2; simpl in H; [done|].
    injection H as <-. by apply walk_only_overflows in E2.
  - done.
  - injection H as <-. by apply dedup_CreateDestDirectory_only_overflows in E.
Qed.

Lemma backup_entry_only_overflows dst sourcePath n : ∀ sourceDir destDir st c,
  backup_entry P dst sourcePath sourceDir destDir n st = Crash c → c = StackOverflow.
Proof.
  induction n as [fd bytes|name listing IH] using node_induction;
    intros sourceDir destDir st c H; simpl in H.
  - by destruct (dot_entry (cFileName fd)).
  - destruct (dot_entry name); [done|].
    match type of H with
    | context [BackupDirectory_with P ?e listing ?d ?s] =>
        destruct (BackupDirectory_with P e listing d s) as [[r st1]|c1] eqn:E
    end; simpl in H; [done|].
    injection H as <-.
    apply BackupDirectory_with_only_overflows in E; [done|].
    eapply Forall_impl; [exact IH|]. intros n Hn st2 c2. apply Hn.
Qed.

(** A run dies only of [CreateDestDirectory] running out of stack, on
    the destination root or on a directory below it. *)
Lemma crashed_run_causes src dst root fs0 c :
  StartBackup P src dst root fs0 = Crash c →
  c = StackOverflow
  ∧ (Initialize P dst fs0).1 = true
  ∧ ∃ listing,
      root = RootDirectory listing ∧ listing ≠ []
      ∧ (CreateDestDirectory P (NormalizePath dst)
           (walk_start dst (Initialize P dst fs0).2) = Crash StackOverflow
         ∨ ∃ st1,
             CreateDestDirectory P (NormalizePath dst)
               (walk_start dst (Initialize P dst fs0).2) = Done (true, st1)
             ∧ walk (backup_entry P dst (NormalizePath src) (NormalizePath src)
                       (NormalizePath dst)) listing st1 = Crash StackOverflow).
Proof.
  destruct (Initialize P dst fs0).1 eqn:Hinit.
  2: { unfold StartBackup. simpl. destruct (Initialize P dst fs0) as [ok fs1].
       simpl in Hinit. by subst ok. }
  destruct root as [| |listing].
  1,2: unfold StartBackup; simpl; destruct (Initialize P dst fs0) as [ok fs1];
       simpl in Hinit; subst ok; simpl; by destruct (Load _ _ _) as [[] m].
  rewrite StartBackup_walks by done.
  unfold BackupDirectory, BackupDirectory_with.
  destruct listing as [|n l]; [done|].
  destruct (CreateDestDirectory P (NormalizePath dst) _) as [[[] st1]|c1] eqn:Hc; simpl.
  - destruct (walk _ (n :: l) st1) as [st2|c2] eqn:Hw; simpl; [done|].
    intros [= <-].
    assert (c2 = StackOverflow) as ->.
    { eapply walk_only_overflows; [|exact Hw].
      apply Forall_forall. intros n' _ st3 c3. apply backup_entry_only_overflows. }
    split; [done|]. split; [done|]. exists (n :: l). split; [done|]. split; [done|].
    right. by exists st1.
  - done.
  - intros [= <-].
    assert (c1 = StackOverflow) as -> by by apply dedup_CreateDestDirectory_only_overflows in Hc.
    split; [done|]. split; [done|]. exists (n :: l). split; [done|]. split; [done|].
    by left.
Qed.

Lemma dedup_no_source_no_walk src dst root fs0 :
  root = RootMissing ∨ root = RootNotADirectory →
  ∃ st, StartBackup P src dst root fs0 = Done (false, st)
        ∧ stats st = no_stats
        ∧ fs st = (Initialize P dst fs0).2.
Proof.
  intros Hroot. unfold StartBackup. simpl.
  destruct (Initialize P dst fs0) as [ok fs1]. simpl.
  destruct ok; simpl.
  - destruct (Load (indexPath dst) ∅ fs1) as [[] m]; simpl;
      destruct Hroot as [-> | ->]; eexists; (split; [reflexivity|done]).
  - eexists; (split; [reflexivity|done]).
Qed.

Lemma index_file_round_trip path fileHashMap before fs0 fs' :
  map_Forall (λ k v, storable (k, v)) fileHashMap →
  Save P path fileHashMap fs0 = (true, fs') →
  Load path before fs' = (true, fileHashMap).
Proof.
  intros Hm. unfold Save, Win32.write_file, Load, Win32.read_file.
  destruct (_ && _); [|done]. intros [= <-]. simpl.
  rewrite lookup_insert_eq. by rewrite index_text_round_trip.
Qed.

End Engine.

Section Run.
Context (P : Platform).

(** C4 (as the code has it). A failed hash, a failed blob copy and a
    subdirectory that cannot be listed each count one error, skip that
    entry alone and let the walk go on with the entries that remain.  A
    run that ends fails only when the store cannot be initialised, the
    source root is missing, is not a directory or cannot be listed, or
    the destination root cannot be created, in the state the run has
    reached after initialising the store and loading the index.  A run
    that does not end has run out of stack in [CreateDestDirectory], on
    the destination root or during the walk.  The result of a run is
    settled before the first entry and does not depend on the error
    count. *)
Theorem entry_failures_do_not_stop_the_walk (dst sourcePath sourceDir destDir : string)
    (rest : list node) (st : St) :
  (∀ fd bytes,
     dot_entry (cFileName fd) = false →
     CalculateHash P bytes = "" →
     walk (backup_entry P dst sourcePath sourceDir destDir) (FileNode fd bytes :: rest) st
     = walk (backup_entry P dst sourcePath sourceDir destDir) rest
         (entry_failed (GetFileSize fd) st))
  ∧ (∀ fd bytes,
     dot_entry (cFileName fd) = false →
     CalculateHash P bytes ≠ "" →
     ContentExists dst (CalculateHash P bytes) (fs st) = false →
     (Win32.CopyFileA P bytes (sourceDir +:+ cFileName fd)
        (GetContentPath dst (CalculateHash P bytes)) (fs st)).1 = false →
     walk (backup_entry P dst sourcePath sourceDir destDir) (FileNode fd bytes :: rest) st
     = walk (backup_entry P dst sourcePath sourceDir destDir) rest
         (entry_failed (GetFileSize fd) st))
  ∧ (∀ fileName,
     dot_entry fileName = false →
     walk (backup_entry P dst sourcePath sourceDir destDir) (DirNode fileName [] :: rest) st
     = walk (backup_entry P dst sourcePath sourceDir destDir) rest
         (subdirectory_failed st))
  ∧ (∀ src root fs0 st',
     StartBackup P src dst root fs0 = Done (false, st') →
     (Initialize P dst fs0).1 = false
     ∨ root = RootMissing ∨ root = RootNotADirectory ∨ root = RootDirectory []
     ∨ ∃ listing st1,
         root = RootDirectory listing
         ∧ CreateDestDirectory P (NormalizePath dst)
             (walk_start dst (Initialize P dst fs0).2) = Done (false, st1))
  ∧ (∀ src root fs0 c,
     StartBackup P src dst root fs0 = Crash c →
     c = StackOverflow
     ∧ (Initialize P dst fs0).1 = true
     ∧ ∃ listing,
         root = RootDirectory listing ∧ listing ≠ []
         ∧ (CreateDestDirectory P (NormalizePath dst)
              (walk_start dst (Initialize P dst fs0).2) = Crash StackOverflow
            ∨ ∃ st1,
                CreateDestDirectory P (NormalizePath dst)
                  (walk_start dst (Initialize P dst fs0).2) = Done (true, st1)
                ∧ walk (backup_entry P dst (NormalizePath src) (NormalizePath src)
                          (NormalizePath dst)) listing st1 = Crash StackOverflow))
  ∧ (∀ listing result st',
     BackupDirectory P dst sourcePath sourceDir destDir listing st = Done (result, st') →
     result = true ↔
       listing ≠ [] ∧ ∃ st1, CreateDestDirectory P destDir st = Done (true, st1)).
Proof.
  split; [|split; [|split; [|split; [|split]]]].
  - intros fd bytes Hdot Hh. rewrite walk_cons. simpl. rewrite Hdot. simpl.
    by rewrite backup_file_hash_failed.
  - intros fd bytes Hdot Hh He Hc. rewrite walk_cons. simpl. rewrite Hdot. simpl.
    by rewrite backup_file_store_failed.
  - intros fileName Hdot. rewrite walk_cons. simpl. by rewrite Hdot.
  - intros src root fs0 st'. apply failed_run_causes.
  - intros src root fs0 c. apply crashed_run_causes.
  - intros listing result st'. apply BackupDirectory_result.
Qed.

(** C2. A run over a source holding exactly two files with the same
    bytes, into a destination volume without files: one blob is stored
    under the shared fingerprint, its reference count is 2, the index
    maps both relative paths to the fingerprint, [filesCopied] is 1 and
    [filesDeduped] is 1.  The run is one in which the store can be
    initialised and the blob copy is not refused. *)
Theorem two_identical_files_share_one_blob (src dst : string) (fdA fdB : FindData)
    (content : string) (fs0 : FileSys) :
  let listing := [DirNode "." []; DirNode ".." [];
                  FileNode fdA (Some content); FileNode fdB (Some content)] in
  let h := CalculateHash P (Some content) in
  dst ≠ "" → (Str.size dst ≤ 260)%N →
  (Str.size (cFileName fdA) ≤ 260)%N → (Str.size (cFileName fdB) ≤ 260)%N →
  dot_entry (cFileName fdA) = false → dot_entry (cFileName fdB) = false →
  cFileName fdA ≠ cFileName fdB →
  fs_files fs0 = ∅ →
  GetContentPath dst h ∉ fs_dirs fs0 →
  (Initialize P dst fs0).1 = true →
  copy_denied P (NormalizePath src +:+ cFileName fdA) (GetContentPath dst h) = false →
  stack_limit P ≠ 0%nat →
  ∃ st,
    StartBackup P src dst (RootDirectory listing) fs0 = Done (true, st)
    ∧ filesCopied (stats st) = 1
    ∧ filesDeduped (stats st) = 1
    ∧ errors (stats st) = 0
    ∧ GetReferenceCount h (referenceCount st) = 2
    ∧ fileHashMap st = {[ cFileName fdA := h; cFileName fdB := h ]}
    ∧ delete (Win32.canon (indexPath dst)) (fs_files (fs st))
      = {[ GetContentPath dst h := content ]}
    ∧ ContentExists dst h (fs st) = true.
Proof.
  intros listing h Hdst Hlen HlenA HlenB HdotA HdotB Hneq Hfiles Hblob Hinit Hcopy Hstack.
  destruct (rooted_shape dst Hdst) as [base Hbase].
  assert (Hbl : (Str.size base ≤ 300)%N).
  { assert (Hr : (Str.size (rooted dst) ≤ Str.size dst + 1)%N).
    { unfold rooted. destruct (_ && _); [rewrite size_app; done|lia]. }
    rewrite Hbase, size_app in Hr. lia. }
  pose proof (Initialize_effect P dst fs0) as (Hf1 & _ & Hd1).
  pose proof (Initialize_ok P dst fs0 Hfiles Hinit) as (Hpar & Hsto).
  rewrite (parentPath_eq dst base Hbase Hbl) in Hpar, Hd1.
  rewrite (canon_storePath dst base Hbase) in Hsto, Hd1.
  pose proof (CalculateHash_nonempty P content) as Hh. fold h in Hh.
  pose proof (CalculateHash_no_sep P (Some content)) as Hns. fold h in Hns.
  pose proof (GetContentPath_not_store dst base h Hbase) as [Hn1 Hn2].
  pose proof (canon_GetContentPath dst base h Hbase) as Hcb.
  pose proof (parent_GetContentPath dst base h Hbase Hbl Hns) as Hpb.
  unfold StartBackup. simpl.
  destruct (Initialize P dst fs0) as [ok fs1]. simpl in *. subst ok. simpl.
  rewrite Hfiles in Hf1. clear Hfiles. rename Hf1 into Hfiles.
  unfold Load, Win32.read_file. rewrite Hfiles, lookup_empty. simpl.
  unfold BackupDirectory, BackupDirectory_with. unfold listing at 1.
  unfold CreateDestDirectory. simpl.
  destruct (stack_limit P) as [|depth]; [done|]. simpl.
  assert (Hroot : Win32.is_directory (Win32.GetFileAttributesA (NormalizePath dst) fs1) = true).
  { rewrite GetFileAttributesA_no_files by done.
    rewrite (canon_destPath dst base Hbase). by rewrite bool_decide_eq_true_2. }
  rewrite Hroot. simpl.
  unfold listing. do 3 (rewrite walk_cons; simpl). rewrite HdotA. simpl.
  (* the first file is stored *)
  assert (Hblob1 : GetContentPath dst h ∉ fs_dirs fs1).
  { intros Hin. apply Hd1 in Hin.
    apply elem_of_union in Hin as [Hin|Hin]; [done|].
    apply elem_of_union in Hin as [Hin|Hin]; by apply elem_of_singleton in Hin. }
  assert (He1 : ContentExists dst h fs1 = false).
  { unfold ContentExists. rewrite GetFileAttributesA_no_files by done.
    rewrite Hcb. by rewrite bool_decide_eq_false_2. }
  set (fs2 := mkFS (fs_dirs fs1) (<[GetContentPath dst h := content]> (fs_files fs1))).
  assert (Hc1 : Win32.CopyFileA P (Some content) (NormalizePath src +:+ cFileName fdA)
                  (GetContentPath dst h) fs1 = (true, fs2)).
  { unfold Win32.CopyFileA, Win32.writable, Win32.parent_exists.
    rewrite Hpb, GetFileAttributesA_no_files, Hcb by done.
    rewrite (bool_decide_eq_false_2 (GetContentPath dst h ∈ fs_dirs fs1)) by done.
    rewrite Hcopy. unfold storeDir in *.
    rewrite (bool_decide_eq_true_2 _ Hsto). simpl.
    by destruct (base +:+ "\.dedup_store"). }
  rewrite (backup_file_stored _ _ _ _ _ _ _ _ fs2); [|done|done|done]. simpl.
  rewrite walk_cons. simpl. rewrite HdotB. simpl.
  (* the second file finds it *)
  assert (He2 : ContentExists dst h fs2 = true).
  { unfold ContentExists, Win32.GetFileAttributesA. rewrite Hcb. simpl.
    rewrite (bool_decide_eq_false_2 (GetContentPath dst h ∈ fs_dirs fs1)) by done.
    rewrite lookup_insert_eq. by rewrite bool_decide_eq_true_2. }
  rewrite backup_file_deduped; [|done|done]. simpl.
  rewrite !GetRelativePath_child by (unfold npos; lia).
  set (index := <[cFileName fdB := h]> (<[cFileName fdA := h]> (∅ : gmap string string))).
  assert (Hsave : ∀ r : FileSys, fs_files r = fs_files fs2 ∨
                       fs_files r = <[Win32.canon (indexPath dst) := save_text index]>
                                      (fs_files fs2) →
                       fs_dirs r = fs_dirs fs1 →
          delete (Win32.canon (indexPath dst)) (fs_files r)
            = {[ GetContentPath dst h := content ]}
          ∧ ContentExists dst h r = true).
  { intros r Hr Hrd.
    pose proof (indexPath_not_blob dst base h Hbase) as Hib. rewrite Hcb in Hib.
    assert (Hdel : delete (Win32.canon (indexPath dst)) (fs_files fs2)
                   = {[ GetContentPath dst h := content ]}).
    { simpl. rewrite Hfiles. rewrite delete_insert_ne by done.
      by rewrite delete_empty. }
    split.
    - destruct Hr as [-> | ->]; [done|]. by rewrite delete_insert_eq.
    - unfold ContentExists, Win32.GetFileAttributesA. rewrite Hcb, Hrd.
      rewrite (bool_decide_eq_false_2 (GetContentPath dst h ∈ fs_dirs fs1)) by done.
      assert (is_Some (fs_files r !! GetContentPath dst h)) as Hsome.
      { destruct Hr as [-> | ->]; simpl.
        - rewrite lookup_insert_eq. eauto.
        - rewrite lookup_insert_ne by done. rewrite lookup_insert_eq. eauto. }
      by rewrite bool_decide_eq_true_2. }
  assert (Hindex : index = {[ cFileName fdA := h; cFileName fdB := h ]}).
  { unfold index. rewrite insert_insert_ne by done. by rewrite insert_empty. }
  unfold Save, Win32.write_file. simpl.
  match goal with |- context [if ?c then _ else _] => destruct c end; simpl.
  - eexists. split; [reflexivity|]. simpl.
    split; [done|]. split; [done|]. split; [done|].
    split.
    { unfold GetReferenceCount, IncrementReference. by rewrite !lookup_insert_eq. }
    split; [exact Hindex|].
    apply (Hsave (mkFS (fs_dirs fs1) _)); simpl; [by right|done].
  - eexists. split; [reflexivity|]. simpl.
    split; [done|]. split; [done|]. split; [done|].
    split.
    { unfold GetReferenceCount, IncrementReference. by rewrite !lookup_insert_eq. }
    split; [exact Hindex|].
    apply (Hsave (mkFS (fs_dirs fs1) _)); simpl; [by left|done].
Qed.

End Run.

Lemma entry_failures_do_not_stop_the_walk_witness :
  ∃ st,
    StartBackup quiet "C:\src" "D:\Backup" (RootDirectory partly_unreadable) empty_volume
    = Done (true, st)
    ∧ filesProcessed (stats st) = 3
    ∧ errors (stats st) = 2
    ∧ filesCopied (stats st) = 1
    ∧ dot_entry (cFileName a_txt) = false
    ∧ CalculateHash quiet None = ""
    ∧ walk (backup_entry quiet "D:\Backup" "C:\src\" "C:\src\" "D:\Backup\")
        [FileNode a_txt None; DirNode "locked" []; FileNode b_txt (Some "hello")] st
      = walk (backup_entry quiet "D:\Backup" "C:\src\" "C:\src\" "D:\Backup\")
          [DirNode "locked" []; FileNode b_txt (Some "hello")]
          (entry_failed (GetFileSize a_txt) st).
Proof.
  eexists. split; [vm_compute; reflexivity|].
  split; [reflexivity|]. split; [reflexivity|]. split; [reflexivity|].
  split; [reflexivity|]. split; [reflexivity|].
  match goal with
  | |- walk _ (_ :: ?rest) ?st = _ =>
      destruct (entry_failures_do_not_stop_the_walk quiet
                  "D:\Backup" "C:\src\" "C:\src\" "D:\Backup\" rest st) as (Hhash & _)
  end.
  apply Hhash; reflexivity.
Defined.

Lemma two_identical_files_share_one_blob_witness :
  let h := CalculateHash quiet (Some "hello") in
  ("D:\Backup" ≠ ""
   ∧ (Str.size "D:\Backup" ≤ 260)%N
   ∧ dot_entry (cFileName a_txt) = false ∧ dot_entry (cFileName b_txt) = false
   ∧ cFileName a_txt ≠ cFileName b_txt
   ∧ fs_files empty_volume = ∅
   ∧ (GetContentPath "D:\Backup" h ∉ fs_dirs empty_volume)
   ∧ (Initialize quiet "D:\Backup" empty_volume).1 = true)
  ∧ ∃ st,
      StartBackup quiet "C:\src" "D:\Backup" (RootDirectory two_hellos) empty_volume
      = Done (true, st)
      ∧ filesCopied (stats st) = 1
      ∧ filesDeduped (stats st) = 1
      ∧ errors (stats st) = 0
      ∧ GetReferenceCount h (referenceCount st) = 2
      ∧ fileHashMap st = {[ "a.txt" := h; "b.txt" := h ]}
      ∧ delete (Win32.canon (indexPath "D:\Backup")) (fs_files (fs st))
        = {[ GetContentPath "D:\Backup" h := "hello" ]}
      ∧ ContentExists "D:\Backup" h (fs st) = true.
Proof.
  intros h.
  assert (H1 : "D:\Backup" ≠ "") by discriminate.
  assert (H2 : (Str.size "D:\Backup" ≤ 260)%N) by (vm_compute; discriminate).
  assert (H3 : (Str.size (cFileName a_txt) ≤ 260)%N) by (vm_compute; discriminate).
  assert (H4 : (Str.size (cFileName b_txt) ≤ 260)%N) by (vm_compute; discriminate).
  assert (H5 : dot_entry (cFileName a_txt) = false) by reflexivity.
  assert (H6 : dot_entry (cFileName b_txt) = false) by reflexivity.
  assert (H7 : cFileName a_txt ≠ cFileName b_txt) by discriminate.
  assert (H8 : fs_files empty_volume = ∅) by reflexivity.
  assert (H9 : GetContentPath "D:\Backup" h ∉ fs_dirs empty_volume).
  { apply (bool_decide_unpack _). vm_compute. exact I. }
  assert (H10 : (Initialize quiet "D:\Backup" empty_volume).1 = true)
    by (vm_compute; reflexivity).
  assert (H11 : copy_denied quiet (NormalizePath "C:\src" +:+ cFileName a_txt)
                  (GetContentPath "D:\Backup" h) = false) by reflexivity.
  assert (H12 : stack_limit quiet ≠ 0%nat) by discriminate.
  split; [by repeat split|].
  exact (two_identical_files_share_one_blob quiet "C:\src" "D:\Backup" a_txt b_txt "hello"
           empty_volume H1 H2 H3 H4 H5 H6 H7 H8 H9 H10 H11 H12).
Defined.

(** C4, as stated, does not hold: on a destination where no directory can
    be created the run fails although the source root is a directory that
    lists without error. *)
Lemma run_fails_with_a_good_source :
  ¬ (∀ (P : Platform) src dst root fs0 st',
       StartBackup P src dst root fs0 = Done (false, st') →
       root = RootMissing ∨ root = RootNotADirectory).
Proof.
  intros H.
  destruct (H read_only_destination "C:\src" "D:\Backup" (RootDirectory two_hellos)
              empty_volume (mkSt no_stats ∅ ∅ empty_volume)) as [?|?]; [|done|done].
  vm_compute. reflexivity.
Qed.

End Phase3Facts.

(* ===================================================================== *)
(** ** Both engines *)
(* ===================================================================== *)

Module EngineFacts.
Import PathFacts.




(** What both engines do when the source root is missing or is not a
    directory: the run fails before any entry is processed.  The
    incremental engine has not touched the destination by then.  The
    deduplicating engine has initialised its store first: no file of the
    destination has changed, and the only directories that can have
    appeared are the destination root and its [.dedup_store]. *)
Theorem missing_source_fails_before_the_walk (P : Platform) (src dst : string)
    (incremental : bool) (root : source_root) (fs0 : FileSys) :
  root = RootMissing ∨ root = RootNotADirectory →
  (∃ st, Phase3.StartBackup P src dst root fs0 = Done (false, st)
         ∧ Phase3.stats st = Phase3.no_stats
         ∧ fs_files (Phase3.fs st) = fs_files fs0
         ∧ fs_dirs fs0 ⊆ fs_dirs (Phase3.fs st)
         ∧ fs_dirs (Phase3.fs st)
           ⊆ fs_dirs fs0 ∪ {[ Win32.canon (Phase3.parentPath dst);
                              Win32.canon (Phase3.storePath dst) ]})
  ∧ (Phase2.StartBackup P src dst incremental root fs0 = Crash UncaughtException
     ∨ ∃ st, Phase2.StartBackup P src dst incremental root fs0 = Done (false, st)
             ∧ Phase2.stats st = Phase2.no_stats
             ∧ Phase2.fs st = fs0).
Proof.
  intros Hroot. split.
  - destruct (Phase3Facts.dedup_no_source_no_walk P src dst root fs0 Hroot)
      as (st & Hrun & Hstats & Hfs).
    pose proof (Phase3Facts.Initialize_effect P dst fs0) as (Hf & Hd1 & Hd2).
    exists st. rewrite Hfs. done.
  - by apply Phase2Facts.incremental_no_source_no_walk.
Qed.

Lemma missing_source_fails_before_the_walk_witness :
  (RootMissing = RootMissing ∨ RootMissing = RootNotADirectory)
  ∧ (∃ st, Phase3.StartBackup quiet "C:\nowhere" "D:\Backup" RootMissing empty_volume
           = Done (false, st)
           ∧ Phase3.stats st = Phase3.no_stats
           ∧ fs_files (Phase3.fs st) = fs_files empty_volume)
  ∧ (∃ st, Phase2.StartBackup quiet "C:\nowhere" "D:\Backup" true RootMissing empty_volume
           = Done (false, st)
           ∧ Phase2.fs st = empty_volume).
Proof.
  assert (Hroot : RootMissing = RootMissing ∨ RootMissing = RootNotADirectory)
    by (left; reflexivity).
  destruct (missing_source_fails_before_the_walk quiet "C:\nowhere" "D:\Backup" true
              RootMissing empty_volume Hroot) as [Hdedup Hincr].
  split; [exact Hroot|]. split.
  - destruct Hdedup as (st & Hrun & Hstats & Hfiles & _). by exists st.
  - destruct Hincr as [Habort | (st & Hrun & _ & Hfs)].
    + vm_compute in Habort. discriminate Habort.
    + by exists st.
Defined.

(** So "no directory is created" is not a property of the deduplicating
    engine. *)
Lemma store_is_created_for_a_missing_source :
  ¬ (∀ (P : Platform) src dst root fs0 st,
       root = RootMissing ∨ root = RootNotADirectory →
       Phase3.StartBackup P src dst root fs0 = Done (false, st) →
       fs_dirs (Phase3.fs st) = fs_dirs fs0).
Proof.
  intros H.
  destruct (Phase3Facts.dedup_no_source_no_walk quiet "C:\nowhere" "D:\Backup" RootMissing
              empty_volume) as (st & Hrun & _ & Hfs); [by left|].
  specialize (H quiet "C:\nowhere" "D:\Backup" RootMissing empty_volume st
                (or_introl eq_refl) Hrun).
  rewrite Hfs in H.
  apply (f_equal (λ dirs : gset string, bool_decide ("D:\Backup\.dedup_store" ∈ dirs))) in H.
  vm_compute in H. discriminate H.
Qed.

(** C3. With a source root that does not exist, both engines fail before
    any entry is processed.  The incremental engine leaves the volume as
    it found it, which is what the claim asks; the deduplicating engine,
    which runs [Initialize] above the source check, has by then created
    the destination root and its store. *)
Theorem missing_source_leaves_a_store :
  (∃ st, Phase2.StartBackup quiet "C:\nowhere" "D:\Backup" true RootMissing empty_volume
         = Done (false, st)
         ∧ Phase2.stats st = Phase2.no_stats
         ∧ Phase2.fs st = empty_volume)
  ∧ (∃ st, Phase3.StartBackup quiet "C:\nowhere" "D:\Backup" RootMissing empty_volume
           = Done (false, st)
           ∧ Phase3.stats st = Phase3.no_stats
           ∧ fs_files (Phase3.fs st) = ∅
           ∧ fs_dirs (Phase3.fs st) = {[ "D:"; "D:\Backup"; "D:\Backup\.dedup_store" ]})
  ∧ fs_dirs empty_volume = {[ "D:" ]}.
Proof.
  split; [|split].
  - eexists. split; [vm_compute; reflexivity|]. by split.
  - eexists. split; [vm_compute; reflexivity|]. split; [done|]. split; [done|].
    vm_compute. reflexivity.
  - reflexivity.
Qed.

(** C7 (as the code has it). Saving an index or a manifest and loading
    the file again gives back the same map, and so the same reference
    counts after a rebuild, for every state whose paths hold neither the
    delimiter nor a newline and whose fingerprints hold no newline (and,
    in the manifest, no delimiter): the format quotes nothing. *)
Theorem saved_bookkeeping_reloads (P : Platform) :
  (∀ path (fileHashMap before : gmap string string) fs0 fs',
     map_Forall (λ k v, Phase3.storable (k, v)) fileHashMap →
     Phase3.Save P path fileHashMap fs0 = (true, fs') →
     Phase3.Load path before fs' = (true, fileHashMap)
     ∧ Phase3.LoadReferenceCountsFromIndex (Phase3.Load path before fs').2
       = Phase3.LoadReferenceCountsFromIndex fileHashMap)
  ∧ (∀ path (manifest before : gmap string Phase2.FileMetadata) fs0 fs',
     map_Forall (λ k v, Phase2.storable (k, v)) manifest →
     Phase2.Save P path manifest fs0 = (true, fs') →
     Phase2.Load path before fs' = Done (true, manifest)).
Proof.
  split.
  - intros path m before fs0 fs' Hm Hsave.
    rewrite (Phase3Facts.index_file_round_trip P path m before fs0 fs' Hm Hsave). done.
  - intros path m before fs0 fs' Hm Hsave.
    by apply (Phase2Facts.manifest_file_round_trip P path m before fs0 fs').
Qed.

Lemma saved_bookkeeping_reloads_witness :
  let index : gmap string string := {[ "docs\a.txt" := "ab12" ]} in
  let manifest : gmap string Phase2.FileMetadata :=
    {[ "docs\a.txt" := Phase2.mkMeta "ab12" 5 (-11644473600) ]} in
  (map_Forall (λ k v, Phase3.storable (k, v)) index
   ∧ map_Forall (λ k v, Phase2.storable (k, v)) manifest)
  ∧ Phase3.Load "D:\index.txt" ∅ (Phase3.Save quiet "D:\index.txt" index empty_volume).2
    = (true, index)
  ∧ Phase2.Load "D:\manifest.txt" ∅
      (Phase2.Save quiet "D:\manifest.txt" manifest empty_volume).2
    = Done (true, manifest).
Proof.
  intros index manifest.
  assert (H1 : map_Forall (λ k v, Phase3.storable (k, v)) index).
  { apply map_Forall_singleton. repeat split; vm_compute; reflexivity. }
  assert (H2 : map_Forall (λ k v, Phase2.storable (k, v)) manifest).
  { apply map_Forall_singleton. repeat split; vm_compute; (reflexivity || discriminate). }
  destruct (saved_bookkeeping_reloads quiet) as [Hindex Hmanifest].
  split; [by split|]. split.
  - apply (Hindex "D:\index.txt" index ∅ empty_volume); [exact H1|].
    vm_compute. reflexivity.
  - apply (Hmanifest "D:\manifest.txt" manifest ∅ empty_volume); [exact H2|].
    vm_compute. reflexivity.
Defined.

(** C7, as stated, does not hold: a path that holds the delimiter is cut
    at it when the index is read back. *)
Lemma delimiter_in_a_path_breaks_the_round_trip :
  ¬ (∀ (P : Platform) path (fileHashMap before : gmap string string) fs0 fs',
       Phase3.Save P path fileHashMap fs0 = (true, fs') →
       Phase3.Load path before fs' = (true, fileHashMap)).
Proof.
  intros H.
  specialize (H quiet "D:\index.txt" {[ "a|b" := "c" ]} ∅ empty_volume
                (Phase3.Save quiet "D:\index.txt" {[ "a|b" := "c" ]} empty_volume).2).
  assert (Hsave : Phase3.Save quiet "D:\index.txt" {[ "a|b" := "c" ]} empty_volume
                  = (true, (Phase3.Save quiet "D:\index.txt" {[ "a|b" := "c" ]}
                              empty_volume).2)) by (vm_compute; reflexivity).
  specialize (H Hsave).
  apply (f_equal (λ r : bool * gmap string string, r.2 !! "a")) in H.
  vm_compute in H. discriminate H.
Qed.

End EngineFacts.

(* ===================================================================== *)
(** * Further properties of the code *)
(* ===================================================================== *)

Module HelperFacts.
Import Str Win32 StrFacts PathFacts.

Lemma back_app_snoc s c : back (s +:+ String c "") = Some c.
Proof.
  induction s as [|a s IH]; [done|].
  rewrite app_cons. simpl. rewrite IH.
  by destruct (s +:+ String c "") eqn:E; [destruct s|].
Qed.

Lemma back_nonempty s : s ≠ "" → is_Some (back s).
Proof.
  induction s as [|a s IH]; [done|]. intros _. simpl.
  destruct s; [by eexists|]. by apply IH.
Qed.

(** X1. [NormalizePath] leaves the empty path empty and gives every other
    path exactly one more backslash when it does not end in one: the
    result of a non-empty path ends in a backslash, a path that ends in a
    backslash is returned as it is, normalising twice is normalising
    once, and the result names the same object as the argument. *)
Theorem NormalizePath_ends_in_backslash (path : string) :
  NormalizePath "" = ""
  ∧ (path ≠ "" → back (NormalizePath path) = Some backslash)
  ∧ (back path = Some backslash → NormalizePath path = path)
  ∧ (path ≠ "" → back path ≠ Some backslash → NormalizePath path = path +:+ "\")
  ∧ NormalizePath (NormalizePath path) = NormalizePath path
  ∧ canon (NormalizePath path) = canon path.
Proof.
  assert (Hnorm : ∀ p, p ≠ "" → back (NormalizePath p) = Some backslash).
  { intros p Hp. unfold NormalizePath.
    assert (Str.empty p = false) as -> by by destruct p. simpl.
    case_bool_decide as Hb; simpl; [done|apply back_app_snoc]. }
  assert (Hfix : ∀ p, back p = Some backslash → NormalizePath p = p).
  { intros p Hp. unfold NormalizePath. rewrite bool_decide_eq_true_2 by done.
    by rewrite andb_false_r. }
  split; [done|]. split; [apply Hnorm|]. split; [apply Hfix|]. split; [|split].
  - intros Hp Hb. unfold NormalizePath.
    assert (Str.empty path = false) as -> by by destruct path.
    by rewrite bool_decide_eq_false_2.
  - destruct (decide (path = "")) as [->|Hp]; [done|]. by apply Hfix, Hnorm.
  - unfold NormalizePath.
    destruct (negb (Str.empty path) && _); [|done]. by apply canon_snoc_sep.
Qed.

(** X2. [GetRelativePath] removes the base from a path that starts with
    it and returns any other path unchanged, so that the base followed by
    the relative path is the full path again; the base itself maps to the
    empty path, and an empty base removes nothing. *)
Theorem GetRelativePath_strips_the_base (basePath rest : string) :
  (size rest ≤ npos)%N →
  GetRelativePath (basePath +:+ rest) basePath = rest
  ∧ basePath +:+ GetRelativePath (basePath +:+ rest) basePath = basePath +:+ rest
  ∧ GetRelativePath basePath basePath = ""
  ∧ GetRelativePath rest "" = rest
  ∧ (∀ fullPath, starts_with fullPath basePath = false →
       GetRelativePath fullPath basePath = fullPath).
Proof.
  intros Hrest.
  assert (H1 : GetRelativePath (basePath +:+ rest) basePath = rest)
    by by apply GetRelativePath_child.
  split; [done|]. split; [by rewrite H1|]. split; [|split].
  - assert (E : basePath +:+ "" = basePath).
    { clear. induction basePath as [|a s IH]; [done|]. by rewrite app_cons, IH. }
    pose proof (GetRelativePath_child basePath "") as H0. rewrite E in H0.
    apply H0. vm_compute. discriminate.
  - apply (GetRelativePath_child "" rest Hrest).
  - intros fullPath Hno. unfold GetRelativePath. by rewrite Hno.
Qed.

Lemma GetRelativePath_strips_the_base_witness :
  (size "docs\a.txt" ≤ npos)%N
  ∧ GetRelativePath ("C:\src\" +:+ "docs\a.txt") "C:\src\" = "docs\a.txt"
  ∧ GetRelativePath "C:\other\a.txt" "C:\src\" = "C:\other\a.txt".
Proof.
  assert (H : (size "docs\a.txt" ≤ npos)%N) by (vm_compute; discriminate).
  split; [exact H|].
  split; [exact (proj1 (GetRelativePath_strips_the_base "C:\src\" "docs\a.txt" H))|].
  exact (proj2 (proj2 (proj2 (proj2
    (GetRelativePath_strips_the_base "C:\src\" "docs\a.txt" H))))
    "C:\other\a.txt" eq_refl).
Defined.

End HelperFacts.

Lemma int64_small z : LLONG_MIN ≤ z ≤ LLONG_MAX → int64 z = z.
Proof.
  unfold LLONG_MIN, LLONG_MAX. intros Hz. unfold int64, wrap_signed.
  change (2 ^ (64 - 1)) with 9223372036854775808.
  change (2 ^ 64) with 18446744073709551616.
  rewrite Z.mod_small; lia.
Qed.

Lemma int64_high z :
  LLONG_MAX < z < 18446744073709551616 → int64 z = z - 18446744073709551616.
Proof.
  unfold LLONG_MAX. intros Hz. unfold int64, wrap_signed.
  change (2 ^ (64 - 1)) with 9223372036854775808.
  change (2 ^ 64) with 18446744073709551616.
  replace (z + 9223372036854775808)
    with (z - 9223372036854775808 + 1 * 18446744073709551616) by lia.
  rewrite Z.mod_add by lia. rewrite Z.mod_small; lia.
Qed.

Module FindDataFacts.

(** X3. [GetFileSize] joins the two 32-bit halves of the size: a size
    below 2^63 bytes comes out exactly and is not negative; with the top
    bit of the high half set the [long long] is negative. *)
Theorem GetFileSize_joins_the_halves (fd : FindData) :
  0 ≤ nFileSizeLow fd < 2 ^ 32 → 0 ≤ nFileSizeHigh fd < 2 ^ 32 →
  LLONG_MIN ≤ GetFileSize fd ≤ LLONG_MAX
  ∧ (nFileSizeHigh fd < 2 ^ 31 →
       GetFileSize fd = nFileSizeHigh fd * 2 ^ 32 + nFileSizeLow fd
       ∧ 0 ≤ GetFileSize fd)
  ∧ (2 ^ 31 ≤ nFileSizeHigh fd →
       GetFileSize fd = nFileSizeHigh fd * 2 ^ 32 + nFileSizeLow fd - 2 ^ 64
       ∧ GetFileSize fd < 0).
Proof.
  unfold GetFileSize, LLONG_MIN, LLONG_MAX.
  change (2 ^ 32) with 4294967296. change (2 ^ 31) with 2147483648.
  change (2 ^ 64) with 18446744073709551616.
  intros Hlo Hhi.
  destruct (decide (nFileSizeHigh fd < 2147483648)) as [Hs|Hs].
  - rewrite int64_small by (unfold LLONG_MIN, LLONG_MAX; lia). lia.
  - rewrite int64_high by (unfold LLONG_MAX; lia). lia.
Qed.

Lemma GetFileSize_joins_the_halves_witness :
  GetFileSize (mkFindData "big.iso" 1 5 0 0) = 4294967301
  ∧ GetFileSize (mkFindData "odd.bin" 4294967295 4294967295 0 0) = -1.
Proof.
  split.
  - pose proof (GetFileSize_joins_the_halves (mkFindData "big.iso" 1 5 0 0)) as H.
    simpl in H. destruct H as (_ & H & _); [lia|lia|]. destruct H as [H _]; [lia|].
    exact H.
  - pose proof
      (GetFileSize_joins_the_halves (mkFindData "odd.bin" 4294967295 4294967295 0 0)) as H.
    simpl in H. destruct H as (_ & _ & H); [lia|lia|]. destruct H as [H _]; [lia|].
    exact H.
Defined.

(** X4. [GetFileTime] turns the 64-bit count of 100 ns ticks since 1601
    into whole seconds since 1970: the quotient by 10^7 less
    11644473600.  Fractions of a second are cut off, later ticks never
    give an earlier time, and every result fits a 64-bit [time_t]. *)
Theorem GetFileTime_is_unix_seconds (fd : FindData) :
  0 ≤ dwLowDateTime fd < 2 ^ 32 → 0 ≤ dwHighDateTime fd < 2 ^ 32 →
  let ticks := dwHighDateTime fd * 2 ^ 32 + dwLowDateTime fd in
  GetFileTime fd = ticks / 10000000 - 11644473600
  ∧ - 11644473600 ≤ GetFileTime fd ≤ 1833029933770
  ∧ 10000000 * (GetFileTime fd + 11644473600) ≤ ticks
      < 10000000 * (GetFileTime fd + 11644473600) + 10000000
  ∧ (∀ fd' : FindData,
       0 ≤ dwLowDateTime fd' < 2 ^ 32 → 0 ≤ dwHighDateTime fd' < 2 ^ 32 →
       ticks ≤ dwHighDateTime fd' * 2 ^ 32 + dwLowDateTime fd' →
       GetFileTime fd ≤ GetFileTime fd').
Proof.
  assert (Hval : ∀ d : FindData,
    0 ≤ dwLowDateTime d < 4294967296 → 0 ≤ dwHighDateTime d < 4294967296 →
    GetFileTime d = (dwHighDateTime d * 4294967296 + dwLowDateTime d) / 10000000 - 11644473600
    ∧ 0 ≤ (dwHighDateTime d * 4294967296 + dwLowDateTime d) / 10000000 ≤ 1844674407370).
  { intros d Hlo Hhi. unfold GetFileTime. change (2 ^ 32) with 4294967296.
    assert (0 ≤ (dwHighDateTime d * 4294967296 + dwLowDateTime d) / 10000000 ≤ 1844674407370).
    { split; [apply Z.div_pos; lia|].
      apply Z.lt_succ_r, Z.div_lt_upper_bound; lia. }
    rewrite int64_small by (unfold LLONG_MIN, LLONG_MAX; lia). done. }
  change (2 ^ 32) with 4294967296. intros Hlo Hhi ticks.
  destruct (Hval fd Hlo Hhi) as [Hfd Hq]. fold ticks in Hfd, Hq.
  split; [done|]. split; [lia|]. split.
  - rewrite Hfd. pose proof (Z.div_mod ticks 10000000).
    pose proof (Z.mod_pos_bound ticks 10000000). lia.
  - intros fd' Hlo' Hhi' Hle. destruct (Hval fd' Hlo' Hhi') as [Hfd' _].
    rewrite Hfd, Hfd'.
    pose proof (Z.div_le_mono ticks
      (dwHighDateTime fd' * 4294967296 + dwLowDateTime fd') 10000000). lia.
Qed.

Lemma GetFileTime_is_unix_seconds_witness :
  GetFileTime (mkFindData "a.txt" 0 5 3577643008 27111902) = 0
  ∧ GetFileTime (mkFindData "a.txt" 0 5 3587643007 27111902) = 0.
Proof.
  split.
  - pose proof (GetFileTime_is_unix_seconds (mkFindData "a.txt" 0 5 3577643008 27111902)) as H.
    simpl in H. destruct H as (H & _); [lia|lia|]. exact H.
  - pose proof (GetFileTime_is_unix_seconds (mkFindData "a.txt" 0 5 3587643007 27111902)) as H.
    simpl in H. destruct H as (H & _); [lia|lia|]. exact H.
Defined.

End FindDataFacts.

Lemma int32_range z : - 2147483648 ≤ int32 z ≤ 2147483647.
Proof.
  unfold int32, wrap_signed.
  change (2 ^ (32 - 1)) with 2147483648. change (2 ^ 32) with 4294967296.
  pose proof (Z.mod_pos_bound (z + 2147483648) 4294967296). lia.
Qed.

Lemma int32_add_l a b : int32 (int32 a + b) = int32 (a + b).
Proof.
  unfold int32, wrap_signed.
  change (2 ^ (32 - 1)) with 2147483648. change (2 ^ 32) with 4294967296.
  replace ((a + 2147483648) mod 4294967296 - 2147483648 + b + 2147483648)
    with ((a + 2147483648) mod 4294967296 + b) by lia.
  rewrite Zplus_mod_idemp_l. do 2 f_equal. lia.
Qed.

Lemma int32_idem z : int32 (int32 z) = int32 z.
Proof. apply int32_small, int32_range. Qed.

Module DirFacts.
Import Str Win32 StrFacts PathFacts.

Lemma is_directory_elem p fs :
  is_directory (GetFileAttributesA p fs) = true ↔ canon p ∈ fs_dirs fs.
Proof.
  unfold GetFileAttributesA. case_bool_decide as Hd; [done|].
  split; [|done]. by case_bool_decide.
Qed.

Lemma attributes_invalid p fs :
  GetFileAttributesA p fs = INVALID_FILE_ATTRIBUTES
  ↔ (canon p ∉ fs_dirs fs) ∧ fs_files fs !! canon p = None.
Proof.
  unfold GetFileAttributesA. case_bool_decide as Hd.
  { split; [done|]. by intros [? _]. }
  case_bool_decide as Hf.
  { split; [done|]. intros [_ Hn]. rewrite Hn in Hf. by destruct Hf. }
  split; [|done]. intros _. split; [done|]. by apply eq_None_not_Some.
Qed.

Lemma CreateDirectoryA_success (P : Platform) p fs fs' :
  CreateDirectoryA P p fs = (ERROR_SUCCESS, fs') →
  GetFileAttributesA p fs = INVALID_FILE_ATTRIBUTES
  ∧ fs' = mkFS ({[canon p]} ∪ fs_dirs fs) (fs_files fs).
Proof.
  unfold CreateDirectoryA.
  destruct (GetFileAttributesA p fs); [|done..].
  destruct (negb (parent_exists p fs)); [done|].
  destruct (mkdir_denied P (canon p)); [done|]. by intros [= <-].
Qed.

Section Shared.
Context (P : Platform).

(** What every returning call of [CreateDestDirectory] keeps. *)
Lemma CreateDestDirectory_effect depth : ∀ path created fs ok created' fs',
  CreateDestDirectory P depth path created fs = Done (ok, created', fs') →
  fs_files fs' = fs_files fs
  ∧ fs_dirs fs ⊆ fs_dirs fs'
  ∧ (∃ k : nat, base.size (fs_dirs fs') = (base.size (fs_dirs fs) + k)%nat
                ∧ int32 created' = int32 (created + Z.of_nat k))
  ∧ (ok = true → GetFileAttributesA path fs' ≠ INVALID_FILE_ATTRIBUTES)
  ∧ (int32 created = created → int32 created' = created')
  ∧ (∀ p, p ∈ fs_dirs fs' → p ∈ fs_dirs fs ∨ fs_files fs !! p = None).
Proof.
  induction depth as [|d IH]; intros path created fs ok created' fs' H; [done|].
  assert (Hsame : fs_files fs = fs_files fs ∧ fs_dirs fs ⊆ fs_dirs fs
    ∧ ∃ k : nat, base.size (fs_dirs fs) = (base.size (fs_dirs fs) + k)%nat
                 ∧ int32 created = int32 (created + Z.of_nat k)).
  { split; [done|]. split; [done|]. exists 0%nat. split; [lia|]. f_equal. lia. }
  assert (Hold : ∀ p, p ∈ fs_dirs fs → p ∈ fs_dirs fs ∨ fs_files fs !! p = None)
    by (intros; by left).
  simpl in H.
  destruct (is_directory (GetFileAttributesA path fs)) eqn:Ed.
  { injection H as <- <- <-. destruct Hsame as (? & ? & ?). split_and!; try done.
    intros _. by destruct (GetFileAttributesA path fs). }
  destruct (CreateDirectoryA P path fs) as [e fs1] eqn:Ec.
  destruct e.
  - injection H as <- <- <-.
    apply CreateDirectoryA_success in Ec as [Hinv ->]. simpl.
    apply attributes_invalid in Hinv as [Hnd Hnf].
    split; [done|]. split; [apply union_subseteq_r|]. split; [|split; [|split]].
    + exists 1%nat. split.
      * rewrite size_union by (apply disjoint_singleton_l; done).
        rewrite size_singleton. lia.
      * by rewrite int32_idem.
    + intros _. unfold GetFileAttributesA. simpl.
      rewrite bool_decide_eq_true_2; [done|]. apply elem_of_union_l. by apply elem_of_singleton.
    + intros _. apply int32_idem.
    + intros p [->%elem_of_singleton|Hp]%elem_of_union; [by right|by left].
  - injection H as <- <- <-. destruct Hsame as (? & ? & ?). split_and!; try done.
    intros _. pose proof (CreateDirectoryA_effect P path fs) as (_ & _ & _ & Ha).
    rewrite Ec in Ha. by apply Ha.
  - destruct (negb (_ =? npos)%N); [|injection H as <- <- <-;
      destruct Hsame as (? & ? & ?); by split_and!].
    match type of H with
    | context [CreateDestDirectory P d ?p created fs] =>
        destruct (CreateDestDirectory P d p created fs) as [[[ok1 c1] f1]|c] eqn:E1
    end; [|done].
    simpl in H.
    apply IH in E1 as (Hf1 & Hd1 & (k1 & Hk1 & Hc1) & _ & Hi1 & Hn1).
    destruct ok1.
    + apply IH in H as (Hf2 & Hd2 & (k2 & Hk2 & Hc2) & Hok & Hi2 & Hn2).
      split; [congruence|]. split; [by etrans|].
      split; [|split; [done|split]].
      * exists (k1 + k2)%nat. split; [lia|].
        rewrite Hc2, <- int32_add_l, Hc1, int32_add_l. f_equal. lia.
      * intros Hi. by apply Hi2, Hi1.
      * intros p Hp. destruct (Hn2 p Hp) as [Hp1|Hp1]; [by apply Hn1|].
        right. by rewrite <- Hf1.
    + injection H as <- <- <-. split; [done|]. split; [done|].
      split; [by exists k1|]. done.
  - injection H as <- <- <-. destruct Hsame as (? & ? & ?). by split_and!.
Qed.

End Shared.
End DirFacts.

Module DirPathFacts.
Import Str Win32 StrFacts PathFacts DirFacts.

Lemma size_t_minus_2 (n : N) :
  (2 ≤ n < 2 ^ 64)%N → size_t (Z.of_N n - 2) = (n - 2)%N.
Proof.
  intros Hn. unfold size_t. change (2 ^ 64)%N with 18446744073709551616%N in Hn.
  change (2 ^ 64) with 18446744073709551616. rewrite Z.mod_small by lia. lia.
Qed.

Lemma component_size name : component name → (1 ≤ size name)%N.
Proof. intros [_ Hne]. destruct name; [done|]. rewrite size_cons. lia. Qed.

Lemma canon_no_sep name : no_sep name = true → canon name = name.
Proof.
  induction name as [|a name IH]; [done|]. simpl.
  intros [Ha Hn]%andb_true_iff. rewrite IH by done.
  destruct name; [|done]. apply negb_true_iff in Ha. by rewrite Ha.
Qed.

Lemma canon_child d name : component name → canon (child d name) = child d name.
Proof.
  intros [Hn Hne]. unfold child. rewrite canon_app; [|].
  - f_equal. change ("\" +:+ name) with (String backslash name). simpl.
    rewrite canon_no_sep by done. by destruct name.
  - change ("\" +:+ name) with (String backslash name). simpl.
    rewrite canon_no_sep by done. by destruct name.
Qed.

Lemma canon_child_tail d name tail :
  component name → tail = "" ∨ tail = "\" → canon (child d name +:+ tail) = child d name.
Proof.
  intros Hn [->| ->].
  - replace (child d name +:+ "") with (child d name); [by apply canon_child|].
    generalize (child d name). intros s. induction s as [|a s IH]; [done|].
    by rewrite app_cons, <- IH.
  - rewrite canon_snoc_sep by done. by apply canon_child.
Qed.

Lemma parent_child_tail d name tail :
  component name → tail = "" ∨ tail = "\" → canon d = d → (size d < npos)%N →
  parent (child d name +:+ tail) = Some d.
Proof.
  intros Hn Ht Hd Hsz.
  assert (E : parent (child d name +:+ tail) = parent (child d name)).
  { unfold parent. rewrite canon_child_tail, canon_child by done. done. }
  rewrite E. destruct Hn as [Hn Hne]. unfold child.
  change ("\" +:+ name) with (String backslash name).
  apply parent_of_child; try done. rewrite canon_no_sep by done. done.
Qed.

(** [path.find_last_of("\\/", path.length() - 2)] finds the separator in
    front of the last component, with or without a trailing separator. *)
Lemma find_last_before_name d name tail :
  component name → tail = "" ∨ tail = "\" →
  (size (child d name +:+ tail) < npos)%N →
  find_last_of_sep (child d name +:+ tail)
    (size_t (Z.of_N (size (child d name +:+ tail)) - 2)) = size d.
Proof.
  intros Hn Ht Hsz. pose proof (component_size name Hn) as H1.
  destruct Hn as [Hn _].
  assert (Hlen : size (child d name +:+ tail) = (size d + 1 + size name + size tail)%N).
  { unfold child. rewrite !size_app. change (size "\") with 1%N. lia. }
  rewrite size_t_minus_2
    by (unfold npos in Hsz; change (2 ^ 64)%N with 18446744073709551616%N; lia).
  rewrite Hlen in *. unfold find_last_of_sep, child.
  rewrite !app_assoc, find_last_sep_go_app.
  change ("\" +:+ name +:+ tail) with (String backslash (name +:+ tail)).
  simpl. rewrite find_last_sep_go_app, (find_last_sep_go_no_sep name) by done.
  change (is_sep backslash) with true. rewrite andb_true_r, !N.add_0_l.
  destruct (N.leb_spec (size d) (size d + 1 + size name + size tail - 2)) as [_|Hgt].
  2:{ destruct Ht as [-> | ->]; simpl in Hgt; lia. }
  destruct Ht as [-> | ->]; [done|]. simpl.
  change (is_sep "\") with true. rewrite andb_true_r.
  destruct (N.leb_spec (size d + 1 + size name) (size d + 1 + size name + size "\" - 2))
    as [Hle|_]; [|done].
  change (size "\") with 1%N in Hle. lia.
Qed.

Lemma substr_child d name tail :
  substr (child d name +:+ tail) 0 (size d) = d.
Proof. unfold substr, child. rewrite drop_0, !app_assoc. apply take_app. Qed.

Section Shared.
Context (P : Platform).

Lemma CreateDestDirectory_existing depth path created fs :
  canon path ∈ fs_dirs fs →
  CreateDestDirectory P (S depth) path created fs = Done (true, created, fs).
Proof. intros Hd. simpl. by rewrite (proj2 (is_directory_elem path fs) Hd). Qed.

Lemma CreateDestDirectory_parent_exists depth path created fs :
  GetFileAttributesA path fs = INVALID_FILE_ATTRIBUTES →
  parent_exists path fs = true → mkdir_denied P (canon path) = false →
  CreateDestDirectory P (S depth) path created fs
  = Done (true, int32 (created + 1), mkFS ({[canon path]} ∪ fs_dirs fs) (fs_files fs)).
Proof.
  intros Ha Hp Hm. simpl. unfold CreateDirectoryA. rewrite Ha, Hp, Hm. done.
Qed.

Lemma CreateDestDirectory_parent_missing depth d name tail created fs :
  component name → tail = "" ∨ tail = "\" →
  (size (child d name +:+ tail) < npos)%N →
  GetFileAttributesA (child d name +:+ tail) fs = INVALID_FILE_ATTRIBUTES →
  parent_exists (child d name +:+ tail) fs = false →
  CreateDestDirectory P (S depth) (child d name +:+ tail) created fs
  = '(ok, created1, fs1) ← CreateDestDirectory P depth d created fs;
    if ok : bool then CreateDestDirectory P depth (child d name +:+ tail) created1 fs1
    else Done (false, created1, fs1).
Proof.
  intros Hn Ht Hsz Ha Hp. cbn [CreateDestDirectory]. unfold CreateDirectoryA.
  rewrite Ha, Hp. cbn [is_directory negb].
  rewrite find_last_before_name by done.
  assert (size d < npos)%N as Hd.
  { revert Hsz. unfold child. rewrite !size_app. lia. }
  destruct (N.eqb_spec (size d) npos) as [E|_]; [lia|]. cbn [negb].
  by rewrite substr_child.
Qed.

End Shared.
End DirPathFacts.

Module LevelFacts.
Import Str Win32 StrFacts PathFacts DirFacts DirPathFacts.

Lemma app_nil_r (s : string) : s +:+ "" = s.
Proof. induction s as [|a s IH]; [done|]. by rewrite app_cons, IH. Qed.

Lemma descend_snoc names : ∀ base name,
  descend base (names ++ [name]) = child (descend base names) name.
Proof. induction names as [|n names IH]; intros base name; [done|]. simpl. apply IH. Qed.

Lemma levels_snoc names : ∀ base name,
  levels base (names ++ [name]) = levels base names ++ [child (descend base names) name].
Proof.
  induction names as [|n names IH]; intros base name; [done|]. simpl. by rewrite IH.
Qed.

Lemma canon_descend names : ∀ base,
  canon base = base → Forall component names → canon (descend base names) = descend base names.
Proof.
  induction names as [|n names IH]; intros base Hb Hn; [done|].
  apply Forall_cons in Hn as [Hn Hns]. simpl. apply IH; [|done]. by apply canon_child.
Qed.

Lemma length_child d name : (String.length d < String.length (child d name))%nat.
Proof. unfold child. rewrite !length_app. simpl. lia. Qed.

Lemma levels_shorter names : ∀ base p,
  p ∈ levels base names → (String.length p ≤ String.length (descend base names))%nat.
Proof.
  induction names as [|n names IH] using rev_ind; intros base p Hp.
  { by apply elem_of_nil in Hp. }
  rewrite levels_snoc in Hp. rewrite descend_snoc.
  apply elem_of_app in Hp as [Hp|Hp].
  - apply IH in Hp. pose proof (length_child (descend base names) n). lia.
  - apply list_elem_of_singleton in Hp as ->. done.
Qed.

Lemma descend_in_levels names base :
  names ≠ [] → descend base names ∈ levels base names.
Proof.
  destruct names as [|n names _] using rev_ind; [done|]. intros _.
  rewrite levels_snoc, descend_snoc. apply elem_of_app. right. by apply list_elem_of_singleton.
Qed.

Lemma attributes_canon p q fs :
  canon p = canon q → GetFileAttributesA p fs = GetFileAttributesA q fs.
Proof. intros E. unfold GetFileAttributesA. by rewrite E. Qed.

Lemma parent_exists_in d p fs :
  parent p = Some d → d ∈ fs_dirs fs → parent_exists p fs = true.
Proof.
  intros Hp Hd. unfold parent_exists. rewrite Hp. destruct d; [done|].
  by apply bool_decide_eq_true_2.
Qed.

Lemma parent_exists_out d p fs :
  parent p = Some d → d ≠ "" → d ∉ fs_dirs fs → parent_exists p fs = false.
Proof.
  intros Hp Hne Hd. unfold parent_exists. rewrite Hp. destruct d; [done|].
  by apply bool_decide_eq_false_2.
Qed.

Lemma child_nonempty d name : child d name ≠ "".
Proof. unfold child. by destruct d. Qed.

Section Shared.
Context (P : Platform).

Lemma creates_missing_levels (names : list string) :
  ∀ (base tail : string) (depth : nat) (created : Z) (fs : FileSys),
  canon base = base → base ∈ fs_dirs fs →
  Forall component names →
  Forall (λ p, GetFileAttributesA p fs = INVALID_FILE_ATTRIBUTES
               ∧ mkdir_denied P p = false) (levels base names) →
  tail = "" ∨ tail = "\" →
  (length names < depth)%nat →
  (size (descend base names) + 1 < npos)%N →
  0 ≤ created → created + Z.of_nat (length names) ≤ INT_MAX →
  CreateDestDirectory P depth (descend base names +:+ tail) created fs
  = Done (true, created + Z.of_nat (length names),
          mkFS (list_to_set (levels base names) ∪ fs_dirs fs) (fs_files fs)).
Proof.
  induction names as [|n init IH] using rev_ind;
    intros base tail depth created fs Hb Hbase Hn Hl Ht Hdepth Hsz Hc0 Hc1.
  { destruct depth as [|d]; [simpl in Hdepth; lia|]. simpl descend.
    rewrite CreateDestDirectory_existing.
    - simpl. rewrite Z.add_0_r, (left_id_L ∅ (∪)). by destruct fs.
    - destruct Ht as [-> | ->]; [by rewrite app_nil_r, Hb|].
      by rewrite canon_snoc_sep, Hb. }
  apply Forall_app in Hn as [Hinit Hn]. rewrite Forall_singleton in Hn.
  rewrite levels_snoc in Hl. apply Forall_app in Hl as [Hlinit Hlast].
  rewrite Forall_singleton in Hlast. destruct Hlast as [Hlast Hmk].
  rewrite List.length_app in Hdepth, Hc1. simpl in Hdepth, Hc1.
  rewrite descend_snoc in Hsz |- *. rewrite levels_snoc, List.length_app. simpl length.
  set (D := descend base init) in *.
  assert (HD : canon D = D) by by apply canon_descend.
  assert (HszD : (size D < npos)%N).
  { revert Hsz. unfold child. rewrite !size_app. lia. }
  assert (Hsz' : (size (child D n +:+ tail) < npos)%N).
  { revert Hsz. rewrite size_app. destruct Ht as [-> | ->];
      [change (size "") with 0%N|change (size "\") with 1%N]; lia. }
  assert (Hcan : canon (child D n +:+ tail) = child D n) by by apply canon_child_tail.
  assert (Hpar : parent (child D n +:+ tail) = Some D) by by apply parent_child_tail.
  assert (Hattr : GetFileAttributesA (child D n +:+ tail) fs = INVALID_FILE_ATTRIBUTES).
  { rewrite <- Hlast. apply attributes_canon. rewrite Hcan. symmetry. by apply canon_child. }
  destruct depth as [|d]; [lia|].
  destruct (decide (init = [])) as [->|Hne].
  - simpl in D. subst D.
    rewrite CreateDestDirectory_parent_exists;
      [|done|by eapply parent_exists_in|by rewrite Hcan].
    rewrite Hcan, int32_small by (unfold INT_MAX in *; lia).
    simpl. do 3 f_equal. by rewrite (right_id_L ∅ (∪)).
  - pose proof (descend_in_levels init base Hne) as Hin. fold D in Hin.
    assert (GetFileAttributesA D fs = INVALID_FILE_ATTRIBUTES) as HDa.
    { by apply (proj1 (Forall_forall _ _) Hlinit D). }
    apply attributes_invalid in HDa as [HDd _]. rewrite HD in HDd.
    rewrite CreateDestDirectory_parent_missing; try done.
    2:{ eapply parent_exists_out; [done| |done].
        destruct init as [|? ? _] using rev_ind; [done|].
        unfold D. rewrite descend_snoc. apply child_nonempty. }
    specialize (IH base "" d created fs Hb Hbase Hinit Hlinit (or_introl eq_refl)).
    rewrite app_nil_r in IH. fold D in IH. rewrite IH; [|lia| |done|lia].
    2:{ revert Hsz. unfold child. rewrite !size_app.
        change (size "\") with 1%N. lia. }
    simpl.
    destruct d as [|d']; [destruct init; [done|simpl in Hdepth; lia]|].
    set (fs1 := mkFS (list_to_set (levels base init) ∪ fs_dirs fs) (fs_files fs)).
    apply attributes_invalid in Hattr as [Hnd Hnf]. rewrite Hcan in Hnd, Hnf.
    rewrite CreateDestDirectory_parent_exists.
    + rewrite Hcan, int32_small by (unfold INT_MAX in *; lia).
      do 2 f_equal; [f_equal; lia|]. unfold fs1. simpl. f_equal.
      rewrite list_to_set_app_L. simpl. rewrite (right_id_L ∅ (∪)).
      rewrite <- (assoc_L (∪)). rewrite (assoc_L (∪) {[child D n]}).
      rewrite (comm_L (∪) {[child D n]}). by rewrite <- (assoc_L (∪)).
    + apply attributes_invalid. rewrite Hcan. unfold fs1. simpl. split; [|done].
      intros [Hx|Hx]%elem_of_union; [|done].
      apply elem_of_list_to_set, levels_shorter in Hx. fold D in Hx.
      pose proof (length_child D n). lia.
    + eapply parent_exists_in; [done|]. unfold fs1. simpl.
      apply elem_of_union_l. by apply elem_of_list_to_set.
    + by rewrite Hcan.
Qed.

End Shared.
End LevelFacts.

Module CreateDestDirectoryFacts.
Import Str Win32 StrFacts PathFacts DirFacts DirPathFacts LevelFacts.

Section Shared.
Context (P : Platform).

(** X5. Whenever [CreateDestDirectory] returns, it has touched no file
    and removed no directory, and [directoriesCreated] has grown by
    exactly the number of directories that were added (as an [int]).
    When it returns [true] something exists at the path; when the path
    is a directory already, it returns [true] and changes nothing. *)
Theorem CreateDestDirectory_counts_what_it_creates (depth : nat) (path : string)
    (created : Z) (fs : FileSys) (ok : bool) (created' : Z) (fs' : FileSys) :
  - 2147483648 ≤ created ≤ INT_MAX →
  CreateDestDirectory P depth path created fs = Done (ok, created', fs') →
  fs_files fs' = fs_files fs
  ∧ fs_dirs fs ⊆ fs_dirs fs'
  ∧ created' = int32 (created
                      + Z.of_nat (base.size (fs_dirs fs') - base.size (fs_dirs fs)))
  ∧ (ok = true → GetFileAttributesA path fs' ≠ INVALID_FILE_ATTRIBUTES)
  ∧ (is_directory (GetFileAttributesA path fs) = true →
       ok = true ∧ created' = created ∧ fs' = fs).
Proof.
  intros Hc H.
  pose proof (CreateDestDirectory_effect P depth path created fs ok created' fs' H)
    as (Hf & Hd & (k & Hk & Hck) & Hok & Hint & _).
  split; [done|]. split; [done|]. split; [|split; [done|]].
  - rewrite <- Hint by (apply int32_small; unfold INT_MAX in Hc; lia).
    rewrite Hck. do 2 f_equal. lia.
  - intros Hdir. destruct depth as [|d]; [done|]. simpl in H. rewrite Hdir in H.
    by injection H as <- <- <-.
Qed.

(** X6. [CreateDestDirectory] creates the missing levels of a nested
    path, outermost first: below an existing directory [base], with no
    level present and none refused, it returns [true], adds exactly the
    levels, and counts each of them, whether or not the path ends in a
    backslash.  The recursion is one call deep per level. *)
Theorem CreateDestDirectory_creates_missing_levels (base : string)
    (names : list string) (tail : string) (depth : nat) (created : Z) (fs : FileSys) :
  canon base = base → base ∈ fs_dirs fs →
  Forall component names →
  Forall (λ p, GetFileAttributesA p fs = INVALID_FILE_ATTRIBUTES
               ∧ mkdir_denied P p = false) (levels base names) →
  tail = "" ∨ tail = "\" →
  (length names < depth)%nat →
  (size (descend base names) + 1 < npos)%N →
  0 ≤ created → created + Z.of_nat (length names) ≤ INT_MAX →
  CreateDestDirectory P depth (descend base names +:+ tail) created fs
  = Done (true, created + Z.of_nat (length names),
          mkFS (list_to_set (levels base names) ∪ fs_dirs fs) (fs_files fs)).
Proof. apply creates_missing_levels. Qed.

(** X7. When the directory that is to hold the new one is a regular
    file, [CreateDestDirectory] never returns: creating the file's name
    "succeeds" with [ERROR_ALREADY_EXISTS], creating the directory below
    it fails again with [ERROR_PATH_NOT_FOUND], and the two calls
    alternate until the stack is used up, however deep it is. *)
Theorem CreateDestDirectory_below_a_file (depth : nat) (file name tail : string)
    (created : Z) (fs : FileSys) :
  canon file = file → file ≠ "" →
  GetFileAttributesA file fs = FILE_ATTRIBUTE_NORMAL →
  GetFileAttributesA (child file name) fs = INVALID_FILE_ATTRIBUTES →
  component name → tail = "" ∨ tail = "\" →
  (size (child file name) + 1 < npos)%N →
  CreateDestDirectory P depth (child file name +:+ tail) created fs
  = Crash StackOverflow.
Proof.
  intros Hf Hne Hfile Hchild Hn Ht Hsz.
  assert (Hnd : file ∉ fs_dirs fs).
  { intros Hd. rewrite <- Hf in Hd. apply (is_directory_elem file fs) in Hd.
    by rewrite Hfile in Hd. }
  assert (Hsz' : (size (child file name +:+ tail) < npos)%N).
  { revert Hsz. rewrite size_app. destruct Ht as [-> | ->];
      [change (size "") with 0%N|change (size "\") with 1%N]; lia. }
  assert (HszF : (size file < npos)%N).
  { revert Hsz. unfold child. rewrite !size_app. lia. }
  assert (Hattr : GetFileAttributesA (child file name +:+ tail) fs = INVALID_FILE_ATTRIBUTES).
  { rewrite <- Hchild. apply attributes_canon.
    by rewrite canon_child_tail, canon_child. }
  induction depth as [|d IH]; [done|].
  rewrite CreateDestDirectory_parent_missing; try done.
  2:{ eapply parent_exists_out; [by apply parent_child_tail|done|done]. }
  destruct d as [|d']; [done|].
  assert (CreateDestDirectory P (S d') file created fs = Done (true, created, fs)) as ->.
  { simpl. unfold CreateDirectoryA. by rewrite Hfile. }
  simpl. exact IH.
Qed.

End Shared.

Lemma CreateDestDirectory_counts_what_it_creates_witness :
  ∃ fs', CreateDestDirectory quiet 64 "D:\Backup\" 0 empty_volume = Done (true, 1, fs')
         ∧ fs_files fs' = fs_files empty_volume
         ∧ fs_dirs empty_volume ⊆ fs_dirs fs'
         ∧ 1 = int32 (0 + Z.of_nat (base.size (fs_dirs fs')
                                    - base.size (fs_dirs empty_volume))).
Proof.
  eexists. split; [vm_compute; reflexivity|].
  assert (Hc : - 2147483648 ≤ 0 ≤ INT_MAX) by (unfold INT_MAX; lia).
  pose proof (CreateDestDirectory_counts_what_it_creates quiet 64 "D:\Backup\" 0
                empty_volume true 1 _ Hc eq_refl) as (H1 & H2 & H3 & _).
  split; [exact H1|]. split; [exact H2|exact H3].
Defined.

Lemma CreateDestDirectory_creates_missing_levels_witness :
  CreateDestDirectory quiet 64 "D:\Backup\2024\docs\" 0 empty_volume
  = Done (true, 3,
          mkFS (list_to_set ["D:\Backup"; "D:\Backup\2024"; "D:\Backup\2024\docs"]
                  ∪ fs_dirs empty_volume) ∅).
Proof.
  apply (CreateDestDirectory_creates_missing_levels quiet "D:"
           ["Backup"; "2024"; "docs"] "\" 64 0 empty_volume).
  - reflexivity.
  - vm_compute. reflexivity.
  - repeat constructor; discriminate.
  - repeat constructor.
  - right. reflexivity.
  - simpl. lia.
  - vm_compute. reflexivity.
  - lia.
  - unfold INT_MAX. simpl. lia.
Defined.

(** A volume on which [D:\notes] is a regular file. *)
Lemma CreateDestDirectory_below_a_file_witness :
  let fs := mkFS {[ "D:" ]} {[ "D:\notes" := "to do" ]} in
  GetFileAttributesA "D:\notes" fs = FILE_ATTRIBUTE_NORMAL
  ∧ CreateDestDirectory quiet 64 "D:\notes\2024\" 0 fs = Crash StackOverflow
  ∧ CreateDestDirectory quiet 1000 "D:\notes\2024\" 0 fs = Crash StackOverflow.
Proof.
  intros fs.
  assert (H : ∀ depth, CreateDestDirectory quiet depth "D:\notes\2024\" 0 fs
                       = Crash StackOverflow).
  { intros depth.
    apply (CreateDestDirectory_below_a_file quiet depth "D:\notes" "2024" "\" 0 fs).
    - reflexivity.
    - discriminate.
    - vm_compute. reflexivity.
    - vm_compute. reflexivity.
    - split; [reflexivity|discriminate].
    - right. reflexivity.
    - vm_compute. reflexivity. }
  split; [vm_compute; reflexivity|]. split; apply H.
Defined.

End CreateDestDirectoryFacts.

Module BookkeepingFacts.
Import StrFacts PathFacts DirFacts LevelFacts.

Lemma GetFileCount_grows {V} (m : gmap string V) k v :
  m !! k = None → Z.of_nat (size m) < INT_MAX →
  int32 (Z.of_nat (size (<[k := v]> m))) = int32 (Z.of_nat (size m)) + 1.
Proof.
  intros Hk Hm. rewrite map_size_insert_None by done. unfold INT_MAX in Hm.
  rewrite !int32_small; lia.
Qed.

Lemma size_insert_present {V} (m : gmap string V) k v :
  is_Some (m !! k) → size (<[k := v]> m) = size m.
Proof. intros [w Hw]. by rewrite map_size_insert_Some. Qed.

(** X8. [DeduplicationIndex]: a path added with [AddFile] is found by
    [HasFile], and [GetHash] returns the fingerprint added last; other
    paths are unaffected.  Adding a new path raises [GetFileCount] by
    one, adding a known path replaces its fingerprint and leaves the
    count.  [GetHash] of an unknown path is the empty string and,
    unlike the manifest's lookup, inserts nothing. *)
Theorem index_returns_the_hash_added_last (fileHashMap : gmap string string)
    (filepath hash : string) :
  Phase3.GetHash filepath (Phase3.AddFile filepath hash fileHashMap) = hash
  ∧ Phase3.HasFile filepath (Phase3.AddFile filepath hash fileHashMap) = true
  ∧ (∀ older, Phase3.AddFile filepath hash (Phase3.AddFile filepath older fileHashMap)
              = Phase3.AddFile filepath hash fileHashMap)
  ∧ (∀ other, other ≠ filepath →
       Phase3.GetHash other (Phase3.AddFile filepath hash fileHashMap)
         = Phase3.GetHash other fileHashMap
       ∧ Phase3.HasFile other (Phase3.AddFile filepath hash fileHashMap)
         = Phase3.HasFile other fileHashMap)
  ∧ (Phase3.HasFile filepath fileHashMap = true →
       Phase3.GetFileCount (Phase3.AddFile filepath hash fileHashMap)
       = Phase3.GetFileCount fileHashMap)
  ∧ (Phase3.HasFile filepath fileHashMap = false →
       Phase3.GetHash filepath fileHashMap = ""
       ∧ (Z.of_nat (size fileHashMap) < INT_MAX →
          Phase3.GetFileCount (Phase3.AddFile filepath hash fileHashMap)
          = Phase3.GetFileCount fileHashMap + 1)).
Proof.
  unfold Phase3.GetHash, Phase3.AddFile, Phase3.HasFile, Phase3.GetFileCount.
  split; [by rewrite lookup_insert_eq|].
  split; [rewrite lookup_insert_eq; by apply bool_decide_eq_true_2|].
  split; [intros older; apply insert_insert_eq|]. split; [|split].
  - intros other Hne. by rewrite lookup_insert_ne.
  - intros Hin%bool_decide_eq_true_1. by rewrite size_insert_present.
  - intros Hout%bool_decide_eq_false_1. apply eq_None_not_Some in Hout.
    split; [by rewrite Hout|]. intros Hm. by apply GetFileCount_grows.
Qed.

(** X9. [ManifestManager]: after [UpdateFile], [HasFile] finds the path
    and [GetFileMetadata] returns the metadata stored last without
    changing the manifest; other paths are unaffected.  A new path
    raises [GetFileCount] by one, a known path keeps the count. *)
Theorem manifest_returns_the_metadata_stored_last
    (manifest : gmap string Phase2.FileMetadata) (filepath : string)
    (meta : Phase2.FileMetadata) :
  Phase2.GetFileMetadata filepath (Phase2.UpdateFile filepath meta manifest)
    = (meta, Phase2.UpdateFile filepath meta manifest)
  ∧ Phase2.HasFile filepath (Phase2.UpdateFile filepath meta manifest) = true
  ∧ (∀ older, Phase2.UpdateFile filepath meta (Phase2.UpdateFile filepath older manifest)
              = Phase2.UpdateFile filepath meta manifest)
  ∧ (∀ other, other ≠ filepath →
       Phase2.HasFile other (Phase2.UpdateFile filepath meta manifest)
         = Phase2.HasFile other manifest
       ∧ (Phase2.HasFile other manifest = true →
          Phase2.GetFileMetadata other (Phase2.UpdateFile filepath meta manifest)
          = ((Phase2.GetFileMetadata other manifest).1,
             Phase2.UpdateFile filepath meta manifest)))
  ∧ (Phase2.HasFile filepath manifest = true →
       Phase2.GetFileCount (Phase2.UpdateFile filepath meta manifest)
       = Phase2.GetFileCount manifest)
  ∧ (Phase2.HasFile filepath manifest = false →
       Z.of_nat (size manifest) < INT_MAX →
       Phase2.GetFileCount (Phase2.UpdateFile filepath meta manifest)
       = Phase2.GetFileCount manifest + 1).
Proof.
  unfold Phase2.GetFileMetadata, Phase2.UpdateFile, Phase2.HasFile, Phase2.GetFileCount.
  split; [by rewrite lookup_insert_eq|].
  split; [rewrite lookup_insert_eq; by apply bool_decide_eq_true_2|].
  split; [intros older; apply insert_insert_eq|]. split; [|split].
  - intros other Hne. rewrite lookup_insert_ne by done. split; [done|].
    intros [w Hw]%bool_decide_eq_true_1. by rewrite Hw.
  - intros Hin%bool_decide_eq_true_1. by rewrite size_insert_present.
  - intros Hout%bool_decide_eq_false_1 Hm. apply eq_None_not_Some in Hout.
    by apply GetFileCount_grows.
Qed.

End BookkeepingFacts.

Module StoreFacts.
Import Phase3 StrFacts PathFacts DirFacts LevelFacts.

Lemma app_inj_r (a b t : string) : a +:+ t = b +:+ t → a = b.
Proof.
  revert b. induction a as [|x a IH]; intros [|y b] H.
  - done.
  - apply (f_equal String.length) in H. rewrite app_nil_l, app_cons in H.
    simpl in H. rewrite length_app in H. lia.
  - apply (f_equal String.length) in H. rewrite app_nil_l, app_cons in H.
    simpl in H. rewrite length_app in H. lia.
  - rewrite !app_cons in H. injection H as -> H. f_equal. by apply IH.
Qed.

Lemma rooted_NormalizePath dst : rooted dst = NormalizePath dst.
Proof. done. Qed.

Lemma rooted_idem dst : rooted (rooted dst) = rooted dst.
Proof.
  unfold rooted.
  destruct (negb (Str.empty dst)
            && negb (bool_decide (Str.back dst = Some Str.backslash))) eqn:E.
  - rewrite (HelperFacts.back_app_snoc dst "\"%char).
    rewrite bool_decide_eq_true_2 by reflexivity.
    change (negb true) with false. by rewrite andb_false_r.
  - by rewrite E.
Qed.

Lemma canon_blob s h : Win32.canon (s +:+ h +:+ ".bin") = s +:+ h +:+ ".bin".
Proof.
  rewrite canon_app; [f_equal|]; rewrite canon_app by done; [done|by destruct h].
Qed.

Lemma canon_GetContentPath_any dst h :
  Win32.canon (GetContentPath dst h) = GetContentPath dst h.
Proof. unfold GetContentPath. apply canon_blob. Qed.

Lemma GetContentPath_inj dst h1 h2 :
  GetContentPath dst h1 = GetContentPath dst h2 → h1 = h2.
Proof.
  unfold GetContentPath. intros H%String.app_inj.
  by apply app_inj_r in H.
Qed.

Lemma indexPath_not_blob_any dst h :
  Win32.canon (indexPath dst) ≠ Win32.canon (GetContentPath dst h).
Proof.
  rewrite canon_GetContentPath_any. unfold indexPath, GetContentPath, storePath.
  rewrite canon_app by done. rewrite !app_assoc. intros H%String.app_inj. discriminate.
Qed.

(** X10. The layout of the store: every fingerprint has a blob path of its
    own, which is a file name (no trailing separator) inside the store
    and differs from the index file; the store, the index and the blobs
    are found at the same paths whether or not the destination is
    written with a trailing backslash. *)
Theorem GetContentPath_names_one_blob_per_hash (dst h : string) :
  Win32.canon (GetContentPath dst h) = GetContentPath dst h
  ∧ (∀ h', Win32.canon (GetContentPath dst h) = Win32.canon (GetContentPath dst h') →
           h = h')
  ∧ Win32.canon (indexPath dst) ≠ Win32.canon (GetContentPath dst h)
  ∧ Str.starts_with (GetContentPath dst h) (storePath dst) = true
  ∧ storePath (NormalizePath dst) = storePath dst
  ∧ indexPath (NormalizePath dst) = indexPath dst
  ∧ GetContentPath (NormalizePath dst) h = GetContentPath dst h.
Proof.
  split; [apply canon_GetContentPath_any|]. split; [|split; [|split]].
  - intros h'. rewrite !canon_GetContentPath_any. apply GetContentPath_inj.
  - apply indexPath_not_blob_any.
  - unfold GetContentPath, Str.starts_with. apply prefix_app.
  - unfold GetContentPath, storePath, indexPath.
    change (NormalizePath dst) with (rooted dst). by rewrite !rooted_idem.
Qed.

Section Engine.
Context (P : Platform).

Lemma ContentExists_spec dst h fs :
  ContentExists dst h fs = true
  ↔ (GetContentPath dst h ∉ fs_dirs fs) ∧ is_Some (fs_files fs !! GetContentPath dst h).
Proof.
  unfold ContentExists, Win32.GetFileAttributesA. rewrite canon_GetContentPath_any.
  case_bool_decide as Hd; [split; [done|by intros [? _]]|].
  case_bool_decide as Hf; [done|]. split; [done|]. by intros [_ ?].
Qed.

(** X11. [StoreContent] succeeds exactly when the source can be read and
    the blob can be written.  Then the blob holds the bytes of the
    source, [ContentExists] finds it, and the reference count of its
    fingerprint is 1 whatever it was before; no other blob and no other
    count changes.  When it fails nothing changes at all. *)
Theorem StoreContent_then_ContentExists (dst : string) (bytes : option string)
    (sourceFile hash : string) (referenceCount : gmap string Z) (fs : FileSys) :
  let r := StoreContent P dst bytes sourceFile hash referenceCount fs in
  (r.1.1 = true ↔
     ∃ content, bytes = Some content
       ∧ Win32.writable (GetContentPath dst hash) fs = true
       ∧ copy_denied P sourceFile (GetContentPath dst hash) = false)
  ∧ (r.1.1 = false → r = (false, referenceCount, fs))
  ∧ (r.1.1 = true →
       ContentExists dst hash r.2 = true
       ∧ Win32.read_file (GetContentPath dst hash) r.2 = bytes
       ∧ GetReferenceCount hash r.1.2 = 1
       ∧ fs_dirs r.2 = fs_dirs fs
       ∧ ∀ other, other ≠ hash →
           GetReferenceCount other r.1.2 = GetReferenceCount other referenceCount
           ∧ ContentExists dst other r.2 = ContentExists dst other fs
           ∧ Win32.read_file (GetContentPath dst other) r.2
             = Win32.read_file (GetContentPath dst other) fs).
Proof.
  unfold StoreContent, Win32.CopyFileA. destruct bytes as [content|]; simpl.
  2:{ split; [|done]. split; [done|]. by intros (? & ? & _). }
  destruct (Win32.writable (GetContentPath dst hash) fs) eqn:Hw; simpl.
  2:{ split; [|done]. split; [done|]. by intros (? & _ & ? & _). }
  destruct (copy_denied P sourceFile (GetContentPath dst hash)) eqn:Hc; simpl.
  { split; [|done]. split; [done|]. by intros (? & _ & _ & ?). }
  split; [split; [by exists content|done]|]. split; [done|]. intros _.
  apply andb_true_iff in Hw as [_ Hnd]. apply negb_true_iff in Hnd.
  assert (Hnotdir : GetContentPath dst hash ∉ fs_dirs fs).
  { intros Hd. rewrite <- canon_GetContentPath_any in Hd.
    apply is_directory_elem in Hd. by rewrite Hd in Hnd. }
  rewrite canon_GetContentPath_any.
  split; [|split; [|split; [|split; [done|]]]].
  - apply ContentExists_spec. simpl. split; [done|]. by rewrite lookup_insert_eq.
  - unfold Win32.read_file. simpl. by rewrite canon_GetContentPath_any, lookup_insert_eq.
  - unfold GetReferenceCount. by rewrite lookup_insert_eq.
  - intros other Hne.
    assert (Hp : GetContentPath dst hash ≠ GetContentPath dst other).
    { intros E. by apply GetContentPath_inj in E. }
    split; [|split].
    + unfold GetReferenceCount. by rewrite lookup_insert_ne.
    + unfold ContentExists, Win32.GetFileAttributesA. simpl.
      rewrite canon_GetContentPath_any. by rewrite lookup_insert_ne.
    + unfold Win32.read_file. simpl.
      rewrite canon_GetContentPath_any. by rewrite lookup_insert_ne.
Qed.

(** What [Initialize] does with one of its two directories. *)
Lemma attributes_kept p fs fs' :
  fs_files fs' = fs_files fs → fs_dirs fs ⊆ fs_dirs fs' →
  Win32.GetFileAttributesA p fs ≠ Win32.INVALID_FILE_ATTRIBUTES →
  Win32.GetFileAttributesA p fs' ≠ Win32.INVALID_FILE_ATTRIBUTES.
Proof.
  intros Hf Hd Hp Hinv. apply attributes_invalid in Hinv as [Hnd Hnf].
  apply Hp, attributes_invalid. rewrite <- Hf. split; [|done].
  intros Hin. by apply Hnd, Hd.
Qed.

(** X12. [Initialize] touches no file and creates no directory other than
    the backup root and its [.dedup_store].  When it has returned
    [true] both names exist, and a second call returns [true] and
    changes nothing. *)
Theorem Initialize_twice_is_Initialize_once (dst : string) (fs0 : FileSys) :
  let r := Initialize P dst fs0 in
  fs_files r.2 = fs_files fs0
  ∧ fs_dirs fs0 ⊆ fs_dirs r.2
  ∧ fs_dirs r.2
    ⊆ fs_dirs fs0 ∪ {[ Win32.canon (parentPath dst); Win32.canon (storePath dst) ]}
  ∧ (r.1 = true →
       Win32.GetFileAttributesA (parentPath dst) r.2 ≠ Win32.INVALID_FILE_ATTRIBUTES
       ∧ Win32.GetFileAttributesA (storePath dst) r.2 ≠ Win32.INVALID_FILE_ATTRIBUTES
       ∧ Initialize P dst r.2 = (true, r.2)).
Proof.
  intros r. pose proof (Phase3Facts.Initialize_effect P dst fs0) as (Hf & Hd & Hu).
  split; [done|]. split; [done|]. split; [done|]. clear Hf Hd Hu.
  subst r. unfold Initialize. fold (parentPath dst).
  set (pp := parentPath dst). set (sp := storePath dst).
  assert (Hstep1 : ∃ ok fs1,
    match Win32.GetFileAttributesA pp fs0 with
    | Win32.INVALID_FILE_ATTRIBUTES =>
        match Win32.CreateDirectoryA P pp fs0 with
        | (Win32.ERROR_SUCCESS, fs') => (true, fs')
        | (Win32.ERROR_ALREADY_EXISTS, _) => (true, fs0)
        | _ => (false, fs0)
        end
    | _ => (true, fs0)
    end = (ok, fs1)
    ∧ (ok = true → Win32.GetFileAttributesA pp fs1 ≠ Win32.INVALID_FILE_ATTRIBUTES)).
  { destruct (Win32.GetFileAttributesA pp fs0) eqn:Ea; [|by eexists _, _; rewrite Ea..].
    destruct (Win32.CreateDirectoryA P pp fs0) as [e fs'] eqn:Ec.
    destruct e; eexists _, _; (split; [done|]); try done.
    - intros _. apply CreateDirectoryA_success in Ec as [_ ->].
      intros [Hnd _]%attributes_invalid. apply Hnd. simpl.
      apply elem_of_union_l. by apply elem_of_singleton.
    - pose proof (CreateDirectoryA_effect P pp fs0) as (_ & _ & _ & Ha).
      rewrite Ec in Ha. intros _. by apply Ha. }
  destruct Hstep1 as (ok1 & fs1 & -> & Hpp). destruct ok1; [|done]. simpl.
  specialize (Hpp eq_refl).
  assert (Hstep2 : ∀ fs fs2,
    (if Win32.is_directory (Win32.GetFileAttributesA sp fs) then (true, fs)
     else match Win32.CreateDirectoryA P sp fs with
          | (Win32.ERROR_SUCCESS, fs') => (true, fs')
          | (Win32.ERROR_ALREADY_EXISTS, _) => (true, fs)
          | _ => (false, fs)
          end) = (true, fs2) →
    fs_files fs2 = fs_files fs ∧ fs_dirs fs ⊆ fs_dirs fs2
    ∧ Win32.GetFileAttributesA sp fs2 ≠ Win32.INVALID_FILE_ATTRIBUTES
    ∧ (if Win32.is_directory (Win32.GetFileAttributesA sp fs2) then (true, fs2)
       else match Win32.CreateDirectoryA P sp fs2 with
            | (Win32.ERROR_SUCCESS, fs') => (true, fs')
            | (Win32.ERROR_ALREADY_EXISTS, _) => (true, fs2)
            | _ => (false, fs2)
            end) = (true, fs2)).
  { intros fs fs2 H.
    destruct (Win32.is_directory (Win32.GetFileAttributesA sp fs)) eqn:Ed.
    { injection H as <-. rewrite Ed. split_and!; try done.
      by destruct (Win32.GetFileAttributesA sp fs). }
    destruct (Win32.CreateDirectoryA P sp fs) as [e fs'] eqn:Ec.
    destruct e; try done; injection H as <-.
    - apply CreateDirectoryA_success in Ec as [_ ->]. simpl.
      assert (Hin : Win32.canon sp ∈ {[Win32.canon sp]} ∪ fs_dirs fs)
        by (apply elem_of_union_l; by apply elem_of_singleton).
      split; [done|]. split; [apply union_subseteq_r|].
      pose proof (proj2 (is_directory_elem sp
        (mkFS ({[Win32.canon sp]} ∪ fs_dirs fs) (fs_files fs))) Hin) as Hdir.
      rewrite Hdir. split; [|done].
      intros E. by rewrite E in Hdir.
    - rewrite Ed, Ec. split_and!; try done.
      pose proof (CreateDirectoryA_effect P sp fs) as (_ & _ & _ & Ha).
      rewrite Ec in Ha. by apply Ha. }
  intros H.
  match type of H with (?t).1 = true => destruct t as [ok2 fs2] eqn:E2 end.
  simpl in H. subst ok2. simpl.
  destruct (Hstep2 fs1 fs2 E2) as (Hf2 & Hd2 & Hsp & Hagain).
  pose proof (attributes_kept pp fs1 fs2 Hf2 Hd2 Hpp) as Hpp2.
  split; [done|]. split; [done|].
  destruct (Win32.GetFileAttributesA pp fs2) eqn:Ea; [done| |]; simpl; exact Hagain.
Qed.

End Engine.

End StoreFacts.

Module LoadFacts.
Import StrFacts MapFacts.

Lemma getlines_single l :
  Str.mem Str.newline l = false → l ≠ "" → Str.getlines l = [l].
Proof.
  induction l as [|a l IH]; [done|]. simpl.
  intros [Ha Hl]%orb_false_iff _. rewrite Ha.
  destruct l as [|b l]; [done|]. by rewrite IH.
Qed.

Lemma getlines_unterminated (ls : list string) (l : string) :
  Forall (λ l, Str.mem Str.newline l = false) ls →
  Str.mem Str.newline l = false → l ≠ "" →
  Str.getlines (Str.concat ((λ l, l +:+ String Str.newline "") <$> ls) +:+ l) = ls ++ [l].
Proof.
  intros Hls Hl Hne. induction Hls as [|x ls Hx Hls IH].
  - simpl. rewrite app_nil_l. by apply getlines_single.
  - rewrite fmap_cons. simpl Str.concat.
    rewrite !app_assoc, app_cons, app_nil_l, getlines_line by done.
    by rewrite IH.
Qed.

Lemma last_entry_wins {V} (l1 l2 : list (string * V)) k v :
  k ∉ l2.*1 →
  (list_to_map (reverse (l1 ++ (k, v) :: l2)) : gmap string V) !! k = Some v.
Proof.
  intros Hk. rewrite reverse_app, reverse_cons, <- (assoc_L (++)).
  rewrite list_to_map_app. apply lookup_union_Some_raw. right. split.
  - apply not_elem_of_list_to_map_1. by rewrite fmap_reverse, elem_of_reverse.
  - simpl. apply lookup_insert_eq.
Qed.

(** X13. [DeduplicationIndex::Load] reads the entries in file order and a
    later line for a path replaces an earlier one; a last line that
    lacks its newline is read all the same.  The map that was in
    memory is replaced when the file can be opened and kept when it
    cannot. *)
Theorem index_load_keeps_the_last_line (path : string)
    (entries : list (string * string)) (before : gmap string string) (fs : FileSys) :
  Forall Phase3.storable entries →
  (Win32.read_file path fs = Some (Str.concat (Phase3.save_line <$> entries)) →
     Phase3.Load path before fs = (true, list_to_map (reverse entries)))
  ∧ (∀ e, Phase3.storable e →
       Win32.read_file path fs
         = Some (Str.concat (Phase3.save_line <$> entries) +:+ Phase3.line_of e) →
       Phase3.Load path before fs = (true, list_to_map (reverse (entries ++ [e]))))
  ∧ (∀ l1 k v l2, entries = l1 ++ (k, v) :: l2 → k ∉ l2.*1 →
       (list_to_map (reverse entries) : gmap string string) !! k = Some v)
  ∧ (Win32.read_file path fs = None → Phase3.Load path before fs = (false, before)).
Proof.
  intros Hall.
  assert (Hlines : Forall (λ l, Str.mem Str.newline l = false) (Phase3.line_of <$> entries)).
  { apply Forall_fmap. eapply Forall_impl; [exact Hall|].
    intros e He. by apply Phase3Facts.index_line_fits. }
  assert (Htext : Phase3.save_line <$> entries
                  = (λ l, l +:+ String Str.newline "") <$> (Phase3.line_of <$> entries)).
  { rewrite <- list_fmap_compose. apply list_fmap_ext. intros i e _.
    apply Phase3Facts.index_save_line. }
  split; [|split; [|split]].
  - intros Hr. unfold Phase3.Load. rewrite Hr, Htext, getlines_concat by done.
    rewrite Phase3Facts.index_load_lines by done.
    by rewrite foldl_insert_list_to_map.
  - intros e He Hr. unfold Phase3.Load. rewrite Hr, Htext.
    destruct (Phase3Facts.index_line_fits e He) as [Hnl _].
    rewrite getlines_unterminated; [|done|done|by destruct e as [[|] ?]].
    change ((Phase3.line_of <$> entries) ++ [Phase3.line_of e])
      with ((Phase3.line_of <$> entries) ++ (Phase3.line_of <$> [e])).
    rewrite <- fmap_app, Phase3Facts.index_load_lines.
    + by rewrite foldl_insert_list_to_map.
    + apply Forall_app. split; [done|]. by apply Forall_singleton.
  - intros l1 k v l2 -> Hk. by apply last_entry_wins.
  - intros Hr. unfold Phase3.Load. by rewrite Hr.
Qed.

Lemma index_load_keeps_the_last_line_witness :
  let entries := [("a.txt", "11aa"); ("b.txt", "22bb"); ("a.txt", "33cc")] in
  let fs := mkFS {[ "D:" ]} {[ "D:\.dedup_index.txt" :=
              Str.concat (Phase3.save_line <$> entries) ]} in
  Forall Phase3.storable entries
  ∧ Phase3.Load "D:\.dedup_index.txt" ∅ fs = (true, list_to_map (reverse entries))
  ∧ (list_to_map (reverse entries) : gmap string string) !! "a.txt" = Some "33cc".
Proof.
  intros entries fs.
  assert (Hall : Forall Phase3.storable entries).
  { repeat constructor; vm_compute; reflexivity. }
  destruct (index_load_keeps_the_last_line "D:\.dedup_index.txt" entries ∅ fs Hall)
    as (H1 & _ & H3 & _).
  split; [exact Hall|]. split; [apply H1; reflexivity|].
  apply (H3 [("a.txt", "11aa"); ("b.txt", "22bb")] "a.txt" "33cc" []); [reflexivity|].
  apply not_elem_of_nil.
Defined.

(** X14. [ManifestManager::Load] reads the entries in file order and a
    later line for a path replaces an earlier one; a last line that
    lacks its newline is read all the same.  The manifest that was in
    memory is replaced when the file can be opened and kept when it
    cannot. *)
Theorem manifest_load_keeps_the_last_line (path : string)
    (entries : list (string * Phase2.FileMetadata))
    (before : gmap string Phase2.FileMetadata) (fs : FileSys) :
  Forall Phase2.storable entries →
  (Win32.read_file path fs = Some (Str.concat (Phase2.save_line <$> entries)) →
     Phase2.Load path before fs = Done (true, list_to_map (reverse entries)))
  ∧ (∀ e, Phase2.storable e →
       Win32.read_file path fs
         = Some (Str.concat (Phase2.save_line <$> entries) +:+ Phase2.line_of e) →
       Phase2.Load path before fs = Done (true, list_to_map (reverse (entries ++ [e]))))
  ∧ (∀ l1 k v l2, entries = l1 ++ (k, v) :: l2 → k ∉ l2.*1 →
       (list_to_map (reverse entries) : gmap string Phase2.FileMetadata) !! k = Some v)
  ∧ (Win32.read_file path fs = None → Phase2.Load path before fs = Done (false, before)).
Proof.
  intros Hall.
  assert (Hlines : Forall (λ l, Str.mem Str.newline l = false) (Phase2.line_of <$> entries)).
  { apply Forall_fmap. eapply Forall_impl; [exact Hall|].
    intros e He. by apply Phase2Facts.manifest_line_no_newline. }
  assert (Htext : Phase2.save_line <$> entries
                  = (λ l, l +:+ String Str.newline "") <$> (Phase2.line_of <$> entries)).
  { rewrite <- list_fmap_compose. apply list_fmap_ext. intros i e _.
    apply Phase2Facts.manifest_save_line. }
  split; [|split; [|split]].
  - intros Hr. unfold Phase2.Load. rewrite Hr, Htext, getlines_concat by done.
    rewrite Phase2Facts.manifest_load_lines by done. simpl.
    by rewrite foldl_insert_list_to_map.
  - intros e He Hr. unfold Phase2.Load. rewrite Hr, Htext.
    pose proof (Phase2Facts.manifest_line_no_newline e He) as Hnl.
    rewrite getlines_unterminated; [|done|done|by destruct e as [[|] ?]].
    change ((Phase2.line_of <$> entries) ++ [Phase2.line_of e])
      with ((Phase2.line_of <$> entries) ++ (Phase2.line_of <$> [e])).
    rewrite <- fmap_app, Phase2Facts.manifest_load_lines.
    + simpl. by rewrite foldl_insert_list_to_map.
    + apply Forall_app. split; [done|]. by apply Forall_singleton.
  - intros l1 k v l2 -> Hk. by apply last_entry_wins.
  - intros Hr. unfold Phase2.Load. by rewrite Hr.
Qed.

Lemma manifest_load_keeps_the_last_line_witness :
  let entries := [("a.txt", Phase2.mkMeta "11aa" 5 7); ("a.txt", Phase2.mkMeta "22bb" 6 8)] in
  let fs := mkFS {[ "D:" ]} {[ "D:\.backup_manifest.txt" :=
              Str.concat (Phase2.save_line <$> entries) ]} in
  Forall Phase2.storable entries
  ∧ Phase2.Load "D:\.backup_manifest.txt" ∅ fs = Done (true, list_to_map (reverse entries))
  ∧ (list_to_map (reverse entries) : gmap string Phase2.FileMetadata) !! "a.txt"
    = Some (Phase2.mkMeta "22bb" 6 8).
Proof.
  intros entries fs.
  assert (Hall : Forall Phase2.storable entries).
  { repeat constructor; try (vm_compute; congruence). }
  destruct (manifest_load_keeps_the_last_line "D:\.backup_manifest.txt" entries ∅ fs Hall)
    as (H1 & _ & H3 & _).
  split; [exact Hall|]. split; [apply H1; reflexivity|].
  apply (H3 [("a.txt", Phase2.mkMeta "11aa" 5 7)] "a.txt" (Phase2.mkMeta "22bb" 6 8) []);
    [reflexivity|].
  apply not_elem_of_nil.
Defined.

End LoadFacts.

Module DedupWalk.
Import Phase3 StrFacts PathFacts DirFacts TreeFacts StoreFacts.

Section Relation.
Context (P : Platform) (dst sourcePath : string).

(** A relation between the state before and after a step that every
    step of the walk respects is respected by the walk. *)
Context (R : St → St → Prop).
Hypothesis R_refl : ∀ st, R st st.
Hypothesis R_trans : ∀ st1 st2 st3, R st1 st2 → R st2 st3 → R st1 st3.
Hypothesis R_stats : ∀ f st, R st (with_stats f st).
Hypothesis R_file : ∀ sourceDir destDir fd bytes st,
  R st (backup_file P dst sourcePath sourceDir destDir fd bytes st).
Hypothesis R_mkdir : ∀ path st ok st',
  CreateDestDirectory P path st = Done (ok, st') → R st st'.

Lemma dedup_walk_respects entry listing :
  Forall (λ n, ∀ st st', entry n st = Done st' → R st st') listing →
  ∀ st st', walk entry listing st = Done st' → R st st'.
Proof.
  induction 1 as [|n listing Hn _ IH]; intros st st' H.
  - injection H as <-. apply R_refl.
  - rewrite Phase3Facts.walk_cons in H.
    destruct (entry n st) as [st1|c] eqn:E1; [|done]. simpl in H.
    eapply R_trans; [by apply Hn|by apply IH].
Qed.

Lemma dedup_BackupDirectory_with_respects entry listing destDir st result st' :
  Forall (λ n, ∀ st st', entry n st = Done st' → R st st') listing →
  BackupDirectory_with P entry listing destDir st = Done (result, st') → R st st'.
Proof.
  intros Hall H. unfold BackupDirectory_with in H.
  destruct listing as [|n listing]; [injection H as <- <-; apply R_stats|].
  destruct (CreateDestDirectory P destDir st) as [[ok st1]|c] eqn:E1; [|done].
  simpl in H. apply R_mkdir in E1. destruct ok.
  - destruct (walk _ (n :: listing) st1) as [st2|c] eqn:E2; [|done].
    injection H as <- <-. eapply R_trans; [done|]. by eapply dedup_walk_respects.
  - injection H as <- <-. eapply R_trans; [done|apply R_stats].
Qed.

Lemma dedup_backup_entry_respects n : ∀ sourceDir destDir st st',
  backup_entry P dst sourcePath sourceDir destDir n st = Done st' → R st st'.
Proof.
  induction n as [fd bytes|name listing IH] using node_induction;
    intros sourceDir destDir st st' H; simpl in H.
  - destruct (dot_entry (cFileName fd)); injection H as <-; [apply R_refl|apply R_file].
  - destruct (dot_entry name); [injection H as <-; apply R_refl|].
    match type of H with
    | context [BackupDirectory_with P ?e listing ?d ?s] =>
        destruct (BackupDirectory_with P e listing d s) as [[r st1]|c] eqn:E1
    end; [|done].
    injection H as <-. eapply R_trans; [apply R_stats|].
    eapply dedup_BackupDirectory_with_respects; [|exact E1].
    eapply Forall_impl; [exact IH|]. intros n Hn st2 st3. apply Hn.
Qed.

Lemma dedup_BackupDirectory_respects sourceDir destDir listing st result st' :
  BackupDirectory P dst sourcePath sourceDir destDir listing st = Done (result, st') →
  R st st'.
Proof.
  intros H. eapply dedup_BackupDirectory_with_respects; [|exact H].
  apply Forall_forall. intros n _ st1 st2. apply dedup_backup_entry_respects.
Qed.

End Relation.
End DedupWalk.

Module WrapperFacts.
Import DirFacts.

Section Engines.
Context (P : Platform).

(** The three engines wrap the same [CreateDestDirectory]. *)
Lemma dedup_CreateDestDirectory_shape path st ok st' :
  Phase3.CreateDestDirectory P path st = Done (ok, st') →
  Phase3.referenceCount st' = Phase3.referenceCount st
  ∧ Phase3.fileHashMap st' = Phase3.fileHashMap st
  ∧ fs_files (Phase3.fs st') = fs_files (Phase3.fs st)
  ∧ fs_dirs (Phase3.fs st) ⊆ fs_dirs (Phase3.fs st')
  ∧ (∀ p, p ∈ fs_dirs (Phase3.fs st') →
          p ∈ fs_dirs (Phase3.fs st) ∨ fs_files (Phase3.fs st) !! p = None).
Proof.
  unfold Phase3.CreateDestDirectory. intros H.
  destruct (CreateDestDirectory P (stack_limit P) path
              (Phase3.directoriesCreated (Phase3.stats st)) (Phase3.fs st))
    as [[[ok1 c1] fs1]|c] eqn:E; [|done].
  injection H as <- <-. simpl.
  apply CreateDestDirectory_effect in E as (Hf & Hd & _ & _ & _ & Hn). done.
Qed.

Lemma incremental_CreateDestDirectory_shape path st ok st' :
  Phase2.CreateDestDirectory P path st = Done (ok, st') →
  Phase2.manifest st' = Phase2.manifest st
  ∧ Phase2.incrementalMode st' = Phase2.incrementalMode st
  ∧ Phase2.hashed st' = Phase2.hashed st
  ∧ fs_files (Phase2.fs st') = fs_files (Phase2.fs st)
  ∧ fs_dirs (Phase2.fs st) ⊆ fs_dirs (Phase2.fs st')
  ∧ (∀ p, p ∈ fs_dirs (Phase2.fs st') →
          p ∈ fs_dirs (Phase2.fs st) ∨ fs_files (Phase2.fs st) !! p = None)
  ∧ Phase2.stats st'
    = Phase2.set_directoriesCreated (Phase2.directoriesCreated (Phase2.stats st'))
        (Phase2.stats st).
Proof.
  unfold Phase2.CreateDestDirectory. intros H.
  destruct (CreateDestDirectory P (stack_limit P) path
              (Phase2.directoriesCreated (Phase2.stats st)) (Phase2.fs st))
    as [[[ok1 c1] fs1]|c] eqn:E; [|done].
  injection H as <- <-. simpl.
  apply CreateDestDirectory_effect in E as (Hf & Hd & _ & _ & _ & Hn). done.
Qed.

Lemma plain_CreateDestDirectory_shape path st ok st' :
  Phase1.CreateDestDirectory P path st = Done (ok, st') →
  fs_files (Phase1.fs st') = fs_files (Phase1.fs st)
  ∧ fs_dirs (Phase1.fs st) ⊆ fs_dirs (Phase1.fs st')
  ∧ (∀ p, p ∈ fs_dirs (Phase1.fs st') →
          p ∈ fs_dirs (Phase1.fs st) ∨ fs_files (Phase1.fs st) !! p = None)
  ∧ Phase1.stats st'
    = Phase1.set_directoriesCreated (Phase1.directoriesCreated (Phase1.stats st'))
        (Phase1.stats st).
Proof.
  unfold Phase1.CreateDestDirectory. intros H.
  destruct (CreateDestDirectory P (stack_limit P) path
              (Phase1.directoriesCreated (Phase1.stats st)) (Phase1.fs st))
    as [[[ok1 c1] fs1]|c] eqn:E; [|done].
  injection H as <- <-. simpl.
  apply CreateDestDirectory_effect in E as (Hf & Hd & _ & _ & _ & Hn). done.
Qed.

End Engines.
End WrapperFacts.

Module DedupStepFacts.
Import Phase3 StrFacts PathFacts DirFacts TreeFacts StoreFacts DedupWalk WrapperFacts.

Lemma keeps_refl fs : keeps fs fs.
Proof. by split. Qed.

Lemma keeps_trans fs1 fs2 fs3 : keeps fs1 fs2 → keeps fs2 fs3 → keeps fs1 fs3.
Proof. intros [Hd1 Hf1] [Hd2 Hf2]. split; [by etrans|]. intros p b Hp. by apply Hf2, Hf1. Qed.

Lemma adds_blobs_only_trans dst fs1 fs2 fs3 :
  adds_blobs_only dst fs1 fs2 → adds_blobs_only dst fs2 fs3 →
  adds_blobs_only dst fs1 fs3.
Proof.
  intros H1 H2 p Hp Hs. destruct (fs_files fs2 !! p) eqn:E.
  - apply H1; [done|]. by rewrite E.
  - by apply H2.
Qed.

Lemma ContentExists_not_lost dst h fs fs' :
  (∀ p, is_Some (fs_files fs !! p) → is_Some (fs_files fs' !! p)) →
  (∀ p, p ∈ fs_dirs fs' → p ∈ fs_dirs fs ∨ fs_files fs !! p = None) →
  ContentExists dst h fs = true → ContentExists dst h fs' = true.
Proof.
  intros Hf Hd [Hnd Hb]%ContentExists_spec. apply ContentExists_spec. split.
  - intros Hin. destruct (Hd _ Hin) as [?|Hn]; [done|]. rewrite Hn in Hb. by destruct Hb.
  - by apply Hf.
Qed.

Lemma ContentExists_kept dst h fs fs' :
  (∀ p b, fs_files fs !! p = Some b → fs_files fs' !! p = Some b) →
  (∀ p, p ∈ fs_dirs fs' → p ∈ fs_dirs fs ∨ fs_files fs !! p = None) →
  ContentExists dst h fs = true → ContentExists dst h fs' = true.
Proof.
  intros Hf. apply ContentExists_not_lost. intros p [b Hb]. exists b. by apply Hf.
Qed.

Section Engine.
Context (P : Platform).

(** The three ways [backup_file] can leave the store, the index and the
    volume. *)
Lemma backup_file_shape dst sourcePath sourceDir destDir fd bytes st :
  let h := CalculateHash P bytes in
  let rel := GetRelativePath (sourceDir +:+ cFileName fd) sourcePath in
  let st' := backup_file P dst sourcePath sourceDir destDir fd bytes st in
  (referenceCount st' = referenceCount st ∧ fileHashMap st' = fileHashMap st ∧ fs st' = fs st)
  ∨ (ContentExists dst h (fs st) = true
     ∧ referenceCount st' = IncrementReference h (referenceCount st)
     ∧ fileHashMap st' = <[rel := h]> (fileHashMap st) ∧ fs st' = fs st)
  ∨ (∃ content, bytes = Some content
     ∧ (GetContentPath dst h ∉ fs_dirs (fs st))
     ∧ fs_files (fs st) !! GetContentPath dst h = None
     ∧ referenceCount st' = <[h := 1]> (referenceCount st)
     ∧ fileHashMap st' = <[rel := h]> (fileHashMap st)
     ∧ fs st' = mkFS (fs_dirs (fs st)) (<[GetContentPath dst h := content]> (fs_files (fs st)))).
Proof.
  intros h rel st'. subst st'.
  destruct (decide (h = "")) as [Hh|Hh].
  { left. by rewrite Phase3Facts.backup_file_hash_failed. }
  destruct (ContentExists dst h (fs st)) eqn:Hce.
  { right. left. by rewrite Phase3Facts.backup_file_deduped. }
  destruct (Win32.CopyFileA P bytes (sourceDir +:+ cFileName fd)
              (GetContentPath dst h) (fs st)) as [[|] fs'] eqn:Hcp.
  2:{ left. rewrite Phase3Facts.backup_file_store_failed; [done..|].
      fold h. by rewrite Hcp. }
  right. right. rewrite (Phase3Facts.backup_file_stored P _ _ _ _ _ _ _ fs') by done.
  unfold Win32.CopyFileA in Hcp. destruct bytes as [content|]; [|done].
  destruct (Win32.writable (GetContentPath dst h) (fs st)) eqn:Hw; [|done].
  destruct (copy_denied P _ _); [done|]. simpl in Hcp. injection Hcp as <-.
  rewrite canon_GetContentPath_any.
  apply andb_true_iff in Hw as [_ Hnd]. apply negb_true_iff in Hnd.
  assert (Hnotdir : GetContentPath dst h ∉ fs_dirs (fs st)).
  { intros Hd. rewrite <- (canon_GetContentPath_any dst h) in Hd.
    apply is_directory_elem in Hd. by rewrite Hd in Hnd. }
  exists content. split; [done|]. split; [done|]. split; [|done].
  destruct (fs_files (fs st) !! GetContentPath dst h) eqn:E; [|done].
  assert (ContentExists dst h (fs st) = true); [|congruence].
  apply ContentExists_spec. split; [done|]. by rewrite E.
Qed.

End Engine.
End DedupStepFacts.

Module DedupInvariantFacts.
Import Phase3 StrFacts PathFacts DirFacts TreeFacts StoreFacts DedupWalk WrapperFacts
       DedupStepFacts.

Lemma blobs_match_insert P dst fs h content :
  blobs_match_their_names P dst fs → CalculateHash P (Some content) = h →
  blobs_match_their_names P dst
    (mkFS (fs_dirs fs) (<[GetContentPath dst h := content]> (fs_files fs))).
Proof.
  intros Hm Hh h' b. simpl. destruct (decide (h' = h)) as [->|Hne].
  - rewrite lookup_insert_eq. by intros [= <-].
  - rewrite lookup_insert_ne; [apply Hm|]. intros E. by apply GetContentPath_inj in E.
Qed.

Section Engine.
Context (P : Platform) (dst : string).

(** What one step of a run and, with it, the whole walk respects:
    nothing on the volume is lost or changed, new files are blobs, new
    directories take no file's place, the index only grows, and the
    store stays consistent with it. *)
Lemma BackupDirectory_respects_the_store sourcePath sourceDir destDir listing st result st' :
  BackupDirectory P dst sourcePath sourceDir destDir listing st = Done (result, st') →
  keeps (fs st) (fs st')
  ∧ adds_blobs_only dst (fs st) (fs st')
  ∧ (∀ p, p ∈ fs_dirs (fs st') → p ∈ fs_dirs (fs st) ∨ fs_files (fs st) !! p = None)
  ∧ (∀ k, is_Some (fileHashMap st !! k) → is_Some (fileHashMap st' !! k))
  ∧ (index_has_blobs dst (fileHashMap st) (fs st) →
     index_has_blobs dst (fileHashMap st') (fs st'))
  ∧ (blobs_match_their_names P dst (fs st) → blobs_match_their_names P dst (fs st')).
Proof.
  apply (dedup_BackupDirectory_respects P dst sourcePath (λ st st',
    keeps (fs st) (fs st')
    ∧ adds_blobs_only dst (fs st) (fs st')
    ∧ (∀ p, p ∈ fs_dirs (fs st') → p ∈ fs_dirs (fs st) ∨ fs_files (fs st) !! p = None)
    ∧ (∀ k, is_Some (fileHashMap st !! k) → is_Some (fileHashMap st' !! k))
    ∧ (index_has_blobs dst (fileHashMap st) (fs st) →
       index_has_blobs dst (fileHashMap st') (fs st'))
    ∧ (blobs_match_their_names P dst (fs st) → blobs_match_their_names P dst (fs st')))).
  - (* reflexive *)
    intros s. split; [apply keeps_refl|]. split; [by intros p Hn [? Hs]; rewrite Hn in Hs|].
    split; [by left|]. done.
  - (* transitive *)
    intros s1 s2 s3 (K1 & A1 & D1 & M1 & I1 & B1) (K2 & A2 & D2 & M2 & I2 & B2).
    split; [by eapply keeps_trans|]. split; [by eapply adds_blobs_only_trans|].
    split; [|split; [|split]]; [|by intros k Hk; apply M2, M1|by intros; apply I2, I1
                                 |by intros; apply B2, B1].
    intros p Hp. destruct (D2 p Hp) as [Hp2|Hp2]; [by apply D1|]. right.
    destruct (fs_files (fs s1) !! p) eqn:E; [|done].
    apply K1 in E. congruence.
  - (* the counters *)
    intros f s. simpl. split; [apply keeps_refl|].
    split; [by intros p Hn [? Hs]; rewrite Hn in Hs|]. split; [by left|]. done.
  - (* a file *)
    intros sDir dDir fd bytes s.
    destruct (backup_file_shape P dst sourcePath sDir dDir fd bytes s)
      as [(Hr & Hi & Hf)|[(Hce & Hr & Hi & Hf)|(content & -> & Hnd & Hnf & Hr & Hi & Hf)]];
      rewrite Hi, Hf.
    + split; [apply keeps_refl|]. split; [by intros p Hn [? Hs]; rewrite Hn in Hs|].
      split; [by left|]. done.
    + split; [apply keeps_refl|]. split; [by intros p Hn [? Hs]; rewrite Hn in Hs|].
      split; [by left|]. split; [|split; [|done]].
      * intros k Hk. destruct (decide (k = GetRelativePath (sDir +:+ cFileName fd) sourcePath))
          as [->|Hne]; [by rewrite lookup_insert_eq|by rewrite lookup_insert_ne].
      * intros Hinv k h. destruct (decide (k = GetRelativePath (sDir +:+ cFileName fd) sourcePath))
          as [->|Hne].
        -- rewrite lookup_insert_eq. by intros [= <-].
        -- rewrite lookup_insert_ne by done. apply Hinv.
    + assert (Hkeep : ∀ p b, fs_files (fs s) !! p = Some b →
                <[GetContentPath dst (CalculateHash P (Some content)) := content]>
                  (fs_files (fs s)) !! p = Some b).
      { intros p b Hp. rewrite lookup_insert_ne; [done|]. intros <-. congruence. }
      split; [by split|]. split; [|split; [by left|split; [|split]]].
      * intros p Hn [b Hs]. simpl in Hs.
        destruct (decide (p = GetContentPath dst (CalculateHash P (Some content))))
          as [->|Hne]; [by eexists|].
        rewrite lookup_insert_ne in Hs by done. congruence.
      * intros k Hk. destruct (decide (k = GetRelativePath (sDir +:+ cFileName fd) sourcePath))
          as [->|Hne]; [by rewrite lookup_insert_eq|by rewrite lookup_insert_ne].
      * intros Hinv k h. destruct (decide (k = GetRelativePath (sDir +:+ cFileName fd) sourcePath))
          as [->|Hne].
        -- rewrite lookup_insert_eq. intros [= <-]. apply ContentExists_spec. simpl.
           split; [done|]. by rewrite lookup_insert_eq.
        -- rewrite lookup_insert_ne by done. intros Hk.
           eapply ContentExists_kept; [exact Hkeep|by left|by eapply Hinv].
      * intros Hm. by apply blobs_match_insert.
  - (* a directory *)
    intros path s ok s' H.
    apply dedup_CreateDestDirectory_shape in H as (Hr & Hi & Hf & Hd & Hn).
    rewrite Hi. split; [split; [done|by rewrite Hf]|].
    split; [by intros p Hnone [? Hs]; rewrite Hf, Hnone in Hs|]. split; [done|].
    split; [done|]. split.
    + intros Hinv k h Hk. eapply ContentExists_kept; [|exact Hn|by eapply Hinv].
      by rewrite Hf.
    + intros Hm h b. rewrite Hf. apply Hm.
Qed.

End Engine.
End DedupInvariantFacts.

Module DedupRunFacts.
Import Phase3 StrFacts PathFacts DirFacts TreeFacts StoreFacts DedupWalk WrapperFacts
       DedupStepFacts DedupInvariantFacts.

(** A step that adds directories where no file is, and nothing else. *)
Lemma grows_refl fs :
  fs_files fs = fs_files fs ∧ fs_dirs fs ⊆ fs_dirs fs
  ∧ ∀ p, p ∈ fs_dirs fs → p ∈ fs_dirs fs ∨ fs_files fs !! p = None.
Proof. split; [done|]. split; [done|]. by left. Qed.

Lemma CreateDirectoryA_grows P p0 fs e fs' :
  Win32.CreateDirectoryA P p0 fs = (e, fs') →
  fs_files fs' = fs_files fs ∧ fs_dirs fs ⊆ fs_dirs fs'
  ∧ ∀ p, p ∈ fs_dirs fs' → p ∈ fs_dirs fs ∨ fs_files fs !! p = None.
Proof.
  intros H. destruct e.
  - apply CreateDirectoryA_success in H as [[_ Hnf]%attributes_invalid ->]. simpl.
    split; [done|]. split; [apply union_subseteq_r|].
    intros p [->%elem_of_singleton|Hp]%elem_of_union; [by right|by left].
  - pose proof (CreateDirectoryA_effect P p0 fs) as (_ & _ & Hn & _).
    rewrite H in Hn. simpl in Hn. rewrite Hn by done. apply grows_refl.
  - pose proof (CreateDirectoryA_effect P p0 fs) as (_ & _ & Hn & _).
    rewrite H in Hn. simpl in Hn. rewrite Hn by done. apply grows_refl.
  - pose proof (CreateDirectoryA_effect P p0 fs) as (_ & _ & Hn & _).
    rewrite H in Hn. simpl in Hn. rewrite Hn by done. apply grows_refl.
Qed.

Section Engine.
Context (P : Platform).

Lemma Initialize_grows dst fs0 :
  fs_files (Initialize P dst fs0).2 = fs_files fs0
  ∧ fs_dirs fs0 ⊆ fs_dirs (Initialize P dst fs0).2
  ∧ ∀ p, p ∈ fs_dirs (Initialize P dst fs0).2 → p ∈ fs_dirs fs0 ∨ fs_files fs0 !! p = None.
Proof.
  unfold Initialize.
  set (pp := Str.substr _ _ _). set (sp := storePath dst).
  assert (H1 : ∃ ok fs1,
    match Win32.GetFileAttributesA pp fs0 with
    | Win32.INVALID_FILE_ATTRIBUTES =>
        match Win32.CreateDirectoryA P pp fs0 with
        | (Win32.ERROR_SUCCESS, fs') => (true, fs')
        | (Win32.ERROR_ALREADY_EXISTS, _) => (true, fs0)
        | _ => (false, fs0)
        end
    | _ => (true, fs0)
    end = (ok, fs1)
    ∧ fs_files fs1 = fs_files fs0 ∧ fs_dirs fs0 ⊆ fs_dirs fs1
    ∧ ∀ p, p ∈ fs_dirs fs1 → p ∈ fs_dirs fs0 ∨ fs_files fs0 !! p = None).
  { destruct (Win32.GetFileAttributesA pp fs0);
      [|eexists _, _; split; [done|apply grows_refl]..].
    destruct (Win32.CreateDirectoryA P pp fs0) as [e fs'] eqn:Ec.
    destruct e; eexists _, _; (split; [done|]); try apply grows_refl.
    by eapply CreateDirectoryA_grows. }
  destruct H1 as (ok1 & fs1 & -> & Hf1 & Hd1 & Hn1).
  destruct ok1; simpl; [|done].
  destruct (Win32.is_directory (Win32.GetFileAttributesA sp fs1)); [done|].
  destruct (Win32.CreateDirectoryA P sp fs1) as [e fs'] eqn:Ec.
  destruct e; simpl; try done.
  apply CreateDirectoryA_grows in Ec as (Hf2 & Hd2 & Hn2).
  split; [congruence|]. split; [by etrans|].
  intros p Hp. destruct (Hn2 p Hp) as [Hp1|Hp1]; [by apply Hn1|]. right. by rewrite <- Hf1.
Qed.

Lemma Load_same_files path before fs fs' :
  fs_files fs' = fs_files fs → Load path before fs' = Load path before fs.
Proof. intros Hf. unfold Load, Win32.read_file. by rewrite Hf. Qed.

Lemma Save_writes_the_index path fileHashMap fs ok fs' :
  Save P path fileHashMap fs = (ok, fs') →
  fs' = fs
  ∨ (Win32.canon path ∉ fs_dirs fs)
    ∧ fs' = mkFS (fs_dirs fs) (<[Win32.canon path := save_text fileHashMap]> (fs_files fs)).
Proof.
  unfold Save, Win32.write_file.
  destruct (Win32.writable path fs) eqn:Hw; simpl; [|intros [= _ <-]; by left].
  destruct (negb (open_denied P (Win32.canon path))); intros [= _ <-]; [|by left].
  right. split; [|done]. apply andb_true_iff in Hw as [_ Hnd]. apply negb_true_iff in Hnd.
  intros Hd. apply is_directory_elem in Hd. by rewrite Hd in Hnd.
Qed.

(** The state in which [StartBackup] begins the walk, and what it does
    after the walk. *)
Lemma StartBackup_stages src dst root fs0 result st :
  StartBackup P src dst root fs0 = Done (result, st) →
  let fs1 := (Initialize P dst fs0).2 in
  let loaded := (Load (indexPath dst) ∅ fs0).2 in
  (result = false ∧ fs st = fs1 ∧ (fileHashMap st = ∅ ∨ fileHashMap st = loaded))
  ∨ ∃ listing refs st1 ok,
      BackupDirectory P dst (NormalizePath src) (NormalizePath src) (NormalizePath dst)
        listing (mkSt no_stats refs loaded fs1) = Done (result, st1)
      ∧ Save P (indexPath dst) (fileHashMap st1) (fs st1) = (ok, fs st)
      ∧ fileHashMap st = fileHashMap st1.
Proof.
  intros H fs1 loaded. unfold StartBackup in H. simpl in H.
  pose proof (Initialize_grows dst fs0) as (Hf1 & _).
  destruct (Initialize P dst fs0) as [ok fs1'] eqn:Ei. simpl in Hf1. subst fs1. simpl.
  destruct ok; simpl in H; [|injection H as <- <-; left; by split; [|split; [|left]]].
  rewrite (Load_same_files _ _ fs0 fs1' Hf1) in H. subst loaded.
  destruct (Load (indexPath dst) ∅ fs0) as [hasIndex m] eqn:El. simpl in *.
  destruct root as [| |listing].
  - injection H as <- <-. left. destruct hasIndex; simpl; by split; [|split; [|right]].
  - injection H as <- <-. left. destruct hasIndex; simpl; by split; [|split; [|right]].
  - right.
    match type of H with
    | context [BackupDirectory P dst ?a ?b ?c listing ?s] =>
        destruct (BackupDirectory P dst a b c listing s) as [[r st1]|c0] eqn:Eb
    end; [|done].
    simpl in H.
    destruct (Save P (indexPath dst) (fileHashMap st1) (fs st1)) as [ok fs'] eqn:Es.
    injection H as <- <-. simpl.
    destruct hasIndex; simpl in Eb; eexists listing, _, st1, ok; by split.
Qed.

(** X15. The deduplicating engine writes nothing into the mirrored tree:
    when a run has ended, every directory that existed is still there,
    every file that existed still holds the bytes it held (the index
    file apart, which is rewritten), and every new file is the index or
    a blob inside the store. *)
Theorem dedup_run_writes_only_blobs_and_the_index (src dst : string)
    (root : source_root) (fs0 : FileSys) (result : bool) (st : St) :
  StartBackup P src dst root fs0 = Done (result, st) →
  fs_dirs fs0 ⊆ fs_dirs (fs st)
  ∧ (∀ p b, fs_files fs0 !! p = Some b → p ≠ Win32.canon (indexPath dst) →
            fs_files (fs st) !! p = Some b)
  ∧ (∀ p, fs_files fs0 !! p = None → is_Some (fs_files (fs st) !! p) →
          p = Win32.canon (indexPath dst) ∨ ∃ h, p = GetContentPath dst h).
Proof.
  intros H. pose proof (Initialize_grows dst fs0) as (Hf1 & Hd1 & _).
  destruct (StartBackup_stages src dst root fs0 result st H)
    as [(_ & -> & _)|(listing & refs & st1 & ok & Hb & Hs & _)].
  { split; [done|]. rewrite Hf1. split; [done|]. by intros p -> [? ?]. }
  apply BackupDirectory_respects_the_store in Hb as ([Hd Hk] & Ha & _). simpl in *.
  apply Save_writes_the_index in Hs as [->|[_ ->]]; simpl.
  - split; [by etrans|]. split.
    + intros p b Hp _. apply Hk. by rewrite Hf1.
    + intros p Hp Hsome. right. apply Ha; [by rewrite Hf1|done].
  - split; [by etrans|]. split.
    + intros p b Hp Hne. rewrite lookup_insert_ne by done. apply Hk. by rewrite Hf1.
    + intros p Hp Hsome.
      destruct (decide (p = Win32.canon (indexPath dst))) as [->|Hne]; [by left|].
      right. rewrite lookup_insert_ne in Hsome by done. apply Ha; [by rewrite Hf1|done].
Qed.

(** X16. A run keeps the store consistent with the index.  If every
    fingerprint of the index that is loaded has its blob, then when the
    run has ended every fingerprint of the index has its blob, and no
    path the loaded index knew has been dropped.  If every blob held
    bytes with the fingerprint it is named after, every blob still does. *)
Theorem dedup_run_keeps_the_store_consistent (src dst : string)
    (root : source_root) (fs0 : FileSys) (result : bool) (st : St) :
  StartBackup P src dst root fs0 = Done (result, st) →
  (index_has_blobs dst (Load (indexPath dst) ∅ fs0).2 fs0 →
     index_has_blobs dst (fileHashMap st) (fs st))
  ∧ (result = true →
     ∀ filepath, is_Some ((Load (indexPath dst) ∅ fs0).2 !! filepath) →
                 is_Some (fileHashMap st !! filepath))
  ∧ (blobs_match_their_names P dst fs0 → blobs_match_their_names P dst (fs st)).
Proof.
  intros H. pose proof (Initialize_grows dst fs0) as (Hf1 & Hd1 & Hn1).
  assert (Hinit : ∀ m, index_has_blobs dst m fs0 →
                       index_has_blobs dst m (Initialize P dst fs0).2).
  { intros m Hm k h Hk. eapply ContentExists_kept; [|exact Hn1|by eapply Hm].
    by rewrite Hf1. }
  destruct (StartBackup_stages src dst root fs0 result st H)
    as [(-> & -> & Hidx)|(listing & refs & st1 & ok & Hb & Hs & ->)].
  { split; [|split; [done|]].
    - intros Hm. destruct Hidx as [-> | ->]; [done|by apply Hinit].
    - intros Hm h b. rewrite Hf1. apply Hm. }
  apply BackupDirectory_respects_the_store in Hb as (_ & _ & _ & Hmono & Hi & Hbm).
  simpl in *.
  apply Save_writes_the_index in Hs as [->|[Hnd ->]]; simpl.
  - split; [by intros; apply Hi, Hinit|]. split; [by intros _|].
    intros Hm. apply Hbm. intros h b. rewrite Hf1. apply Hm.
  - split; [|split; [by intros _|]].
    + intros Hm k h Hk. eapply ContentExists_not_lost; [| |by eapply (Hi (Hinit _ Hm))].
      * intros p Hp. simpl.
        destruct (decide (p = Win32.canon (indexPath dst))) as [->|Hne].
        -- rewrite lookup_insert_eq. by eexists.
        -- by rewrite lookup_insert_ne.
      * by left.
    + intros Hm h b. simpl. rewrite lookup_insert_ne.
      * apply Hbm. intros h' b'. rewrite Hf1. apply Hm.
      * rewrite <- (canon_GetContentPath_any dst h). apply indexPath_not_blob_any.
Qed.

End Engine.

Lemma dedup_run_writes_only_blobs_and_the_index_witness :
  ∃ st,
    StartBackup quiet "C:\src" "D:\Backup" (RootDirectory two_hellos) empty_volume
    = Done (true, st)
    ∧ fs_dirs empty_volume ⊆ fs_dirs (fs st)
    ∧ (∀ p, fs_files empty_volume !! p = None → is_Some (fs_files (fs st) !! p) →
            p = Win32.canon (indexPath "D:\Backup")
            ∨ ∃ h, p = GetContentPath "D:\Backup" h).
Proof.
  assert (Hrun : match StartBackup quiet "C:\src" "D:\Backup"
                         (RootDirectory two_hellos) empty_volume with
                 | Done (true, _) => true
                 | _ => false
                 end = true) by (vm_compute; reflexivity).
  destruct (StartBackup quiet "C:\src" "D:\Backup" (RootDirectory two_hellos)
              empty_volume) as [[[|] st]|c] eqn:H; [|discriminate Hrun..].
  exists st. split; [reflexivity|].
  destruct (dedup_run_writes_only_blobs_and_the_index quiet "C:\src" "D:\Backup"
              (RootDirectory two_hellos) empty_volume true st H) as (H1 & _ & H3).
  split; [exact H1|exact H3].
Defined.

Lemma dedup_run_keeps_the_store_consistent_witness :
  ∃ st,
    StartBackup quiet "C:\src" "D:\Backup" (RootDirectory two_hellos) empty_volume
    = Done (true, st)
    ∧ index_has_blobs "D:\Backup" (Load (indexPath "D:\Backup") ∅ empty_volume).2
        empty_volume
    ∧ blobs_match_their_names quiet "D:\Backup" empty_volume
    ∧ index_has_blobs "D:\Backup" (fileHashMap st) (fs st)
    ∧ blobs_match_their_names quiet "D:\Backup" (fs st).
Proof.
  assert (Hrun : match StartBackup quiet "C:\src" "D:\Backup"
                         (RootDirectory two_hellos) empty_volume with
                 | Done (true, _) => true
                 | _ => false
                 end = true) by (vm_compute; reflexivity).
  destruct (StartBackup quiet "C:\src" "D:\Backup" (RootDirectory two_hellos)
              empty_volume) as [[[|] st]|c] eqn:H; [|discriminate Hrun..].
  exists st. split; [reflexivity|].
  assert (H1 : index_has_blobs "D:\Backup"
                 (Load (indexPath "D:\Backup") ∅ empty_volume).2 empty_volume)
    by (intros k h Hk; vm_compute in Hk; discriminate).
  assert (H2 : blobs_match_their_names quiet "D:\Backup" empty_volume)
    by (intros h b Hb; simpl in Hb; rewrite lookup_empty in Hb; discriminate).
  split; [exact H1|]. split; [exact H2|].
  destruct (dedup_run_keeps_the_store_consistent quiet "C:\src" "D:\Backup"
              (RootDirectory two_hellos) empty_volume true st H) as (A & _ & B).
  split; [exact (A H1)|exact (B H2)].
Defined.

End DedupRunFacts.

Module IncrementalWalk.
Import Phase2 TreeFacts.

Section Relation.
Context (P : Platform) (sourcePath : string).

Context (R : St → St → Prop).
Hypothesis R_refl : ∀ st, R st st.
Hypothesis R_trans : ∀ st1 st2 st3, R st1 st2 → R st2 st3 → R st1 st3.
Hypothesis R_processed : ∀ st, R st (with_stats inc_filesProcessed st).
Hypothesis R_error : ∀ st, R st (with_stats inc_errors st).
Hypothesis R_file : ∀ sourceDir destDir fd bytes st,
  R st (backup_file P sourcePath sourceDir destDir fd bytes st).
Hypothesis R_mkdir : ∀ path st ok st',
  CreateDestDirectory P path st = Done (ok, st') → R st st'.

Lemma incremental_walk_step entry n rest st :
  walk entry (n :: rest) st = (st' ← entry n st; walk entry rest st').
Proof. done. Qed.

Lemma incremental_walk_respects entry listing :
  Forall (λ n, ∀ st st', entry n st = Done st' → R st st') listing →
  ∀ st st', walk entry listing st = Done st' → R st st'.
Proof.
  induction 1 as [|n listing Hn _ IH]; intros st st' H.
  - injection H as <-. apply R_refl.
  - rewrite incremental_walk_step in H.
    destruct (entry n st) as [st1|c] eqn:E1; [|done]. simpl in H.
    eapply R_trans; [by apply Hn|by apply IH].
Qed.

Lemma incremental_BackupDirectory_with_respects entry listing destDir st result st' :
  Forall (λ n, ∀ st st', entry n st = Done st' → R st st') listing →
  BackupDirectory_with P entry listing destDir st = Done (result, st') → R st st'.
Proof.
  intros Hall H. unfold BackupDirectory_with in H.
  destruct listing as [|n listing]; [injection H as <- <-; apply R_error|].
  destruct (CreateDestDirectory P destDir st) as [[ok st1]|c] eqn:E1; [|done].
  simpl in H. apply R_mkdir in E1. destruct ok.
  - destruct (walk _ (n :: listing) st1) as [st2|c] eqn:E2; [|done].
    injection H as <- <-. eapply R_trans; [done|]. by eapply incremental_walk_respects.
  - injection H as <- <-. eapply R_trans; [done|apply R_error].
Qed.

Lemma incremental_backup_entry_respects n : ∀ sourceDir destDir st st',
  backup_entry P sourcePath sourceDir destDir n st = Done st' → R st st'.
Proof.
  induction n as [fd bytes|name listing IH] using node_induction;
    intros sourceDir destDir st st' H; simpl in H.
  - destruct (dot_entry (cFileName fd)); injection H as <-; [apply R_refl|apply R_file].
  - destruct (dot_entry name); [injection H as <-; apply R_refl|].
    match type of H with
    | context [BackupDirectory_with P ?e listing ?d ?s] =>
        destruct (BackupDirectory_with P e listing d s) as [[r st1]|c] eqn:E1
    end; [|done].
    injection H as <-. eapply R_trans; [apply R_processed|].
    eapply incremental_BackupDirectory_with_respects; [|exact E1].
    eapply Forall_impl; [exact IH|]. intros n Hn st2 st3. apply Hn.
Qed.

Lemma incremental_BackupDirectory_respects sourceDir destDir listing st result st' :
  BackupDirectory P sourcePath sourceDir destDir listing st = Done (result, st') →
  R st st'.
Proof.
  intros H. eapply incremental_BackupDirectory_with_respects; [|exact H].
  apply Forall_forall. intros n _ st1 st2. apply incremental_backup_entry_respects.
Qed.

End Relation.
End IncrementalWalk.

Module PlainWalk.
Import Phase1 TreeFacts.

Section Relation.
Context (P : Platform).

Context (R : St → St → Prop).
Hypothesis R_refl : ∀ st, R st st.
Hypothesis R_trans : ∀ st1 st2 st3, R st1 st2 → R st2 st3 → R st1 st3.
Hypothesis R_processed : ∀ st, R st (with_stats inc_filesProcessed st).
Hypothesis R_error : ∀ st, R st (with_stats inc_errors st).
Hypothesis R_file : ∀ sourceDir destDir fd bytes st,
  R st (backup_file P sourceDir destDir fd bytes st).
Hypothesis R_mkdir : ∀ path st ok st',
  CreateDestDirectory P path st = Done (ok, st') → R st st'.

Lemma plain_walk_step entry n rest st :
  walk entry (n :: rest) st = (st' ← entry n st; walk entry rest st').
Proof. done. Qed.

Lemma plain_walk_respects entry listing :
  Forall (λ n, ∀ st st', entry n st = Done st' → R st st') listing →
  ∀ st st', walk entry listing st = Done st' → R st st'.
Proof.
  induction 1 as [|n listing Hn _ IH]; intros st st' H.
  - injection H as <-. apply R_refl.
  - rewrite plain_walk_step in H.
    destruct (entry n st) as [st1|c] eqn:E1; [|done]. simpl in H.
    eapply R_trans; [by apply Hn|by apply IH].
Qed.

Lemma plain_BackupDirectory_with_respects entry listing destDir st result st' :
  Forall (λ n, ∀ st st', entry n st = Done st' → R st st') listing →
  BackupDirectory_with P entry listing destDir st = Done (result, st') → R st st'.
Proof.
  intros Hall H. unfold BackupDirectory_with in H.
  destruct listing as [|n listing]; [injection H as <- <-; apply R_error|].
  destruct (CreateDestDirectory P destDir st) as [[ok st1]|c] eqn:E1; [|done].
  simpl in H. apply R_mkdir in E1. destruct ok.
  - destruct (walk _ (n :: listing) st1) as [st2|c] eqn:E2; [|done].
    injection H as <- <-. eapply R_trans; [done|]. by eapply plain_walk_respects.
  - injection H as <- <-. eapply R_trans; [done|apply R_error].
Qed.

Lemma plain_backup_entry_respects n : ∀ sourceDir destDir st st',
  backup_entry P sourceDir destDir n st = Done st' → R st st'.
Proof.
  induction n as [fd bytes|name listing IH] using node_induction;
    intros sourceDir destDir st st' H; simpl in H.
  - destruct (dot_entry (cFileName fd)); injection H as <-; [apply R_refl|apply R_file].
  - destruct (dot_entry name); [injection H as <-; apply R_refl|].
    match type of H with
    | context [BackupDirectory_with P ?e listing ?d ?s] =>
        destruct (BackupDirectory_with P e listing d s) as [[r st1]|c] eqn:E1
    end; [|done].
    injection H as <-. eapply R_trans; [apply R_processed|].
    eapply plain_BackupDirectory_with_respects; [|exact E1].
    eapply Forall_impl; [exact IH|]. intros n Hn st2 st3. apply Hn.
Qed.

Lemma plain_BackupDirectory_respects sourceDir destDir listing st result st' :
  BackupDirectory P sourceDir destDir listing st = Done (result, st') →
  R st st'.
Proof.
  intros H. eapply plain_BackupDirectory_with_respects; [|exact H].
  apply Forall_forall. intros n _ st1 st2. apply plain_backup_entry_respects.
Qed.

End Relation.
End PlainWalk.

Module IncrementalStepFacts.
Import Phase2 StrFacts PathFacts DirFacts TreeFacts IncrementalWalk WrapperFacts.

Lemma loses_nothing_refl fs : loses_nothing fs fs.
Proof. by split. Qed.

Lemma loses_nothing_trans fs1 fs2 fs3 :
  loses_nothing fs1 fs2 → loses_nothing fs2 fs3 → loses_nothing fs1 fs3.
Proof. intros [Hd1 Hf1] [Hd2 Hf2]. split; [by etrans|]. intros p Hp. by apply Hf2, Hf1. Qed.

Lemma loses_nothing_insert fs p b :
  loses_nothing fs (mkFS (fs_dirs fs) (<[p := b]> (fs_files fs))).
Proof.
  split; [done|]. intros q Hq. simpl.
  destruct (decide (q = p)) as [->|Hne]; [by rewrite lookup_insert_eq|].
  by rewrite lookup_insert_ne.
Qed.

Lemma CopyFileA_shape P bytes src dst fs ok fs' :
  Win32.CopyFileA P bytes src dst fs = (ok, fs') →
  (ok = false ∧ fs' = fs)
  ∨ (ok = true ∧ ∃ content, bytes = Some content
     ∧ (Win32.canon dst ∉ fs_dirs fs)
     ∧ Win32.parent_exists dst fs = true
     ∧ copy_denied P src dst = false
     ∧ fs' = mkFS (fs_dirs fs) (<[Win32.canon dst := content]> (fs_files fs))).
Proof.
  unfold Win32.CopyFileA. destruct bytes as [content|]; [|intros [= <- <-]; by left].
  destruct (Win32.writable dst fs) eqn:Hw; simpl; [|intros [= <- <-]; by left].
  destruct (copy_denied P src dst) eqn:Hc; simpl; intros [= <- <-]; [by left|].
  right. split; [done|]. exists content. split; [done|].
  apply andb_true_iff in Hw as [Hp Hnd]. apply negb_true_iff in Hnd.
  split; [|done]. intros Hd. apply is_directory_elem in Hd. by rewrite Hd in Hnd.
Qed.

Section Engine.
Context (P : Platform).

(** In full mode [ShouldCopyFile] hashes the file and says "copy". *)
Lemma ShouldCopyFile_full sourceFile bytes relativePath fileSize fileTime st :
  incrementalMode st = false →
  ShouldCopyFile P sourceFile bytes relativePath fileSize fileTime st
  = (true, CalculateHash P bytes,
     mkSt (stats st) (manifest st) false (fs st) (sourceFile :: hashed st)).
Proof. intros Hm. unfold ShouldCopyFile, hash_file. by rewrite Hm. Qed.

(** The classification counters move in incremental mode only. *)
Lemma ShouldCopyFile_classifies sourceFile bytes relativePath fileSize fileTime st :
  let st' := (ShouldCopyFile P sourceFile bytes relativePath fileSize fileTime st).2 in
  filesProcessed (stats st') = filesProcessed (stats st)
  ∧ filesCopied (stats st') = filesCopied (stats st)
  ∧ directoriesCreated (stats st') = directoriesCreated (stats st)
  ∧ totalBytes (stats st') = totalBytes (stats st)
  ∧ bytesCopied (stats st') = bytesCopied (stats st)
  ∧ (incrementalMode st = false →
       filesNew (stats st') = filesNew (stats st)
       ∧ filesModified (stats st') = filesModified (stats st)
       ∧ filesSkipped (stats st') = filesSkipped (stats st)).
Proof.
  unfold ShouldCopyFile, HasFile, GetFileMetadata.
  destruct (incrementalMode st) eqn:Hmode; simpl; [|done].
  destruct (manifest st !! relativePath) as [old|] eqn:Hold.
  - rewrite bool_decide_eq_true_2 by eauto. simpl.
    destruct (negb _ || negb _); simpl; [|done].
    by destruct (negb (bool_decide (CalculateHash P bytes = hash old))).
  - rewrite bool_decide_eq_false_2 by (by intros [? [=]]). done.
Qed.

(** What [backup_file] may change. *)
Lemma incremental_backup_file_shape sourcePath sourceDir destDir fd bytes st :
  let rel := GetRelativePath (sourceDir +:+ cFileName fd) sourcePath in
  let st' := backup_file P sourcePath sourceDir destDir fd bytes st in
  incrementalMode st' = incrementalMode st
  ∧ (manifest st' = manifest st
     ∨ ∃ h, manifest st'
            = <[rel := mkMeta h (GetFileSize fd) (GetFileTime fd)]> (manifest st))
  ∧ (fs st' = fs st
     ∨ ∃ content, bytes = Some content
         ∧ (Win32.canon (destDir +:+ cFileName fd) ∉ fs_dirs (fs st))
         ∧ fs st' = mkFS (fs_dirs (fs st))
                      (<[Win32.canon (destDir +:+ cFileName fd) := content]>
                         (fs_files (fs st))))
  ∧ (incrementalMode st = false →
       filesNew (stats st') = filesNew (stats st)
       ∧ filesModified (stats st') = filesModified (stats st)
       ∧ filesSkipped (stats st') = filesSkipped (stats st)).
Proof.
  intros rel st'. subst st'. unfold backup_file. fold rel.
  set (st0 := with_stats (add_totalBytes (GetFileSize fd)) (with_stats inc_filesProcessed st)).
  pose proof (Phase2Facts.ShouldCopyFile_frame P (sourceDir +:+ cFileName fd) bytes rel
    (GetFileSize fd) (GetFileTime fd) st0) as (Hm & Hfs & Hmode & _).
  pose proof (ShouldCopyFile_classifies (sourceDir +:+ cFileName fd) bytes rel
    (GetFileSize fd) (GetFileTime fd) st0) as (_ & _ & _ & _ & _ & Hcls).
  destruct (ShouldCopyFile _ _ _ _ _ _ _) as [[copy h] st1]. simpl in *.
  destruct copy.
  - destruct (Win32.CopyFileA P bytes (sourceDir +:+ cFileName fd)
                (destDir +:+ cFileName fd) (fs st1)) as [ok fs'] eqn:Hc.
    apply CopyFileA_shape in Hc as [[-> ->]|(-> & content & -> & Hnd & _ & _ & ->)]; simpl.
    + rewrite Hmode, Hm, Hfs. split; [done|]. split; [by left|]. split; [by left|done].
    + rewrite Hmode, Hm, Hfs in *. split; [done|]. split; [right; by eexists|].
      split; [right; by eexists|done].
  - simpl. rewrite Hmode, Hm, Hfs. split; [done|]. split; [right; by eexists|].
    split; [by left|done].
Qed.

(** What the walk of a directory respects. *)
Lemma BackupDirectory_is_additive sourcePath sourceDir destDir listing st result st' :
  BackupDirectory P sourcePath sourceDir destDir listing st = Done (result, st') →
  loses_nothing (fs st) (fs st')
  ∧ (∀ k, is_Some (manifest st !! k) → is_Some (manifest st' !! k))
  ∧ incrementalMode st' = incrementalMode st
  ∧ (incrementalMode st = false →
       filesNew (stats st') = filesNew (stats st)
       ∧ filesModified (stats st') = filesModified (stats st)
       ∧ filesSkipped (stats st') = filesSkipped (stats st)).
Proof.
  apply (incremental_BackupDirectory_respects P sourcePath (λ st st',
    loses_nothing (fs st) (fs st')
    ∧ (∀ k, is_Some (manifest st !! k) → is_Some (manifest st' !! k))
    ∧ incrementalMode st' = incrementalMode st
    ∧ (incrementalMode st = false →
         filesNew (stats st') = filesNew (stats st)
         ∧ filesModified (stats st') = filesModified (stats st)
         ∧ filesSkipped (stats st') = filesSkipped (stats st)))).
  - intros s. split; [apply loses_nothing_refl|done].
  - intros s1 s2 s3 (L1 & M1 & I1 & C1) (L2 & M2 & I2 & C2).
    split; [by eapply loses_nothing_trans|]. split; [by intros k Hk; apply M2, M1|].
    split; [congruence|]. intros Hfull.
    destruct (C1 Hfull) as (? & ? & ?).
    destruct C2 as (? & ? & ?); [congruence|]. split_and!; congruence.
  - intros s. split; [apply loses_nothing_refl|done].
  - intros s. split; [apply loses_nothing_refl|done].
  - intros sDir dDir fd bytes s.
    destruct (incremental_backup_file_shape sourcePath sDir dDir fd bytes s)
      as (Hmode & Hman & Hfs & Hcls).
    split; [|split; [|done]].
    + destruct Hfs as [-> |(content & _ & _ & ->)];
        [apply loses_nothing_refl|apply loses_nothing_insert].
    + destruct Hman as [-> |[h ->]]; [done|]. intros k Hk.
      destruct (decide (k = GetRelativePath (sDir +:+ cFileName fd) sourcePath))
        as [->|Hne]; [by rewrite lookup_insert_eq|by rewrite lookup_insert_ne].
  - intros path s ok s' H.
    apply incremental_CreateDestDirectory_shape in H
      as (Hman & Hmode & _ & Hf & Hd & _ & Hstats).
    split; [split; [done|by rewrite Hf]|]. rewrite Hman, Hmode, Hstats. done.
Qed.

End Engine.
End IncrementalStepFacts.

Module PlainRunFacts.
Import Phase1 StrFacts PathFacts DirFacts TreeFacts PlainWalk WrapperFacts IncrementalStepFacts.

Section Engine.
Context (P : Platform).

Lemma plain_backup_file_shape sourceDir destDir fd bytes st :
  let st' := backup_file P sourceDir destDir fd bytes st in
  let counted := add_totalBytes (GetFileSize fd) (inc_filesProcessed (stats st)) in
  (stats st' = inc_errors counted ∧ fs st' = fs st
   ∧ (Win32.CopyFileA P bytes (sourceDir +:+ cFileName fd)
        (destDir +:+ cFileName fd) (fs st)).1 = false)
  ∨ (stats st' = inc_filesCopied counted
     ∧ ∃ content, bytes = Some content
         ∧ (Win32.canon (destDir +:+ cFileName fd) ∉ fs_dirs (fs st))
         ∧ Win32.parent_exists (destDir +:+ cFileName fd) (fs st) = true
         ∧ fs st' = mkFS (fs_dirs (fs st))
                      (<[Win32.canon (destDir +:+ cFileName fd) := content]>
                         (fs_files (fs st)))).
Proof.
  intros st' counted. subst st' counted. unfold backup_file, CopyFileWithProgress. simpl.
  destruct (Win32.CopyFileA P bytes (sourceDir +:+ cFileName fd)
              (destDir +:+ cFileName fd) (fs st)) as [ok fs'] eqn:Hc.
  apply CopyFileA_shape in Hc as [[-> ->]|(-> & content & -> & Hnd & Hp & _ & ->)]; simpl.
  - by left.
  - right. split; [done|]. by exists content.
Qed.

Lemma plain_BackupDirectory_is_additive sourceDir destDir listing st result st' :
  BackupDirectory P sourceDir destDir listing st = Done (result, st') →
  loses_nothing (fs st) (fs st').
Proof.
  apply (plain_BackupDirectory_respects P (λ st st', loses_nothing (fs st) (fs st'))).
  - intros s. apply loses_nothing_refl.
  - intros s1 s2 s3. apply loses_nothing_trans.
  - intros s. apply loses_nothing_refl.
  - intros s. apply loses_nothing_refl.
  - intros sDir dDir fd bytes s.
    destruct (plain_backup_file_shape sDir dDir fd bytes s)
      as [(_ & -> & _)|(_ & content & _ & _ & _ & ->)];
      [apply loses_nothing_refl|apply loses_nothing_insert].
  - intros path s ok s' H.
    apply plain_CreateDestDirectory_shape in H as (Hf & Hd & _).
    split; [done|by rewrite Hf].
Qed.

End Engine.
End PlainRunFacts.

Module AdditiveFacts.
Import StrFacts PathFacts DirFacts IncrementalStepFacts PlainRunFacts.

Section Engines.
Context (P : Platform).

Lemma manifest_Save_shape path manifest fs ok fs' :
  Phase2.Save P path manifest fs = (ok, fs') →
  fs' = fs
  ∨ fs' = mkFS (fs_dirs fs) (<[Win32.canon path := Phase2.save_text manifest]> (fs_files fs)).
Proof.
  unfold Phase2.Save, Win32.write_file.
  destruct (_ && _); intros [= _ <-]; [by right|by left].
Qed.

(** X17. The plain and the incremental engine only add: when a run has
    ended, every directory and every file path that existed on the
    destination volume still exists (a file may have been overwritten),
    and every path the previous manifest recorded is still recorded,
    whether or not the file is still in the source. *)
Theorem run_loses_nothing (src dst : string) (incremental : bool)
    (root : source_root) (fs0 : FileSys) :
  (∀ result st,
     Phase1.StartBackup P src dst root fs0 = Done (result, st) →
     loses_nothing fs0 (Phase1.fs st))
  ∧ (∀ result st,
     Phase2.StartBackup P src dst incremental root fs0 = Done (result, st) →
     loses_nothing fs0 (Phase2.fs st)
     ∧ ∀ previous,
         Phase2.Load (Phase2.manifestPath dst) ∅ fs0 = Done (true, previous) →
         ∀ filepath, is_Some (previous !! filepath) →
                     is_Some (Phase2.manifest st !! filepath)).
Proof.
  split.
  - intros result st H. unfold Phase1.StartBackup in H.
    destruct root as [| |listing]; [by injection H as <- <-; apply loses_nothing_refl..|].
    by apply plain_BackupDirectory_is_additive in H.
  - intros result st H. unfold Phase2.StartBackup in H. simpl in H.
    destruct (Phase2.Load (Phase2.manifestPath dst) ∅ fs0) as [[hasManifest m]|c] eqn:El;
      [|done].
    simpl in H.
    assert (Hprev : ∀ previous, Done (hasManifest, m) = Done (true, previous) →
              ∀ filepath, is_Some (previous !! filepath) → is_Some (m !! filepath)).
    { by intros previous [= -> ->]. }
    destruct root as [| |listing].
    + injection H as <- <-.
      split; [destruct (hasManifest && incremental); apply loses_nothing_refl|].
      destruct (hasManifest && incremental); exact Hprev.
    + injection H as <- <-.
      split; [destruct (hasManifest && incremental); apply loses_nothing_refl|].
      destruct (hasManifest && incremental); exact Hprev.
    + match type of H with
      | context [Phase2.BackupDirectory P ?a ?b ?c listing ?s] =>
          destruct (Phase2.BackupDirectory P a b c listing s) as [[r st1]|c0] eqn:Eb
      end; [|done].
      simpl in H.
      destruct (Phase2.Save P (Phase2.manifestPath dst) (Phase2.manifest st1)
                  (Phase2.fs st1)) as [ok fs'] eqn:Es.
      injection H as <- <-. simpl.
      apply BackupDirectory_is_additive in Eb as (Hl & Hm & _).
      apply manifest_Save_shape in Es.
      assert (Hfs : Phase2.fs (if hasManifest && incremental
                               then Phase2.with_manifest m (Phase2.mkSt Phase2.no_stats ∅ incremental fs0 [])
                               else Phase2.with_mode false
                                      (Phase2.with_manifest m
                                         (Phase2.mkSt Phase2.no_stats ∅ incremental fs0 [])))
                    = fs0) by by destruct (hasManifest && incremental).
      assert (Hman : Phase2.manifest (if hasManifest && incremental
                               then Phase2.with_manifest m (Phase2.mkSt Phase2.no_stats ∅ incremental fs0 [])
                               else Phase2.with_mode false
                                      (Phase2.with_manifest m
                                         (Phase2.mkSt Phase2.no_stats ∅ incremental fs0 [])))
                    = m) by by destruct (hasManifest && incremental).
      rewrite Hfs in Hl. rewrite Hman in Hm. split.
      * destruct Es as [-> | ->]; [done|].
        eapply loses_nothing_trans; [exact Hl|apply loses_nothing_insert].
      * intros previous Hp filepath Hk. apply Hm. by eapply Hprev.
Qed.

End Engines.
End AdditiveFacts.

Module IncrementalRunFacts.
Import Phase2 StrFacts PathFacts DirFacts IncrementalStepFacts.

Section Engine.
Context (P : Platform).


(** X19. A file that [backup_file] has recorded is skipped the next time,
    in incremental mode, as long as its size and its time stamp (in
    whole seconds) are the same: it is counted as skipped, nothing is
    copied, the file is not read, so not even a changed content is
    noticed, and the manifest entry stays as it is. *)
Theorem recorded_file_is_skipped_unread (sourcePath sourceDir destDir : string)
    (fd fd' : FindData) (bytes bytes' : option string) (st later : St) :
  let recorded := backup_file P sourcePath sourceDir destDir fd bytes st in
  let again := backup_file P sourcePath sourceDir destDir fd' bytes' later in
  (decision P sourcePath sourceDir fd bytes st).1.1 = false
  ∨ (Win32.CopyFileA P bytes (sourceDir +:+ cFileName fd)
       (destDir +:+ cFileName fd) (fs st)).1 = true →
  cFileName fd' = cFileName fd → GetFileSize fd' = GetFileSize fd →
  GetFileTime fd' = GetFileTime fd →
  manifest later = manifest recorded → incrementalMode later = true →
  fs again = fs later
  ∧ hashed again = hashed later
  ∧ manifest again = manifest later
  ∧ filesSkipped (stats again) = int32 (filesSkipped (stats later) + 1)
  ∧ filesCopied (stats again) = filesCopied (stats later)
  ∧ filesNew (stats again) = filesNew (stats later)
  ∧ filesModified (stats again) = filesModified (stats later)
  ∧ errors (stats again) = errors (stats later).
Proof.
  intros recorded again Hok Hname Hsize Htime Hman Hmode.
  set (rel := GetRelativePath (sourceDir +:+ cFileName fd) sourcePath).
  assert (Hrec : ∃ h, manifest recorded !! rel
                      = Some (mkMeta h (GetFileSize fd) (GetFileTime fd))).
  { subst recorded. unfold backup_file. fold rel. unfold decision, counted in Hok.
    fold rel in Hok.
    pose proof (Phase2Facts.ShouldCopyFile_frame P (sourceDir +:+ cFileName fd) bytes rel
      (GetFileSize fd) (GetFileTime fd)
      (with_stats (add_totalBytes (GetFileSize fd)) (with_stats inc_filesProcessed st)))
      as (_ & Hfs & _).
    destruct (ShouldCopyFile _ _ _ _ _ _ _) as [[copy h] st1]. simpl in *.
    destruct copy.
    - destruct Hok as [?|Hok]; [done|]. rewrite Hfs.
      destruct (Win32.CopyFileA _ _ _ _ _) as [[|] fs']; [|done]. simpl.
      exists h. apply lookup_insert_eq.
    - exists h. apply lookup_insert_eq. }
  destruct Hrec as [h Hrec]. rewrite <- Hman in Hrec.
  subst again. unfold backup_file. rewrite Hname, Hsize, Htime. fold rel.
  unfold ShouldCopyFile, HasFile, GetFileMetadata. simpl.
  rewrite Hmode, Hrec. simpl.
  rewrite bool_decide_eq_true_2 by eauto. simpl.
  rewrite !bool_decide_eq_true_2 by done. simpl.
  split; [done|]. split; [done|]. split; [|done].
  unfold UpdateFile. by apply insert_id.
Qed.

End Engine.


Lemma recorded_file_is_skipped_unread_witness :
  let st := mkSt no_stats ∅ true (mkFS {[ "D:"; "D:\Backup" ]} ∅) [] in
  let recorded := backup_file quiet "C:\src\" "C:\src\" "D:\Backup\" a_txt (Some "hello") st in
  let again := backup_file quiet "C:\src\" "C:\src\" "D:\Backup\" a_txt (Some "HELLO") recorded in
  filesCopied (stats recorded) = 1
  ∧ fs again = fs recorded
  ∧ hashed again = hashed recorded
  ∧ filesSkipped (stats again) = 1.
Proof.
  intros st recorded again.
  split; [vm_compute; reflexivity|].
  destruct (recorded_file_is_skipped_unread quiet "C:\src\" "C:\src\" "D:\Backup\"
              a_txt a_txt (Some "hello") (Some "HELLO") st recorded)
    as (H1 & H2 & _ & H4 & _).
  - right. vm_compute. reflexivity.
  - reflexivity.
  - reflexivity.
  - reflexivity.
  - reflexivity.
  - vm_compute. reflexivity.
  - split; [exact H1|]. split; [exact H2|].
    etrans; [exact H4|]. vm_compute. reflexivity.
Defined.

End IncrementalRunFacts.

Lemma int64_range z : LLONG_MIN ≤ int64 z ≤ LLONG_MAX.
Proof.
  unfold int64, wrap_signed, LLONG_MIN, LLONG_MAX.
  change (2 ^ (64 - 1)) with 9223372036854775808.
  change (2 ^ 64) with 18446744073709551616.
  pose proof (Z.mod_pos_bound (z + 9223372036854775808) 18446744073709551616). lia.
Qed.

Lemma int64_idem z : int64 (int64 z) = int64 z.
Proof. apply int64_small, int64_range. Qed.

Lemma int64_add_l a b : int64 (int64 a + b) = int64 (a + b).
Proof.
  unfold int64, wrap_signed.
  change (2 ^ (64 - 1)) with 9223372036854775808.
  change (2 ^ 64) with 18446744073709551616.
  replace ((a + 9223372036854775808) mod 18446744073709551616
           - 9223372036854775808 + b + 9223372036854775808)
    with ((a + 9223372036854775808) mod 18446744073709551616 + b) by lia.
  rewrite Zplus_mod_idemp_l. do 2 f_equal. lia.
Qed.

Module MirrorPaths.
Import Str Win32 StrFacts PathFacts DirFacts DirPathFacts LevelFacts TreeFacts StoreFacts.

Lemma elem_of_flat_map {A B} (f : A → list B) (l : list A) (y : B) :
  y ∈ flat_map f l ↔ ∃ x, x ∈ l ∧ y ∈ f x.
Proof.
  rewrite list_elem_of_In, in_flat_map. split; intros (x & Hx & Hy); exists x.
  - by rewrite !list_elem_of_In.
  - by rewrite <- !list_elem_of_In.
Qed.

Lemma readable_listing_Forall listing :
  foldr (λ n rest, readable n ∧ rest) True listing ↔ Forall readable listing.
Proof.
  induction listing as [|n listing IH]; simpl; [by split; [constructor|]|].
  rewrite Forall_cons, IH. done.
Qed.

Lemma first_component a : ∀ b c r c' r',
  no_sep a = true → no_sep b = true → is_sep c = true → is_sep c' = true →
  a +:+ String c r = b +:+ String c' r' → a = b.
Proof.
  induction a as [|x a IH]; intros [|y b] c r c' r' Ha Hb Hc Hc' H.
  - done.
  - rewrite app_nil_l, app_cons in H. injection H as -> _.
    cbn [no_sep] in Hb. apply andb_true_iff in Hb as [Hy _].
    apply negb_true_iff in Hy. congruence.
  - rewrite app_nil_l, app_cons in H. injection H as -> _.
    cbn [no_sep] in Ha. apply andb_true_iff in Ha as [Hx _].
    apply negb_true_iff in Hx. congruence.
  - rewrite !app_cons in H. injection H as -> H.
    cbn [no_sep] in Ha, Hb.
    apply andb_true_iff in Ha as [_ Ha]. apply andb_true_iff in Hb as [_ Hb].
    f_equal. exact (IH b c r c' r' Ha Hb Hc Hc' H).
Qed.

Lemma no_sep_with_sep a r : no_sep (a +:+ "\" +:+ r) = false.
Proof. rewrite no_sep_app. change ("\" +:+ r) with (String backslash r). simpl.
       by rewrite andb_false_r. Qed.

Lemma below_apart D a b p :
  component a → component b →
  at_or_below (child D a) p → at_or_below (child D b) p → a = b.
Proof.
  intros [Ha _] [Hb _] [->|[r ->]] [H|[r' H]]; unfold child in H.
  - apply String.app_inj in H. by apply String.app_inj in H.
  - rewrite !app_assoc in H. do 2 apply String.app_inj in H.
    rewrite H, no_sep_with_sep in Ha. done.
  - rewrite !app_assoc in H. do 2 apply String.app_inj in H.
    rewrite <- H, no_sep_with_sep in Hb. done.
  - rewrite !app_assoc in H. do 2 apply String.app_inj in H.
    change ("\" +:+ ?x) with (String backslash x) in H.
    exact (first_component a b backslash r backslash r' Ha Hb eq_refl eq_refl H).
Qed.

Lemma at_or_below_child X name p : at_or_below (child X name) p → at_or_below X p.
Proof.
  intros [->|[r ->]]; right; [by exists name|].
  exists (name +:+ "\" +:+ r). unfold child. by rewrite !app_assoc.
Qed.

Lemma below_is_longer X name p :
  at_or_below (child X name) p → (String.length X < String.length p)%nat.
Proof.
  intros [->|[r ->]]; unfold child; rewrite !length_app; simpl; lia.
Qed.

(** Every path of the mirror of an entry is the entry's own or lies
    below it. *)
Lemma mirrored_paths_below n : ∀ D p,
  readable n →
  p ∈ (mirrored_files D n).*1 ∨ p ∈ mirrored_dirs D n →
  dot_entry (entry_name n) = false ∧ component (entry_name n)
  ∧ at_or_below (child D (entry_name n)) p.
Proof.
  induction n as [fd bytes|name listing IH] using node_induction; intros D p Hr Hp.
  - simpl in *. destruct (dot_entry (cFileName fd)) eqn:Hdot.
    { destruct Hp as [Hp|Hp]; by apply elem_of_nil in Hp. }
    destruct Hr as [?|[Hc _]]; [done|]. split; [done|]. split; [done|].
    destruct Hp as [Hp|Hp]; [|by apply elem_of_nil in Hp].
    destruct bytes as [b|]; [|by apply elem_of_nil in Hp].
    simpl in Hp. apply list_elem_of_singleton in Hp as ->. by left.
  - simpl in *. destruct (dot_entry name) eqn:Hdot.
    { destruct Hp as [Hp|Hp]; by apply elem_of_nil in Hp. }
    destruct Hr as [?|(Hc & _ & _ & Hall)]; [done|]. split; [done|]. split; [done|].
    apply readable_listing_Forall in Hall.
    assert (Hsub : ∀ n, n ∈ listing →
              p ∈ (mirrored_files (child D name) n).*1 ∨ p ∈ mirrored_dirs (child D name) n →
              at_or_below (child D name) p).
    { intros n Hn Hpn.
      pose proof (proj1 (Forall_forall _ _) IH n Hn (child D name) p
                    (proj1 (Forall_forall _ _) Hall n Hn) Hpn) as (_ & _ & Hb).
      by eapply at_or_below_child. }
    destruct Hp as [Hp|Hp].
    + apply list_elem_of_fmap in Hp as ([q b] & -> & Hq).
      apply elem_of_flat_map in Hq as (n & Hn & Hq). apply (Hsub n Hn). left.
      apply list_elem_of_fmap. by exists (q, b).
    + apply elem_of_cons in Hp as [->|Hp]; [by left|].
      apply elem_of_flat_map in Hp as (n & Hn & Hq). apply (Hsub n Hn). by right.
Qed.

(** The mirrors of two entries of one directory share no path. *)
Lemma siblings_apart D n rest p :
  NoDup (walked_names (n :: rest)) → readable n → Forall readable rest →
  p ∈ (mirrored_files D n).*1 ∨ p ∈ mirrored_dirs D n →
  p ∈ (listing_files D rest).*1 ∨ p ∈ listing_dirs D rest → False.
Proof.
  intros Hnd Hn Hrest Hp Hq.
  destruct (mirrored_paths_below n D p Hn Hp) as (Hdot & Hc & Hb).
  assert (∃ n', n' ∈ rest ∧ (p ∈ (mirrored_files D n').*1 ∨ p ∈ mirrored_dirs D n'))
    as (n' & Hn' & Hp').
  { destruct Hq as [Hq|Hq].
    - apply list_elem_of_fmap in Hq as ([q b] & -> & Hq).
      apply elem_of_flat_map in Hq as (n' & Hn' & Hq). exists n'. split; [done|]. left.
      apply list_elem_of_fmap. by exists (q, b).
    - apply elem_of_flat_map in Hq as (n' & Hn' & Hq). exists n'. split; [done|]. by right. }
  destruct (mirrored_paths_below n' D p (proj1 (Forall_forall _ _) Hrest n' Hn') Hp')
    as (Hdot' & Hc' & Hb').
  pose proof (below_apart D _ _ p Hc Hc' Hb Hb') as Heq.
  unfold walked_names in Hnd. rewrite fmap_cons, filter_cons_True in Hnd by done.
  apply NoDup_cons in Hnd as [Hnotin _]. apply Hnotin.
  apply list_elem_of_filter. split; [by rewrite Heq|].
  rewrite Heq. apply list_elem_of_fmap. by exists n'.
Qed.

End MirrorPaths.

Module MirrorSteps.
Import Phase1 StrFacts PathFacts DirFacts DirPathFacts LevelFacts TreeFacts MirrorPaths.

Lemma copied_tidy files dirs entries bytes st st' :
  copied files dirs entries bytes st st' → tidy (stats st').
Proof.
  intros (_ & Hp & Hc & Hb & Hd & _). unfold tidy. rewrite Hp, Hc, Hb, Hd.
  by rewrite !int32_idem, int64_idem.
Qed.

Lemma copied_nothing st : tidy (stats st) → copied [] [] 0 0 st st.
Proof.
  intros (Hp & Hc & Hd & Hb). unfold copied. simpl.
  rewrite !Z.add_0_r, Nat.sub_diag, Hp, Hc, Hb. simpl. rewrite Z.add_0_r, Hd.
  split_and!; try done.
  - by rewrite (left_id_L ∅ (∪)).
  - intros p b Hin. by apply elem_of_nil in Hin.
Qed.

Lemma copied_then F1 D1 e1 b1 F2 D2 e2 b2 st st1 st2 :
  copied F1 D1 e1 b1 st st1 → copied F2 D2 e2 b2 st1 st2 →
  (∀ p, p ∈ F1.*1 → p ∉ F2.*1) →
  copied (F1 ++ F2) (D1 ++ D2) (e1 + e2) (b1 + b2) st st2.
Proof.
  intros (He1 & Hp1 & Hc1 & Hb1 & Hd1 & Hs1 & Hf1 & Hk1)
         (He2 & Hp2 & Hc2 & Hb2 & Hd2 & Hs2 & Hf2 & Hk2) Hapart.
  assert (Hle1 : (size (fs_dirs (fs st)) ≤ size (fs_dirs (fs st1)))%nat).
  { apply subseteq_size. rewrite Hs1. apply union_subseteq_r. }
  assert (Hle2 : (size (fs_dirs (fs st1)) ≤ size (fs_dirs (fs st2)))%nat).
  { apply subseteq_size. rewrite Hs2. apply union_subseteq_r. }
  unfold copied. split_and!.
  - congruence.
  - rewrite Hp2, Hp1, int32_add_l. f_equal. lia.
  - rewrite Hc2, Hc1, int32_add_l, List.length_app. f_equal. lia.
  - rewrite Hb2, Hb1, int64_add_l. f_equal. lia.
  - rewrite Hd2, Hd1, int32_add_l. f_equal. lia.
  - rewrite Hs2, Hs1, list_to_set_app_L.
    rewrite (assoc_L (∪)). f_equal. apply (comm_L (∪)).
  - intros p b [Hin|Hin]%elem_of_app; [|by apply Hf2].
    rewrite Hk2; [by apply Hf1|]. apply Hapart. apply list_elem_of_fmap. by exists (p, b).
  - intros p Hp. rewrite fmap_app in Hp.
    rewrite Hk2 by (intros Hin; apply Hp, elem_of_app; by right).
    rewrite Hk1 by (intros Hin; apply Hp, elem_of_app; by left). done.
Qed.

Lemma parent_child D name :
  component name → Win32.canon D = D → (Str.size D < npos)%N →
  Win32.parent (child D name) = Some D.
Proof.
  intros Hn HD Hsz. rewrite <- (app_nil_r (child D name)).
  apply parent_child_tail; auto.
Qed.

Section Engine.
Context (P : Platform).
Hypothesis copies_allowed : ∀ source dest, copy_denied P source dest = false.
Hypothesis stack_left : stack_limit P ≠ 0%nat.

(** A readable file is copied. *)
Lemma mirror_file sourceDir D fd content st :
  Win32.canon D = D → (Str.size D < npos)%N → component (cFileName fd) →
  tidy (stats st) → D ∈ fs_dirs (fs st) →
  (child D (cFileName fd) ∉ fs_dirs (fs st)) →
  copied [(child D (cFileName fd), content)] [] 1 (GetFileSize fd) st
    (backup_file P sourceDir (D +:+ "\") fd (Some content) st).
Proof.
  intros HD Hsz [Hn Hne] (Hp & Hc & Hd & Hb) Hin Hfree.
  assert (E : (D +:+ "\") +:+ cFileName fd = child D (cFileName fd))
    by (unfold child; by rewrite app_assoc).
  assert (Hcan : Win32.canon (child D (cFileName fd)) = child D (cFileName fd))
    by by apply canon_child.
  assert (Hcopy : Win32.CopyFileA P (Some content) (sourceDir +:+ cFileName fd)
                    (child D (cFileName fd)) (fs st)
                  = (true, mkFS (fs_dirs (fs st))
                             (<[child D (cFileName fd) := content]> (fs_files (fs st))))).
  { unfold Win32.CopyFileA, Win32.writable.
    rewrite (parent_exists_in D); [|by apply parent_child|done].
    assert (Win32.is_directory (Win32.GetFileAttributesA (child D (cFileName fd)) (fs st)) = false) as ->.
    { apply not_true_is_false. intros Hdir%is_directory_elem. by rewrite Hcan in Hdir. }
    by rewrite copies_allowed, Hcan. }
  unfold backup_file, CopyFileWithProgress. cbn [fs with_stats stats].
  rewrite E, Hcopy. simpl.
  unfold copied. simpl. rewrite Nat.sub_diag. simpl. rewrite Z.add_0_r, Hd.
  split_and!; try done.
  - by rewrite (left_id_L ∅ (∪)).
  - intros p b [= -> ->]%list_elem_of_singleton. apply lookup_insert_eq.
  - intros p Hp'. rewrite lookup_insert_ne; [done|]. intros <-. apply Hp'.
    by apply list_elem_of_singleton.
Qed.

(** A directory that is missing is created, one that exists is kept. *)
Lemma mirror_mkdir D name st :
  Win32.canon D = D → (Str.size D < npos)%N → component name →
  tidy (stats st) → D ∈ fs_dirs (fs st) →
  fs_files (fs st) !! child D name = None → mkdir_denied P (child D name) = false →
  ∃ st', CreateDestDirectory P (child D name +:+ "\") st = Done (true, st')
         ∧ copied [] [child D name] 0 0 st st'.
Proof.
  intros HD Hsz Hn (Hp & Hc & Hd & Hb) Hin Hnf Hmk.
  assert (Hcan : Win32.canon (child D name +:+ "\") = child D name)
    by (apply canon_child_tail; auto).
  unfold CreateDestDirectory.
  destruct (stack_limit P) as [|depth] eqn:Hdepth; [done|].
  destruct (decide (child D name ∈ fs_dirs (fs st))) as [Hex|Hnew].
  - rewrite CreateDestDirectory_existing by by rewrite Hcan. simpl.
    eexists. split; [done|]. unfold copied. simpl.
    rewrite !Z.add_0_r, Nat.sub_diag, Hp, Hc, Hb. simpl. rewrite Z.add_0_r, Hd.
    split_and!; try done.
    + rewrite (right_id_L ∅ (∪)). symmetry. apply subseteq_union_1_L.
      by apply singleton_subseteq_l.
    + intros p b Hin'. by apply elem_of_nil in Hin'.
  - rewrite CreateDestDirectory_parent_exists.
    + simpl. eexists. split; [done|]. unfold copied. simpl.
      rewrite !Z.add_0_r, Hp, Hc, Hb, Hcan.
      rewrite size_union by (by apply disjoint_singleton_l).
      rewrite size_singleton.
      replace (1 + size (fs_dirs (fs st)) - size (fs_dirs (fs st)))%nat with 1%nat by lia.
      split_and!; try done.
      * by rewrite (right_id_L ∅ (∪)).
      * intros p b Hin'. by apply elem_of_nil in Hin'.
    + apply attributes_invalid. by rewrite Hcan.
    + eapply parent_exists_in; [|done]. apply parent_child_tail; auto.
    + by rewrite Hcan.
Qed.

End Engine.
End MirrorSteps.

Module MirrorWalk.
Import Phase1 StrFacts PathFacts DirFacts DirPathFacts LevelFacts TreeFacts MirrorPaths
       MirrorSteps PlainWalk.

Lemma ready_for_app_l P F1 D1 F2 D2 fs :
  ready_for P (F1 ++ F2) (D1 ++ D2) fs → ready_for P F1 D1 fs.
Proof.
  intros [Hf Hd]. split.
  - intros p Hp. apply Hf. rewrite fmap_app. apply elem_of_app. by left.
  - intros d Hin. apply Hd, elem_of_app. by left.
Qed.

Section Engine.
Context (P : Platform).
Hypothesis copies_allowed : ∀ source dest, copy_denied P source dest = false.
Hypothesis stack_left : stack_limit P ≠ 0%nat.

(** The claim of the induction for one entry. *)
Lemma mirror_walk sourceDir D listing :
  Forall (λ n, ∀ sourceDir D st,
    Win32.canon D = D → (Str.size D < npos)%N → readable n →
    tidy (stats st) → D ∈ fs_dirs (fs st) →
    ready_for P (mirrored_files D n) (mirrored_dirs D n) (fs st) →
    (∀ d, d ∈ mirrored_dirs D n → (Str.size d < npos)%N) →
    ∃ st', backup_entry P sourceDir (D +:+ "\") n st = Done st'
           ∧ copied (mirrored_files D n) (mirrored_dirs D n)
               (entry_count n) (byte_count n) st st') listing →
  ∀ st,
    Win32.canon D = D → (Str.size D < npos)%N →
    NoDup (walked_names listing) → Forall readable listing →
    tidy (stats st) → D ∈ fs_dirs (fs st) →
    ready_for P (listing_files D listing) (listing_dirs D listing) (fs st) →
    (∀ d, d ∈ listing_dirs D listing → (Str.size d < npos)%N) →
    ∃ st', walk (backup_entry P sourceDir (D +:+ "\")) listing st = Done st'
           ∧ copied (listing_files D listing) (listing_dirs D listing)
               (listing_entries listing) (listing_bytes listing) st st'.
Proof.
  induction 1 as [|n rest Hn _ IH]; intros st HD Hsz Hnd Hr Htidy Hin Hready Hsizes.
  { exists st. split; [done|]. by apply copied_nothing. }
  apply Forall_cons in Hr as [Hrn Hrrest].
  unfold listing_files, listing_dirs in Hready, Hsizes. simpl in Hready, Hsizes.
  destruct (Hn sourceDir D st HD Hsz Hrn Htidy Hin) as (st1 & Hstep & Hcopied).
  { by eapply ready_for_app_l. }
  { intros d Hd. apply Hsizes, elem_of_app. by left. }
  pose proof Hcopied as (_ & _ & _ & _ & _ & Hdirs1 & _ & Hkeep1).
  assert (Hnd' : NoDup (walked_names rest)).
  { unfold walked_names in *. rewrite fmap_cons in Hnd.
    destruct (decide (dot_entry (entry_name n) = false)) as [Hdot|Hdot].
    - rewrite filter_cons_True in Hnd by done. by apply NoDup_cons in Hnd as [_ ?].
    - by rewrite filter_cons_False in Hnd. }
  destruct (IH st1) as (st2 & Hwalk & Hcopied2); try done.
  - by eapply copied_tidy.
  - rewrite Hdirs1. by apply elem_of_union_r.
  - destruct Hready as [Hf Hd]. split.
    + intros p Hp. rewrite Hdirs1. intros [Hp1|Hp0]%elem_of_union.
      * apply elem_of_list_to_set in Hp1.
        eapply (siblings_apart D n rest p); eauto.
      * revert Hp0. apply Hf. rewrite fmap_app. apply elem_of_app. by right.
    + intros d Hin'. destruct (Hd d) as [Hnone Hmk]; [apply elem_of_app; by right|].
      split; [|done]. rewrite Hkeep1; [done|]. intros Hd1.
      eapply (siblings_apart D n rest d); eauto.
  - intros d Hd. apply Hsizes, elem_of_app. by right.
  - exists st2. split.
    + rewrite plain_walk_step, Hstep. simpl. exact Hwalk.
    + unfold listing_files, listing_dirs, listing_entries, listing_bytes. simpl.
      eapply copied_then; [exact Hcopied|exact Hcopied2|].
      intros p Hp1 Hp2. eapply (siblings_apart D n rest p); eauto.
Qed.

Lemma mirror_entry n : ∀ sourceDir D st,
  Win32.canon D = D → (Str.size D < npos)%N → readable n →
  tidy (stats st) → D ∈ fs_dirs (fs st) →
  ready_for P (mirrored_files D n) (mirrored_dirs D n) (fs st) →
  (∀ d, d ∈ mirrored_dirs D n → (Str.size d < npos)%N) →
  ∃ st', backup_entry P sourceDir (D +:+ "\") n st = Done st'
         ∧ copied (mirrored_files D n) (mirrored_dirs D n)
             (entry_count n) (byte_count n) st st'.
Proof.
  induction n as [fd bytes|name listing IH] using node_induction;
    intros sourceDir D st HD Hsz Hr Htidy Hin Hready Hsizes.
  - simpl in *. destruct (dot_entry (cFileName fd)) eqn:Hdot.
    { exists st. split; [done|]. by apply copied_nothing. }
    destruct Hr as [?|[Hc [content ->]]]; [done|].
    eexists. split; [done|].
    apply mirror_file; try done.
    destruct Hready as [Hf _]. apply Hf. simpl. by apply list_elem_of_singleton.
  - simpl in Hr, Hready, Hsizes. simpl mirrored_files. simpl mirrored_dirs.
    simpl entry_count. simpl byte_count.
    destruct (dot_entry name) eqn:Hdot.
    { exists st. simpl. rewrite Hdot. split; [done|]. by apply copied_nothing. }
    destruct Hr as [?|(Hc & Hne & Hnd & Hall)]; [done|].
    apply readable_listing_Forall in Hall.
    set (D' := child D name) in *.
    set (st0 := with_stats inc_filesProcessed st).
    assert (Hcount : copied [] [] 1 0 st st0).
    { destruct Htidy as (Hp & Hc' & Hd & Hb). unfold copied. simpl.
      rewrite !Z.add_0_r, Nat.sub_diag, Hc', Hb. simpl. rewrite Z.add_0_r, Hd.
      split_and!; try done.
      - by rewrite (left_id_L ∅ (∪)).
      - intros p b Hin'. by apply elem_of_nil in Hin'. }
    destruct Hready as [Hf Hd].
    destruct (Hd D') as [HnoneD' HmkD']; [by apply elem_of_cons; left|].
    destruct (mirror_mkdir P stack_left D name st0) as (st1 & Hmk & Hmade); try done.
    { by eapply copied_tidy. }
    pose proof Hmade as (_ & _ & _ & _ & _ & Hdirs1 & _ & Hkeep1).
    simpl in Hdirs1. rewrite (right_id_L ∅ (∪)) in Hdirs1.
    assert (HcanD' : Win32.canon D' = D') by by apply canon_child.
    assert (HszD' : (Str.size D' < npos)%N) by by apply Hsizes, elem_of_cons; left.
    destruct (mirror_walk (sourceDir +:+ name +:+ "\") D' listing IH st1)
      as (st2 & Hwalk & Hcopied); try done.
    + by eapply copied_tidy.
    + rewrite Hdirs1. apply elem_of_union_l. by apply elem_of_singleton.
    + split.
      * intros p Hp. rewrite Hdirs1. intros [Hp1|Hp0]%elem_of_union.
        -- apply elem_of_singleton in Hp1 as ->.
           apply list_elem_of_fmap in Hp as ([q b] & Hq & Hqin). simpl in Hq. subst q.
           apply elem_of_flat_map in Hqin as (n' & Hn' & Hqin).
           destruct (mirrored_paths_below n' D' D'
                       (proj1 (Forall_forall _ _) Hall n' Hn')) as (_ & _ & Hb).
           { left. apply list_elem_of_fmap. by exists (D', b). }
           apply below_is_longer in Hb. lia.
        -- by apply (Hf p).
      * intros d Hin'. destruct (Hd d) as [Hnone Hmk']; [by apply elem_of_cons; right|].
        split; [|done]. rewrite Hkeep1; [done|]. simpl. apply not_elem_of_nil.
    + intros d Hd'. apply Hsizes, elem_of_cons. by right.
    + assert (E : (D +:+ "\") +:+ name = D') by (unfold D', child; by rewrite app_assoc).
      exists st2. split.
      * simpl. rewrite Hdot. rewrite E. fold st0.
        unfold BackupDirectory_with. destruct listing as [|n0 listing0]; [done|].
        fold D' in Hmk. rewrite Hmk. simpl.
        replace ((sourceDir +:+ name) +:+ "\") with (sourceDir +:+ name +:+ "\")
          by (by rewrite app_assoc).
        by rewrite Hwalk.
      * pose proof (copied_then _ _ _ _ _ _ _ _ _ _ _ Hcount Hmade
                      (λ p Hp, not_elem_of_nil p)) as H01.
        pose proof (copied_then _ _ _ _ _ _ _ _ _ _ _ H01 Hcopied
                      (λ p Hp _, not_elem_of_nil p Hp)) as H02.
        simpl in H02. exact H02.
Qed.

End Engine.
End MirrorWalk.

Module MirrorFacts.
Import Phase1 StrFacts PathFacts DirFacts DirPathFacts LevelFacts TreeFacts MirrorPaths
       MirrorSteps MirrorWalk.

Lemma canon_no_trailing_backslash D :
  Win32.canon D = D → Str.back D ≠ Some Str.backslash.
Proof.
  intros HD Hb. apply back_snoc in Hb as [base ->].
  rewrite canon_snoc_sep in HD by done.
  pose proof (length_canon base) as Hlen. rewrite HD, length_app in Hlen. simpl in Hlen. lia.
Qed.

Lemma NormalizePath_root dst D :
  Win32.canon D = D → D ≠ "" → dst = D ∨ dst = D +:+ "\" →
  NormalizePath dst = D +:+ "\".
Proof.
  intros HD Hne [-> | ->]; unfold NormalizePath.
  - assert (Str.empty D = false) as -> by by destruct D.
    rewrite bool_decide_eq_false_2; [done|]. by apply canon_no_trailing_backslash.
  - rewrite (HelperFacts.back_app_snoc D "\"%char).
    rewrite bool_decide_eq_true_2 by reflexivity. by rewrite andb_false_r.
Qed.

Lemma parent_exists_canon p q fs :
  Win32.canon p = Win32.canon q → Win32.parent_exists p fs = Win32.parent_exists q fs.
Proof. intros E. unfold Win32.parent_exists, Win32.parent. by rewrite E. Qed.

Section Engine.
Context (P : Platform).

(** X20. The plain engine mirrors a readable tree.  When every name of
    the source tree is one path component, no directory lists a name
    twice, every file can be read and every directory listed, no copy
    and no directory is refused, no directory of the destination
    stands where a file is to go and no file where a directory is to
    go, and the backup root exists or can be created in one step, then
    the run returns [true] without an error; every file of the tree is
    at its place below the root with the bytes of the source, every
    directory of the tree exists, no other file has changed and no
    other directory has appeared; and the counters hold the number of
    entries, of files, of bytes and of directories created. *)
Theorem plain_backup_mirrors_the_tree (src dst D : string) (listing : list node)
    (fs0 : FileSys) :
  Win32.canon D = D → D ≠ "" → dst = D ∨ dst = D +:+ "\" →
  listing ≠ [] → NoDup (walked_names listing) → Forall readable listing →
  (∀ source dest, copy_denied P source dest = false) →
  stack_limit P ≠ 0%nat →
  D ∈ fs_dirs fs0
  ∨ Win32.GetFileAttributesA D fs0 = Win32.INVALID_FILE_ATTRIBUTES
    ∧ Win32.parent_exists D fs0 = true ∧ mkdir_denied P D = false →
  ready_for P (listing_files D listing) (listing_dirs D listing) fs0 →
  (∀ d, d ∈ D :: listing_dirs D listing → (Str.size d < npos)%N) →
  ∃ st,
    StartBackup P src dst (RootDirectory listing) fs0 = Done (true, st)
    ∧ errors (stats st) = 0
    ∧ filesProcessed (stats st) = int32 (Z.of_nat (listing_entries listing))
    ∧ filesCopied (stats st) = int32 (Z.of_nat (length (listing_files D listing)))
    ∧ totalBytes (stats st) = int64 (listing_bytes listing)
    ∧ directoriesCreated (stats st)
      = int32 (Z.of_nat (size (fs_dirs (fs st)) - size (fs_dirs fs0)))
    ∧ fs_dirs (fs st) = list_to_set (D :: listing_dirs D listing) ∪ fs_dirs fs0
    ∧ (∀ p b, (p, b) ∈ listing_files D listing → fs_files (fs st) !! p = Some b)
    ∧ (∀ p, p ∉ (listing_files D listing).*1 →
            fs_files (fs st) !! p = fs_files fs0 !! p).
Proof.
  intros HD Hne Hdst Hlist Hnd Hr Hcopy Hstack Hroot [Hf Hd] Hsizes.
  set (st0 := mkSt no_stats fs0).
  assert (Htidy : tidy (stats st0)) by done.
  assert (HszD : (Str.size D < npos)%N) by (apply Hsizes; by left).
  assert (Hcan : Win32.canon (D +:+ "\") = D) by by rewrite canon_snoc_sep.
  (* the backup root *)
  assert (Hmk : ∃ st1, CreateDestDirectory P (D +:+ "\") st0 = Done (true, st1)
                       ∧ copied [] [D] 0 0 st0 st1).
  { unfold CreateDestDirectory. destruct (stack_limit P) as [|depth]; [done|].
    destruct Hroot as [Hex|(Hinv & Hpar & Hmkd)].
    - rewrite CreateDestDirectory_existing by by rewrite Hcan. simpl.
      eexists. split; [done|]. unfold copied. simpl.
      split_and!; try done.
      + by rewrite Nat.sub_diag.
      + rewrite (right_id_L ∅ (∪)). symmetry. apply subseteq_union_1_L.
        by apply singleton_subseteq_l.
      + intros p b Hin'. by apply elem_of_nil in Hin'.
    - rewrite CreateDestDirectory_parent_exists.
      + rewrite Hcan. simpl. eexists. split; [done|]. unfold copied. simpl.
        apply attributes_invalid in Hinv as [Hnd' _]. rewrite HD in Hnd'.
        rewrite size_union by (by apply disjoint_singleton_l).
        rewrite size_singleton.
        replace (1 + size (fs_dirs fs0) - size (fs_dirs fs0))%nat with 1%nat by lia.
        split_and!; try done.
        * by rewrite (right_id_L ∅ (∪)).
        * intros p b Hin'. by apply elem_of_nil in Hin'.
      + etrans; [|exact Hinv]. apply attributes_canon. by rewrite Hcan, HD.
      + etrans; [|exact Hpar]. apply parent_exists_canon. by rewrite Hcan, HD.
      + by rewrite Hcan. }
  destruct Hmk as (st1 & Hmk & Hmade).
  pose proof Hmade as (_ & _ & _ & _ & _ & Hdirs1 & _ & Hkeep1).
  simpl in Hdirs1. rewrite (right_id_L ∅ (∪)) in Hdirs1.
  (* the walk *)
  destruct (mirror_walk P (NormalizePath src) D listing) with (st := st1)
    as (st2 & Hwalk & Hcopied); try done.
  - apply Forall_forall. intros n _. by apply mirror_entry.
  - by eapply copied_tidy.
  - rewrite Hdirs1. apply elem_of_union_l. by apply elem_of_singleton.
  - split.
    + intros p Hp. rewrite Hdirs1. intros [Hp1|Hp0]%elem_of_union; [|by apply (Hf p)].
      apply elem_of_singleton in Hp1 as ->.
      apply list_elem_of_fmap in Hp as ([q b] & Hq & Hqin). simpl in Hq. subst q.
      apply elem_of_flat_map in Hqin as (n' & Hn' & Hqin).
      destruct (mirrored_paths_below n' D D (proj1 (Forall_forall _ _) Hr n' Hn'))
        as (_ & _ & Hb).
      { left. apply list_elem_of_fmap. by exists (D, b). }
      apply below_is_longer in Hb. lia.
    + intros d Hin'. destruct (Hd d Hin') as [Hnone Hmkd]. split; [|done].
      rewrite Hkeep1; [done|]. simpl. apply not_elem_of_nil.
  - intros d Hin'. apply Hsizes. by right.
  - pose proof (copied_then _ _ _ _ _ _ _ _ _ _ _ Hmade Hcopied
                  (λ p Hp _, not_elem_of_nil p Hp))
      as (He & Hp & Hc & Hb & Hdc & Hdirs & Hfiles & Hkeep).
    simpl in *. exists st2. split.
    + unfold StartBackup, BackupDirectory, BackupDirectory_with.
      rewrite (NormalizePath_root dst D) by done.
      destruct listing as [|n0 listing0]; [done|].
      fold st0. rewrite Hmk. simpl. by rewrite Hwalk.
    + split_and!; try done.
Qed.

End Engine.

Lemma plain_backup_mirrors_the_tree_witness :
  ∃ st,
    StartBackup quiet "C:\src" "D:\Backup" (RootDirectory nested_tree) empty_volume
    = Done (true, st)
    ∧ errors (stats st) = 0
    ∧ filesProcessed (stats st) = 3
    ∧ filesCopied (stats st) = 2
    ∧ totalBytes (stats st) = 12
    ∧ directoriesCreated (stats st) = 2
    ∧ fs_files (fs st) !! "D:\Backup\a.txt" = Some "hello"
    ∧ fs_files (fs st) !! "D:\Backup\docs\c.txt" = Some "goodbye".
Proof.
  destruct (plain_backup_mirrors_the_tree quiet "C:\src" "D:\Backup" "D:\Backup"
              nested_tree empty_volume)
    as (st & Hrun & He & Hp & Hc & Hb & Hd & Hdirs & Hfiles & _).
  - reflexivity.
  - discriminate.
  - by left.
  - discriminate.
  - apply (bool_decide_unpack _). vm_compute. exact I.
  - unfold nested_tree.
    apply Forall_cons; split; [by left|]. apply Forall_cons; split; [by left|].
    apply Forall_cons; split; [right; split; [by split|by eexists]|].
    apply Forall_cons; split; [|constructor].
    right. split; [by split|]. split; [discriminate|]. split.
    + apply (bool_decide_unpack _). vm_compute. exact I.
    + simpl. split; [by left|]. split; [by left|]. split; [|done].
      right. split; [by split|by eexists].
  - done.
  - done.
  - right. split; [vm_compute; reflexivity|]. split; [vm_compute; reflexivity|done].
  - split.
    + intros p Hp Hin. unfold empty_volume in Hin. simpl in Hin.
      apply elem_of_singleton in Hin. subst p.
      assert (E : (listing_files "D:\Backup" nested_tree).*1
                  = ["D:\Backup\a.txt"; "D:\Backup\docs\c.txt"]) by (vm_compute; reflexivity).
      rewrite E in Hp.
      repeat (apply elem_of_cons in Hp as [Hp|Hp]; [discriminate|]).
      by apply elem_of_nil in Hp.
    + intros d Hd. split; [apply lookup_empty|done].
  - intros d Hd.
    assert (E : "D:\Backup" :: listing_dirs "D:\Backup" nested_tree
                = ["D:\Backup"; "D:\Backup\docs"]) by (vm_compute; reflexivity).
    rewrite E in Hd.
    repeat (apply elem_of_cons in Hd as [->|Hd]; [vm_compute; reflexivity|]).
    by apply elem_of_nil in Hd.
  - exists st. split; [exact Hrun|]. split; [exact He|].
    split; [rewrite Hp; vm_compute; reflexivity|].
    split; [rewrite Hc; vm_compute; reflexivity|].
    split; [rewrite Hb; vm_compute; reflexivity|].
    split; [rewrite Hd, Hdirs; vm_compute; reflexivity|].
    assert (E : listing_files "D:\Backup" nested_tree
                = [("D:\Backup\a.txt", "hello"); ("D:\Backup\docs\c.txt", "goodbye")])
      by (vm_compute; reflexivity).
    rewrite E in Hfiles.
    split; apply Hfiles.
    + apply elem_of_cons. by left.
    + apply elem_of_cons. right. apply elem_of_cons. by left.
Defined.

End MirrorFacts.

Module CommandLineFacts.

Lemma scan_flags_spec flags : ∀ incremental,
  Phase2Main.scan_flags flags incremental
  = incremental && negb (existsb Phase2Main.full_flag flags).
Proof.
  induction flags as [|arg flags IH]; intros incremental; simpl.
  - by rewrite andb_true_r.
  - rewrite IH. destruct (Phase2Main.full_flag arg); simpl; [|done].
    by rewrite andb_false_r.
Qed.

Lemma empty_spec (s : string) : Str.empty s = true ↔ s = "".
Proof. by destruct s. Qed.

Lemma full_flag_among flags :
  existsb Phase2Main.full_flag flags = true ↔ "--full" ∈ flags ∨ "-f" ∈ flags.
Proof.
  induction flags as [|arg flags IH]; simpl.
  - split; [done|]. by intros [?%elem_of_nil|?%elem_of_nil].
  - rewrite orb_true_iff, IH. unfold Phase2Main.full_flag.
    rewrite orb_true_iff, !bool_decide_eq_true, !elem_of_cons. split.
    + intros [[->| ->]|[?|?]]; auto.
    + intros [[<-|?]|[<-|?]]; auto.
Qed.

(** X21. The command line of the three programs.  With two arguments or
    more, source and destination are the first two and standard input
    is not read; the plain and the deduplicating program ignore every
    further argument, the incremental one runs a full backup exactly
    when [--full] or [-f] is among them, wherever it stands.  With
    fewer than two arguments the arguments are ignored, the paths are
    the first two lines of standard input, and the incremental program
    runs incrementally exactly when the third line is [y], [Y] or
    [yes].  When a path is empty the program exits with 1 and leaves
    the volume alone; otherwise it runs the engine on the two paths and
    exits with 0 when [StartBackup] returns [true], with 1 when it
    returns [false], and dies when [StartBackup] does. *)
Theorem main_reads_two_paths (P : Platform) (argv cin : list string)
    (root : source_root) (fs0 : FileSys) :
  (∀ program source dest more,
     argv = program :: source :: dest :: more →
     read_paths argv cin = (source, dest, cin)
     ∧ (Phase2Main.read_mode argv cin = false ↔ "--full" ∈ more ∨ "-f" ∈ more))
  ∧ ((length argv < 3)%nat →
     read_paths argv cin = (nth 0 cin "", nth 1 cin "", drop 2 cin)
     ∧ (Phase2Main.read_mode argv cin = true
        ↔ nth 2 cin "" = "y" ∨ nth 2 cin "" = "Y" ∨ nth 2 cin "" = "yes"))
  ∧ (∀ source dest rest,
       read_paths argv cin = (source, dest, rest) →
       (source = "" ∨ dest = "" →
          Phase1Main.main P argv cin root fs0 = Done (1, fs0)
          ∧ Phase2Main.main P argv cin root fs0 = Done (1, fs0)
          ∧ Phase3Main.main P argv cin root fs0 = Done (1, fs0))
       ∧ (source ≠ "" → dest ≠ "" →
          Phase1Main.main P argv cin root fs0
            = match Phase1.StartBackup P source dest root fs0 with
              | Done (true, st) => Done (0, Phase1.fs st)
              | Done (false, st) => Done (1, Phase1.fs st)
              | Crash c => Crash c
              end
          ∧ Phase2Main.main P argv cin root fs0
            = match Phase2.StartBackup P source dest
                      (Phase2Main.read_mode argv cin) root fs0 with
              | Done (true, st) => Done (0, Phase2.fs st)
              | Done (false, st) => Done (1, Phase2.fs st)
              | Crash c => Crash c
              end
          ∧ Phase3Main.main P argv cin root fs0
            = match Phase3.StartBackup P source dest root fs0 with
              | Done (true, st) => Done (0, Phase3.fs st)
              | Done (false, st) => Done (1, Phase3.fs st)
              | Crash c => Crash c
              end)).
Proof.
  split; [|split].
  - intros program source dest more ->. split; [done|]. simpl.
    rewrite scan_flags_spec. simpl. rewrite negb_false_iff. apply full_flag_among.
  - intros Hlen.
    assert (E : read_paths argv cin = (nth 0 cin "", nth 1 cin "", drop 2 cin)
                ∧ Phase2Main.read_mode argv cin
                  = bool_decide (nth 2 cin "" = "y") || bool_decide (nth 2 cin "" = "Y")
                    || bool_decide (nth 2 cin "" = "yes")).
    { unfold Phase2Main.read_mode, read_paths.
      destruct argv as [|? [|? [|? ?]]]; simpl in Hlen; try lia;
        by destruct cin as [|? [|? [|? ?]]]. }
    destruct E as [E1 E2]. split; [done|].
    rewrite E2, !orb_true_iff, !bool_decide_eq_true. tauto.
  - intros source dest rest Hread.
    unfold Phase1Main.main, Phase2Main.main, Phase3Main.main. rewrite Hread. split.
    + intros Hempty.
      assert (Str.empty source || Str.empty dest = true) as ->; [|done].
      apply orb_true_iff. by destruct Hempty as [-> | ->]; [left|right].
    + intros Hs Hd.
      assert (Str.empty source || Str.empty dest = false) as ->.
      { apply orb_false_iff. split; apply not_true_is_false; by rewrite empty_spec. }
      split; [|split].
      * by destruct (Phase1.StartBackup P source dest root fs0) as [[[] st]|c].
      * by destruct (Phase2.StartBackup P source dest _ root fs0) as [[[] st]|c].
      * by destruct (Phase3.StartBackup P source dest root fs0) as [[[] st]|c].
Qed.

End CommandLineFacts.

Module RelativePaths.
Import StrFacts PathFacts TreeFacts MirrorPaths.

Lemma fst_flat_map {A B C} (f : A → list (B * C)) (l : list A) :
  (flat_map f l).*1 = flat_map (λ x, (f x).*1) l.
Proof. induction l as [|x l IH]; simpl; [done|]. by rewrite fmap_app, IH. Qed.

Lemma fmap_flat_map {A B C} (g : B → C) (f : A → list B) (l : list A) :
  g <$> flat_map f l = flat_map (λ x, g <$> f x) l.
Proof. induction l as [|x l IH]; simpl; [done|]. by rewrite fmap_app, IH. Qed.

Lemma flat_map_ext_Forall {A B} (f g : A → list B) (l : list A) :
  Forall (λ x, f x = g x) l → flat_map f l = flat_map g l.
Proof. induction 1 as [|x l E _ IH]; simpl; [done|]. by rewrite E, IH. Qed.

Lemma child_relative X prefix name :
  X +:+ "\" = String Str.backslash prefix →
  child X name = String Str.backslash (prefix +:+ name).
Proof. intros E. unfold child. by rewrite <- (app_assoc X "\" name), E. Qed.

(** The relative paths of an entry are the paths of its mirror below a
    directory [X], without the directory that [prefix] stands for. *)
Lemma mirrored_relative n : ∀ X prefix,
  X +:+ "\" = String Str.backslash prefix →
  (mirrored_files X n).*1 = String Str.backslash <$> (relative_files prefix n).*1.
Proof.
  induction n as [fd bytes|name listing IH] using node_induction; intros X prefix E.
  - simpl. destruct (dot_entry (cFileName fd)); [done|]. destruct bytes as [b|]; [|done].
    simpl. f_equal. by apply child_relative.
  - simpl. destruct (dot_entry name); [done|].
    rewrite !fst_flat_map, fmap_flat_map. apply flat_map_ext_Forall.
    eapply Forall_impl; [exact IH|]. intros n Hn. apply Hn.
    rewrite (child_relative X prefix name E).
    change (String Str.backslash (prefix +:+ name) +:+ "\")
      with (String Str.backslash ((prefix +:+ name) +:+ "\")).
    by rewrite app_assoc.
Qed.

Lemma listing_mirrored_relative X prefix listing :
  X +:+ "\" = String Str.backslash prefix →
  (listing_files X listing).*1 = String Str.backslash <$> (listing_relative prefix listing).*1.
Proof.
  intros E. unfold listing_files, listing_relative.
  rewrite !fst_flat_map, fmap_flat_map. apply flat_map_ext_Forall.
  apply Forall_forall. intros n _. by apply mirrored_relative.
Qed.

(** Two entries of one directory share no relative path. *)
Lemma relative_siblings_apart X prefix n rest rel :
  X +:+ "\" = String Str.backslash prefix →
  NoDup (walked_names (n :: rest)) → readable n → Forall readable rest →
  rel ∈ (relative_files prefix n).*1 → rel ∉ (listing_relative prefix rest).*1.
Proof.
  intros E Hnd Hn Hrest H1 H2.
  apply (siblings_apart X n rest (String Str.backslash rel) Hnd Hn Hrest); left.
  - rewrite (mirrored_relative n X prefix E). apply list_elem_of_fmap. by exists rel.
  - rewrite (listing_mirrored_relative X prefix rest E). apply list_elem_of_fmap. by exists rel.
Qed.

End RelativePaths.

Module IndexSteps.
Import Phase3 StrFacts PathFacts Phase3Facts DirFacts DirPathFacts LevelFacts TreeFacts
       StoreFacts MirrorPaths RelativePaths.

Lemma indexed_processed P dst files dirs entries st st' :
  indexed P dst files dirs entries st st' →
  int32 (filesProcessed (stats st')) = filesProcessed (stats st').
Proof. intros (_ & Hp & _). by rewrite Hp, int32_idem. Qed.

Lemma indexed_nothing P dst st :
  int32 (filesProcessed (stats st)) = filesProcessed (stats st) →
  indexed P dst [] [] 0 st st.
Proof.
  intros Hp. unfold indexed. simpl. rewrite !Z.add_0_r, Hp.
  split_and!; try done.
  - by rewrite (left_id_L ∅ (∪)).
  - intros p Hnone [b Hb]. congruence.
  - intros rel fd b Hin. by apply elem_of_nil in Hin.
Qed.

Lemma indexed_then P dst F1 D1 e1 F2 D2 e2 st st1 st2 :
  indexed P dst F1 D1 e1 st st1 → indexed P dst F2 D2 e2 st1 st2 →
  (∀ rel, rel ∈ F1.*1 → rel ∉ F2.*1) →
  (∀ h, GetContentPath dst h ∉ D2) →
  indexed P dst (F1 ++ F2) (D1 ++ D2) (e1 + e2) st st2.
Proof.
  intros (He1 & Hp1 & Hc1 & Hs1 & Hk1 & Hb1 & Hi1 & Ho1)
         (He2 & Hp2 & Hc2 & Hs2 & Hk2 & Hb2 & Hi2 & Ho2) Hapart Hblobs.
  unfold indexed. split_and!.
  - congruence.
  - rewrite Hp2, Hp1, int32_add_l. f_equal. lia.
  - rewrite Hc2, <- int32_add_l, Hc1, int32_add_l, List.length_app. f_equal. lia.
  - rewrite Hs2, Hs1, list_to_set_app_L.
    rewrite (assoc_L (∪)). f_equal. apply (comm_L (∪)).
  - intros p b Hb. by apply Hk2, Hk1.
  - intros p Hnone Hsome. destruct (fs_files (fs st1) !! p) as [b|] eqn:E.
    + apply Hb1; [done|]. by rewrite E.
    + by apply Hb2.
  - intros rel fd b [Hin|Hin]%elem_of_app; [|by eapply Hi2].
    destruct (Hi1 rel fd b Hin) as [Hidx Hblob]. split.
    + rewrite Ho2; [done|]. apply Hapart. apply list_elem_of_fmap. by exists (rel, (fd, b)).
    + apply ContentExists_spec in Hblob as [Hnd [c Hc]].
      apply ContentExists_spec. split.
      * rewrite Hs2. intros [Hin'|Hin']%elem_of_union; [|done].
        apply elem_of_list_to_set in Hin'. by apply (Hblobs _ Hin').
      * exists c. by apply Hk2.
  - intros rel Hrel. rewrite fmap_app in Hrel.
    rewrite Ho2 by (intros Hin; apply Hrel, elem_of_app; by right).
    rewrite Ho1 by (intros Hin; apply Hrel, elem_of_app; by left). done.
Qed.

Section Engine.
Context (P : Platform) (dst D : string).
Hypothesis copies_allowed : ∀ source dest, copy_denied P source dest = false.
Hypothesis stack_left : stack_limit P ≠ 0%nat.
Hypothesis root : rooted dst = D +:+ "\".
Hypothesis root_size : (Str.size D ≤ 300)%N.

(** A readable file is stored, or found in the store, and indexed. *)
Lemma index_file sourcePath prefix destDir fd content st :
  (Str.size (prefix +:+ cFileName fd) ≤ npos)%N →
  int32 (filesProcessed (stats st)) = filesProcessed (stats st) →
  storeDir D ∈ fs_dirs (fs st) →
  (∀ h, GetContentPath dst h ∉ fs_dirs (fs st)) →
  indexed P dst [(prefix +:+ cFileName fd, (fd, content))] [] 1 st
    (backup_file P dst sourcePath (sourcePath +:+ prefix) destDir fd (Some content) st).
Proof.
  intros Hsz Hp Hstore Hfree.
  set (h := CalculateHash P (Some content)).
  assert (Hh : h ≠ "") by apply CalculateHash_nonempty.
  assert (Hrel : GetRelativePath ((sourcePath +:+ prefix) +:+ cFileName fd) sourcePath
                 = prefix +:+ cFileName fd).
  { rewrite app_assoc. by apply GetRelativePath_child. }
  destruct (ContentExists dst h (fs st)) eqn:Hex.
  - rewrite backup_file_deduped by done. rewrite Hrel. fold h.
    unfold indexed. simpl. rewrite (left_id_L ∅ (∪)).
    split_and!; try done.
    + rewrite (Z.add_comm (filesCopied (stats st))), int32_add_l. f_equal. lia.
    + intros p Hnone [b Hb]. congruence.
    + intros rel fd' b [= -> -> ->]%list_elem_of_singleton. split; [|done].
      apply lookup_insert_eq.
    + intros rel Hne. apply lookup_insert_ne. intros <-. apply Hne.
      by apply list_elem_of_singleton.
  - assert (Hnone : fs_files (fs st) !! GetContentPath dst h = None).
    { destruct (fs_files (fs st) !! GetContentPath dst h) as [c|] eqn:E; [|done].
      assert (ContentExists dst h (fs st) = true); [|congruence].
      apply ContentExists_spec. split; [apply Hfree|]. by rewrite E. }
    assert (Hcopy : Win32.CopyFileA P (Some content) ((sourcePath +:+ prefix) +:+ cFileName fd)
                      (GetContentPath dst h) (fs st)
                    = (true, mkFS (fs_dirs (fs st))
                               (<[GetContentPath dst h := content]> (fs_files (fs st))))).
    { unfold Win32.CopyFileA, Win32.writable.
      rewrite (parent_exists_in (storeDir D));
        [|apply (parent_GetContentPath dst D); [done..|apply CalculateHash_no_sep]|done].
      assert (Win32.is_directory (Win32.GetFileAttributesA (GetContentPath dst h) (fs st))
              = false) as ->.
      { apply not_true_is_false. intros Hdir%is_directory_elem.
        rewrite canon_GetContentPath_any in Hdir. by apply (Hfree h). }
      by rewrite copies_allowed, canon_GetContentPath_any. }
    rewrite (backup_file_stored P dst sourcePath _ destDir fd (Some content) st _ Hh Hex Hcopy).
    rewrite Hrel. fold h.
    unfold indexed. simpl. rewrite (left_id_L ∅ (∪)).
    split_and!; try done.
    + rewrite int32_add_l. f_equal. lia.
    + intros p b Hb. rewrite lookup_insert_ne; [done|]. intros <-. congruence.
    + intros p Hp' Hsome. exists h.
      destruct (decide (p = GetContentPath dst h)) as [->|Hne]; [done|].
      rewrite lookup_insert_ne in Hsome by done. rewrite Hp' in Hsome.
      by destruct Hsome.
    + intros rel fd' b [= -> -> ->]%list_elem_of_singleton. split.
      * apply lookup_insert_eq.
      * apply ContentExists_spec. simpl. split; [apply Hfree|].
        rewrite lookup_insert_eq. by eexists.
    + intros rel Hne. apply lookup_insert_ne. intros <-. apply Hne.
      by apply list_elem_of_singleton.
Qed.

(** A directory that is missing is created, one that exists is kept. *)
Lemma index_mkdir X name st :
  Win32.canon X = X → (Str.size X < npos)%N → component name →
  int32 (filesProcessed (stats st)) = filesProcessed (stats st) →
  X ∈ fs_dirs (fs st) →
  fs_files (fs st) !! child X name = None → mkdir_denied P (child X name) = false →
  ∃ st', CreateDestDirectory P (child X name +:+ "\") st = Done (true, st')
         ∧ indexed P dst [] [child X name] 0 st st'.
Proof.
  intros HX Hsz Hn Hp Hin Hnf Hmk.
  assert (Hcan : Win32.canon (child X name +:+ "\") = child X name)
    by (apply canon_child_tail; auto).
  unfold CreateDestDirectory.
  destruct (stack_limit P) as [|depth] eqn:Hdepth; [done|].
  destruct (decide (child X name ∈ fs_dirs (fs st))) as [Hex|Hnew].
  - rewrite CreateDestDirectory_existing by by rewrite Hcan. simpl.
    eexists. split; [done|]. unfold indexed. simpl.
    rewrite !Z.add_0_r, Hp.
    split_and!; try done.
    + rewrite (right_id_L ∅ (∪)). symmetry. apply subseteq_union_1_L.
      by apply singleton_subseteq_l.
    + intros p Hnone [b Hb]. congruence.
    + intros rel fd b Hin'. by apply elem_of_nil in Hin'.
  - rewrite CreateDestDirectory_parent_exists.
    + simpl. eexists. split; [done|]. unfold indexed. simpl.
      rewrite !Z.add_0_r, Hp, Hcan.
      split_and!; try done.
      * by rewrite (right_id_L ∅ (∪)).
      * intros p Hnone [b Hb]. congruence.
      * intros rel fd b Hin'. by apply elem_of_nil in Hin'.
    + apply attributes_invalid. by rewrite Hcan.
    + eapply parent_exists_in; [|done]. apply parent_child_tail; auto.
    + by rewrite Hcan.
Qed.

End Engine.
End IndexSteps.

Module IndexWalk.
Import Phase3 StrFacts PathFacts Phase3Facts DirFacts DirPathFacts LevelFacts TreeFacts
       StoreFacts MirrorPaths RelativePaths IndexSteps.

(** What has been indexed leaves the volume ready for the rest. *)
Lemma store_ready_after P dst F D1 D2 e st st1 :
  indexed P dst F D1 e st st1 →
  store_ready P dst (D1 ++ D2) (fs st) → store_ready P dst D2 (fs st1).
Proof.
  intros (_ & _ & _ & Hs & _ & Hb & _) [Hblobs Hdirs]. split.
  - intros h. destruct (Hblobs h) as [Hnd Hnl]. split.
    + rewrite Hs. intros [Hin|Hin]%elem_of_union; [|done].
      apply elem_of_list_to_set in Hin. apply Hnl, elem_of_app. by left.
    + intros Hin. apply Hnl, elem_of_app. by right.
  - intros d Hd. destruct (Hdirs d) as [Hnone Hmk]; [apply elem_of_app; by right|].
    split; [|done].
    destruct (fs_files (fs st1) !! d) as [b|] eqn:E; [|done].
    destruct (Hb d Hnone) as [h ->]; [by rewrite E|].
    destruct (Hblobs h) as [_ Hnl]. exfalso. apply Hnl, elem_of_app. by right.
Qed.

Lemma store_ready_app_l P dst D1 D2 fs :
  store_ready P dst (D1 ++ D2) fs → store_ready P dst D1 fs.
Proof.
  intros [Hblobs Hdirs]. split.
  - intros h. destruct (Hblobs h) as [Hnd Hnl]. split; [done|].
    intros Hin. apply Hnl, elem_of_app. by left.
  - intros d Hd. apply Hdirs, elem_of_app. by left.
Qed.

Lemma indexed_store P dst F D1 e st st1 d :
  indexed P dst F D1 e st st1 → d ∈ fs_dirs (fs st) → d ∈ fs_dirs (fs st1).
Proof. intros (_ & _ & _ & Hs & _) Hd. rewrite Hs. by apply elem_of_union_r. Qed.

Section Engine.
Context (P : Platform) (dst D sourcePath : string).
Hypothesis copies_allowed : ∀ source dest, copy_denied P source dest = false.
Hypothesis stack_left : stack_limit P ≠ 0%nat.
Hypothesis root : rooted dst = D +:+ "\".
Hypothesis root_size : (Str.size D ≤ 300)%N.

(** The entries of a listing, given the claim for each of them. *)
Lemma index_walk G prefix X listing :
  Forall (λ n, ∀ G prefix X st,
    G +:+ "\" = String Str.backslash prefix →
    Win32.canon X = X → (Str.size X < npos)%N → readable n →
    int32 (filesProcessed (stats st)) = filesProcessed (stats st) →
    X ∈ fs_dirs (fs st) → storeDir D ∈ fs_dirs (fs st) →
    store_ready P dst (mirrored_dirs X n) (fs st) →
    (∀ d, d ∈ mirrored_dirs X n → (Str.size d < npos)%N) →
    (∀ rel, rel ∈ (relative_files prefix n).*1 → (Str.size rel ≤ npos)%N) →
    ∃ st', backup_entry P dst sourcePath (sourcePath +:+ prefix) (X +:+ "\") n st = Done st'
           ∧ indexed P dst (relative_files prefix n) (mirrored_dirs X n)
               (entry_count n) st st') listing →
  ∀ st,
    G +:+ "\" = String Str.backslash prefix →
    Win32.canon X = X → (Str.size X < npos)%N →
    NoDup (walked_names listing) → Forall readable listing →
    int32 (filesProcessed (stats st)) = filesProcessed (stats st) →
    X ∈ fs_dirs (fs st) → storeDir D ∈ fs_dirs (fs st) →
    store_ready P dst (listing_dirs X listing) (fs st) →
    (∀ d, d ∈ listing_dirs X listing → (Str.size d < npos)%N) →
    (∀ rel, rel ∈ (listing_relative prefix listing).*1 → (Str.size rel ≤ npos)%N) →
    ∃ st', walk (backup_entry P dst sourcePath (sourcePath +:+ prefix) (X +:+ "\")) listing st
           = Done st'
           ∧ indexed P dst (listing_relative prefix listing) (listing_dirs X listing)
               (listing_entries listing) st st'.
Proof.
  induction 1 as [|n rest Hn _ IH];
    intros st HG HX Hsz Hnd Hr Htidy Hin Hstore Hready Hsizes Hrels.
  { exists st. split; [done|]. by apply indexed_nothing. }
  apply Forall_cons in Hr as [Hrn Hrrest].
  unfold listing_dirs, listing_relative in Hready, Hsizes, Hrels.
  simpl in Hready, Hsizes, Hrels.
  destruct (Hn G prefix X st HG HX Hsz Hrn Htidy Hin Hstore) as (st1 & Hstep & Hdone).
  { by eapply store_ready_app_l. }
  { intros d Hd. apply Hsizes, elem_of_app. by left. }
  { intros rel Hrel. apply Hrels. rewrite fmap_app. apply elem_of_app. by left. }
  assert (Hnd' : NoDup (walked_names rest)).
  { unfold walked_names in *. rewrite fmap_cons in Hnd.
    destruct (decide (dot_entry (entry_name n) = false)) as [Hdot|Hdot].
    - rewrite filter_cons_True in Hnd by done. by apply NoDup_cons in Hnd as [_ ?].
    - by rewrite filter_cons_False in Hnd. }
  destruct (IH st1) as (st2 & Hwalk & Hdone2); try done.
  - by eapply indexed_processed.
  - by eapply indexed_store.
  - by eapply indexed_store.
  - by eapply store_ready_after.
  - intros d Hd. apply Hsizes, elem_of_app. by right.
  - intros rel Hrel. apply Hrels. rewrite fmap_app. apply elem_of_app. by right.
  - exists st2. split.
    + rewrite walk_cons, Hstep. simpl. exact Hwalk.
    + unfold listing_relative, listing_dirs, listing_entries. simpl.
      eapply indexed_then; [exact Hdone|exact Hdone2| |].
      * intros rel Hrel. by eapply relative_siblings_apart.
      * intros h Hh. destruct Hready as [Hblobs _]. destruct (Hblobs h) as [_ Hnl].
        apply Hnl, elem_of_app. by right.
Qed.

Lemma index_entry n : ∀ G prefix X st,
  G +:+ "\" = String Str.backslash prefix →
  Win32.canon X = X → (Str.size X < npos)%N → readable n →
  int32 (filesProcessed (stats st)) = filesProcessed (stats st) →
  X ∈ fs_dirs (fs st) → storeDir D ∈ fs_dirs (fs st) →
  store_ready P dst (mirrored_dirs X n) (fs st) →
  (∀ d, d ∈ mirrored_dirs X n → (Str.size d < npos)%N) →
  (∀ rel, rel ∈ (relative_files prefix n).*1 → (Str.size rel ≤ npos)%N) →
  ∃ st', backup_entry P dst sourcePath (sourcePath +:+ prefix) (X +:+ "\") n st = Done st'
         ∧ indexed P dst (relative_files prefix n) (mirrored_dirs X n)
             (entry_count n) st st'.
Proof.
  induction n as [fd bytes|name listing IH] using node_induction;
    intros G prefix X st HG HX Hsz Hr Htidy Hin Hstore Hready Hsizes Hrels.
  - simpl in *. destruct (dot_entry (cFileName fd)) eqn:Hdot.
    { exists st. split; [done|]. by apply indexed_nothing. }
    destruct Hr as [?|[Hc [content ->]]]; [done|].
    eexists. split; [done|].
    apply (index_file P dst D); try done.
    + apply Hrels. simpl. by apply list_elem_of_singleton.
    + intros h. by destruct Hready as [Hblobs _], (Hblobs h).
  - simpl in Hr, Hready, Hsizes, Hrels. simpl relative_files. simpl mirrored_dirs.
    simpl entry_count.
    destruct (dot_entry name) eqn:Hdot.
    { exists st. simpl. rewrite Hdot. split; [done|]. by apply indexed_nothing. }
    destruct Hr as [?|(Hc & Hne & Hnd & Hall)]; [done|].
    apply readable_listing_Forall in Hall.
    set (X' := child X name) in *.
    set (st0 := with_stats inc_filesProcessed st).
    assert (Hcount : indexed P dst [] [] 1 st st0).
    { unfold indexed. simpl. rewrite !Z.add_0_r.
      split_and!; try done.
      - by rewrite (left_id_L ∅ (∪)).
      - intros p Hnone [b Hb]. congruence.
      - intros rel fd b Hin'. by apply elem_of_nil in Hin'. }
    pose proof (store_ready_after P dst [] [] (X' :: listing_dirs X' listing) 1 st st0
                  Hcount Hready) as Hready0.
    destruct Hready0 as [Hblobs0 Hdirs0].
    destruct (Hdirs0 X') as [HnoneX' HmkX']; [by apply elem_of_cons; left|].
    destruct (index_mkdir P dst stack_left X name st0) as (st1 & Hmk & Hmade); try done.
    { by eapply indexed_processed. }
    fold X' in Hmk, Hmade.
    pose proof (indexed_then P dst _ _ _ _ _ _ _ _ _ Hcount Hmade
                  (λ rel Hrel, not_elem_of_nil rel)) as H01.
    simpl in H01.
    assert (Hnot : ∀ h, GetContentPath dst h ∉ [X']).
    { intros h Hh. apply list_elem_of_singleton in Hh.
      destruct (Hblobs0 h) as [_ Hnl]. apply Hnl. rewrite Hh. by apply elem_of_cons; left. }
    specialize (H01 Hnot).
    assert (HcanX' : Win32.canon X' = X') by by apply canon_child.
    assert (HszX' : (Str.size X' < npos)%N) by by apply Hsizes, elem_of_cons; left.
    destruct (index_walk (child G name) (prefix +:+ name +:+ "\") X' listing IH st1)
      as (st2 & Hwalk & Hdone); try done.
    + rewrite (child_relative G prefix name HG).
      change (String Str.backslash (prefix +:+ name) +:+ "\")
        with (String Str.backslash ((prefix +:+ name) +:+ "\")).
      by rewrite app_assoc.
    + by eapply indexed_processed.
    + destruct Hmade as (_ & _ & _ & Hs & _). rewrite Hs.
      apply elem_of_union_l, elem_of_list_to_set. by apply list_elem_of_singleton.
    + eapply indexed_store; [exact H01|done].
    + by apply (store_ready_after P dst [] [X'] (listing_dirs X' listing) _ st st1 H01).
    + intros d Hd'. apply Hsizes, elem_of_cons. by right.
    + assert (E : (X +:+ "\") +:+ name = X') by (unfold X', child; by rewrite app_assoc).
      exists st2. split.
      * simpl. rewrite Hdot. rewrite E. fold st0.
        unfold BackupDirectory_with. destruct listing as [|n0 listing0]; [done|].
        rewrite Hmk. simpl.
        replace (((sourcePath +:+ prefix) +:+ name) +:+ "\")
          with (sourcePath +:+ prefix +:+ name +:+ "\")
          by (by rewrite !app_assoc).
        by rewrite Hwalk.
      * pose proof (indexed_then P dst _ _ _ _ _ _ _ _ _ H01 Hdone
                      (λ rel Hrel _, not_elem_of_nil rel Hrel)) as H02.
        simpl in H02. apply H02.
        intros h Hh. destruct (Hblobs0 h) as [_ Hnl]. apply Hnl. by apply elem_of_cons; right.
Qed.

End Engine.
End IndexWalk.

Module IndexFacts.
Import Phase3 StrFacts PathFacts Phase3Facts DirFacts DirPathFacts LevelFacts TreeFacts
       StoreFacts MirrorPaths MirrorFacts RelativePaths IndexSteps IndexWalk DedupRunFacts.

Section Engine.
Context (P : Platform).

(** [Initialize] on a volume where the backup root and the store are
    directories or can be created. *)
Lemma Initialize_creates dst D fs0 :
  rooted dst = D +:+ "\" → Win32.canon D = D → (Str.size D ≤ 300)%N →
  directory_or_free P D fs0 →
  storeDir D ∈ fs_dirs fs0
  ∨ fs_files fs0 !! storeDir D = None ∧ mkdir_denied P (storeDir D) = false →
  ∃ fs1, Initialize P dst fs0 = (true, fs1)
         ∧ fs_files fs1 = fs_files fs0
         ∧ fs_dirs fs1 = {[ D; storeDir D ]} ∪ fs_dirs fs0.
Proof.
  intros Hroot HD Hsz Hdir Hstore.
  assert (Hnpos : (Str.size D < npos)%N) by (unfold npos; lia).
  unfold Initialize. fold (parentPath dst).
  rewrite (parentPath_eq dst D Hroot Hsz).
  assert (Hfirst : ∃ fsa,
    match Win32.GetFileAttributesA D fs0 with
    | Win32.INVALID_FILE_ATTRIBUTES =>
        match Win32.CreateDirectoryA P D fs0 with
        | (Win32.ERROR_SUCCESS, fs') => (true, fs')
        | (Win32.ERROR_ALREADY_EXISTS, _) => (true, fs0)
        | _ => (false, fs0)
        end
    | _ => (true, fs0)
    end = (true, fsa)
    ∧ fs_files fsa = fs_files fs0 ∧ fs_dirs fsa = {[ D ]} ∪ fs_dirs fs0).
  { destruct Hdir as [Hin|(Hinv & Hpar & Hmk)].
    - exists fs0.
      assert (Hattr : Win32.is_directory (Win32.GetFileAttributesA D fs0) = true)
        by (apply is_directory_elem; by rewrite HD).
      destruct (Win32.GetFileAttributesA D fs0); try done.
      split; [done|]. split; [done|]. symmetry. apply subseteq_union_1_L.
      by apply singleton_subseteq_l.
    - rewrite Hinv. unfold Win32.CreateDirectoryA. rewrite Hinv, Hpar, HD, Hmk. simpl.
      eexists. split; [done|]. by split. }
  destruct Hfirst as (fsa & -> & Hfa & Hda). simpl.
  assert (Hcan : Win32.canon (storePath dst) = storeDir D) by by apply canon_storePath.
  destruct (decide (storeDir D ∈ fs_dirs fsa)) as [Hin|Hnew].
  - assert (Win32.is_directory (Win32.GetFileAttributesA (storePath dst) fsa) = true) as ->
      by (apply is_directory_elem; by rewrite Hcan).
    exists fsa. split; [done|]. split; [done|]. rewrite Hda in Hin |- *.
    rewrite (comm_L (∪) {[D]} {[storeDir D]}), <- (assoc_L (∪)).
    symmetry. by apply subseteq_union_1_L, singleton_subseteq_l.
  - assert (Win32.is_directory (Win32.GetFileAttributesA (storePath dst) fsa) = false) as ->.
    { apply not_true_is_false. intros Hdir'%is_directory_elem. by rewrite Hcan in Hdir'. }
    destruct Hstore as [Hin|[Hnone Hmk]]; [exfalso; apply Hnew; rewrite Hda; by apply elem_of_union_r|].
    assert (Hinv : Win32.GetFileAttributesA (storePath dst) fsa
                   = Win32.INVALID_FILE_ATTRIBUTES).
    { apply attributes_invalid. rewrite Hcan, Hfa. by split. }
    unfold Win32.CreateDirectoryA. rewrite Hinv.
    rewrite (parent_exists_in D).
    + rewrite Hcan, Hmk. simpl. eexists. split; [done|]. split; [done|].
      by rewrite Hda, (comm_L (∪) {[D]} {[storeDir D]}), <- (assoc_L (∪)).
    + rewrite (storePath_eq dst D Hroot).
      apply (parent_child_tail D ".dedup_store" "\"); [by split|by right|done|done].
    + rewrite Hda. by apply elem_of_union_l, elem_of_singleton.
Qed.

Lemma CreateDestDirectory_root D st :
  Win32.canon D = D → D ∈ fs_dirs (fs st) → stack_limit P ≠ 0%nat →
  CreateDestDirectory P (D +:+ "\") st = Done (true, st).
Proof.
  intros HD Hin Hstack. unfold CreateDestDirectory.
  destruct (stack_limit P) as [|depth]; [done|].
  rewrite CreateDestDirectory_existing by by rewrite canon_snoc_sep, HD.
  simpl. by destruct st as [[] ? ? ?].
Qed.

(** [StartBackup], once the store is initialised and the walk of the
    source root has ended. *)
Lemma StartBackup_from_walk src dst D listing fs0 fs1 st2 :
  Win32.canon D = D → D ≠ "" → dst = D ∨ dst = D +:+ "\" →
  listing ≠ [] → stack_limit P ≠ 0%nat →
  Initialize P dst fs0 = (true, fs1) → D ∈ fs_dirs fs1 →
  walk (backup_entry P dst (NormalizePath src) (NormalizePath src) (D +:+ "\"))
    listing (walk_start dst fs1) = Done st2 →
  StartBackup P src dst (RootDirectory listing) fs0
  = Done (true, with_fs (Save P (indexPath dst) (fileHashMap st2) (fs st2)).2 st2).
Proof.
  intros HD Hne Hdst Hlist Hstack Hinit HinD Hwalk.
  unfold StartBackup. simpl. rewrite Hinit. simpl.
  unfold walk_start in Hwalk.
  destruct (Load (indexPath dst) ∅ fs1) as [hasIndex m] eqn:Hload. simpl in Hwalk.
  unfold BackupDirectory, BackupDirectory_with.
  rewrite (NormalizePath_root dst D) by done.
  destruct listing as [|n0 listing0]; [done|].
  destruct hasIndex; simpl in Hwalk;
    match goal with |- context [CreateDestDirectory P _ ?s] =>
      match type of Hwalk with walk _ _ ?st1 = _ =>
        change s with st1; rewrite (CreateDestDirectory_root D st1 HD HinD Hstack)
      end
    end; simpl;
    rewrite Hwalk; simpl;
    by destruct (Save P (indexPath dst) (fileHashMap st2) (fs st2)).
Qed.

(** The run over a readable tree, up to the index being saved. *)
Lemma run_indexes (src dst D : string) (listing : list node) (fs0 : FileSys) :
  Win32.canon D = D → D ≠ "" → dst = D ∨ dst = D +:+ "\" → (Str.size D ≤ 300)%N →
  listing ≠ [] → NoDup (walked_names listing) → Forall readable listing →
  (∀ source dest, copy_denied P source dest = false) →
  stack_limit P ≠ 0%nat →
  directory_or_free P D fs0 →
  storeDir D ∈ fs_dirs fs0
  ∨ fs_files fs0 !! storeDir D = None ∧ mkdir_denied P (storeDir D) = false →
  store_ready P dst (listing_dirs D listing) fs0 →
  (∀ d, d ∈ listing_dirs D listing → (Str.size d < npos)%N) →
  (∀ rel, rel ∈ (listing_relative "" listing).*1 → (Str.size rel ≤ npos)%N) →
  ∃ fs1 st2,
    Initialize P dst fs0 = (true, fs1)
    ∧ fs_files fs1 = fs_files fs0
    ∧ fs_dirs fs1 = {[ D; storeDir D ]} ∪ fs_dirs fs0
    ∧ StartBackup P src dst (RootDirectory listing) fs0
      = Done (true, with_fs (Save P (indexPath dst) (fileHashMap st2) (fs st2)).2 st2)
    ∧ indexed P dst (listing_relative "" listing) (listing_dirs D listing)
        (listing_entries listing) (walk_start dst fs1) st2.
Proof.
  intros HD Hne Hdst Hsz Hlist Hnd Hr Hcopy Hstack Hroot Hstore Hready Hsizes Hrels.
  assert (Hrooted : rooted dst = D +:+ "\")
    by (rewrite rooted_NormalizePath; by apply NormalizePath_root).
  assert (Hnpos : (Str.size D < npos)%N) by (unfold npos; lia).
  destruct (Initialize_creates dst D fs0 Hrooted HD Hsz Hroot Hstore)
    as (fs1 & Hinit & Hf1 & Hd1).
  set (st1 := walk_start dst fs1).
  assert (HinD : D ∈ fs_dirs fs1)
    by (rewrite Hd1; apply elem_of_union_l, elem_of_union_l; by apply elem_of_singleton).
  assert (HinS : storeDir D ∈ fs_dirs fs1)
    by (rewrite Hd1; apply elem_of_union_l, elem_of_union_r; by apply elem_of_singleton).
  assert (Hready1 : store_ready P dst (listing_dirs D listing) fs1).
  { destruct Hready as [Hblobs Hdirs]. split.
    - intros h. destruct (Hblobs h) as [Hnd' Hnl]. split; [|done].
      destruct (GetContentPath_not_store dst D h Hrooted) as [HnS HnD].
      rewrite HD in HnD. rewrite Hd1.
      intros [[Hin|Hin]%elem_of_union|Hin]%elem_of_union; [| |done].
      + by apply elem_of_singleton in Hin.
      + by apply elem_of_singleton in Hin.
    - intros d Hd. rewrite Hf1. by apply Hdirs. }
  destruct (index_walk P dst D (NormalizePath src) "" "" D listing) with (st := st1)
    as (st2 & Hwalk & Hdone); try done.
  { apply Forall_forall. intros n _. by apply index_entry. }
  rewrite app_nil_r in Hwalk.
  exists fs1, st2. split; [done|]. split; [done|]. split; [done|]. split; [|done].
  by apply (StartBackup_from_walk src dst D listing fs0 fs1 st2).
Qed.


End Engine.


End IndexFacts.

Module PlanFacts.
Import Phase2 StrFacts PathFacts Phase2Facts TreeFacts MirrorPaths RelativePaths.

(** The paths of the mirror of an entry below [X] are its relative paths
    behind [B], when [X] is the directory that [B] and [prefix] name. *)
Lemma mirrored_behind n : ∀ X B prefix,
  X +:+ "\" = B +:+ prefix →
  (mirrored_files X n).*1 = (λ rel, B +:+ rel) <$> (relative_files prefix n).*1.
Proof.
  induction n as [fd bytes|name listing IH] using node_induction; intros X B prefix E.
  - simpl. destruct (dot_entry (cFileName fd)); [done|]. destruct bytes as [b|]; [|done].
    simpl. f_equal. unfold child. by rewrite <- (app_assoc X "\" _), E, app_assoc.
  - simpl. destruct (dot_entry name); [done|].
    rewrite !fst_flat_map, fmap_flat_map. apply flat_map_ext_Forall.
    eapply Forall_impl; [exact IH|]. intros n Hn. apply Hn.
    unfold child. by rewrite <- (app_assoc X "\" name), E, !app_assoc.
Qed.

Lemma listing_behind X B prefix listing :
  X +:+ "\" = B +:+ prefix →
  (listing_files X listing).*1 = (λ rel, B +:+ rel) <$> (listing_relative prefix listing).*1.
Proof.
  intros E. unfold listing_files, listing_relative.
  rewrite !fst_flat_map, fmap_flat_map. apply flat_map_ext_Forall.
  apply Forall_forall. intros n _. by apply mirrored_behind.
Qed.

Section Engine.
Context (P : Platform).

(** The decision looks at the mode and at the entry of the path, and at
    nothing else of the state. *)
Lemma ShouldCopyFile_local sourceFile bytes relativePath fileSize fileTime st st2 :
  manifest st2 !! relativePath = manifest st !! relativePath →
  incrementalMode st2 = incrementalMode st →
  (ShouldCopyFile P sourceFile bytes relativePath fileSize fileTime st2).1
  = (ShouldCopyFile P sourceFile bytes relativePath fileSize fileTime st).1.
Proof.
  intros Hm Hi. unfold ShouldCopyFile, HasFile, GetFileMetadata. rewrite Hm, Hi.
  destruct (incrementalMode st); simpl; [|done].
  destruct (manifest st !! relativePath) as [old|] eqn:Hold.
  - rewrite !bool_decide_eq_true_2 by eauto. simpl.
    destruct (negb _ || negb _); simpl; [|done].
    by destruct (negb (bool_decide (CalculateHash P bytes = hash old))).
  - rewrite !bool_decide_eq_false_2 by (by intros [? [=]]). done.
Qed.

(** The files it hashes come on top of those hashed before. *)
Lemma ShouldCopyFile_reads sourceFile bytes relativePath fileSize fileTime st st2 :
  manifest st2 !! relativePath = manifest st !! relativePath →
  incrementalMode st2 = incrementalMode st → hashed st = [] →
  hashed (ShouldCopyFile P sourceFile bytes relativePath fileSize fileTime st2).2
  = hashed (ShouldCopyFile P sourceFile bytes relativePath fileSize fileTime st).2
    ++ hashed st2.
Proof.
  intros Hm Hi Hh. destruct st as [s m i f h]. simpl in Hm, Hi, Hh. subst h.
  unfold ShouldCopyFile, HasFile, GetFileMetadata, hash_file. simpl.
  rewrite Hm, Hi.
  destruct i; simpl; [|done].
  destruct (m !! relativePath) as [old|] eqn:Hold.
  - rewrite !bool_decide_eq_true_2 by eauto. simpl.
    destruct (negb _ || negb _); simpl; [|done].
    by destruct (negb (bool_decide (CalculateHash P bytes = hash old))).
  - rewrite !bool_decide_eq_false_2 by (by intros [? [=]]). done.
Qed.

Lemma planned_here sourcePath rel fd b st :
  (ShouldCopyFile P (sourcePath +:+ rel) (Some b) rel (GetFileSize fd) (GetFileTime fd) st).1
  = (planned P sourcePath (incrementalMode st) (manifest st) rel fd b).1
  ∧ hashed (ShouldCopyFile P (sourcePath +:+ rel) (Some b) rel
              (GetFileSize fd) (GetFileTime fd) st).2
    = (planned P sourcePath (incrementalMode st) (manifest st) rel fd b).2 ++ hashed st.
Proof.
  unfold planned. split.
  - by apply ShouldCopyFile_local.
  - by apply ShouldCopyFile_reads.
Qed.

(** The plan for a path looks at the mode and at the entry of the path. *)
Lemma planned_local sourcePath mode m m' rel fd b :
  m' !! rel = m !! rel →
  planned P sourcePath mode m' rel fd b = planned P sourcePath mode m rel fd b.
Proof.
  intros Hm. unfold planned. f_equal.
  - by apply ShouldCopyFile_local.
  - rewrite (ShouldCopyFile_reads _ _ _ _ _
               (mkSt no_stats m mode (mkFS ∅ ∅) []) (mkSt no_stats m' mode (mkFS ∅ ∅) []));
      try done.
    by rewrite app_nil_r.
Qed.

(** A path that the manifest has is left alone by the decision. *)
Lemma ShouldCopyFile_manifest sourceFile bytes relativePath fileSize fileTime st :
  manifest (ShouldCopyFile P sourceFile bytes relativePath fileSize fileTime st).2
  = manifest st.
Proof. apply ShouldCopyFile_frame. Qed.

End Engine.
End PlanFacts.

Module PlanSteps.
Import Phase2 StrFacts PathFacts Phase2Facts DirFacts DirPathFacts LevelFacts TreeFacts
       MirrorPaths MirrorSteps RelativePaths IncrementalStepFacts PlanFacts.

Lemma backed_up_in_range D plan rels dirs entries st st' :
  backed_up D plan rels dirs entries st st' → in_range st'.
Proof.
  intros (_ & _ & Hp & Hc & _). unfold in_range. by rewrite Hp, Hc, !int32_idem.
Qed.

Lemma backed_up_nothing D plan st : in_range st → backed_up D plan [] [] 0 st st.
Proof.
  intros [Hp Hc]. unfold backed_up, reads. simpl. rewrite !Z.add_0_r, Hp, Hc.
  split_and!; try done.
  - by rewrite (left_id_L ∅ (∪)).
  - intros rel fd b Hin. by apply elem_of_nil in Hin.
Qed.

Lemma backed_up_then D plan R1 D1 e1 R2 D2 e2 st st1 st2 :
  backed_up D plan R1 D1 e1 st st1 → backed_up D plan R2 D2 e2 st1 st2 →
  (∀ rel, rel ∈ R1.*1 → rel ∉ R2.*1) →
  backed_up D plan (R1 ++ R2) (D1 ++ D2) (e1 + e2) st st2.
Proof.
  intros (He1 & Hm1 & Hp1 & Hc1 & Hh1 & Hs1 & Hf1 & Ho1 & Hk1)
         (He2 & Hm2 & Hp2 & Hc2 & Hh2 & Hs2 & Hf2 & Ho2 & Hk2) Hapart.
  unfold backed_up. split_and!.
  - congruence.
  - congruence.
  - rewrite Hp2, Hp1, int32_add_l. f_equal. lia.
  - rewrite Hc2, Hc1, int32_add_l. unfold copies. rewrite filter_app, List.length_app.
    f_equal. lia.
  - rewrite Hh2, Hh1. unfold reads. by rewrite reverse_app, flat_map_app, List.app_assoc.
  - rewrite Hs2, Hs1, list_to_set_app_L.
    rewrite (assoc_L (∪)). f_equal. apply (comm_L (∪)).
  - intros rel fd b [Hin|Hin]%elem_of_app.
    + assert (Hrel : rel ∈ R1.*1) by (apply list_elem_of_fmap; by exists (rel, (fd, b))).
      destruct (Hf1 rel fd b Hin) as [Hman Hfile]. split.
      * rewrite Ho2; [done|]. by apply Hapart.
      * rewrite Hk2; [done|]. intros rel2 Hrel2 E.
        apply String.app_inj, String.app_inj in E. subst rel2. by apply (Hapart rel).
    + assert (Hrel : rel ∈ R2.*1) by (apply list_elem_of_fmap; by exists (rel, (fd, b))).
      destruct (Hf2 rel fd b Hin) as [Hman Hfile]. split; [done|].
      rewrite Hfile. destruct (plan rel fd b).1.1; [done|].
      apply Hk1. intros rel1 Hrel1 E.
      apply String.app_inj, String.app_inj in E. subst rel1. by apply (Hapart rel).
  - intros rel Hrel. rewrite fmap_app in Hrel.
    rewrite Ho2 by (intros Hin; apply Hrel, elem_of_app; by right).
    rewrite Ho1 by (intros Hin; apply Hrel, elem_of_app; by left). done.
  - intros p Hp. rewrite Hk2, Hk1; [done| |].
    + intros rel Hrel. apply Hp. rewrite fmap_app. apply elem_of_app. by left.
    + intros rel Hrel. apply Hp. rewrite fmap_app. apply elem_of_app. by right.
Qed.

Section Engine.
Context (P : Platform) (D sourcePath : string).
Hypothesis copies_allowed : ∀ source dest, copy_denied P source dest = false.
Hypothesis stack_left : stack_limit P ≠ 0%nat.

(** A readable file is treated as planned. *)
Lemma backup_file_planned X prefix fd content st :
  X +:+ "\" = (D +:+ "\") +:+ prefix →
  Win32.canon X = X → (Str.size X < npos)%N → component (cFileName fd) →
  (Str.size (prefix +:+ cFileName fd) ≤ npos)%N →
  in_range st → X ∈ fs_dirs (fs st) →
  (child X (cFileName fd) ∉ fs_dirs (fs st)) →
  backed_up D (planned P sourcePath (incrementalMode st) (manifest st))
    [(prefix +:+ cFileName fd, (fd, content))] [] 1 st
    (backup_file P sourcePath (sourcePath +:+ prefix) (X +:+ "\") fd (Some content) st).
Proof.
  intros E HX Hsz Hn Hrsz [Hp Hc] Hin Hfree.
  set (rel := prefix +:+ cFileName fd).
  assert (Hsrc : (sourcePath +:+ prefix) +:+ cFileName fd = sourcePath +:+ rel)
    by by rewrite app_assoc.
  assert (Hrel : GetRelativePath (sourcePath +:+ rel) sourcePath = rel)
    by by apply GetRelativePath_child.
  assert (Hdest : (X +:+ "\") +:+ cFileName fd = child X (cFileName fd))
    by (unfold child; by rewrite app_assoc).
  assert (Hplace : child X (cFileName fd) = D +:+ "\" +:+ rel).
  { rewrite <- Hdest, E. unfold rel. by rewrite !app_assoc. }
  assert (Hcan : Win32.canon (child X (cFileName fd)) = child X (cFileName fd))
    by by apply canon_child.
  assert (Hcopy : Win32.CopyFileA P (Some content) (sourcePath +:+ rel)
                    (child X (cFileName fd)) (fs st)
                  = (true, mkFS (fs_dirs (fs st))
                             (<[child X (cFileName fd) := content]> (fs_files (fs st))))).
  { unfold Win32.CopyFileA, Win32.writable.
    rewrite (parent_exists_in X); [|by apply parent_child|done].
    assert (Win32.is_directory (Win32.GetFileAttributesA (child X (cFileName fd)) (fs st))
            = false) as ->.
    { apply not_true_is_false. intros Hdir%is_directory_elem. by rewrite Hcan in Hdir. }
    by rewrite copies_allowed, Hcan. }
  set (st0 := with_stats (add_totalBytes (GetFileSize fd)) (with_stats inc_filesProcessed st)).
  pose proof (planned_here P sourcePath rel fd content st0) as [Hplan Hreads].
  change (incrementalMode st0) with (incrementalMode st) in Hplan, Hreads.
  change (manifest st0) with (manifest st) in Hplan, Hreads.
  change (hashed st0) with (hashed st) in Hreads.
  pose proof (ShouldCopyFile_frame P (sourcePath +:+ rel) (Some content) rel
                (GetFileSize fd) (GetFileTime fd) st0) as (Hfm & Hff & Hfi & Hfe).
  pose proof (ShouldCopyFile_classifies P (sourcePath +:+ rel) (Some content) rel
                (GetFileSize fd) (GetFileTime fd) st0) as (Hcp & Hcc & _).
  unfold backup_file. rewrite Hsrc, Hrel, Hdest. fold st0.
  destruct (ShouldCopyFile P (sourcePath +:+ rel) (Some content) rel
              (GetFileSize fd) (GetFileTime fd) st0) as [[copy h] st'] eqn:Hdec.
  simpl in Hplan, Hreads, Hfm, Hff, Hfi, Hfe, Hcp, Hcc.
  unfold backed_up, copies, reads.
  destruct copy.
  - rewrite Hff, Hcopy. simpl. rewrite Hfe, Hfi, Hcp, Hcc, Hfm, (left_id_L ∅ (∪)).
    rewrite filter_cons_True by (simpl; by rewrite <- Hplan). simpl.
    rewrite List.app_nil_r.
    split_and!; try done.
    + intros rel' fd' b [= -> -> ->]%list_elem_of_singleton. rewrite <- Hplan. simpl.
      split; [apply lookup_insert_eq|]. rewrite <- Hplace. apply lookup_insert_eq.
    + intros rel' Hne. apply lookup_insert_ne. intros <-. apply Hne.
      by apply list_elem_of_singleton.
    + intros p Hp'. apply lookup_insert_ne. rewrite Hplace. intros <-.
      apply (Hp' rel); [|done]. by apply list_elem_of_singleton.
  - simpl. rewrite Hfe, Hfi, Hcp, Hcc, Hfm, Hff, (left_id_L ∅ (∪)).
    rewrite filter_cons_False by (simpl; by rewrite <- Hplan). simpl.
    rewrite Z.add_0_r, Hc, List.app_nil_r.
    split_and!; try done.
    + intros rel' fd' b [= -> -> ->]%list_elem_of_singleton. rewrite <- Hplan. simpl.
      split; [apply lookup_insert_eq|done].
    + intros rel' Hne. apply lookup_insert_ne. intros <-. apply Hne.
      by apply list_elem_of_singleton.
Qed.

(** A directory that is missing is created, one that exists is kept. *)
Lemma backup_mkdir plan X name st :
  Win32.canon X = X → (Str.size X < npos)%N → component name →
  in_range st → X ∈ fs_dirs (fs st) →
  fs_files (fs st) !! child X name = None → mkdir_denied P (child X name) = false →
  ∃ st', CreateDestDirectory P (child X name +:+ "\") st = Done (true, st')
         ∧ backed_up D plan [] [child X name] 0 st st'.
Proof.
  intros HX Hsz Hn [Hp Hc] Hin Hnf Hmk.
  assert (Hcan : Win32.canon (child X name +:+ "\") = child X name)
    by (apply canon_child_tail; auto).
  unfold CreateDestDirectory.
  destruct (stack_limit P) as [|depth] eqn:Hdepth; [done|].
  destruct (decide (child X name ∈ fs_dirs (fs st))) as [Hex|Hnew].
  - rewrite CreateDestDirectory_existing by by rewrite Hcan. simpl.
    eexists. split; [done|]. unfold backed_up, reads. simpl.
    rewrite !Z.add_0_r, Hp, Hc.
    split_and!; try done.
    + rewrite (right_id_L ∅ (∪)). symmetry. apply subseteq_union_1_L.
      by apply singleton_subseteq_l.
    + intros rel fd b Hin'. by apply elem_of_nil in Hin'.
  - rewrite CreateDestDirectory_parent_exists.
    + simpl. eexists. split; [done|]. unfold backed_up, reads. simpl.
      rewrite !Z.add_0_r, Hp, Hc, Hcan.
      split_and!; try done.
      * by rewrite (right_id_L ∅ (∪)).
      * intros rel fd b Hin'. by apply elem_of_nil in Hin'.
    + apply attributes_invalid. by rewrite Hcan.
    + eapply parent_exists_in; [|done]. apply parent_child_tail; auto.
    + by rewrite Hcan.
Qed.

End Engine.
End PlanSteps.

Module PlanWalk.
Import Phase2 StrFacts PathFacts Phase2Facts DirFacts DirPathFacts LevelFacts TreeFacts
       MirrorPaths MirrorSteps MirrorWalk RelativePaths IncrementalWalk PlanFacts PlanSteps.

Lemma backed_up_ext D plan plan' rels dirs entries st st' :
  (∀ rel fd b, (rel, (fd, b)) ∈ rels → plan rel fd b = plan' rel fd b) →
  backed_up D plan rels dirs entries st st' → backed_up D plan' rels dirs entries st st'.
Proof.
  intros Hext (He & Hm & Hp & Hc & Hh & Hs & Hf & Ho & Hk).
  assert (Hcopies : copies plan rels = copies plan' rels).
  { unfold copies. clear -Hext. induction rels as [|[rel [fd b]] rels IH]; [done|].
    rewrite !filter_cons. simpl. rewrite (Hext rel fd b) by by left.
    rewrite IH; [done|]. intros rel' fd' b' Hin. apply Hext. by right. }
  assert (Hreads : reads plan rels = reads plan' rels).
  { unfold reads. apply flat_map_ext_Forall, Forall_forall.
    intros [rel [fd b]] Hin. rewrite elem_of_reverse in Hin. simpl.
    by rewrite (Hext rel fd b). }
  unfold backed_up. rewrite <- Hcopies, <- Hreads. split_and!; try done.
  intros rel fd b Hin. rewrite <- (Hext rel fd b Hin). by apply Hf.
Qed.

(** Two entries of one directory share no relative path. *)
Lemma relative_apart_behind X B prefix n rest rel :
  X +:+ "\" = B +:+ prefix →
  NoDup (walked_names (n :: rest)) → readable n → Forall readable rest →
  rel ∈ (relative_files prefix n).*1 → rel ∉ (listing_relative prefix rest).*1.
Proof.
  intros E Hnd Hn Hrest H1 H2.
  apply (siblings_apart X n rest (B +:+ rel) Hnd Hn Hrest); left.
  - rewrite (mirrored_behind n X B prefix E). apply list_elem_of_fmap. by exists rel.
  - rewrite (listing_behind X B prefix rest E). apply list_elem_of_fmap. by exists rel.
Qed.

Lemma place_mirrored X D prefix n rel :
  X +:+ "\" = (D +:+ "\") +:+ prefix →
  rel ∈ (relative_files prefix n).*1 → D +:+ "\" +:+ rel ∈ (mirrored_files X n).*1.
Proof.
  intros E Hrel. rewrite (mirrored_behind n X (D +:+ "\") prefix E).
  apply list_elem_of_fmap. exists rel. split; [by rewrite app_assoc|done].
Qed.

Section Engine.
Context (P : Platform) (D sourcePath : string) (mode : bool)
        (m0 : gmap string FileMetadata).
Hypothesis copies_allowed : ∀ source dest, copy_denied P source dest = false.
Hypothesis stack_left : stack_limit P ≠ 0%nat.

(** The entries of a listing, given the claim for each of them. *)
Lemma backup_walk_planned X prefix listing :
  Forall (λ n, ∀ X prefix st,
    X +:+ "\" = (D +:+ "\") +:+ prefix →
    Win32.canon X = X → (Str.size X < npos)%N → readable n →
    in_range st → X ∈ fs_dirs (fs st) → incrementalMode st = mode →
    (∀ rel, rel ∈ (relative_files prefix n).*1 → manifest st !! rel = m0 !! rel) →
    ready_for P (mirrored_files X n) (mirrored_dirs X n) (fs st) →
    (∀ d, d ∈ mirrored_dirs X n → (Str.size d < npos)%N) →
    (∀ rel, rel ∈ (relative_files prefix n).*1 → (Str.size rel ≤ npos)%N) →
    ∃ st', backup_entry P sourcePath (sourcePath +:+ prefix) (X +:+ "\") n st = Done st'
           ∧ backed_up D (planned P sourcePath mode m0) (relative_files prefix n)
               (mirrored_dirs X n) (entry_count n) st st') listing →
  ∀ st,
    X +:+ "\" = (D +:+ "\") +:+ prefix →
    Win32.canon X = X → (Str.size X < npos)%N →
    NoDup (walked_names listing) → Forall readable listing →
    in_range st → X ∈ fs_dirs (fs st) → incrementalMode st = mode →
    (∀ rel, rel ∈ (listing_relative prefix listing).*1 → manifest st !! rel = m0 !! rel) →
    ready_for P (listing_files X listing) (listing_dirs X listing) (fs st) →
    (∀ d, d ∈ listing_dirs X listing → (Str.size d < npos)%N) →
    (∀ rel, rel ∈ (listing_relative prefix listing).*1 → (Str.size rel ≤ npos)%N) →
    ∃ st', walk (backup_entry P sourcePath (sourcePath +:+ prefix) (X +:+ "\")) listing st
           = Done st'
           ∧ backed_up D (planned P sourcePath mode m0) (listing_relative prefix listing)
               (listing_dirs X listing) (listing_entries listing) st st'.
Proof.
  induction 1 as [|n rest Hn _ IH];
    intros st E HX Hsz Hnd Hr Htidy Hin Hmode Hman Hready Hsizes Hrels.
  { exists st. split; [done|]. by apply backed_up_nothing. }
  apply Forall_cons in Hr as [Hrn Hrrest].
  unfold listing_files, listing_dirs, listing_relative in Hready, Hsizes, Hrels, Hman.
  simpl in Hready, Hsizes, Hrels, Hman.
  destruct (Hn X prefix st E HX Hsz Hrn Htidy Hin Hmode) as (st1 & Hstep & Hdone).
  { intros rel Hrel. apply Hman. rewrite fmap_app. apply elem_of_app. by left. }
  { by eapply ready_for_app_l. }
  { intros d Hd. apply Hsizes, elem_of_app. by left. }
  { intros rel Hrel. apply Hrels. rewrite fmap_app. apply elem_of_app. by left. }
  pose proof Hdone as (_ & Hmode1 & _ & _ & _ & Hdirs1 & _ & Hother1 & Hkeep1).
  assert (Hnd' : NoDup (walked_names rest)).
  { unfold walked_names in *. rewrite fmap_cons in Hnd.
    destruct (decide (dot_entry (entry_name n) = false)) as [Hdot|Hdot].
    - rewrite filter_cons_True in Hnd by done. by apply NoDup_cons in Hnd as [_ ?].
    - by rewrite filter_cons_False in Hnd. }
  destruct (IH st1) as (st2 & Hwalk & Hdone2); try done.
  - by eapply backed_up_in_range.
  - rewrite Hdirs1. by apply elem_of_union_r.
  - congruence.
  - intros rel Hrel. rewrite Hother1.
    + apply Hman. rewrite fmap_app. apply elem_of_app. by right.
    + intros Hrel1. by eapply (relative_apart_behind X (D +:+ "\") prefix n rest rel).
  - destruct Hready as [Hf Hd]. split.
    + intros p Hp. rewrite Hdirs1. intros [Hp1|Hp0]%elem_of_union.
      * apply elem_of_list_to_set in Hp1.
        eapply (siblings_apart X n rest p); eauto.
      * revert Hp0. apply Hf. rewrite fmap_app. apply elem_of_app. by right.
    + intros d Hin'. destruct (Hd d) as [Hnone Hmk]; [apply elem_of_app; by right|].
      split; [|done]. rewrite Hkeep1; [done|]. intros rel Hrel ->.
      eapply (siblings_apart X n rest (D +:+ "\" +:+ rel)); eauto.
      left. by apply (place_mirrored X D prefix).
  - intros d Hd. apply Hsizes, elem_of_app. by right.
  - intros rel Hrel. apply Hrels. rewrite fmap_app. apply elem_of_app. by right.
  - exists st2. split.
    + rewrite incremental_walk_step, Hstep. simpl. exact Hwalk.
    + unfold listing_relative, listing_dirs, listing_entries. simpl.
      eapply backed_up_then; [exact Hdone|exact Hdone2|].
      intros rel Hrel. by eapply relative_apart_behind.
Qed.

Lemma backup_entry_planned n : ∀ X prefix st,
  X +:+ "\" = (D +:+ "\") +:+ prefix →
  Win32.canon X = X → (Str.size X < npos)%N → readable n →
  in_range st → X ∈ fs_dirs (fs st) → incrementalMode st = mode →
  (∀ rel, rel ∈ (relative_files prefix n).*1 → manifest st !! rel = m0 !! rel) →
  ready_for P (mirrored_files X n) (mirrored_dirs X n) (fs st) →
  (∀ d, d ∈ mirrored_dirs X n → (Str.size d < npos)%N) →
  (∀ rel, rel ∈ (relative_files prefix n).*1 → (Str.size rel ≤ npos)%N) →
  ∃ st', backup_entry P sourcePath (sourcePath +:+ prefix) (X +:+ "\") n st = Done st'
         ∧ backed_up D (planned P sourcePath mode m0) (relative_files prefix n)
             (mirrored_dirs X n) (entry_count n) st st'.
Proof.
  induction n as [fd bytes|name listing IH] using node_induction;
    intros X prefix st E HX Hsz Hr Htidy Hin Hmode Hman Hready Hsizes Hrels.
  - simpl in *. destruct (dot_entry (cFileName fd)) eqn:Hdot.
    { exists st. split; [done|]. by apply backed_up_nothing. }
    destruct Hr as [?|[Hc [content ->]]]; [done|].
    eexists. split; [done|].
    apply (backed_up_ext D (planned P sourcePath (incrementalMode st) (manifest st))).
    + intros rel fd' b [= -> -> ->]%list_elem_of_singleton.
      rewrite Hmode. apply planned_local.
      apply Hman. simpl. by apply list_elem_of_singleton.
    + apply backup_file_planned; try done.
      * apply Hrels. simpl. by apply list_elem_of_singleton.
      * destruct Hready as [Hf _]. apply Hf. simpl. by apply list_elem_of_singleton.
  - simpl in Hr, Hready, Hsizes, Hrels, Hman. simpl relative_files. simpl mirrored_dirs.
    simpl entry_count.
    destruct (dot_entry name) eqn:Hdot.
    { exists st. simpl. rewrite Hdot. split; [done|]. by apply backed_up_nothing. }
    destruct Hr as [?|(Hc & Hne & Hnd & Hall)]; [done|].
    apply readable_listing_Forall in Hall.
    set (X' := child X name) in *.
    set (st0 := with_stats inc_filesProcessed st).
    assert (Hcount : backed_up D (planned P sourcePath mode m0) [] [] 1 st st0).
    { destruct Htidy as [Hp Hc']. unfold backed_up, reads. simpl.
      rewrite !Z.add_0_r, Hc'.
      split_and!; try done.
      - by rewrite (left_id_L ∅ (∪)).
      - intros rel fd b Hin'. by apply elem_of_nil in Hin'. }
    destruct Hready as [Hf Hd].
    destruct (Hd X') as [HnoneX' HmkX']; [by apply elem_of_cons; left|].
    destruct (backup_mkdir P D stack_left (planned P sourcePath mode m0) X name st0)
      as (st1 & Hmk & Hmade); try done.
    { by eapply backed_up_in_range. }
    fold X' in Hmk, Hmade.
    pose proof Hmade as (_ & Hmode1 & _ & _ & _ & Hdirs1 & _ & Hother1 & Hkeep1).
    simpl in Hdirs1. rewrite (right_id_L ∅ (∪)) in Hdirs1.
    assert (HcanX' : Win32.canon X' = X') by by apply canon_child.
    assert (HszX' : (Str.size X' < npos)%N) by by apply Hsizes, elem_of_cons; left.
    assert (E' : X' +:+ "\" = (D +:+ "\") +:+ prefix +:+ name +:+ "\").
    { unfold X', child. rewrite <- (app_assoc X "\" name), E. by rewrite !app_assoc. }
    destruct (backup_walk_planned X' (prefix +:+ name +:+ "\") listing IH st1)
      as (st2 & Hwalk & Hdone); try done.
    + by eapply backed_up_in_range.
    + rewrite Hdirs1. apply elem_of_union_l. by apply elem_of_singleton.
    + rewrite Hmode1. exact Hmode.
    + intros rel Hrel. rewrite Hother1 by apply not_elem_of_nil. by apply Hman.
    + split.
      * intros p Hp. rewrite Hdirs1. intros [Hp1|Hp0]%elem_of_union.
        -- apply elem_of_singleton in Hp1 as ->.
           apply list_elem_of_fmap in Hp as ([q b] & Hq & Hqin). simpl in Hq. subst q.
           apply elem_of_flat_map in Hqin as (n' & Hn' & Hqin).
           destruct (mirrored_paths_below n' X' X'
                       (proj1 (Forall_forall _ _) Hall n' Hn')) as (_ & _ & Hb).
           { left. apply list_elem_of_fmap. by exists (X', b). }
           apply below_is_longer in Hb. lia.
        -- by apply (Hf p).
      * intros d Hin'. destruct (Hd d) as [Hnone Hmk']; [by apply elem_of_cons; right|].
        split; [|done]. rewrite Hkeep1; [done|]. intros rel Hrel.
        by apply elem_of_nil in Hrel.
    + intros d Hd'. apply Hsizes, elem_of_cons. by right.
    + assert (Edest : (X +:+ "\") +:+ name = X') by (unfold X', child; by rewrite app_assoc).
      exists st2. split.
      * simpl. rewrite Hdot. rewrite Edest. fold st0.
        unfold BackupDirectory_with. destruct listing as [|n0 listing0]; [done|].
        rewrite Hmk. simpl.
        replace (((sourcePath +:+ prefix) +:+ name) +:+ "\")
          with (sourcePath +:+ prefix +:+ name +:+ "\")
          by (by rewrite !app_assoc).
        by rewrite Hwalk.
      * pose proof (backed_up_then D (planned P sourcePath mode m0) _ _ _ _ _ _ _ _ _ Hcount Hmade
                      (λ rel Hrel, not_elem_of_nil rel)) as H01.
        pose proof (backed_up_then D (planned P sourcePath mode m0) _ _ _ _ _ _ _ _ _ H01 Hdone
                      (λ rel Hrel _, not_elem_of_nil rel Hrel)) as H02.
        simpl in H02. exact H02.
Qed.

End Engine.
End PlanWalk.

Module PlanRunFacts.
Import Phase2 StrFacts PathFacts Phase2Facts DirFacts DirPathFacts LevelFacts TreeFacts
       MirrorPaths MirrorSteps MirrorWalk MirrorFacts RelativePaths IncrementalWalk
       AdditiveFacts PlanFacts PlanSteps PlanWalk.

Section Engine.
Context (P : Platform).

(** [planned], spelled out. *)
Lemma planned_spec sourcePath mode m rel fd b :
  planned P sourcePath mode m rel fd b
  = if mode then
      match m !! rel with
      | None => (true, CalculateHash P (Some b), [sourcePath +:+ rel])
      | Some old =>
          if bool_decide (size old = GetFileSize fd)
             && bool_decide (lastModified old = GetFileTime fd)
          then (false, hash old, [])
          else (negb (bool_decide (CalculateHash P (Some b) = hash old)),
                CalculateHash P (Some b), [sourcePath +:+ rel])
      end
    else (true, CalculateHash P (Some b), [sourcePath +:+ rel]).
Proof.
  unfold planned, ShouldCopyFile, HasFile, GetFileMetadata, hash_file. simpl.
  destruct mode; simpl; [|done].
  destruct (m !! rel) as [old|] eqn:Hold.
  - rewrite bool_decide_eq_true_2 by eauto. simpl.
    destruct (bool_decide (size old = GetFileSize fd)),
             (bool_decide (lastModified old = GetFileTime fd)); simpl; try done;
      by destruct (bool_decide (CalculateHash P (Some b) = hash old)).
  - rewrite bool_decide_eq_false_2 by (by intros [? [=]]). done.
Qed.

(** The backup root is there or is created. *)
Lemma backup_root D plan st :
  Win32.canon D = D → stack_limit P ≠ 0%nat → in_range st →
  directory_or_free P D (fs st) →
  ∃ st', CreateDestDirectory P (D +:+ "\") st = Done (true, st')
         ∧ backed_up D plan [] [D] 0 st st'.
Proof.
  intros HD Hstack [Hp Hc] Hroot.
  assert (Hcan : Win32.canon (D +:+ "\") = D) by by rewrite canon_snoc_sep.
  unfold CreateDestDirectory. destruct (stack_limit P) as [|depth]; [done|].
  destruct Hroot as [Hex|(Hinv & Hpar & Hmkd)].
  - rewrite CreateDestDirectory_existing by by rewrite Hcan. simpl.
    eexists. split; [done|]. unfold backed_up, reads. simpl.
    rewrite !Z.add_0_r, Hp, Hc.
    split_and!; try done.
    + rewrite (right_id_L ∅ (∪)). symmetry. apply subseteq_union_1_L.
      by apply singleton_subseteq_l.
    + intros rel fd b Hin'. by apply elem_of_nil in Hin'.
  - rewrite CreateDestDirectory_parent_exists.
    + rewrite Hcan. simpl. eexists. split; [done|]. unfold backed_up, reads. simpl.
      rewrite !Z.add_0_r, Hp, Hc.
      split_and!; try done.
      * by rewrite (right_id_L ∅ (∪)).
      * intros rel fd b Hin'. by apply elem_of_nil in Hin'.
    + etrans; [|exact Hinv]. apply attributes_canon. by rewrite Hcan, HD.
    + etrans; [|exact Hpar]. apply parent_exists_canon. by rewrite Hcan, HD.
    + by rewrite Hcan.
Qed.

(** The walk of a readable tree from the state [StartBackup] sets up. *)
Lemma run_follows_the_plan (src dst D : string) (incremental : bool)
    (listing : list node) (fs0 : FileSys) (hasManifest : bool)
    (previous : gmap string FileMetadata) :
  Win32.canon D = D → D ≠ "" → dst = D ∨ dst = D +:+ "\" →
  listing ≠ [] → NoDup (walked_names listing) → Forall readable listing →
  (∀ source dest, copy_denied P source dest = false) →
  stack_limit P ≠ 0%nat →
  directory_or_free P D fs0 →
  ready_for P (listing_files D listing) (listing_dirs D listing) fs0 →
  (∀ d, d ∈ D :: listing_dirs D listing → (Str.size d < npos)%N) →
  (∀ rel, rel ∈ (listing_relative "" listing).*1 → (Str.size rel ≤ npos)%N) →
  Load (manifestPath dst) ∅ fs0 = Done (hasManifest, previous) →
  ∃ st2 ok fs',
    StartBackup P src dst incremental (RootDirectory listing) fs0
    = Done (true, with_fs fs' st2)
    ∧ Save P (manifestPath dst) (manifest st2) (fs st2) = (ok, fs')
    ∧ backed_up D (planned P (NormalizePath src) (hasManifest && incremental) previous)
        (listing_relative "" listing) (D :: listing_dirs D listing)
        (listing_entries listing)
        (mkSt no_stats previous (hasManifest && incremental) fs0 []) st2.
Proof.
  intros HD Hne Hdst Hlist Hnd Hr Hcopy Hstack Hroot [Hf Hd] Hsizes Hrels Hload.
  set (mode := hasManifest && incremental).
  set (plan := planned P (NormalizePath src) mode previous).
  set (st0 := mkSt no_stats previous mode fs0 []).
  assert (Htidy : in_range st0) by done.
  assert (HszD : (Str.size D < npos)%N) by (apply Hsizes; by left).
  destruct (backup_root D plan st0 HD Hstack Htidy Hroot) as (st1 & Hmk & Hmade).
  pose proof Hmade as (_ & Hmode1 & _ & _ & _ & Hdirs1 & _ & Hother1 & Hkeep1).
  simpl in Hdirs1. rewrite (right_id_L ∅ (∪)) in Hdirs1.
  destruct (backup_walk_planned P D (NormalizePath src) mode previous D "" listing)
    with (st := st1) as (st2 & Hwalk & Hdone); try done.
  - apply Forall_forall. intros n _. by apply backup_entry_planned.
  - by rewrite app_nil_r.
  - by eapply backed_up_in_range.
  - rewrite Hdirs1. apply elem_of_union_l. by apply elem_of_singleton.
  - intros rel Hrel. by rewrite Hother1 by apply not_elem_of_nil.
  - split.
    + intros p Hp. rewrite Hdirs1. intros [Hp1|Hp0]%elem_of_union; [|by apply (Hf p)].
      apply elem_of_singleton in Hp1 as ->.
      apply list_elem_of_fmap in Hp as ([q b] & Hq & Hqin). simpl in Hq. subst q.
      apply elem_of_flat_map in Hqin as (n' & Hn' & Hqin).
      destruct (mirrored_paths_below n' D D (proj1 (Forall_forall _ _) Hr n' Hn'))
        as (_ & _ & Hb).
      { left. apply list_elem_of_fmap. by exists (D, b). }
      apply below_is_longer in Hb. lia.
    + intros d Hin'. destruct (Hd d Hin') as [Hnone Hmkd]. split; [|done].
      rewrite Hkeep1; [done|]. intros rel Hrel. by apply elem_of_nil in Hrel.
  - intros d Hin'. apply Hsizes. by right.
  - rewrite app_nil_r in Hwalk.
    destruct (Save P (manifestPath dst) (manifest st2) (fs st2)) as [ok fs'] eqn:Hsave.
    exists st2, ok, fs'. split; [|split; [done|]].
    + unfold StartBackup. cbn [manifest fs]. rewrite Hload. simpl.
      unfold BackupDirectory, BackupDirectory_with.
      rewrite (NormalizePath_root dst D) by done.
      destruct listing as [|n0 listing0]; [done|].
      assert (Est : (if hasManifest && incremental
                     then with_manifest previous (mkSt no_stats ∅ incremental fs0 [])
                     else with_mode false
                            (with_manifest previous (mkSt no_stats ∅ incremental fs0 [])))
                    = st0).
      { unfold st0, mode. destruct hasManifest, incremental; reflexivity. }
      rewrite Est, Hmk. simpl. rewrite Hwalk. simpl. by rewrite Hsave.
    + exact (backed_up_then D plan _ _ _ _ _ _ _ _ _ Hmade Hdone
               (λ rel Hrel _, not_elem_of_nil rel Hrel)).
Qed.

End Engine.
End PlanRunFacts.

Module IncrementalTreeFacts.
Import Phase2 StrFacts PathFacts Phase2Facts DirFacts DirPathFacts LevelFacts TreeFacts
       MirrorPaths MirrorSteps MirrorWalk MirrorFacts RelativePaths IncrementalWalk
       AdditiveFacts PlanFacts PlanSteps PlanWalk PlanRunFacts.

Section Engine.
Context (P : Platform).


End Engine.


End IncrementalTreeFacts.

Module ManifestPathFacts.
Import Phase2 StrFacts PathFacts DirFacts DirPathFacts LevelFacts TreeFacts MirrorPaths.

Lemma parent_of_child_any d c name :
  Str.is_sep c = true → Str.no_sep name = true → Win32.canon name ≠ "" →
  (Str.size d < npos)%N →
  Win32.parent (d +:+ String c name) = Some (Win32.canon d).
Proof.
  intros Hc Hname Hcn Hsz. unfold Win32.parent.
  change (String c name) with (String c "" +:+ name).
  rewrite <- app_assoc, canon_app by done. rewrite app_assoc.
  change (String c "" +:+ Win32.canon name) with (String c (Win32.canon name)).
  rewrite find_last_of_sep_last by (done || by apply no_sep_canon).
  destruct (N.eqb_spec (Str.size d) npos) as [E|_]; [lia|].
  unfold Str.substr. by rewrite drop_0, take_app.
Qed.

(** The manifest file lies in the backup root, however the root is
    written. *)
Lemma manifest_in_root dst D :
  Win32.canon D = D → dst = D ∨ dst = D +:+ "\" → (Str.size dst < npos)%N →
  Win32.canon (manifestPath dst) = manifestPath dst
  ∧ Win32.parent (manifestPath dst) = Some D
  ∧ manifestPath dst ≠ D.
Proof.
  intros HD Hdst Hsz.
  assert (Hc : component ".backup_manifest.txt") by by split.
  change (manifestPath dst) with (child dst ".backup_manifest.txt").
  split; [by apply canon_child|]. split.
  - unfold child. change ("\" +:+ ".backup_manifest.txt")
      with (String Str.backslash ".backup_manifest.txt").
    rewrite parent_of_child_any; [|done|done|by vm_compute|done].
    destruct Hdst as [->| ->]; [by rewrite HD|]. by rewrite canon_snoc_sep, HD.
  - intros E. apply (f_equal String.length) in E. unfold child in E.
    destruct Hdst as [->| ->]; rewrite ?length_app in E; simpl in E; lia.
Qed.

(** No path of a readable tree is both a file and a directory of its
    mirror. *)
Lemma files_dirs_apart_listing X listing :
  Forall (λ n, ∀ X p, readable n →
            p ∈ (mirrored_files X n).*1 → p ∉ mirrored_dirs X n) listing →
  NoDup (walked_names listing) → Forall readable listing →
  ∀ p, p ∈ (listing_files X listing).*1 → p ∉ listing_dirs X listing.
Proof.
  induction 1 as [|n rest Hn _ IH]; intros Hnd Hr p Hp Hd.
  { by apply elem_of_nil in Hd. }
  apply Forall_cons in Hr as [Hrn Hrrest].
  assert (Hnd' : NoDup (walked_names rest)).
  { unfold walked_names in *. rewrite fmap_cons in Hnd.
    destruct (decide (dot_entry (entry_name n) = false)) as [Hdot|Hdot].
    - rewrite filter_cons_True in Hnd by done. by apply NoDup_cons in Hnd as [_ ?].
    - by rewrite filter_cons_False in Hnd. }
  unfold listing_files, listing_dirs in Hp, Hd. simpl in Hp, Hd.
  rewrite fmap_app in Hp.
  apply elem_of_app in Hp as [Hp|Hp]; apply elem_of_app in Hd as [Hd|Hd].
  - by apply (Hn X p).
  - apply (siblings_apart X n rest p Hnd Hrn Hrrest); [by left|by right].
  - apply (siblings_apart X n rest p Hnd Hrn Hrrest); [by right|by left].
  - by apply (IH Hnd' Hrrest p).
Qed.

Lemma files_dirs_apart_node n : ∀ X p,
  readable n → p ∈ (mirrored_files X n).*1 → p ∉ mirrored_dirs X n.
Proof.
  induction n as [fd bytes|name listing IH] using node_induction; intros X p Hr Hp Hd.
  - by apply elem_of_nil in Hd.
  - simpl in *. destruct (dot_entry name) eqn:Hdot; [by apply elem_of_nil in Hd|].
    destruct Hr as [?|(Hc & Hne & Hnd & Hall)]; [done|].
    apply readable_listing_Forall in Hall.
    apply elem_of_cons in Hd as [->|Hd].
    + apply list_elem_of_fmap in Hp as ([q b] & Hq & Hqin). simpl in Hq. subst q.
      apply elem_of_flat_map in Hqin as (n' & Hn' & Hqin).
      destruct (mirrored_paths_below n' (child X name) (child X name)
                  (proj1 (Forall_forall _ _) Hall n' Hn')) as (_ & _ & Hb).
      { left. apply list_elem_of_fmap. by exists (child X name, b). }
      apply below_is_longer in Hb. lia.
    + by apply (files_dirs_apart_listing (child X name) listing IH Hnd Hall p).
Qed.

Lemma files_dirs_apart X listing p :
  NoDup (walked_names listing) → Forall readable listing →
  p ∈ (listing_files X listing).*1 → p ∉ listing_dirs X listing.
Proof.
  intros Hnd Hr. apply files_dirs_apart_listing; [|done..].
  apply Forall_forall. intros n _. apply files_dirs_apart_node.
Qed.

Lemma files_below_root X listing p :
  Forall readable listing → p ∈ (listing_files X listing).*1 → p ≠ X.
Proof.
  intros Hr Hp ->.
  apply list_elem_of_fmap in Hp as ([q b] & Hq & Hqin). simpl in Hq. subst q.
  apply elem_of_flat_map in Hqin as (n' & Hn' & Hqin).
  destruct (mirrored_paths_below n' X X (proj1 (Forall_forall _ _) Hr n' Hn'))
    as (_ & _ & Hb).
  { left. apply list_elem_of_fmap. by exists (X, b). }
  apply below_is_longer in Hb. lia.
Qed.

End ManifestPathFacts.

Module SecondRunFacts.
Import Phase2 StrFacts PathFacts Phase2Facts DirFacts DirPathFacts LevelFacts TreeFacts
       MirrorPaths MirrorSteps MirrorWalk MirrorFacts RelativePaths IncrementalWalk
       AdditiveFacts PlanFacts PlanSteps PlanWalk PlanRunFacts ManifestPathFacts.

Lemma copies_none plan rels :
  (∀ rel fd b, (rel, (fd, b)) ∈ rels → (plan rel fd b).1.1 = false) →
  copies plan rels = [].
Proof.
  intros H. unfold copies. induction rels as [|[rel [fd b]] rels IH]; [done|].
  rewrite filter_cons_False.
  - apply IH. intros rel' fd' b' Hin. apply H. by right.
  - simpl. rewrite (H rel fd b) by by left. done.
Qed.

Lemma reads_none plan rels :
  (∀ rel fd b, (rel, (fd, b)) ∈ rels → (plan rel fd b).2 = []) →
  reads plan rels = [].
Proof.
  intros H. unfold reads.
  assert (H' : ∀ rel fd b, (rel, (fd, b)) ∈ reverse rels → (plan rel fd b).2 = []).
  { intros rel fd b Hin. rewrite elem_of_reverse in Hin. by apply H. }
  clear H. induction (reverse rels) as [|[rel [fd b]] l IH]; [done|].
  simpl. rewrite (H' rel fd b) by by left. simpl.
  apply IH. intros rel' fd' b' Hin. apply H'. by right.
Qed.

Section Engine.
Context (P : Platform).


End Engine.


End SecondRunFacts.

Module FoundSteps.
Import Phase3 StrFacts PathFacts Phase3Facts DirFacts DirPathFacts LevelFacts TreeFacts
       StoreFacts MirrorPaths RelativePaths IndexSteps IndexWalk PlanWalk.

Lemma found_in_range P rels dirs st st' :
  found_in_store P rels dirs st st' → counts_in_range st'.
Proof.
  intros (_ & _ & Hd & _ & _ & _ & _ & Hr). split.
  - by rewrite Hd, int32_idem.
  - intros h. by rewrite Hr, int32_idem.
Qed.

Lemma found_nothing P st : counts_in_range st → found_in_store P [] [] st st.
Proof.
  intros [Hd Hr]. unfold found_in_store, with_hash. simpl. rewrite !Z.add_0_r, Hd.
  split_and!; try done.
  - by rewrite (left_id_L ∅ (∪)).
  - intros rel fd b Hin. by apply elem_of_nil in Hin.
  - intros h. by rewrite Z.add_0_r, Hr.
Qed.

Lemma found_then P R1 D1 R2 D2 st st1 st2 :
  found_in_store P R1 D1 st st1 → found_in_store P R2 D2 st1 st2 →
  (∀ rel, rel ∈ R1.*1 → rel ∉ R2.*1) →
  found_in_store P (R1 ++ R2) (D1 ++ D2) st st2.
Proof.
  intros (He1 & Hc1 & Hd1 & Hf1 & Hs1 & Hi1 & Ho1 & Hr1)
         (He2 & Hc2 & Hd2 & Hf2 & Hs2 & Hi2 & Ho2 & Hr2) Hapart.
  unfold found_in_store. split_and!.
  - congruence.
  - congruence.
  - rewrite Hd2, Hd1, int32_add_l, List.length_app. f_equal. lia.
  - congruence.
  - rewrite Hs2, Hs1, list_to_set_app_L.
    rewrite (assoc_L (∪)). f_equal. apply (comm_L (∪)).
  - intros rel fd b [Hin|Hin]%elem_of_app; [|by eapply Hi2].
    rewrite Ho2; [by eapply Hi1|]. apply Hapart. apply list_elem_of_fmap.
    by exists (rel, (fd, b)).
  - intros rel Hrel. rewrite fmap_app in Hrel.
    rewrite Ho2 by (intros Hin; apply Hrel, elem_of_app; by right).
    rewrite Ho1 by (intros Hin; apply Hrel, elem_of_app; by left). done.
  - intros h. rewrite Hr2, Hr1, int32_add_l. unfold with_hash.
    rewrite filter_app, List.length_app. f_equal. lia.
Qed.

(** What has been found leaves the volume ready for the rest. *)
Lemma store_ready_found P dst R D1 D2 st st1 :
  found_in_store P R D1 st st1 →
  store_ready P dst (D1 ++ D2) (fs st) → store_ready P dst D2 (fs st1).
Proof.
  intros (_ & _ & _ & Hf & Hs & _) [Hblobs Hdirs]. split.
  - intros h. destruct (Hblobs h) as [Hnd Hnl]. split.
    + rewrite Hs. intros [Hin|Hin]%elem_of_union; [|done].
      apply elem_of_list_to_set in Hin. apply Hnl, elem_of_app. by left.
    + intros Hin. apply Hnl, elem_of_app. by right.
  - intros d Hd. rewrite Hf. apply Hdirs, elem_of_app. by right.
Qed.

Section Engine.
Context (P : Platform) (dst D sourcePath : string).
Hypothesis stack_left : stack_limit P ≠ 0%nat.

(** A file whose blob is in the store is indexed and counted, and
    nothing is copied. *)
Lemma found_file prefix destDir fd content st :
  (Str.size (prefix +:+ cFileName fd) ≤ npos)%N →
  counts_in_range st →
  ContentExists dst (CalculateHash P (Some content)) (fs st) = true →
  found_in_store P [(prefix +:+ cFileName fd, (fd, content))] [] st
    (backup_file P dst sourcePath (sourcePath +:+ prefix) destDir fd (Some content) st).
Proof.
  intros Hsz [Hd Hr] Hex.
  set (h := CalculateHash P (Some content)).
  assert (Hh : h ≠ "") by apply CalculateHash_nonempty.
  assert (Hrel : GetRelativePath ((sourcePath +:+ prefix) +:+ cFileName fd) sourcePath
                 = prefix +:+ cFileName fd).
  { rewrite app_assoc. by apply GetRelativePath_child. }
  rewrite backup_file_deduped by done. rewrite Hrel. fold h.
  unfold found_in_store, with_hash. simpl. rewrite (left_id_L ∅ (∪)).
  split_and!; try done.
  - intros rel fd' b [= -> -> ->]%list_elem_of_singleton. apply lookup_insert_eq.
  - intros rel Hne. apply lookup_insert_ne. intros <-. apply Hne.
    by apply list_elem_of_singleton.
  - intros h'. destruct (decide (h = h')) as [<-|Hne].
    + rewrite GetReferenceCount_incr_same.
      rewrite filter_cons_True by done. done.
    + rewrite GetReferenceCount_incr_other by done.
      rewrite filter_cons_False by done. simpl. by rewrite Z.add_0_r, Hr.
Qed.

Lemma found_mkdir X name st :
  Win32.canon X = X → (Str.size X < npos)%N → component name →
  counts_in_range st → X ∈ fs_dirs (fs st) →
  fs_files (fs st) !! child X name = None → mkdir_denied P (child X name) = false →
  ∃ st', CreateDestDirectory P (child X name +:+ "\") st = Done (true, st')
         ∧ found_in_store P [] [child X name] st st'.
Proof.
  intros HX Hsz Hn [Hd Hr] Hin Hnf Hmk.
  assert (Hcan : Win32.canon (child X name +:+ "\") = child X name)
    by (apply canon_child_tail; auto).
  unfold CreateDestDirectory.
  destruct (stack_limit P) as [|depth] eqn:Hdepth; [done|].
  destruct (decide (child X name ∈ fs_dirs (fs st))) as [Hex|Hnew].
  - rewrite CreateDestDirectory_existing by by rewrite Hcan. simpl.
    eexists. split; [done|]. unfold found_in_store, with_hash. simpl.
    rewrite !Z.add_0_r, Hd.
    split_and!; try done.
    + rewrite (right_id_L ∅ (∪)). symmetry. apply subseteq_union_1_L.
      by apply singleton_subseteq_l.
    + intros rel fd b Hin'. by apply elem_of_nil in Hin'.
    + intros h. by rewrite Z.add_0_r, Hr.
  - rewrite CreateDestDirectory_parent_exists.
    + simpl. eexists. split; [done|]. unfold found_in_store, with_hash. simpl.
      rewrite !Z.add_0_r, Hd, Hcan.
      split_and!; try done.
      * by rewrite (right_id_L ∅ (∪)).
      * intros rel fd b Hin'. by apply elem_of_nil in Hin'.
      * intros h. by rewrite Z.add_0_r, Hr.
    + apply attributes_invalid. by rewrite Hcan.
    + eapply parent_exists_in; [|done]. apply parent_child_tail; auto.
    + by rewrite Hcan.
Qed.

(** A blob that is in the store stays there. *)
Lemma found_keeps_blobs R D1 st st1 h :
  found_in_store P R D1 st st1 → (∀ h, GetContentPath dst h ∉ D1) →
  ContentExists dst h (fs st) = true → ContentExists dst h (fs st1) = true.
Proof.
  intros (_ & _ & _ & Hf & Hs & _) Hnot [Hnd Hsome]%ContentExists_spec.
  apply ContentExists_spec. rewrite Hf. split; [|done].
  rewrite Hs. intros [Hin|Hin]%elem_of_union; [|done].
  apply elem_of_list_to_set in Hin. by apply (Hnot h).
Qed.

(** The entries of a listing, given the claim for each of them. *)
Lemma found_walk G prefix X listing :
  Forall (λ n, ∀ G prefix X st,
    G +:+ "\" = String Str.backslash prefix →
    Win32.canon X = X → (Str.size X < npos)%N → readable n →
    counts_in_range st → X ∈ fs_dirs (fs st) →
    store_ready P dst (mirrored_dirs X n) (fs st) →
    (∀ rel fd b, (rel, (fd, b)) ∈ relative_files prefix n →
       ContentExists dst (CalculateHash P (Some b)) (fs st) = true) →
    (∀ d, d ∈ mirrored_dirs X n → (Str.size d < npos)%N) →
    (∀ rel, rel ∈ (relative_files prefix n).*1 → (Str.size rel ≤ npos)%N) →
    ∃ st', backup_entry P dst sourcePath (sourcePath +:+ prefix) (X +:+ "\") n st = Done st'
           ∧ found_in_store P (relative_files prefix n) (mirrored_dirs X n) st st')
    listing →
  ∀ st,
    G +:+ "\" = String Str.backslash prefix →
    Win32.canon X = X → (Str.size X < npos)%N →
    NoDup (walked_names listing) → Forall readable listing →
    counts_in_range st → X ∈ fs_dirs (fs st) →
    store_ready P dst (listing_dirs X listing) (fs st) →
    (∀ rel fd b, (rel, (fd, b)) ∈ listing_relative prefix listing →
       ContentExists dst (CalculateHash P (Some b)) (fs st) = true) →
    (∀ d, d ∈ listing_dirs X listing → (Str.size d < npos)%N) →
    (∀ rel, rel ∈ (listing_relative prefix listing).*1 → (Str.size rel ≤ npos)%N) →
    ∃ st', walk (backup_entry P dst sourcePath (sourcePath +:+ prefix) (X +:+ "\")) listing st
           = Done st'
           ∧ found_in_store P (listing_relative prefix listing) (listing_dirs X listing)
               st st'.
Proof.
  induction 1 as [|n rest Hn _ IH];
    intros st HG HX Hsz Hnd Hr Htidy Hin Hready Hblobs Hsizes Hrels.
  { exists st. split; [done|]. by apply found_nothing. }
  apply Forall_cons in Hr as [Hrn Hrrest].
  unfold listing_dirs, listing_relative in Hready, Hsizes, Hrels, Hblobs.
  simpl in Hready, Hsizes, Hrels, Hblobs.
  destruct (Hn G prefix X st HG HX Hsz Hrn Htidy Hin) as (st1 & Hstep & Hdone).
  { by eapply store_ready_app_l. }
  { intros rel fd b Hin'. apply (Hblobs rel fd b), elem_of_app. by left. }
  { intros d Hd. apply Hsizes, elem_of_app. by left. }
  { intros rel Hrel. apply Hrels. rewrite fmap_app. apply elem_of_app. by left. }
  assert (Hnd' : NoDup (walked_names rest)).
  { unfold walked_names in *. rewrite fmap_cons in Hnd.
    destruct (decide (dot_entry (entry_name n) = false)) as [Hdot|Hdot].
    - rewrite filter_cons_True in Hnd by done. by apply NoDup_cons in Hnd as [_ ?].
    - by rewrite filter_cons_False in Hnd. }
  pose proof Hdone as (_ & _ & _ & _ & Hs1 & _).
  destruct (IH st1) as (st2 & Hwalk & Hdone2); try done.
  - by eapply found_in_range.
  - rewrite Hs1. by apply elem_of_union_r.
  - by eapply store_ready_found.
  - intros rel fd b Hin'. eapply found_keeps_blobs; [exact Hdone| |].
    + intros h Hh. destruct Hready as [Hb _]. destruct (Hb h) as [_ Hnl].
      apply Hnl, elem_of_app. by left.
    + apply (Hblobs rel fd b), elem_of_app. by right.
  - intros d Hd. apply Hsizes, elem_of_app. by right.
  - intros rel Hrel. apply Hrels. rewrite fmap_app. apply elem_of_app. by right.
  - exists st2. split.
    + rewrite walk_cons, Hstep. simpl. exact Hwalk.
    + unfold listing_relative, listing_dirs. simpl.
      eapply found_then; [exact Hdone|exact Hdone2|].
      intros rel Hrel. by eapply relative_siblings_apart.
Qed.

Lemma found_entry n : ∀ G prefix X st,
  G +:+ "\" = String Str.backslash prefix →
  Win32.canon X = X → (Str.size X < npos)%N → readable n →
  counts_in_range st → X ∈ fs_dirs (fs st) →
  store_ready P dst (mirrored_dirs X n) (fs st) →
  (∀ rel fd b, (rel, (fd, b)) ∈ relative_files prefix n →
     ContentExists dst (CalculateHash P (Some b)) (fs st) = true) →
  (∀ d, d ∈ mirrored_dirs X n → (Str.size d < npos)%N) →
  (∀ rel, rel ∈ (relative_files prefix n).*1 → (Str.size rel ≤ npos)%N) →
  ∃ st', backup_entry P dst sourcePath (sourcePath +:+ prefix) (X +:+ "\") n st = Done st'
         ∧ found_in_store P (relative_files prefix n) (mirrored_dirs X n) st st'.
Proof.
  induction n as [fd bytes|name listing IH] using node_induction;
    intros G prefix X st HG HX Hsz Hr Htidy Hin Hready Hblobs Hsizes Hrels.
  - simpl in *. destruct (dot_entry (cFileName fd)) eqn:Hdot.
    { exists st. split; [done|]. by apply found_nothing. }
    destruct Hr as [?|[Hc [content ->]]]; [done|].
    eexists. split; [done|].
    apply found_file; try done.
    + apply Hrels. simpl. by apply list_elem_of_singleton.
    + apply (Hblobs (prefix +:+ cFileName fd) fd). by apply list_elem_of_singleton.
  - simpl in Hr, Hready, Hsizes, Hrels, Hblobs. simpl relative_files. simpl mirrored_dirs.
    destruct (dot_entry name) eqn:Hdot.
    { exists st. simpl. rewrite Hdot. split; [done|]. by apply found_nothing. }
    destruct Hr as [?|(Hc & Hne & Hnd & Hall)]; [done|].
    apply readable_listing_Forall in Hall.
    set (X' := child X name) in *.
    set (st0 := with_stats inc_filesProcessed st).
    assert (Hcount : found_in_store P [] [] st st0).
    { destruct Htidy as [Hd' Hr']. unfold found_in_store, with_hash. simpl.
      rewrite !Z.add_0_r, Hd'.
      split_and!; try done.
      - by rewrite (left_id_L ∅ (∪)).
      - intros rel fd b Hin'. by apply elem_of_nil in Hin'.
      - intros h. by rewrite Z.add_0_r, Hr'. }
    destruct Hready as [Hblobs0 Hdirs0].
    destruct (Hdirs0 X') as [HnoneX' HmkX']; [by apply elem_of_cons; left|].
    destruct (found_mkdir X name st0) as (st1 & Hmk & Hmade); try done.
    fold X' in Hmk, Hmade.
    pose proof (found_then P _ _ _ _ _ _ _ Hcount Hmade
                  (λ rel Hrel, not_elem_of_nil rel)) as H01.
    simpl in H01.
    assert (Hnot : ∀ h, GetContentPath dst h ∉ [X']).
    { intros h Hh. apply list_elem_of_singleton in Hh.
      destruct (Hblobs0 h) as [_ Hnl]. apply Hnl. rewrite Hh. by apply elem_of_cons; left. }
    assert (HcanX' : Win32.canon X' = X') by by apply canon_child.
    assert (HszX' : (Str.size X' < npos)%N) by by apply Hsizes, elem_of_cons; left.
    pose proof H01 as (_ & _ & _ & _ & Hs01 & _).
    destruct (found_walk (child G name) (prefix +:+ name +:+ "\") X' listing IH st1)
      as (st2 & Hwalk & Hdone); try done.
    + rewrite (child_relative G prefix name HG).
      change (String Str.backslash (prefix +:+ name) +:+ "\")
        with (String Str.backslash ((prefix +:+ name) +:+ "\")).
      by rewrite app_assoc.
    + by eapply found_in_range.
    + rewrite Hs01. apply elem_of_union_l, elem_of_list_to_set.
      by apply list_elem_of_singleton.
    + apply (store_ready_found P dst [] [X'] (listing_dirs X' listing) st st1 H01).
      by split.
    + intros rel fd b Hin'. by eapply (found_keeps_blobs [] [X'] st st1); eauto.
    + intros d Hd'. apply Hsizes, elem_of_cons. by right.
    + assert (E : (X +:+ "\") +:+ name = X') by (unfold X', child; by rewrite app_assoc).
      exists st2. split.
      * simpl. rewrite Hdot. rewrite E. fold st0.
        unfold BackupDirectory_with. destruct listing as [|n0 listing0]; [done|].
        rewrite Hmk. simpl.
        replace (((sourcePath +:+ prefix) +:+ name) +:+ "\")
          with (sourcePath +:+ prefix +:+ name +:+ "\")
          by (by rewrite !app_assoc).
        by rewrite Hwalk.
      * pose proof (found_then P _ _ _ _ _ _ _ H01 Hdone
                      (λ rel Hrel _, not_elem_of_nil rel Hrel)) as H02.
        simpl in H02. exact H02.
Qed.

End Engine.
End FoundSteps.

Module RerunFacts.
Import Phase3 StrFacts PathFacts Phase3Facts DirFacts DirPathFacts LevelFacts TreeFacts
       StoreFacts MirrorPaths MirrorSteps MirrorFacts RelativePaths IndexSteps IndexWalk
       IndexFacts DedupRunFacts ManifestPathFacts FoundSteps.

(** The counts rebuilt from an index are values of an [int]. *)
Lemma tally_in_range (entries : list (string * string)) : ∀ acc : gmap string Z,
  (∀ h, int32 (GetReferenceCount h acc) = GetReferenceCount h acc) →
  ∀ h, int32 (GetReferenceCount h
                (foldl (λ referenceCount entry, IncrementReference entry.2 referenceCount)
                       acc entries))
       = GetReferenceCount h
           (foldl (λ referenceCount entry, IncrementReference entry.2 referenceCount)
                  acc entries).
Proof.
  induction entries as [|e entries IH]; intros acc Hacc h; [apply Hacc|].
  simpl. apply IH. intros k. destruct (decide (e.2 = k)) as [<-|Hne].
  - by rewrite GetReferenceCount_incr_same, int32_idem.
  - by rewrite GetReferenceCount_incr_other.
Qed.

Lemma walk_start_in_range dst fs1 : counts_in_range (walk_start dst fs1).
Proof.
  unfold walk_start. split; [done|]. intros h. simpl.
  destruct (Load (indexPath dst) ∅ fs1).1; [|done].
  apply tally_in_range. intros k. done.
Qed.

(** The index file lies in the backup root, beside the store. *)
Lemma index_in_root dst D :
  rooted dst = D +:+ "\" → Win32.canon D = D → (Str.size D < npos)%N →
  Win32.canon (indexPath dst) = child D ".dedup_index.txt"
  ∧ Win32.parent (indexPath dst) = Some D
  ∧ child D ".dedup_index.txt" ≠ D
  ∧ child D ".dedup_index.txt" ≠ storeDir D.
Proof.
  intros Hroot HD Hsz.
  assert (Hc : component ".dedup_index.txt") by by split.
  assert (E : indexPath dst = child D ".dedup_index.txt").
  { unfold indexPath, child. by rewrite Hroot, app_assoc. }
  rewrite E. split; [by apply canon_child|]. split; [by apply parent_child|]. split.
  - intros H. apply (f_equal String.length) in H. unfold child in H.
    rewrite !length_app in H. simpl in H. lia.
  - unfold child, storeDir. intros H. by apply String.app_inj in H.
Qed.

Section Engine.
Context (P : Platform).


End Engine.

End RerunFacts.

